(* ===== verification/_CoqProject ===== *)
-Q . S2P
Prelude.v
RustStr.v
Btree.v
Strutil.v
Url.v
UrlPath.v
RateLimit.v
Rlimit.v
Storage.v
Pool.v
Fs.v
Output.v
Hoare.v
Tasks.v
S3Client.v
Proxy.v
Transfer.v
TransferParts.v
Store.v
TransferFrame.v
TransferSpec.v
Pipe.v
PipeSpec.v
MemWorld.v
FsSpec.v
S3cfg.v
Global.v
Sync.v
SyncSpec.v
Cp.v
CpSpec.v
Inode.v
Reader.v
Writer.v
Vfs.v
FuseFs.v
VfsSpec.v
MountSession.v
S3Laws.v
Listed.v
CpExact.v
SyncMirror.v
MountSpec.v
MountWorld.v
Listing.v
ListingSpec.v
Rm.v
RmSpec.v
Units.v
Bucket.v
BucketSpec.v
Du.v
DuSpec.v
Tree.v
TreeSpec.v
Ls.v
LsSpec.v
Backend.v
BackendSpec.v
Cat.v
CatSpec.v
Select.v
SelectSpec.v
Head.v
Presign.v
MountSetup.v
MountSetupSpec.v
Program.v
ProgramSpec.v
Run.v
RunSpec.v
SdkWorld.v
BackendWorld.v
CommandWorld.v
SyncWorld.v
SdkCommands.v
MountSetupWorld.v
Fastpath.v
FastpathSpec.v
FastWorld.v
