(* ===== verification/Prelude.v ===== *)
(** * rs5cmd: a verification development

    rs5cmd (src/src/) is a command-line client of S3: a set of commands that list, copy,
    synchronise, stream and delete objects, an optional FUSE mount of a bucket, and an optional
    io_uring engine for small objects. This library models the program and proves what its
    parts promise. This file is its root; it holds the notations, the [result] type and the
    tactics and lemmas every other file uses.

    ** How the program is put together

    main.rs parses the command line into a [Cli] and calls command::run, which reads the
    configuration files, sets the modes of the console and dispatches to one command. A command
    parses URLs, builds a client per URL (local files or S3) and works on listings: a listing is
    a channel of objects and errors. cp, mv and sync hand their jobs to a bounded pool of tasks;
    run feeds its lines through command::run again, many in flight. The S3 backend (storage/s3.rs)
    issues the requests, splits transfers into parts and pages listings. The mount answers the
    requests of the kernel (mount/fs.rs) with the handlers of a virtual filesystem (mount/vfs.rs),
    which keeps an inode table (inode.rs), one chunk cache per file open for reading (reader.rs)
    and one cache file per file open for writing (writer.rs), over the same S3 backend.

    ** How it is modelled

    A stateful operation is a function in [M W] (Fs.v), a state and error monad over a world [W].
    [W] is abstract: what the program asks of its environment is a class of operations over it
    ([Os]: file calls and the walkdir and glob crates; [Sdk] and [Tokio]: the AWS SDK and async
    file calls; [RegexLib]: the regex crate; [Clocks], [Process], [FastNet], ... where they are
    used), and what a theorem relies on of it is a class of laws stated next to it ([RegexLaws],
    [StoreLaws], [S3Laws], [FileLaws], [BucketLaws], [SessionLaws], [ProcessLaws], ...). The
    commands are written against [S3Ops] and [BucketOps], the interface of the S3 backend;
    Backend.v implements it by the requests of S3Client.v, Transfer.v and Listing.v, and
    BackendSpec.v proves that this implementation has the laws ([S3Laws], [BucketOpsLaws]) the
    commands rely on, given only what S3 and its SDK promise ([StoreLaws], [BackendLaws]).
    MemWorld.v and SdkWorld.v are two concrete worlds that satisfy the laws, in which the
    witnesses evaluate.

    Strings are lists of bytes ([str]); machine integers are [Z] with the wrap-around, the
    saturation or the check of the source written out; an anyhow::Error is its chain of messages
    with OS error numbers; a panic is [None] or an outcome of its own. Concurrency is explicit:
    the worker pool is a step function driven by a list of choices (Pool.v), tasks collected
    from buffer_unordered finish in the order a parameter chooses (Tasks.v), calls of the rate
    limiter are ordered by its mutex (RateLimit.v). HashMap iterates in an order that is a
    parameter ([MapOrder]). Recursion follows the data; where it does not, a [fuel] counts: the
    pages of a listing (any fuel beyond the pages the server has gives the same result, see
    [list_v1_complete]), the characters of a text (its length is enough), the back-off attempts.

    ** The files

    - Basics: RustStr (the str API), Btree (BTreeMap, sort_by), Hoare (triples over [M]),
      Tasks, Units (humansize, time).
    - strutil.rs, command/filters.rs: Strutil. storage/url.rs: Url, with the theory of lexical
      paths in UrlPath. storage/mod.rs, error.rs: Storage. ratelimit.rs: RateLimit. rlimit.rs:
      Rlimit. output.rs: Output. storage/fs.rs: Fs and FsSpec.
    - storage/s3.rs: S3Client (construction, single requests), Proxy (the tunnels), Transfer (download, upload, copy),
      Listing (V2, V1, versions, batch deletion); what S3 promises in Store; theorems in
      TransferParts, TransferFrame (what a transfer leaves alone), TransferSpec, ListingSpec; the
      laws the commands use in S3Laws, and their proof in BackendSpec; Listed holds the names of
      a listed source and where they go below a destination.
    - s3cfg.rs and import_s3cfg.rs: S3cfg; command/mod.rs: Global (options, precedence) and
      Program (start-up, import-s3cfg, completion, dispatch) with ProgramSpec; main.rs: the end of
      Program and of Run. command/run.rs: Run, RunSpec.
    - The commands, each with its operations and, in the Spec file, its theorems: Sync (sync.rs,
      sync_strategy.rs), Cp (cp.rs), Rm, Bucket (bucket.rs, bucket_version.rs), Du, Tree, Ls, Cat,
      Select, Head, Presign, Pipe. The pool of cp, sync and run is Pool. SyncMirror and
      CpExact follow a sync, a cp and an mv from the command line to the objects of the buckets.
    - mount/: Inode, Reader, Writer (data, operations and theorems), Vfs and FuseFs (operations,
      one definition per handler), VfsSpec (the invariant), MountSession (close-to-open),
      MountSpec (what happens to the bucket); mount/mod.rs and command/mount.rs: MountSetup and
      MountSetupSpec (the command, from its arguments to the end of the session).
    - fastpath/client.rs, runtime.rs and sign.rs, and the entry from cp: Fastpath, FastpathSpec.
    - Concrete worlds and witnesses: MemWorld, MountWorld, CommandWorld, SdkWorld, BackendWorld,
      SyncWorld, SdkCommands, MountSetupWorld, FastWorld.

    ** What is proved

    - No data is lost or invented: downloads, uploads, server-side copies, pipe and cat move
      exactly the bytes of their source whatever the order in which parts finish, and leave the
      other objects alone ([download_exact], [upload_exact], [copy_exact], [pipe_exact],
      [cat_exact]); mv, a rename in the mount and a failed write-back keep the bytes somewhere
      ([mv_no_loss], [rename_no_loss], [writer_refines_file]); rm and rb delete only what they
      select ([rm_exact], [rb_exact], [max_delete_cap]).
    - Sync mirrors ([sync_mirrors]): after a sync between two buckets that succeeds, each name
      has the bytes of the source, or was judged equal, or is gone; nothing else has changed.
      A cp of a wildcard that succeeds brings every chosen name to the destination, an mv also
      takes it away from the source, and a failure changes no other object ([cp_exact]).
    - Commands do all of their work once: [execute_correct] and [plan_partition] for sync,
      [cp_run_complete], [run_transfers_complete], [run_every_line], over the pool
      ([worker_pool_correct]); [select_exact], [ls_exact], [du_exact], [tree_exact] say what is
      printed, in which order and with which error.
    - The backend of the commands is the interface they are verified against
      ([backend_implements]): what holds of a command over [S3Laws] holds over the requests.
    - Listings are complete and stop ([list_v1_complete], [list_v2_spec],
      [multi_delete_reports_all]); retries and phases end ([retry_bounds], [execute_terminates]).
    - The mount: [vfs_inv_preserved] (every request keeps the tables consistent),
      [close_to_open] (an open file behaves as a file of bytes), [read_exact] (the chunk cache is
      transparent), [mount_run_exact] (what the command mounts, and that a read-only mount
      changes no object).
    - Texts and numbers: URLs, globs, headers and configuration files are read back as they were
      written ([Url_new_absolute], [copy_source_roundtrip], [import_applies], [tunnel_exact]); parts stay within
      S3's limits and rates within the cap ([copy_parts_bounded], [aggregate_rate_cap]).
    - Lemmas outside these groups show where the code departs from its documentation or from what
      it means to do, on concrete inputs (the Examples and the lemmas of MountWorld, CommandWorld,
      SyncWorld, MountSetupWorld and FastWorld).

    ** Not modelled, and why

    The verifier that accepts every certificate and the smithy adapters of s3.rs, the
    signature of a request (aws-sigv4; what is signed is in Fastpath), the io_uring exchange
    of fastpath and the event loop of fuse3 are calls into libraries with no logic of their
    own here: a mount session is the list of the requests it serves. Progress bars, tracing
    and signals have no effect on the results. Result lines of cp and sync are left out;
    their results are the reports of the pool. bin/s3stub.rs is a benchmark server and no
    part of the program. Handlers of the mount are sequential: a handler runs to its end
    before the next. *)

From Stdlib Require Export List Ascii String ZArith Lia.
From stdpp Require Export base tactics numbers list gmap fin_maps sorting strings.

(* Loaded last so that the list notations and functions of stdpp win. *)
From stdpp Require Export list.

#[export] Set Warnings "-clear-no-such-hyp".

(** ** Notations

    Rust's [String]/[&str] are UTF-8 byte sequences; the development keeps them
    as lists of bytes.  [$ "abc"] is a literal of that type. *)

Declare Scope rs_scope.
Delimit Scope rs_scope with rs.

Abbreviation str := (list ascii).
Notation "$ x" := (list_ascii_of_string x%string)
  (at level 1, x at level 0, format "$ x") : rs_scope.
Open Scope rs_scope.

(** ** Rust's [Result] *)

Inductive result (A E : Type) : Type :=
  | Ok (a : A)
  | Err (e : E).
Arguments Ok {A E} a.
Arguments Err {A E} e.

Definition is_ok {A E} (r : result A E) : bool :=
  match r with Ok _ => true | Err _ => false end.

Definition result_bind {A B E} (r : result A E) (f : A → result B E) : result B E :=
  match r with Ok a => f a | Err e => Err e end.

Definition result_map_err {A E F} (f : E → F) (r : result A E) : result A F :=
  match r with Ok a => Ok a | Err e => Err (f e) end.

Definition result_ok {A E} (r : result A E) : option A :=
  match r with Ok a => Some a | Err _ => None end.

(** The [?] operator. *)
Notation "'let?' x := r 'in' k" := (result_bind r (λ x, k))
  (at level 10, x pattern, r at level 100, k at level 200) : rs_scope.

Global Instance result_eq_dec {A E} `{!EqDecision A, !EqDecision E} :
  EqDecision (result A E).
Proof. solve_decision. Defined.

Lemma result_bind_Ok {A B E} (r : result A E) (f : A → result B E) b :
  result_bind r f = Ok b ↔ ∃ a, r = Ok a ∧ f a = Ok b.
Proof. destruct r; simpl; naive_solver. Qed.

Lemma is_ok_true {A E} (r : result A E) : is_ok r = true ↔ ∃ a, r = Ok a.
Proof. destruct r; naive_solver. Qed.

(** ** Machine integers

    A [uN]/[usize]/[iN] value is a [Z]; the operations that can leave the range
    write their saturation or wrap-around out. *)

Local Open Scope Z_scope.

Create HintDb rs.

Definition u32_max : Z := 2 ^ 32 - 1.
Definition u64_max : Z := 2 ^ 64 - 1.
Definition i64_max : Z := 2 ^ 63 - 1.

Definition in_u32 (z : Z) : Prop := 0 ≤ z ≤ u32_max.
Definition in_u64 (z : Z) : Prop := 0 ≤ z ≤ u64_max.

(** [u64::saturating_add], [u64::saturating_mul]. *)
Definition sat_add_u64 (a b : Z) : Z := Z.min (a + b) u64_max.
Definition sat_mul_u64 (a b : Z) : Z := Z.min (a * b) u64_max.

(** [x as i32] of a [u64]. *)
Definition as_i32 (z : Z) : Z := (z + 2 ^ 31) mod 2 ^ 32 - 2 ^ 31.

(** [x as i64] of a [u64], and what an [i64] operation that overflows leaves. *)
Definition as_i64 (z : Z) : Z := (z + 2 ^ 63) mod 2 ^ 64 - 2 ^ 63.

(** [x as u64] of an [i64]. *)
Definition as_u64 (z : Z) : Z := z mod 2 ^ 64.

(** [a.div_ceil(b)] on unsigned integers. *)
Definition div_ceil (a b : Z) : Z :=
  if a mod b >? 0 then a / b + 1 else a / b.

Lemma in_u64_sat_add a b : in_u64 a → in_u64 b → in_u64 (sat_add_u64 a b).
Proof. unfold in_u64, sat_add_u64. lia. Qed.

Lemma in_u64_sat_mul a b : in_u64 a → in_u64 b → in_u64 (sat_mul_u64 a b).
Proof. unfold in_u64, sat_mul_u64. nia. Qed.

Lemma as_i32_small z : 0 ≤ z < 2 ^ 31 → as_i32 z = z.
Proof. intros Hz. unfold as_i32. rewrite Z.mod_small; lia. Qed.

Lemma as_i64_add a b : as_i64 (as_i64 a + b) = as_i64 (a + b).
Proof.
  unfold as_i64. f_equal.
  replace ((a + 2 ^ 63) mod 2 ^ 64 - 2 ^ 63 + b + 2 ^ 63) with ((a + 2 ^ 63) mod 2 ^ 64 + b) by lia.
  rewrite Zplus_mod_idemp_l. f_equal. lia.
Qed.

Lemma as_i64_small z : - 2 ^ 63 ≤ z < 2 ^ 63 → as_i64 z = z.
Proof. intros Hz. unfold as_i64. rewrite Z.mod_small; lia. Qed.

Definition zsum (l : list Z) : Z := foldr Z.add 0 l.

Lemma zsum_app l l' : zsum (l ++ l') = zsum l + zsum l'.
Proof. induction l as [|x l IH]; [done|]. cbn [zsum foldr app] in *. unfold zsum in *. lia. Qed.

Lemma div_ceil_spec a b :
  0 ≤ a → 0 < b → 0 ≤ div_ceil a b ∧ a ≤ b * div_ceil a b < a + b.
Proof.
  intros Ha Hb. unfold div_ceil.
  pose proof (Z.div_mod a b ltac:(lia)) as Hdm.
  pose proof (Z.mod_pos_bound a b Hb) as Hm.
  pose proof (Z.div_pos a b Ha Hb).
  destruct (Z.gtb_spec (a mod b) 0); nia.
Qed.

Lemma div_ceil_le a b n : 0 ≤ a → 0 < b → a ≤ b * n → div_ceil a b ≤ n.
Proof. intros Ha Hb Hn. pose proof (div_ceil_spec a b Ha Hb). nia. Qed.

Lemma div_ceil_pos a b : 0 < a → 0 < b → 0 < div_ceil a b.
Proof. intros Ha Hb. pose proof (div_ceil_spec a b ltac:(lia) Hb). nia. Qed.

#[export] Hint Resolve in_u64_sat_add in_u64_sat_mul : rs.

(** ** Tactics *)

(** Case analysis on the scrutinee of the first [match]/[if] of the goal. *)
Ltac case_goal :=
  match goal with
  | |- context [match ?x with _ => _ end] => destruct x eqn:?
  end.

(** The same in a hypothesis. *)
Ltac case_hyp H :=
  match type of H with
  | context [match ?x with _ => _ end] => destruct x eqn:?
  end.

(** Evaluation by the kernel's virtual machine, without normalising the types
    of the goal. *)
Ltac vm_refl :=
  lazymatch goal with |- @eq ?A _ ?y => vm_cast_no_check (@eq_refl A y) end.

(** [HashMap]'s iteration order *)

Class MapOrder := {
  map_iter : ∀ {A : Type}, gmap str A → list (str * A);
  map_iter_perm : ∀ {A : Type} (m : gmap str A), map_iter m ≡ₚ map_to_list m;
}.

Lemma NoDup_map_elem {A B} (f : A → B) l x y : NoDup (map f l) → x ∈ l → y ∈ l → f x = f y → x = y.
Proof.
  induction l as [|z l IH]; cbn; [by rewrite elem_of_nil|]. rewrite NoDup_cons, !elem_of_cons. intros [Hz Hl] Hx Hy Hf.
  destruct Hx as [->|Hx], Hy as [->|Hy]; auto; exfalso; apply Hz, list_elem_of_fmap; eauto.
Qed.

(** Booleans of the hypotheses become propositions. *)
Ltac reflect_bools :=
  repeat match goal with
  | H : _ && _ = true |- _ => apply andb_true_iff in H; destruct H
  | H : _ || _ = false |- _ => apply orb_false_iff in H; destruct H
  | H : negb _ = true |- _ => apply negb_true_iff in H
  | H : negb _ = false |- _ => apply negb_false_iff in H
  | H : bool_decide _ = true |- _ => apply bool_decide_eq_true in H
  | H : bool_decide _ = false |- _ => apply bool_decide_eq_false in H
  | H : (_ =? _) = true |- _ => apply Z.eqb_eq in H
  | H : (_ =? _) = false |- _ => apply Z.eqb_neq in H
  | H : (_ <? _) = true |- _ => apply Z.ltb_lt in H
  | H : (_ <? _) = false |- _ => apply Z.ltb_ge in H
  | H : (_ <=? _) = true |- _ => apply Z.leb_le in H
  | H : (_ <=? _) = false |- _ => apply Z.leb_gt in H
  | H : (_ >? _) = true |- _ => rewrite Z.gtb_ltb in H
  | H : (_ >? _) = false |- _ => rewrite Z.gtb_ltb in H
  | H : (_ >=? _) = true |- _ => rewrite Z.geb_leb in H
  | H : (_ >=? _) = false |- _ => rewrite Z.geb_leb in H
  end.

(** ** Generic list lemmas *)

Lemma list_ascii_eq_dec_refl (s : str) : bool_decide (s = s) = true.
Proof. by apply bool_decide_eq_true. Qed.

Lemma Forall_cons_inv {A} (P : A → Prop) x l : Forall P (x :: l) → P x ∧ Forall P l.
Proof. by rewrite Forall_cons. Qed.

Lemma forallb_Forall {A} (f : A → bool) l :
  forallb f l = true ↔ Forall (λ x, f x = true) l.
Proof. rewrite forallb_forall, List.Forall_forall. done. Qed.

Lemma existsb_false_Forall {A} (f : A → bool) l :
  existsb f l = false ↔ Forall (λ x, f x = false) l.
Proof.
  induction l as [|x l IH]; simpl; [naive_solver|].
  rewrite orb_false_iff, Forall_cons, IH. done.
Qed.

Lemma concat_length_bound {A} (ls : list (list A)) n :
  Forall (λ l, (length l ≤ n)%nat) ls → (length (concat ls) ≤ n * length ls)%nat.
Proof. induction 1; simpl; rewrite ?length_app; lia. Qed.

(** ** Byte ranges: [data[off..off + n]], cut at the end of the data *)

Definition slice {A} (data : list A) (off n : Z) : list A :=
  take (Z.to_nat n) (drop (Z.to_nat off) data).

Lemma slice_length {A} (data : list A) off n :
  0 ≤ off → 0 ≤ n → Z.of_nat (length (slice data off n)) = Z.max 0 (Z.min n (Z.of_nat (length data) - off)).
Proof. intros. unfold slice. rewrite length_take, length_drop. lia. Qed.

Lemma slice_app {A} (data : list A) off n m :
  0 ≤ off → 0 ≤ n → 0 ≤ m → slice data off n ++ slice data (off + n) m = slice data off (n + m).
Proof.
  intros. unfold slice. rewrite !Z2Nat.inj_add by lia. rewrite <-drop_drop.
  generalize (drop (Z.to_nat off) data). intros l. revert l. generalize (Z.to_nat m).
  induction (Z.to_nat n) as [|k IH]; intros j l; simpl; [done|].
  destruct l as [|x l]; simpl; [by rewrite take_nil|]. by rewrite IH.
Qed.

Lemma slice_slice {A} (data : list A) off n off' n' :
  0 ≤ off → 0 ≤ off' → 0 ≤ n' → off' + n' ≤ n →
  slice (slice data off n) off' n' = slice data (off + off') n'.
Proof.
  intros. unfold slice. rewrite skipn_firstn_comm, take_take, drop_drop. f_equal; [lia|]. f_equal. lia.
Qed.

Lemma slice_all {A} (data : list A) n : Z.of_nat (length data) ≤ n → slice data 0 n = data.
Proof. intros. unfold slice. rewrite drop_0. apply take_ge. lia. Qed.

(** Writing [data] at [off]: the gap, if any, is filled with [zero]. *)
Definition write_at {A} (zero : A) (f : list A) (off : Z) (data : list A) : list A :=
  let n := Z.to_nat off in
  take n f ++ repeat zero (n - length f) ++ data ++ drop (n + length data) f.

(** Setting a length: cut, or extended with [zero]. *)
Definition resize {A} (zero : A) (f : list A) (n : Z) : list A :=
  take (Z.to_nat n) f ++ repeat zero (Z.to_nat n - length f).

Lemma write_at_length {A} (z : A) f off data :
  0 ≤ off → Z.of_nat (length (write_at z f off data))
            = Z.max (Z.of_nat (length f)) (off + Z.of_nat (length data)) ∨ data = [].
Proof.
  intros Hoff. destruct data as [|x data]; [by right|left]. unfold write_at.
  rewrite !length_app, length_take, repeat_length, length_drop. lia.
Qed.

Lemma resize_length {A} (z : A) f n : 0 ≤ n → Z.of_nat (length (resize z f n)) = n.
Proof. intros. unfold resize. rewrite length_app, length_take, repeat_length. lia. Qed.

Lemma slice_lookup {A} (data : list A) off n k :
  (k < Z.to_nat n)%nat → slice data off n !! k = data !! (Z.to_nat off + k)%nat.
Proof. intros Hk. unfold slice. by rewrite lookup_take_lt, lookup_drop. Qed.

Lemma write_at_lookup {A} (z : A) f off d j :
  0 ≤ off → off + Z.of_nat (length d) ≤ Z.of_nat (length f) →
  write_at z f off d !! j =
  if decide (off ≤ Z.of_nat j < off + Z.of_nat (length d)) then d !! (j - Z.to_nat off)%nat else f !! j.
Proof.
  intros Hoff Hfit. unfold write_at. replace (Z.to_nat off - length f)%nat with 0%nat by lia. cbn [repeat app].
  assert (Ht : length (take (Z.to_nat off) f) = Z.to_nat off) by (rewrite length_take; lia).
  destruct (decide (j < Z.to_nat off)%nat) as [Hj|Hj].
  - rewrite decide_False by lia. by rewrite lookup_app_l, lookup_take_lt by lia.
  - rewrite lookup_app_r, Ht by lia. case_decide.
    + by rewrite lookup_app_l by lia.
    + rewrite lookup_app_r, lookup_drop by lia. f_equal. lia.
Qed.
