(* ===== verification/RustStr.v ===== *)
(** * Strings as bytes: the part of Rust's [str]/[String] API that rs5cmd uses.

    A [&str] is its UTF-8 byte sequence.  Every function here is a function of
    the Rust standard library; [parse]/[to_string] are the ones of the unsigned
    integer types.  Offsets are byte offsets, as in Rust. *)

From S2P Require Import Prelude.

(** ** Searching *)

(** [s.find(p)] for a byte predicate [p]. *)
Fixpoint find (p : ascii → bool) (s : str) : option nat :=
  match s with
  | [] => None
  | c :: s' => if p c then Some 0 else S <$> find p s'
  end.

(** [s.rfind(p)] for a byte predicate [p]. *)
Fixpoint rfind (p : ascii → bool) (s : str) : option nat :=
  match s with
  | [] => None
  | c :: s' =>
      match rfind p s' with
      | Some i => Some (S i)
      | None => if p c then Some 0 else None
      end
  end.

Definition is_chr (c d : ascii) : bool := bool_decide (d = c).

(** [s.contains(p)] for a byte predicate. *)
Definition contains_chr (p : ascii → bool) (s : str) : bool := existsb p s.

(** [s.strip_prefix(p)]. *)
Fixpoint strip_prefix (p s : str) : option str :=
  match p, s with
  | [], _ => Some s
  | c :: p', d :: s' => if decide (c = d) then strip_prefix p' s' else None
  | _ :: _, [] => None
  end.

Definition starts_with (p s : str) : bool := bool_decide (is_Some (strip_prefix p s)).

(** [s.strip_suffix(p)]. *)
Definition strip_suffix (p s : str) : option str :=
  reverse <$> strip_prefix (reverse p) (reverse s).

Definition ends_with (p s : str) : bool := bool_decide (is_Some (strip_suffix p s)).

(** [s.contains(p)] for a substring. *)
Fixpoint contains (p s : str) : bool :=
  starts_with p s ||
  match s with
  | [] => false
  | _ :: s' => contains p s'
  end.

(** [s.split_once(p)]. *)
Fixpoint split_once (p s : str) : option (str * str) :=
  match strip_prefix p s with
  | Some r => Some ([], r)
  | None =>
      match s with
      | [] => None
      | c :: s' => prod_map (cons c) id <$> split_once p s'
      end
  end.

(** [s.split(c)] for a character, as a (non-empty) list. *)
Fixpoint split_chr (c : ascii) (s : str) : list str :=
  match s with
  | [] => [[]]
  | d :: s' =>
      if decide (d = c) then [] :: split_chr c s'
      else match split_chr c s' with
           | [] => [[d]]
           | h :: t => (d :: h) :: t
           end
  end.

(** [parts.join(sep)]. *)
Fixpoint join (sep : str) (parts : list str) : str :=
  match parts with
  | [] => []
  | [p] => p
  | p :: ps => p ++ sep ++ join sep ps
  end.

(** [s.replace(pat, to)] for a non-empty pattern: leftmost, non-overlapping. *)
Fixpoint replace_go (fuel : nat) (pat to s : str) : str :=
  match fuel with
  | O => s
  | S fuel =>
      match strip_prefix pat s with
      | Some r => to ++ replace_go fuel pat to r
      | None => match s with [] => [] | c :: s' => c :: replace_go fuel pat to s' end
      end
  end.
Definition replace (pat to s : str) : str := replace_go (S (length s)) pat to s.

(** [s.trim_start_matches(p)], [s.trim_end_matches(p)], [s.trim_matches(p)]. *)
Fixpoint trim_start_matches (p : ascii → bool) (s : str) : str :=
  match s with
  | c :: s' => if p c then trim_start_matches p s' else s
  | [] => []
  end.
Definition trim_end_matches (p : ascii → bool) (s : str) : str :=
  reverse (trim_start_matches p (reverse s)).
Definition trim_matches (p : ascii → bool) (s : str) : str :=
  trim_end_matches p (trim_start_matches p s).

(** ** White space ([char::is_whitespace], on UTF-8 bytes)

    One byte: U+0009-U+000D, U+0020.  Two bytes: U+0085, U+00A0.  Three bytes:
    U+1680, U+2000-U+200A, U+2028, U+2029, U+202F, U+205F, U+3000. *)

Definition code (c : ascii) : nat := nat_of_ascii c.

Definition ws1 (c : ascii) : bool :=
  (9 <=? code c) && (code c <=? 13) || (code c =? 32).
Definition ws2 (c d : ascii) : bool :=
  (code c =? 194) && ((code d =? 133) || (code d =? 160)).
Definition ws3 (c d e : ascii) : bool :=
  (code c =? 225) && (code d =? 154) && (code e =? 128)
  || (code c =? 226) && (code d =? 128) && (128 <=? code e) && (code e <=? 138)
  || (code c =? 226) && (code d =? 128) &&
       ((code e =? 168) || (code e =? 169) || (code e =? 175))
  || (code c =? 226) && (code d =? 129) && (code e =? 159)
  || (code c =? 227) && (code d =? 128) && (code e =? 128).

(** Number of bytes of the white-space character at the head of [s], 0 if none. *)
Definition ws_head (s : str) : nat :=
  match s with
  | c :: s1 =>
      if ws1 c then 1
      else match s1 with
           | d :: s2 =>
               if ws2 c d then 2
               else match s2 with
                    | e :: _ => if ws3 c d e then 3 else 0
                    | [] => 0
                    end
           | [] => 0
           end
  | [] => 0
  end.

(** The same for a reversed string: the last character of the original. *)
Definition ws_last (r : str) : nat :=
  match r with
  | c :: s1 =>
      if ws1 c then 1
      else match s1 with
           | d :: s2 =>
               if ws2 d c then 2
               else match s2 with
                    | e :: _ => if ws3 e d c then 3 else 0
                    | [] => 0
                    end
           | [] => 0
           end
  | [] => 0
  end.

Fixpoint strip_ws (head : str → nat) (fuel : nat) (s : str) : str :=
  match fuel with
  | O => s
  | S fuel => match head s with O => s | n => strip_ws head fuel (drop n s) end
  end.

(** [s.trim_start()], [s.trim_end()], [s.trim()]. *)
Definition trim_start (s : str) : str := strip_ws ws_head (length s) s.
Definition trim_end (s : str) : str := reverse (strip_ws ws_last (length s) (reverse s)).
Definition trim (s : str) : str := trim_end (trim_start s).

(** ** Lines: [s.lines()].  A line ends at ['\n'] or ['\r\n']; a last line
    without a line feed keeps its carriage return; an empty last line is not
    produced. *)

Definition LF : ascii := "010"%char.
Definition CR : ascii := "013"%char.

Definition strip_cr (l : str) : str := default l (strip_suffix [CR] l).

Fixpoint lines_of (parts : list str) : list str :=
  match parts with
  | [] => []
  | [last] => if decide (last = []) then [] else [last]
  | l :: rest => strip_cr l :: lines_of rest
  end.
Definition lines (s : str) : list str := lines_of (split_chr LF s).

(** ** ASCII case *)

Definition to_ascii_lowercase1 (c : ascii) : ascii :=
  if (65 <=? code c) && (code c <=? 90) then ascii_of_nat (code c + 32) else c.
Definition to_ascii_lowercase (s : str) : str := map to_ascii_lowercase1 s.

(** ** Integers: [parse::<uN>()] and [to_string()] *)

Definition is_digit (c : ascii) : bool := (48 <=? code c) && (code c <=? 57).

Fixpoint digits_val (acc : Z) (s : str) : Z :=
  match s with
  | [] => acc
  | c :: s' => digits_val (10 * acc + Z.of_nat (code c - 48)) s'
  end.

(** [s.parse::<uN>()] where [max] is [uN::MAX]: an optional [+], at least one
    digit, digits only, in range. *)
Definition parse_uint (max : Z) (s : str) : option Z :=
  let ds := match s with "+"%char :: s' => s' | _ => s end in
  if bool_decide (ds = []) || negb (forallb is_digit ds) then None
  else let v := digits_val 0 ds in if (v <=? max)%Z then Some v else None.

Definition digit (n : Z) : ascii := ascii_of_nat (48 + Z.to_nat n).

Global Arguments digit : simpl never.
Global Arguments code : simpl never.
Global Arguments is_digit : simpl never.
Global Arguments to_ascii_lowercase1 : simpl never.
Global Arguments ws1 : simpl never.
Global Arguments ws2 : simpl never.
Global Arguments ws3 : simpl never.

Fixpoint dec_go (fuel : nat) (n : Z) (acc : str) : str :=
  match fuel with
  | O => acc
  | S fuel =>
      let acc := digit (n mod 10) :: acc in
      if (n <? 10)%Z then acc else dec_go fuel (n / 10) acc
  end.

(** [n.to_string()] for an unsigned integer; 20 digits hold any [u64], and the
    fuel is one more than the number of bits. *)
Definition to_string (n : Z) : str := dec_go (S (Z.to_nat (Z.log2 n))) n [].

(** [n.to_string()] for a signed integer. *)
Definition to_string_i (n : Z) : str :=
  if (n <? 0)%Z then "-"%char :: to_string (- n) else to_string n.

(** ** UTF-8: the well-formed byte sequences of the Unicode standard (table 3-7)
    and [String::from_utf8_lossy]. *)

Definition in_range (lo hi : nat) (c : ascii) : bool := (lo <=? code c) && (code c <=? hi).
Definition cont (c : ascii) : bool := in_range 128 191 c.

(** Is [c d] a legal beginning of a three- (four-) byte sequence? *)
Definition lead3 (c d : ascii) : bool :=
  (code c =? 224) && in_range 160 191 d
  || in_range 225 236 c && cont d
  || (code c =? 237) && in_range 128 159 d
  || in_range 238 239 c && cont d.
Definition lead4 (c d : ascii) : bool :=
  (code c =? 240) && in_range 144 191 d
  || in_range 241 243 c && cont d
  || (code c =? 244) && in_range 128 143 d.

(** The first character of [s]: [inl n], [n] bytes long; or [inr n], the [n]
    bytes that [from_utf8_lossy] replaces by one U+FFFD. *)
Definition utf8_head (s : str) : nat + nat :=
  match s with
  | [] => inr 0
  | c :: s1 =>
      if code c <? 128 then inl 1
      else match s1 with
      | d :: s2 =>
          if in_range 194 223 c then (if cont d then inl 2 else inr 1)
          else if lead3 c d then
            match s2 with
            | e :: _ => if cont e then inl 3 else inr 2
            | [] => inr 2
            end
          else if lead4 c d then
            match s2 with
            | e :: s3 =>
                if cont e then
                  match s3 with
                  | f :: _ => if cont f then inl 4 else inr 3
                  | [] => inr 3
                  end
                else inr 2
            | [] => inr 2
            end
          else inr 1
      | [] => inr 1
      end
  end.

Global Arguments in_range : simpl never.
Global Arguments lead3 : simpl never.
Global Arguments lead4 : simpl never.

(** U+FFFD *)
Definition replacement : str := ["239"; "191"; "189"]%char.

Fixpoint lossy_go (fuel : nat) (s : str) : str :=
  match fuel, s with
  | S fuel, _ :: _ =>
      match utf8_head s with
      | inl n => take n s ++ lossy_go fuel (drop n s)
      | inr n => replacement ++ lossy_go fuel (drop n s)
      end
  | _, _ => []
  end.
Definition from_utf8_lossy (s : str) : str := lossy_go (length s) s.

(** [OsStr::to_str] succeeds. *)
Fixpoint utf8_go (fuel : nat) (s : str) : bool :=
  match s, fuel with
  | [], _ => true
  | _ :: _, S fuel => match utf8_head s with inl n => utf8_go fuel (drop n s) | inr _ => false end
  | _ :: _, O => false
  end.
Definition is_utf8 (s : str) : bool := utf8_go (length s) s.

(** One well-formed character, and well-formed strings. *)
Definition is_char (ch : str) : bool :=
  bool_decide (utf8_head ch = inl (length ch)).
Inductive utf8 : str → Prop :=
  | utf8_nil : utf8 []
  | utf8_app ch s : is_char ch = true → utf8 s → utf8 (ch ++ s).

(** ** Lemmas: searching *)

Lemma is_chr_true c d : is_chr c d = true ↔ d = c.
Proof. unfold is_chr. by rewrite bool_decide_eq_true. Qed.

Lemma find_Some p s i :
  find p s = Some i →
  ∃ c r, s = take i s ++ c :: r ∧ p c = true ∧ forallb (negb ∘ p) (take i s) = true
         ∧ (i < length s).
Proof.
  revert i. induction s as [|c s IH]; simpl; intros i Hi; [done|].
  destruct (p c) eqn:Hc; simplify_eq/=.
  - exists c, s. simpl. split_and!; [done..|lia].
  - apply fmap_Some in Hi as (j & Hj & ->).
    destruct (IH j Hj) as (d & r & Heq & Hd & Ha & Hlen).
    exists d, r. simpl. rewrite Hc. simpl.
    split_and!; [by f_equal|done|done|lia].
Qed.

Lemma find_None p s : find p s = None ↔ existsb p s = false.
Proof.
  induction s as [|c s IH]; simpl; [done|].
  destruct (p c); simpl; [done|]. rewrite fmap_None. done.
Qed.

Lemma find_is_Some p s : is_Some (find p s) ↔ existsb p s = true.
Proof.
  rewrite <-not_eq_None_Some, find_None. destruct (existsb p s); naive_solver.
Qed.

Lemma find_app_r p a c b :
  forallb (negb ∘ p) a = true → p c = true → find p (a ++ c :: b) = Some (length a).
Proof.
  induction a as [|d a IH]; simpl; intros Ha Hc; [by rewrite Hc|].
  apply andb_true_iff in Ha as [Hd Ha]. apply negb_true_iff in Hd.
  by rewrite Hd, IH.
Qed.

Lemma rfind_Some p s i :
  rfind p s = Some i →
  ∃ c r, s = take i s ++ c :: r ∧ p c = true ∧ existsb p r = false ∧ i < length s.
Proof.
  revert i. induction s as [|c s IH]; simpl; intros i Hi; [done|].
  destruct (rfind p s) as [j|] eqn:Hr; simplify_eq/=.
  - destruct (IH j eq_refl) as (d & r & Heq & Hd & Ha & Hlen).
    exists d, r. simpl. split_and!; [by f_equal|done|done|lia].
  - destruct (p c) eqn:Hc; simplify_eq/=. exists c, s. simpl.
    split_and!; [done|done| |lia].
    clear IH Hc. induction s as [|d s IH]; simpl in *; [done|].
    destruct (rfind p s); [done|]. destruct (p d); [done|]. simpl. by apply IH.
Qed.

Lemma rfind_None p s : rfind p s = None ↔ existsb p s = false.
Proof.
  induction s as [|c s IH]; simpl; [done|].
  destruct (rfind p s), (p c); simpl; naive_solver.
Qed.

Lemma strip_prefix_Some p s r : strip_prefix p s = Some r ↔ s = p ++ r.
Proof.
  revert s. induction p as [|c p IH]; intros s; simpl; [naive_solver|].
  destruct s as [|d s]; [naive_solver|].
  case_decide; [|naive_solver]. subst. rewrite IH. naive_solver.
Qed.

Lemma strip_prefix_app p r : strip_prefix p (p ++ r) = Some r.
Proof. by apply strip_prefix_Some. Qed.

Lemma strip_prefix_None p s : strip_prefix p s = None ↔ ∀ r, s ≠ p ++ r.
Proof.
  rewrite eq_None_not_Some. split.
  - intros Hn r ->. apply Hn. rewrite strip_prefix_app. eauto.
  - intros Hn [r Hr%strip_prefix_Some]. by eapply Hn.
Qed.

Lemma strip_suffix_Some p s r : strip_suffix p s = Some r ↔ s = r ++ p.
Proof.
  unfold strip_suffix. rewrite fmap_Some. split.
  - intros (x & Hx%strip_prefix_Some & ->).
    rewrite <-(reverse_involutive s), Hx, reverse_app, reverse_involutive. done.
  - intros ->. exists (reverse r). rewrite reverse_involutive. split; [|done].
    apply strip_prefix_Some. by rewrite reverse_app.
Qed.

Lemma starts_with_true p s : starts_with p s = true ↔ ∃ r, s = p ++ r.
Proof.
  unfold starts_with. rewrite bool_decide_eq_true.
  split; intros [r Hr]; exists r; by apply strip_prefix_Some.
Qed.

Lemma ends_with_true p s : ends_with p s = true ↔ ∃ r, s = r ++ p.
Proof.
  unfold ends_with. rewrite bool_decide_eq_true.
  split; intros [r Hr]; exists r; by apply strip_suffix_Some.
Qed.

Lemma split_once_Some p s a b :
  split_once p s = Some (a, b) → s = a ++ p ++ b.
Proof.
  revert a. induction s as [|c s IH]; intros a; simpl.
  - destruct (strip_prefix p []) eqn:Hp; [|done]. intros [= <- <-].
    by apply strip_prefix_Some in Hp.
  - destruct (strip_prefix p (c :: s)) eqn:Hp.
    + intros [= <- <-]. by apply strip_prefix_Some in Hp.
    + intros ([a' b'] & ? & Hs)%fmap_Some. simplify_eq/=. f_equal. by apply IH.
Qed.

Lemma split_once_None p s : split_once p s = None ↔ ∀ a b, s ≠ a ++ p ++ b.
Proof.
  induction s as [|c s IH]; simpl.
  - destruct (strip_prefix p []) as [r|] eqn:Hp.
    + apply strip_prefix_Some in Hp. split; [done|].
      intros Hn. by destruct (Hn [] r).
    + rewrite strip_prefix_None in Hp. split; [|done].
      intros _ [|x a] b; simpl; [apply Hp|done].
  - destruct (strip_prefix p (c :: s)) as [r|] eqn:Hp.
    + apply strip_prefix_Some in Hp. split; [done|].
      intros Hn. by destruct (Hn [] r).
    + rewrite fmap_None, IH. rewrite strip_prefix_None in Hp. split.
      * intros Hn [|x a] b; simpl; [apply Hp|]. intros [= -> Heq]. by eapply Hn.
      * intros Hn a b Heq. apply (Hn (c :: a) b). simpl. by rewrite Heq.
Qed.

(** [split_once] finds the first occurrence. *)
Lemma split_once_chr c a b :
  forallb (negb ∘ is_chr c) a = true → split_once [c] (a ++ c :: b) = Some (a, b).
Proof.
  induction a as [|d a IH]; simpl; intros Ha.
  - by rewrite decide_True.
  - apply andb_true_iff in Ha as [Hd Ha].
    rewrite decide_False.
    + by rewrite IH.
    + intros ->. unfold is_chr in Hd. by rewrite bool_decide_true in Hd.
Qed.

Lemma split_once_chr_None c s :
  split_once [c] s = None ↔ existsb (is_chr c) s = false.
Proof.
  induction s as [|d s IH]; simpl; [done|]. unfold is_chr at 1.
  case_decide; subst; simpl; [by rewrite bool_decide_true|].
  rewrite bool_decide_false by done. rewrite fmap_None. done.
Qed.

(** ** Lemmas: [split] and [join] *)

Lemma split_chr_nonempty c s : split_chr c s ≠ [].
Proof. destruct s; simpl; repeat case_match; done. Qed.

Lemma join_cons sep p ps :
  ps ≠ [] → join sep (p :: ps) = p ++ sep ++ join sep ps.
Proof. by destruct ps. Qed.

Lemma join_split c s : join [c] (split_chr c s) = s.
Proof.
  induction s as [|d s IH]; simpl; [done|].
  pose proof (split_chr_nonempty c s) as Hne.
  case_decide; subst.
  - rewrite join_cons by done. by rewrite IH.
  - destruct (split_chr c s) as [|h t]; [done|].
    destruct t; simpl in *; by rewrite <-IH.
Qed.

Lemma split_chr_none c p :
  forallb (negb ∘ is_chr c) p = true → split_chr c p = [p].
Proof.
  induction p as [|d p IH]; simpl; [done|].
  unfold is_chr at 1. intros [Hd Hp]%andb_true_iff.
  rewrite decide_False; [by rewrite IH|].
  intros ->. by rewrite bool_decide_true in Hd.
Qed.

Lemma split_chr_app c p s :
  forallb (negb ∘ is_chr c) p = true →
  split_chr c (p ++ c :: s) = p :: split_chr c s.
Proof.
  induction p as [|d p IH]; simpl; intros Hp.
  - by rewrite decide_True.
  - apply andb_true_iff in Hp as [Hd Hp]. unfold is_chr in Hd.
    rewrite decide_False; [by rewrite IH|].
    intros ->. by rewrite bool_decide_true in Hd.
Qed.

Lemma split_join c ps :
  ps ≠ [] → Forall (λ p, forallb (negb ∘ is_chr c) p = true) ps →
  split_chr c (join [c] ps) = ps.
Proof.
  induction ps as [|p ps IH]; intros Hne Hall; [done|].
  apply Forall_cons in Hall as [Hp Hps].
  destruct ps as [|q ps]; [by apply split_chr_none|].
  rewrite join_cons by done. simpl app. rewrite split_chr_app by done.
  f_equal. apply IH; done.
Qed.

Lemma split_chr_no_sep c s :
  Forall (λ p, forallb (negb ∘ is_chr c) p = true) (split_chr c s).
Proof.
  induction s as [|d s IH]; simpl; [by repeat constructor|].
  case_decide; [by constructor|].
  destruct (split_chr c s) as [|h t].
  - repeat constructor. simpl. unfold is_chr. by rewrite bool_decide_false.
  - apply Forall_cons in IH as [Hh Ht]. constructor; [|done].
    simpl. unfold is_chr at 1. by rewrite bool_decide_false.
Qed.

(** ** Lemmas: trimming *)

Definition trimmed (s : str) : bool := (ws_head s =? 0) && (ws_last (reverse s) =? 0).

Lemma trimmed_true s : trimmed s = true ↔ ws_head s = 0 ∧ ws_last (reverse s) = 0.
Proof. unfold trimmed. by rewrite andb_true_iff, !Nat.eqb_eq. Qed.

Lemma strip_ws_0 head fuel s : head s = 0 → strip_ws head fuel s = s.
Proof. intros H. destruct fuel; simpl; [done|]. by rewrite H. Qed.

Lemma trim_trimmed s : trimmed s = true → trim s = s.
Proof.
  intros [Hh Hl]%trimmed_true. unfold trim, trim_start.
  rewrite strip_ws_0 by done. unfold trim_end. rewrite strip_ws_0 by done.
  apply reverse_involutive.
Qed.

Lemma ws_head_ws1 c s : ws1 c = true → ws_head (c :: s) = 1.
Proof. intros H. simpl. by rewrite H. Qed.

Lemma ws_last_ws1 c s : ws1 c = true → ws_last (c :: s) = 1.
Proof. intros H. simpl. by rewrite H. Qed.

Lemma trim_start_cons c s : ws1 c = true → trim_start (c :: s) = trim_start s.
Proof. intros H. unfold trim_start. simpl. by rewrite H. Qed.

Lemma trim_end_snoc c s : ws1 c = true → trim_end (s ++ [c]) = trim_end s.
Proof.
  intros H. unfold trim_end.
  rewrite reverse_app, length_app, Nat.add_comm. simpl. by rewrite H.
Qed.

Lemma trim_cons c s : ws1 c = true → trim (c :: s) = trim s.
Proof. intros H. unfold trim. by rewrite trim_start_cons. Qed.

(** A one-byte white space is ASCII; longer white-space characters are made of
    bytes that are not. *)
Lemma ws1_code c : ws1 c = true → code c < 128.
Proof.
  unfold ws1. intros [[? Hc]%andb_true_iff|Hc]%orb_true_iff.
  - apply Nat.leb_le in Hc. lia.
  - apply Nat.eqb_eq in Hc. lia.
Qed.

Lemma ws2_code c d : ws2 c d = true → 128 ≤ code c ∧ 128 ≤ code d.
Proof.
  unfold ws2. intros [?%Nat.eqb_eq [?%Nat.eqb_eq|?%Nat.eqb_eq]%orb_true_iff]%andb_true_iff; lia.
Qed.

Lemma ws3_code c d e : ws3 c d e = true → 128 ≤ code c ∧ 128 ≤ code d ∧ 128 ≤ code e.
Proof.
  unfold ws3. rewrite !orb_true_iff, !andb_true_iff, !Nat.leb_le, !orb_true_iff, !Nat.eqb_eq.
  intros H. decompose [or and] H; lia.
Qed.

Lemma ascii_no_ws c s : ws1 c = false → (code c < 128) → ws_head (c :: s) = 0 ∧ ws_last (c :: s) = 0.
Proof.
  intros H1 H2. cbn [ws_head ws_last]. rewrite H1.
  assert (Hw2 : ∀ d, ws2 c d = false ∧ ws2 d c = false).
  { intros d. split; apply not_true_iff_false; intros [? ?]%ws2_code; lia. }
  assert (Hw3 : ∀ d e, ws3 c d e = false ∧ ws3 e d c = false).
  { intros d e. split; apply not_true_iff_false; intros (? & ? & ?)%ws3_code; lia. }
  destruct s as [|d s]; [done|]. rewrite (proj1 (Hw2 d)), (proj2 (Hw2 d)).
  destruct s as [|e s]; [done|]. by rewrite (proj1 (Hw3 d e)), (proj2 (Hw3 d e)).
Qed.

(** ASCII text without white space has nothing to trim. *)
Lemma digits_plain s : forallb is_digit s = true → forallb (λ c, negb (ws1 c) && (code c <? 128)) s = true.
Proof.
  rewrite !forallb_Forall. intros Hd. eapply Forall_impl; [exact Hd|]. intros d Hd1. unfold is_digit in Hd1.
  apply andb_true_iff in Hd1 as [Hlo Hhi]. apply Nat.leb_le in Hlo, Hhi.
  apply andb_true_iff. split; [|apply Nat.ltb_lt; lia]. unfold ws1. apply negb_true_iff, orb_false_iff.
  split; [apply andb_false_iff; right; apply Nat.leb_gt; lia|apply Nat.eqb_neq; lia].
Qed.

Lemma trimmed_ascii s : forallb (λ c, negb (ws1 c) && (code c <? 128)) s = true → trimmed s = true.
Proof.
  intros Hs. rewrite forallb_Forall in Hs. apply trimmed_true. split.
  - destruct Hs as [|c s [Hc Hlt]%andb_true_iff _]; [done|].
    apply negb_true_iff in Hc. apply Nat.ltb_lt in Hlt. by apply ascii_no_ws.
  - apply Forall_reverse in Hs. destruct (reverse s) as [|c r]; [done|].
    apply Forall_cons in Hs as [[Hc Hlt]%andb_true_iff _].
    apply negb_true_iff in Hc. apply Nat.ltb_lt in Hlt. by apply ascii_no_ws.
Qed.

Lemma ws1_not_ws2 x c : ws1 c = true → ws2 x c = false ∧ ws2 c x = false.
Proof.
  intros Hc%ws1_code.
  split; apply not_true_iff_false; intros ?%ws2_code; lia.
Qed.

Lemma ws1_not_ws3 x y c :
  ws1 c = true → ws3 x y c = false ∧ ws3 x c y = false ∧ ws3 c x y = false.
Proof.
  intros Hc%ws1_code.
  split_and!; apply not_true_iff_false; intros ?%ws3_code; lia.
Qed.

Lemma ws_head_app s c r :
  s ≠ [] → ws_head s = 0 → ws1 c = true → ws_head (s ++ c :: r) = 0.
Proof.
  intros Hne Hh Hc. destruct s as [|x [|y [|z s]]]; simpl in *; [done| | |].
  - destruct (ws1 x); [done|]. destruct (ws1_not_ws2 x c Hc) as [-> _].
    destruct r as [|z r]; [done|]. by destruct (ws1_not_ws3 x z c Hc) as (_ & -> & _).
  - destruct (ws1 x); [done|]. destruct (ws2 x y); [done|].
    by destruct (ws1_not_ws3 x y c Hc) as (-> & _ & _).
  - repeat case_match; done.
Qed.

Lemma ws_last_app s c r :
  s ≠ [] → ws_last s = 0 → ws1 c = true → ws_last (s ++ c :: r) = 0.
Proof.
  intros Hne Hh Hc. destruct s as [|x [|y [|z s]]]; simpl in *; [done| | |].
  - destruct (ws1 x); [done|]. destruct (ws1_not_ws2 x c Hc) as [_ ->].
    destruct r as [|z r]; [done|]. by destruct (ws1_not_ws3 z x c Hc) as (_ & -> & _).
  - destruct (ws1 x); [done|]. destruct (ws2 y x); [done|].
    by destruct (ws1_not_ws3 y x c Hc) as (_ & _ & ->).
  - repeat case_match; done.
Qed.

(** Text in the middle of white space: [trim] is decided by the two ends. *)
Lemma trimmed_middle a c r b :
  a ≠ [] → b ≠ [] → ws_head a = 0 → ws_last (reverse b) = 0 → ws1 c = true →
  trimmed (a ++ c :: r ++ c :: b) = true.
Proof.
  intros Ha Hb Hh Hl Hc. apply trimmed_true. split; [by apply ws_head_app|].
  rewrite !reverse_app, reverse_cons, reverse_app, reverse_cons.
  rewrite <-!app_assoc. simpl. apply ws_last_app; [|done..].
  by intros ?%(f_equal reverse); rewrite reverse_involutive in *.
Qed.

Lemma trim_end_trimmed s : ws_last (reverse s) = 0 → trim_end s = s.
Proof. intros H. unfold trim_end. rewrite strip_ws_0 by done. apply reverse_involutive. Qed.

Lemma trim_snoc s c : s ≠ [] → trimmed s = true → ws1 c = true → trim (s ++ [c]) = s.
Proof.
  intros Hne [Hh Hl]%trimmed_true Hc. unfold trim, trim_start.
  rewrite strip_ws_0 by (by apply ws_head_app).
  rewrite trim_end_snoc by done. by apply trim_end_trimmed.
Qed.

Lemma trim_start_matches_head p s c r :
  trim_start_matches p s = c :: r → p c = false.
Proof.
  induction s as [|d s IH]; simpl; [done|].
  destruct (p d) eqn:Hd; [done|]. naive_solver.
Qed.

Lemma trim_start_matches_id p s c r : s = c :: r → p c = false → trim_start_matches p s = s.
Proof. intros -> H. simpl. by rewrite H. Qed.

(** ** Lemmas: integers *)

Open Scope Z_scope.

Lemma code_digit n : 0 ≤ n < 10 → code (digit n) = (48 + Z.to_nat n)%nat.
Proof. intros Hn. unfold code, digit. apply nat_ascii_embedding. lia. Qed.

Lemma is_digit_digit n : 0 ≤ n < 10 → is_digit (digit n) = true.
Proof.
  intros Hn. unfold is_digit. rewrite code_digit by done.
  apply andb_true_iff. rewrite !Nat.leb_le. lia.
Qed.

Lemma dec_go_digits fuel n acc :
  0 ≤ n → forallb is_digit acc = true → forallb is_digit (dec_go fuel n acc) = true.
Proof.
  revert n acc. induction fuel as [|fuel IH]; intros n acc Hn Hacc; [done|].
  cbn [dec_go].
  assert (forallb is_digit (digit (n mod 10) :: acc) = true).
  { cbn [forallb]. rewrite is_digit_digit by (apply Z.mod_pos_bound; lia). done. }
  case_match; [done|]. apply IH; [by apply Z.div_pos|done].
Qed.

Lemma dec_go_val fuel n acc :
  (1 ≤ fuel)%nat → 0 ≤ n < 2 ^ Z.of_nat fuel →
  digits_val 0 (dec_go fuel n acc) = digits_val n acc.
Proof.
  revert n acc. induction fuel as [|fuel IH]; intros n acc Hf Hn; [lia|].
  rewrite Nat2Z.inj_succ, Z.pow_succ_r in Hn by lia.
  pose proof (Z.div_mod n 10 ltac:(lia)). pose proof (Z.mod_pos_bound n 10 ltac:(lia)).
  cbn [dec_go]. destruct (n <? 10) eqn:Hlt; reflect_bools.
  - cbn [digits_val]. rewrite code_digit by done.
    f_equal. assert (n / 10 = 0) by (apply Z.div_small; lia). lia.
  - assert (0 < Z.of_nat fuel) by (destruct fuel; [cbn in *; lia|lia]).
    rewrite IH; [|lia|].
    + cbn [digits_val]. rewrite code_digit by done. f_equal. lia.
    + split; [apply Z.div_pos; lia|]. apply Z.div_lt_upper_bound; lia.
Qed.

Lemma dec_go_nonempty fuel n acc : acc ≠ [] → dec_go fuel n acc ≠ [].
Proof.
  revert n acc. induction fuel as [|fuel IH]; intros n acc Hne; [done|].
  cbn [dec_go]. case_match; [done|]. by apply IH.
Qed.

Lemma to_string_nonempty n : to_string n ≠ [].
Proof.
  unfold to_string. cbn [dec_go]. case_match; [done|]. by apply dec_go_nonempty.
Qed.

Lemma to_string_digits n : 0 ≤ n → forallb is_digit (to_string n) = true.
Proof. intros Hn. by apply dec_go_digits. Qed.

Lemma to_string_val n : 0 ≤ n → digits_val 0 (to_string n) = n.
Proof.
  intros Hn. unfold to_string. rewrite dec_go_val; [done|lia|].
  pose proof (Z.log2_nonneg n). rewrite Nat2Z.inj_succ, Z2Nat.id by lia.
  destruct (Z.eq_dec n 0) as [->|]; [cbn; lia|].
  pose proof (Z.log2_spec n ltac:(lia)). lia.
Qed.

(** Round trip: parsing what [to_string] prints. *)
Lemma parse_to_string max n : 0 ≤ n ≤ max → parse_uint max (to_string n) = Some n.
Proof.
  intros Hn. unfold parse_uint.
  pose proof (to_string_digits n ltac:(lia)) as Hd.
  pose proof (to_string_nonempty n) as Hne.
  assert (∀ A (f g : str → A), match to_string n with "+"%char :: s' => f s' | _ => g (to_string n) end
            = g (to_string n)) as Hplus.
  { intros A f g. destruct (to_string n) as [|c s]; [done|].
    simpl in Hd. apply andb_true_iff in Hd as [Hc _]. 
    destruct c as [[] [] [] [] [] [] [] []]; try done. }
  rewrite (Hplus _ (λ s, s) (λ s, s)). rewrite bool_decide_false by done. simpl.
  rewrite Hd. simpl. rewrite to_string_val by lia.
  destruct (n <=? max) eqn:E; reflect_bools; [done|lia].
Qed.

Lemma digits_val_nonneg acc s : 0 ≤ acc → 0 ≤ digits_val acc s.
Proof.
  revert acc. induction s as [|c s IH]; simpl; intros acc Ha; [done|]. apply IH. lia.
Qed.

Lemma parse_uint_range max s n : parse_uint max s = Some n → 0 ≤ n ≤ max.
Proof.
  unfold parse_uint. generalize (match s with "+"%char :: s' => s' | _ => s end).
  intros ds. destruct (_ || _); [done|]. cbv zeta.
  destruct (_ <=? _) eqn:E; [|done]. intros [= <-]. reflect_bools.
  split; [by apply digits_val_nonneg|done].
Qed.

Close Scope Z_scope.

(** ** Lemmas: UTF-8 *)

Lemma utf8_head_app ch s :
  utf8_head ch = inl (length ch) → utf8_head (ch ++ s) = inl (length ch).
Proof.
  destruct ch as [|c [|d [|e [|f [|g ch]]]]]; simpl; intros H; try done;
    repeat case_match; simplify_eq/=; try done; try lia.
Qed.

Lemma is_char_length ch : is_char ch = true → 1 ≤ length ch ≤ 4.
Proof.
  unfold is_char. rewrite bool_decide_eq_true.
  destruct ch as [|c [|d [|e [|f [|g ch]]]]]; simpl; intros H; try lia; try done;
    repeat case_match; simplify_eq/=; lia.
Qed.

Lemma lossy_go_utf8 s fuel : utf8 s → length s ≤ fuel → lossy_go fuel s = s.
Proof.
  intros Hs. revert fuel. induction Hs as [|ch s Hch Hs IH]; intros fuel Hf.
  - by destruct fuel.
  - pose proof (is_char_length ch Hch) as Hlen. rewrite length_app in Hf.
    destruct fuel as [|fuel]; [lia|]. simpl.
    destruct (ch ++ s) as [|c r] eqn:E.
    { apply (f_equal length) in E. rewrite length_app in E. simpl in E. lia. }
    rewrite <-E. clear E c r.
    unfold is_char in Hch. apply bool_decide_eq_true in Hch.
    rewrite utf8_head_app by done.
    rewrite take_app_length, drop_app_length. f_equal. apply IH. lia.
Qed.

Lemma from_utf8_lossy_utf8 s : utf8 s → from_utf8_lossy s = s.
Proof. intros Hs. by apply lossy_go_utf8. Qed.

(** ** [std::path::Path] on Unix, on the text of the path

    [Path::file_name] and [Path::parent] ignore trailing slashes and trailing
    [.] components; [parent] is a prefix of the original text. *)

Definition SLASH : ascii := "/"%char.
Definition is_slash (c : ascii) : bool := is_chr SLASH c.

(** The reversed path without trailing separators and [.] components. *)
Fixpoint rtrim_path (r : str) : str :=
  match r with
  | [] => []
  | c :: r' =>
      if is_slash c then match r' with [] => r | _ => rtrim_path r' end
      else if is_chr "."%char c then
        match r' with
        | d :: _ => if is_slash d then rtrim_path r' else r
        | [] => r
        end
      else r
  end.

(** The last component (reversed) and what precedes it. *)
Fixpoint span_comp (r : str) : str * str :=
  match r with
  | c :: r' => if is_slash c then ([], r) else prod_map (cons c) id (span_comp r')
  | [] => ([], [])
  end.

(** [PathBuf::join] of a relative file name. *)
Definition pathbuf_join (d f : str) : str :=
  if bool_decide (d = []) || ends_with ($"/") d then d ++ f else d ++ $"/" ++ f.

Definition file_name (p : str) : option str :=
  let comp := reverse (span_comp (rtrim_path (reverse p))).1 in
  if decide (comp = [] ∨ comp = $"." ∨ comp = $"..") then None else Some comp.

Definition parent (p : str) : option str :=
  let r := rtrim_path (reverse p) in
  if decide (r = [] ∨ r = $"/") then None
  else Some (reverse (rtrim_path (span_comp r).2)).

Example file_name_1 : file_name ($"/tmp/foo/./") = Some ($"foo") := eq_refl.
Example file_name_2 : file_name ($"a/..") = None := eq_refl.
Example parent_1 : parent ($"/tmp//foo/bar.txt") = Some ($"/tmp//foo") := eq_refl.
Example parent_2 : parent ($"/a") = Some ($"/") := eq_refl.
Example parent_3 : parent ($"a") = Some [] := eq_refl.
Example parent_4 : parent ($"./a/.") = Some ($".") := eq_refl.

(** ** More lemmas on [split] and [find] *)

Lemma split_chr_app_gen c a b :
  split_chr c (a ++ c :: b) = split_chr c a ++ split_chr c b.
Proof.
  induction a as [|d a IH]; simpl.
  - by rewrite decide_True.
  - case_decide; [by rewrite IH|]. rewrite IH.
    pose proof (split_chr_nonempty c a). by destruct (split_chr c a).
Qed.

Lemma split_once_chr_Some c s a b :
  split_once [c] s = Some (a, b) →
  s = a ++ c :: b ∧ forallb (negb ∘ is_chr c) a = true.
Proof.
  revert a. induction s as [|d s IH]; intros a; simpl; [done|].
  case_decide as Hd.
  - intros [= <- <-]. by subst.
  - intros ([a' b'] & Hs & [= -> ->])%fmap_Some. simpl.
    apply IH in Hs as [-> ->]. split; [done|]. unfold is_chr.
    rewrite bool_decide_false; [done|congruence].
Qed.

Lemma existsb_forallb_negb {A} (p : A → bool) l :
  existsb p l = false ↔ forallb (negb ∘ p) l = true.
Proof.
  induction l as [|x l IH]; simpl; [done|].
  rewrite orb_false_iff, andb_true_iff, negb_true_iff, IH. done.
Qed.

(** ** Trimming again: its result is trimmed, and made of the string's bytes *)

Lemma ws_head_length s : ws_head s ≤ length s.
Proof. destruct s as [|x [|y [|z s]]]; simpl; repeat case_match; lia. Qed.

Lemma ws_last_length s : ws_last s ≤ length s.
Proof. destruct s as [|x [|y [|z s]]]; simpl; repeat case_match; lia. Qed.

Lemma strip_ws_fix head fuel s :
  (∀ s, head s ≤ length s) → length s ≤ fuel → head (strip_ws head fuel s) = 0.
Proof.
  intros Hh. revert s. induction fuel as [|fuel IH]; intros s Hs; simpl.
  - pose proof (Hh s). lia.
  - destruct (head s) as [|n] eqn:Hn; [done|]. apply IH. rewrite length_drop.
    pose proof (Hh s). lia.
Qed.

Lemma strip_ws_suffix head fuel s : ∃ p, s = p ++ strip_ws head fuel s.
Proof.
  revert s. induction fuel as [|fuel IH]; intros s; simpl; [by exists []|].
  destruct (head s) as [|n]; [by exists []|]. destruct (IH (drop (S n) s)) as [p Hp].
  exists (take (S n) s ++ p). by rewrite <-app_assoc, <-Hp, take_drop.
Qed.

(** Cutting the end off a string without leading white space leaves it so. *)
Lemma ws_head_prefix a b : ws_head (a ++ b) = 0 → ws_head a = 0.
Proof.
  destruct a as [|x [|y [|z a]]]; simpl; try done.
  - by destruct (ws1 x).
  - destruct (ws1 x); [done|]. by destruct (ws2 x y).
Qed.

Lemma trim_end_prefix s : ∃ p, s = trim_end s ++ p.
Proof.
  unfold trim_end. destruct (strip_ws_suffix ws_last (length s) (reverse s)) as [p Hp].
  exists (reverse p). rewrite <-reverse_app, <-Hp. by rewrite reverse_involutive.
Qed.

Lemma trim_is_trimmed s : trimmed (trim s) = true.
Proof.
  apply trimmed_true. split.
  - destruct (trim_end_prefix (trim_start s)) as [p Hp]. apply (ws_head_prefix _ p).
    unfold trim. rewrite <-Hp. apply strip_ws_fix; [apply ws_head_length|done].
  - unfold trim, trim_end. rewrite reverse_involutive.
    apply strip_ws_fix; [apply ws_last_length|by rewrite length_reverse].
Qed.

Lemma trim_trim s : trim (trim s) = trim s.
Proof. apply trim_trimmed, trim_is_trimmed. Qed.

Lemma trim_forallb p s : forallb p s = true → forallb p (trim s) = true.
Proof.
  unfold trim, trim_start. intros Hs.
  destruct (strip_ws_suffix ws_head (length s) s) as [q Hq].
  rewrite Hq, forallb_app, andb_true_iff in Hs. destruct Hs as [_ Hs].
  destruct (trim_end_prefix (strip_ws ws_head (length s) s)) as [r Hr].
  rewrite Hr, forallb_app, andb_true_iff in Hs. apply Hs.
Qed.

(** ** Lines again *)

Definition no_lf (s : str) : bool := forallb (negb ∘ is_chr LF) s.

Lemma strip_cr_id l : (∀ r, l ≠ r ++ [CR]) → strip_cr l = l.
Proof.
  intros Hl. unfold strip_cr. destruct (strip_suffix [CR] l) as [r|] eqn:Hr; [|done].
  apply strip_suffix_Some in Hr. by apply Hl in Hr.
Qed.

Lemma lines_cons l s :
  no_lf l = true → (∀ r, l ≠ r ++ [CR]) → lines (l ++ LF :: s) = l :: lines s.
Proof.
  intros Hl Hcr. unfold lines. rewrite split_chr_app by done.
  pose proof (split_chr_nonempty LF s). destruct (split_chr LF s); [done|].
  cbn [lines_of]. by rewrite strip_cr_id.
Qed.

Lemma lines_no_lf s : Forall (λ l, no_lf l = true) (lines s).
Proof.
  unfold lines. pose proof (split_chr_no_sep LF s) as H.
  induction H as [|l ls Hl Hls IH]; [done|]. cbn [lines_of]. destruct ls as [|l' ls].
  - case_decide; by repeat constructor.
  - constructor; [|exact IH]. unfold strip_cr.
    destruct (strip_suffix [CR] l) as [r|] eqn:Hr; [|done].
    apply strip_suffix_Some in Hr as ->. simpl. unfold no_lf.
    rewrite forallb_app, andb_true_iff in Hl. apply Hl.
Qed.

(** A line that ends in a byte that is no white space ends in no [CR]. *)
Lemma ws_last_no_cr l : l ≠ [] → ws_last (reverse l) = 0 → ∀ r, l ≠ r ++ [CR].
Proof. intros Hne Hl r ->. rewrite reverse_app in Hl. done. Qed.
