(* ===== verification/Btree.v ===== *)
(** * Ordered maps and stable sorting

    [BTreeMap<String, V>] as an association list whose keys increase byte-wise, with the one
    operation the commands use (an entry updated in place), and [slice::sort_by]. *)

From S2P Require Import Prelude RustStr.

(** ** The byte-wise order of strings *)

Fixpoint str_ltb (a b : str) : bool :=
  match a, b with
  | [], _ :: _ => true
  | c :: a, d :: b => (code c <? code d) || (code c =? code d) && str_ltb a b
  | _, [] => false
  end.

Definition str_lt (a b : str) : Prop := str_ltb a b = true.

(** [a.cmp(b) != Greater] *)
Definition str_leb (a b : str) : bool := negb (str_ltb b a).

Lemma code_inj c d : code c = code d → c = d.
Proof. intros Hc. rewrite <-(ascii_nat_embedding c), <-(ascii_nat_embedding d). unfold code in Hc. by rewrite Hc. Qed.

Lemma str_ltb_cons c a d b :
  str_ltb (c :: a) (d :: b) = true ↔ code c < code d ∨ (c = d ∧ str_ltb a b = true).
Proof.
  change (str_ltb (c :: a) (d :: b)) with ((code c <? code d) || (code c =? code d) && str_ltb a b).
  rewrite orb_true_iff, andb_true_iff, Nat.ltb_lt, Nat.eqb_eq. split.
  - intros [?|[Hc ?]]; [by left|right]. by apply code_inj in Hc.
  - intros [?|[-> ?]]; [by left|by right].
Qed.

#[export] Instance str_lt_strict : StrictOrder str_lt.
Proof.
  split.
  - intros a. unfold str_lt. induction a as [|c a IH]; [done|]. intros [?|[_ ?]]%str_ltb_cons; [lia|by apply IH].
  - intros a. unfold str_lt. induction a as [|c a IH]; intros [|d b] [|e k]; try done.
    intros Hab%str_ltb_cons Hbk%str_ltb_cons. apply str_ltb_cons.
    destruct Hab as [Hab|[-> Hab]], Hbk as [Hbk|[-> Hbk]]; [left; lia|by left|by left|right].
    split; [done|]. by apply (IH b).
Qed.

Lemma str_lt_total a b : str_lt a b ∨ a = b ∨ str_lt b a.
Proof.
  unfold str_lt. revert b. induction a as [|c a IH]; intros [|d b]; try (by left); try (by right; left); try (by right; right).
  rewrite !str_ltb_cons. destruct (Nat.lt_trichotomy (code c) (code d)) as [Hc|[Hc|Hc]]; [by left; left| |by right; right; left].
  apply code_inj in Hc as ->. destruct (IH b) as [?|[->|?]]; [by left; right|by right; left|by right; right; right].
Qed.

Lemma str_lt_irrefl a : ¬ str_lt a a.
Proof. apply irreflexivity. apply str_lt_strict. Qed.

Lemma str_leb_true a b : str_leb a b = true ↔ str_lt a b ∨ a = b.
Proof.
  unfold str_leb. rewrite negb_true_iff. split.
  - intros Hba. destruct (str_lt_total a b) as [?|[?|Hlt]]; [by left|by right|]. unfold str_lt in Hlt. congruence.
  - intros [Hlt| ->]; apply not_true_is_false; intros Hgt; [|by apply (str_lt_irrefl b)].
    apply (str_lt_irrefl a). by transitivity b.
Qed.

Lemma str_leb_false a b : str_leb a b = false ↔ str_lt b a.
Proof. unfold str_leb, str_lt. by rewrite negb_false_iff. Qed.

Lemma str_leb_trans a b c : str_leb a b = true → str_leb b c = true → str_leb a c = true.
Proof. rewrite !str_leb_true. intros [Hab| ->] [Hbc| ->]; auto. left. by etrans. Qed.

Lemma str_leb_anti a b : str_leb a b = true → str_leb b a = true → a = b.
Proof.
  rewrite !str_leb_true. intros [Hab|?] [Hba|?]; try done. exfalso. apply (str_lt_irrefl a). by etrans.
Qed.

(** ** [BTreeMap] *)

Section BTreeMap.
Context {V : Type}.

Definition BTreeMap : Type := list (str * V).

Fixpoint bt_get (k : str) (m : BTreeMap) : option V :=
  match m with
  | [] => None
  | (k', v) :: m => if bool_decide (k = k') then Some v else bt_get k m
  end.

(** [*m.entry(k)] replaced by [f] of what it holds, if anything. *)
Fixpoint bt_entry (k : str) (f : option V → V) (m : BTreeMap) : BTreeMap :=
  match m with
  | [] => [(k, f None)]
  | (k', v) :: m' =>
      if bool_decide (k = k') then (k', f (Some v)) :: m'
      else if str_ltb k k' then (k, f None) :: m
      else (k', v) :: bt_entry k f m'
  end.

Definition bt_wf (m : BTreeMap) : Prop := StronglySorted str_lt (map fst m).

Lemma bt_wf_cons k v m : bt_wf ((k, v) :: m) → bt_wf m ∧ ∀ k', k' ∈ map fst m → str_lt k k'.
Proof. intros Hm. inversion_clear Hm as [|?? Hs Hf]. split; [done|]. by apply Forall_forall. Qed.

Lemma bt_get_None k m : k ∉ map fst m ↔ bt_get k m = None.
Proof.
  induction m as [|[k' v] m IH]; [split; [done|intros _; apply not_elem_of_nil]|]. cbn [bt_get map].
  rewrite not_elem_of_cons. case_bool_decide as Hk; [naive_solver|]. rewrite IH. naive_solver.
Qed.

Lemma bt_get_Some k v m : bt_wf m → bt_get k m = Some v ↔ (k, v) ∈ m.
Proof.
  induction m as [|[k' v'] m IH]; intros Hm; [split; [done|intros Hin%elem_of_nil; done]|].
  apply bt_wf_cons in Hm as [Hm Hlt]. cbn [bt_get]. rewrite elem_of_cons. case_bool_decide as Hk.
  - subst k'. split; [intros [= ->]; by left|]. intros [[= ->]|Hin]; [done|].
    exfalso. apply (str_lt_irrefl k), Hlt, list_elem_of_fmap. by exists (k, v).
  - rewrite (IH Hm). split; [by right|]. intros [[= ? ?]|?]; [done|done].
Qed.

Lemma bt_entry_keys k f m k' : k' ∈ map fst (bt_entry k f m) ↔ k' = k ∨ k' ∈ map fst m.
Proof.
  induction m as [|[k0 v0] m IH]; cbn [bt_entry map fst]; [by rewrite list_elem_of_singleton, elem_of_nil; naive_solver|].
  case_bool_decide as Hk; [|destruct (str_ltb k k0)]; cbn [map fst]; rewrite !elem_of_cons; [|naive_solver|];
    [|rewrite IH; naive_solver]. subst k0. naive_solver.
Qed.

Lemma bt_entry_wf k f m : bt_wf m → bt_wf (bt_entry k f m).
Proof.
  induction m as [|[k0 v0] m IH]; intros Hm; [by repeat constructor|].
  pose proof (bt_wf_cons _ _ _ Hm) as [Hm' Hlt]. cbn [bt_entry]. case_bool_decide as Hk; [done|].
  destruct (str_ltb k k0) eqn:Hk0.
  - constructor; [done|]. apply Forall_forall. intros k' Hk'. cbn [map fst] in Hk'.
    apply elem_of_cons in Hk' as [->|Hk']; [done|]. transitivity k0; [done|by apply Hlt].
  - constructor; [by apply IH|]. apply Forall_forall. intros k' Hk'.
    apply bt_entry_keys in Hk' as [->|Hk']; [|by apply Hlt].
    destruct (str_lt_total k0 k) as [?|[?|Hgt]]; [done|congruence|]. unfold str_lt in Hgt. congruence.
Qed.

Lemma bt_get_entry k f m k' : bt_wf m →
  bt_get k' (bt_entry k f m) = if bool_decide (k' = k) then Some (f (bt_get k m)) else bt_get k' m.
Proof.
  induction m as [|[k0 v0] m IH]; intros Hm; cbn [bt_entry bt_get]; [by repeat case_bool_decide|].
  apply bt_wf_cons in Hm as [Hm Hlt]. destruct (bool_decide_reflect (k = k0)) as [->|Hk]; cbn [bt_get].
  { by destruct (bool_decide_reflect (k' = k0)). }
  destruct (str_ltb k k0) eqn:Hk0; cbn [bt_get].
  - case_bool_decide as Hk'; [subst k'|done].
    assert (Hnone : bt_get k m = None).
    { apply bt_get_None. intros Hin. apply (str_lt_irrefl k). transitivity k0; [done|by apply Hlt]. }
    by rewrite Hnone.
  - rewrite (IH Hm). destruct (bool_decide_reflect (k' = k0)) as [->|?]; [|done]. by rewrite bool_decide_false by congruence.
Qed.

(** Two maps with the same entries are the same list. *)
Lemma bt_ext m m' : bt_wf m → bt_wf m' → (∀ k, bt_get k m = bt_get k m') → m = m'.
Proof.
  revert m'. induction m as [|[k v] m IH]; intros [|[k' v'] m'] Hm Hm' Heq; [done| | |].
  - specialize (Heq k'). cbn in Heq. by rewrite bool_decide_true in Heq.
  - specialize (Heq k). cbn in Heq. by rewrite bool_decide_true in Heq.
  - pose proof (bt_wf_cons _ _ _ Hm) as [Hm1 Hlt]. pose proof (bt_wf_cons _ _ _ Hm') as [Hm1' Hlt'].
    assert (Hnone : bt_get k m = None) by (apply bt_get_None; intros Hin; by apply (str_lt_irrefl k), Hlt).
    assert (Hnone' : bt_get k' m' = None) by (apply bt_get_None; intros Hin; by apply (str_lt_irrefl k'), Hlt').
    assert (k = k') as <-.
    { pose proof (Heq k) as Hk. pose proof (Heq k') as Hk'. cbn in Hk, Hk'.
      rewrite (bool_decide_true (k = k)) in Hk by done. rewrite (bool_decide_true (k' = k')) in Hk' by done.
      repeat case_bool_decide; try congruence.
      assert (k ∈ map fst m') by (destruct (decide (k ∈ map fst m')) as [?|Hn]; [done|apply bt_get_None in Hn; congruence]).
      assert (k' ∈ map fst m) by (destruct (decide (k' ∈ map fst m)) as [?|Hn]; [done|apply bt_get_None in Hn; congruence]).
      exfalso. apply (str_lt_irrefl k). transitivity k'; [by apply Hlt|by apply Hlt']. }
    pose proof (Heq k) as Hk. cbn in Hk. rewrite (bool_decide_true (k = k)) in Hk by done. injection Hk as <-.
    f_equal. apply IH; [done..|]. intros k0. specialize (Heq k0). cbn in Heq. case_bool_decide; congruence.
Qed.
End BTreeMap.
Arguments BTreeMap V : clear implicits.

(** ** [sort_by] *)

Section Sort.
Context {A : Type} (leb : A → A → bool).

Fixpoint insert_sorted (x : A) (l : list A) : list A :=
  match l with
  | [] => [x]
  | y :: l' => if leb x y then x :: l else y :: insert_sorted x l'
  end.

Definition sort_by (l : list A) : list A := foldr insert_sorted [] l.

Lemma insert_sorted_perm x l : insert_sorted x l ≡ₚ x :: l.
Proof.
  induction l as [|y l IH]; [done|]. cbn. destruct (leb x y); [done|]. rewrite IH. apply Permutation_swap.
Qed.

Lemma sort_by_perm l : sort_by l ≡ₚ l.
Proof. induction l as [|x l IH]; [done|]. cbn. by rewrite insert_sorted_perm, IH. Qed.

Context (leb_total : ∀ x y, leb x y = false → leb y x = true).
Context (leb_trans : ∀ x y z, leb x y = true → leb y z = true → leb x z = true).

Lemma insert_sorted_sorted x l :
  StronglySorted (λ a b, leb a b = true) l → StronglySorted (λ a b, leb a b = true) (insert_sorted x l).
Proof.
  induction l as [|y l IH]; intros Hl; [by repeat constructor|]. cbn. inversion_clear Hl as [|?? Hs Hf].
  destruct (leb x y) eqn:Hxy.
  - constructor; [by constructor|]. constructor; [done|]. eapply Forall_impl; [exact Hf|]. intros z Hyz. by eapply leb_trans.
  - constructor; [by apply IH|]. apply Forall_forall. intros z Hz. rewrite insert_sorted_perm in Hz.
    apply elem_of_cons in Hz as [->|Hz]; [by apply leb_total|]. by apply (proj1 (Forall_forall _ _) Hf).
Qed.

Lemma sort_by_sorted l : StronglySorted (λ a b, leb a b = true) (sort_by l).
Proof. induction l as [|x l IH]; [constructor|]. cbn. by apply insert_sorted_sorted. Qed.

(** When no two elements compare equal, the order of the input does not matter. *)
Lemma sort_by_unique l l' :
  l ≡ₚ l' → (∀ x y, x ∈ l → y ∈ l → leb x y = true → leb y x = true → x = y) → sort_by l = sort_by l'.
Proof.
  intros Hp Hanti. eapply StronglySorted_unique_strong; [|apply sort_by_sorted..|by rewrite !sort_by_perm].
  intros x y Hx Hy. cbn. rewrite sort_by_perm in Hx. rewrite sort_by_perm, <-Hp in Hy. by apply Hanti.
Qed.
End Sort.
