(* ===== verification/Strutil.v ===== *)
(** * Globs and regular expressions: src/src/strutil.rs and
    src/src/command/filters.rs.

    The regex crate is third-party: [RegexLib] lists the three functions the
    program calls, and [RegexLaws] states what it relies on, from the crate's
    documented syntax: escaped literals, [.] under the [s] flag, [.*], and the
    anchors.  [SimpleRegex] is a concrete engine for that fragment, used to
    evaluate the definitions and to show that the laws are satisfiable. *)

From S2P Require Import Prelude RustStr.

(** ** Globs *)

Inductive tok := Lit (c : ascii) | AnyOne | AnySeq.

Global Instance tok_eq_dec : EqDecision tok.
Proof. solve_decision. Defined.

(** What a token sequence matches: [AnyOne] one character, [AnySeq] any
    sequence of characters. *)
Inductive tok_match : list tok → str → Prop :=
  | match_nil : tok_match [] []
  | match_lit c p s : tok_match p s → tok_match (Lit c :: p) (c :: s)
  | match_one ch p s : is_char ch = true → tok_match p s → tok_match (AnyOne :: p) (ch ++ s)
  | match_seq cs p s : utf8 cs → tok_match p s → tok_match (AnySeq :: p) (cs ++ s).

Definition glob_tok (c : ascii) : tok :=
  if decide (c = "?"%char) then AnyOne
  else if decide (c = "*"%char) then AnySeq
  else Lit c.

(** The reading of a wildcard pattern: [?] is any character, [*] any sequence. *)
Definition glob_toks (pattern : str) : list tok := map glob_tok pattern.
Definition glob_match (pattern key : str) : Prop := tok_match (glob_toks pattern) key.

(** ** The regex crate *)

Class RegexLib := {
  re : Type;
  regex_new : str → result re str;
  is_match : re → str → bool;
  regex_escape : str → str;
}.

Definition BS : ascii := "\"%char.

Section render.
Context (meta : ascii → bool).

Definition esc (c : ascii) : str := if meta c then [BS; c] else [c].

Definition render_tok (t : tok) : str :=
  match t with
  | Lit c => esc c
  | AnyOne => $"."
  | AnySeq => $".*"
  end.
Definition render (toks : list tok) : str := flat_map render_tok toks.
End render.

Class RegexLaws `{RegexLib} := {
  meta : ascii → bool;
  meta_bs : meta BS = true;
  meta_quest : meta "?"%char = true;
  meta_star : meta "*"%char = true;
  (** [regex::escape] puts a backslash before the meta characters. *)
  regex_escape_spec s : regex_escape s = flat_map (esc meta) s;
  (** A compiled, anchored sequence of literals, [.] and [.*] with the [s] flag
      matches what the sequence says. *)
  regex_new_spec toks r key :
    regex_new ($"(?s)" ++ ($"^" ++ render meta toks ++ $"$")) = Ok r →
    is_match r key = true ↔ tok_match toks key;
}.

(** ** strutil.rs *)

Section strutil.
Context `{RegexLib}.

Definition wildcard_to_regexp (pattern : str) : str :=
  let quoted := regex_escape pattern in
  replace [BS; "*"%char] ($".*") (replace [BS; "?"%char] ($".") quoted).

Definition match_from_start_to_end (pattern : str) : str := $"^" ++ pattern ++ $"$".

Definition add_newline_flag (pattern : str) : str := $"(?s)" ++ pattern.

(** ** filters.rs *)

Fixpoint compile_globs (patterns : list str) : result (list re) str :=
  match patterns with
  | [] => Ok []
  | p :: ps =>
      let? r := regex_new (add_newline_flag (match_from_start_to_end (wildcard_to_regexp p))) in
      let? rs := compile_globs ps in
      Ok (r :: rs)
  end.

Record Filters := { includes : list re; excludes : list re }.

Definition Filters_new (includes excludes : list str) : result Filters str :=
  let? i := compile_globs includes in
  let? e := compile_globs excludes in
  Ok {| includes := i; excludes := e |}.

Definition should_skip (f : Filters) (key : str) : bool :=
  if existsb (λ r, is_match r key) (excludes f) then true
  else if negb (bool_decide (includes f = [])) && negb (existsb (λ r, is_match r key) (includes f))
  then true
  else false.

(** Reading pattern files: [read] is [std::fs::read_to_string]. *)
Definition pattern_lines (content : str) : list str :=
  List.filter (λ l, negb (bool_decide (l = []) || starts_with ($"#") l)) (map trim (lines content)).

Fixpoint pattern_files (read : str → result str str) (out : list str) (files : list str)
  : result (list str) str :=
  match files with
  | [] => Ok out
  | f :: fs =>
      let? content := result_map_err (λ e, $"reading pattern file " ++ f ++ $": " ++ e) (read f) in
      pattern_files read (out ++ pattern_lines content) fs
  end.

Definition patterns_with_files (read : str → result str str) (inline files : list str)
  : result (list str) str := pattern_files read inline files.
End strutil.

(** ** Textual replacement on escaped text

    [replace [\q] to] rewrites exactly the escaped [q]s when no token begins
    with [q] itself. *)

Section replace_escaped.
Context (q : ascii) (to : str) (e : ascii → str).
Hypothesis q_bs : q ≠ BS.
Hypothesis e_q : e q = [BS; q].
Hypothesis e_other : ∀ c, c ≠ q →
  (∃ d, e c = [d] ∧ d ≠ BS ∧ d ≠ q) ∨ (∃ d, e c = [BS; d] ∧ d ≠ q).

Definition after_replace (c : ascii) : str := if decide (c = q) then to else e c.

Lemma flat_map_head p r : flat_map e p ≠ q :: r.
Proof.
  destruct p as [|c p]; simpl; [done|].
  destruct (decide (c = q)) as [->|Hc]; [rewrite e_q; simpl; congruence|].
  destruct (e_other c Hc) as [(d & -> & _ & ?)|(d & -> & _)]; simpl; congruence.
Qed.

Lemma no_match_bs p : strip_prefix [BS; q] (BS :: flat_map e p) = None.
Proof.
  apply strip_prefix_None. intros r. simpl. intros [= Heq]. by eapply flat_map_head.
Qed.

Lemma replace_step fuel c r :
  strip_prefix [BS; q] (c :: r) = None →
  replace_go (S fuel) [BS; q] to (c :: r) = c :: replace_go fuel [BS; q] to r.
Proof. intros H. cbn [replace_go]. by rewrite H. Qed.

Lemma no_match_chr c r : c ≠ BS → strip_prefix [BS; q] (c :: r) = None.
Proof. intros Hc. apply strip_prefix_None. intros r'. simpl. congruence. Qed.

Lemma no_match_bs2 d r : d ≠ q → strip_prefix [BS; q] (BS :: d :: r) = None.
Proof. intros Hd. apply strip_prefix_None. intros r'. simpl. congruence. Qed.

Lemma replace_go_escaped fuel p :
  length (flat_map e p) < fuel →
  replace_go fuel [BS; q] to (flat_map e p) = flat_map after_replace p.
Proof.
  revert fuel. induction p as [|c p IH]; intros [|fuel]; cbn [flat_map]; intros Hf;
    [cbn in Hf; lia|done|cbn in Hf; lia|].
  rewrite length_app in Hf. unfold after_replace at 1. case_decide as Hc.
  - subst c. rewrite e_q in *. cbn [replace_go].
    change ([BS; q] ++ flat_map e p) with ([BS; q] ++ flat_map e p).
    rewrite strip_prefix_app. f_equal. apply IH. simpl in Hf. lia.
  - destruct (e_other c Hc) as [(d & Hec & Hbs & Hq)|(d & Hec & Hq)]; rewrite Hec in *; simpl in Hf.
    + cbn [app]. rewrite replace_step by (by apply no_match_chr).
      f_equal. apply IH. lia.
    + cbn [app]. rewrite replace_step by (by apply no_match_bs2). f_equal.
      destruct fuel as [|fuel]; [lia|].
      destruct (decide (d = BS)) as [->|Hd].
      * rewrite replace_step by apply no_match_bs. f_equal. apply IH. lia.
      * rewrite replace_step by (by apply no_match_chr). f_equal. apply IH. lia.
Qed.

Lemma replace_escaped p : replace [BS; q] to (flat_map e p) = flat_map after_replace p.
Proof. apply replace_go_escaped. lia. Qed.
End replace_escaped.

(** ** The translation of wildcards *)

Section laws.
Context `{RegexLaws}.

Lemma wildcard_to_regexp_render p : wildcard_to_regexp p = render meta (glob_toks p).
Proof.
  unfold wildcard_to_regexp. rewrite regex_escape_spec.
  assert (Hesc : ∀ q c, meta q = true → c ≠ q →
    (∃ d, esc meta c = [d] ∧ d ≠ BS ∧ d ≠ q) ∨ (∃ d, esc meta c = [BS; d] ∧ d ≠ q)).
  { intros q c Hq Hc. unfold esc. destruct (meta c) eqn:E; [right; eauto|left].
    exists c. split_and!; [done| |done]. intros ->. by rewrite meta_bs in E. }
  rewrite replace_escaped; [|done|by unfold esc; rewrite meta_quest|by eauto using meta_quest].
  set (e1 := after_replace _ _ _). rewrite replace_escaped; [|done| |].
  - unfold render, glob_toks. rewrite flat_map_concat_map, flat_map_concat_map, map_map.
    f_equal. apply map_ext. intros c. unfold after_replace, e1, after_replace, glob_tok.
    repeat case_decide; subst; try done.
  - unfold e1, after_replace. rewrite decide_False by done. unfold esc. by rewrite meta_star.
  - intros c Hc. unfold e1, after_replace. case_decide.
    + left. exists "."%char. done.
    + apply Hesc; [apply meta_star|done].
Qed.

Lemma glob_regex_spec p r key :
  regex_new (add_newline_flag (match_from_start_to_end (wildcard_to_regexp p))) = Ok r →
  is_match r key = true ↔ glob_match p key.
Proof.
  unfold add_newline_flag, match_from_start_to_end.
  rewrite wildcard_to_regexp_render. apply regex_new_spec.
Qed.

Lemma compile_globs_spec ps rs key :
  compile_globs ps = Ok rs →
  existsb (λ r, is_match r key) rs = true ↔ Exists (λ p, glob_match p key) ps.
Proof.
  revert rs. induction ps as [|p ps IH]; intros rs; simpl.
  - intros [= <-]. simpl. split; [done|]. by intros ?%Exists_nil.
  - intros (r & Hr & (rs' & Hrs & [= <-])%result_bind_Ok)%result_bind_Ok. simpl.
    rewrite orb_true_iff, Exists_cons, (IH rs') by done.
    by rewrite (glob_regex_spec p r key Hr).
Qed.

Lemma compile_globs_nil ps rs : compile_globs ps = Ok rs → rs = [] ↔ ps = [].
Proof.
  destruct ps as [|p ps]; simpl; [naive_solver|].
  intros (r & Hr & (rs' & Hrs & [= <-])%result_bind_Ok)%result_bind_Ok. done.
Qed.
End laws.

(** ** A concrete engine for the fragment *)

Fixpoint star (m : str → bool) (fuel : nat) (s : str) : bool :=
  m s ||
  match fuel with
  | O => false
  | S fuel =>
      match utf8_head s with
      | inl n => star m fuel (drop n s)
      | inr _ => false
      end
  end.

Fixpoint tok_matchb (p : list tok) (s : str) : bool :=
  match p with
  | [] => bool_decide (s = [])
  | Lit c :: p => match s with d :: s' => bool_decide (c = d) && tok_matchb p s' | [] => false end
  | AnyOne :: p =>
      match utf8_head s with
      | inl n => tok_matchb p (drop n s)
      | inr _ => false
      end
  | AnySeq :: p => star (tok_matchb p) (length s) s
  end.

(** The documented meta characters of the regex syntax. *)
Definition simple_meta (c : ascii) : bool :=
  existsb (λ d, bool_decide (c = d)) ($"\.+*?()|[]{}^$#&-~").

(** Parses the body of a pattern: an escape, [.*], [.] or a literal. *)
Fixpoint parse_toks (s : str) : list tok :=
  match s with
  | [] => []
  | c :: s' =>
      if decide (c = BS) then
        match s' with d :: s'' => Lit d :: parse_toks s'' | [] => [] end
      else if decide (c = "."%char) then
        match s' with
        | d :: s'' => if decide (d = "*"%char) then AnySeq :: parse_toks s''
                      else AnyOne :: parse_toks s'
        | [] => [AnyOne]
        end
      else Lit c :: parse_toks s'
  end.

Definition simple_new (s : str) : result (list tok) str :=
  match strip_prefix ($"(?s)^") s with
  | Some b =>
      match strip_suffix ($"$") b with
      | Some body => Ok (parse_toks body)
      | None => Err ($"unsupported pattern")
      end
  | None => Err ($"unsupported pattern")
  end.

Global Instance SimpleRegex : RegexLib := {|
  re := list tok;
  regex_new := simple_new;
  is_match := tok_matchb;
  regex_escape := flat_map (esc simple_meta);
|}.

Lemma utf8_head_inl s n :
  utf8_head s = inl n → ∃ ch r, s = ch ++ r ∧ length ch = n ∧ is_char ch = true.
Proof.
  intros Hn.
  assert (n ≤ length s ∧ utf8_head (take n s) = inl n) as [Hlen Ht].
  { destruct s as [|c [|d [|e [|f s]]]]; simpl in *; repeat case_match; simplify_eq/=;
      (split; [lia|]); repeat case_match; simplify_eq/=; try done; congruence. }
  exists (take n s), (drop n s). rewrite take_drop. split_and!; [done| |].
  - rewrite length_take. lia.
  - unfold is_char. apply bool_decide_eq_true. rewrite Ht, length_take. f_equal. lia.
Qed.

Lemma is_char_head ch s : is_char ch = true → utf8_head (ch ++ s) = inl (length ch).
Proof. unfold is_char. rewrite bool_decide_eq_true. apply utf8_head_app. Qed.

Lemma star_spec m fuel s :
  length s ≤ fuel → star m fuel s = true ↔ ∃ cs r, s = cs ++ r ∧ utf8 cs ∧ m r = true.
Proof.
  revert s. induction fuel as [|fuel IH]; intros s Hf; simpl; rewrite orb_true_iff.
  - destruct s; [|simpl in Hf; lia]. split.
    + intros [Hm|?]; [|done]. exists [], []. repeat constructor; done.
    + intros (cs & r & Heq & _ & Hm). symmetry in Heq. apply app_eq_nil in Heq as [-> ->]. by left.
  - split.
    + intros [Hm|Hs].
      { exists [], s. repeat constructor; done. }
      destruct (utf8_head s) as [n|] eqn:Hn; [|done].
      destruct (utf8_head_inl s n Hn) as (ch & r & -> & <- & Hch).
      rewrite drop_app_length in Hs. rewrite length_app in Hf.
      pose proof (is_char_length ch Hch).
      apply IH in Hs as (cs & r' & -> & Hcs & Hm); [|lia].
      exists (ch ++ cs), r'. rewrite <-app_assoc. split_and!; [done|by constructor|done].
    + intros (cs & r & -> & Hcs & Hm). destruct Hcs as [|ch cs Hch Hcs]; [by left|right].
      rewrite <-app_assoc, is_char_head by done. rewrite drop_app_length.
      apply IH; [|by eauto]. pose proof (is_char_length ch Hch).
      rewrite !length_app in *. lia.
Qed.

Lemma tok_matchb_spec p s : tok_matchb p s = true ↔ tok_match p s.
Proof.
  revert s. induction p as [|[c| |] p IH]; intros s; cbn [tok_matchb].
  - rewrite bool_decide_eq_true. split; [intros ->; constructor|by inversion 1].
  - destruct s as [|d s]; [split; [done|by inversion 1]|].
    rewrite andb_true_iff, bool_decide_eq_true, IH. split.
    + intros [-> ?]. by constructor.
    + inversion 1; subst. done.
  - split.
    + destruct (utf8_head s) as [n|] eqn:Hn; [|done].
      destruct (utf8_head_inl s n Hn) as (ch & r & -> & <- & Hch).
      rewrite drop_app_length. intros ?%IH. by constructor.
    + inversion 1; subst. rewrite is_char_head by done. rewrite drop_app_length. by apply IH.
  - rewrite star_spec by done. split.
    + intros (cs & r & -> & Hcs & ?%IH). by constructor.
    + inversion 1; subst. eexists _, _. rewrite IH. done.
Qed.

Lemma parse_render toks : parse_toks (render simple_meta toks) = toks.
Proof.
  assert (Hdot : ∀ t ts r, render simple_meta (t :: ts) ≠ "*"%char :: r).
  { intros t ts r. cbn [render flat_map]. destruct t as [c| |]; cbn [render_tok app]; [|done..].
    unfold esc. destruct (simple_meta c) eqn:E; cbn; [done|].
    intros [= ->]. vm_compute in E. done. }
  induction toks as [|[c| |] toks IH]; [done|..].
  - cbn [render flat_map render_tok]. unfold esc. destruct (simple_meta c) eqn:E.
    + cbn [app parse_toks]. rewrite decide_True by done. f_equal. apply IH.
    + cbn [app parse_toks]. rewrite decide_False by (intros ->; vm_compute in E; done).
      rewrite decide_False by (intros ->; vm_compute in E; done). f_equal. apply IH.
  - cbn [render flat_map render_tok]. change (list_ascii_of_string ".") with ["."%char].
    cbn [app parse_toks]. rewrite decide_False by done. rewrite decide_True by done.
    fold (render simple_meta toks). destruct (render simple_meta toks) as [|d s] eqn:E.
    + simpl in IH. by subst toks.
    + rewrite decide_False.
      * f_equal. by rewrite IH.
      * intros ->. destruct toks; [done|]. by eapply Hdot.
  - cbn [render flat_map render_tok]. change (list_ascii_of_string ".*") with ["."; "*"]%char.
    cbn [app parse_toks]. rewrite decide_False by done. rewrite decide_True by done.
    rewrite decide_True by done. f_equal. apply IH.
Qed.

Global Program Instance SimpleRegex_laws : RegexLaws (H := SimpleRegex) := {|
  meta := simple_meta;
|}.
Next Obligation. done. Qed.
Next Obligation. done. Qed.
Next Obligation. done. Qed.
Next Obligation. done. Qed.
Next Obligation.
  intros toks r key. cbn [regex_new SimpleRegex]. unfold simple_new.
  change ($"(?s)" ++ ($"^" ++ render simple_meta toks ++ $"$"))
    with ($"(?s)^" ++ (render simple_meta toks ++ $"$")).
  rewrite strip_prefix_app.
  rewrite (proj2 (strip_suffix_Some ($"$") _ (render simple_meta toks)) eq_refl).
  rewrite parse_render. intros [= <-]. apply tok_matchb_spec.
Qed.

(** ** Properties *)

(** C35. Include/exclude filtering (rm, sync, ls, cp, mv): whatever globs
    [Filters::new] accepted, [should_skip] holds of exactly the keys that match an
    exclude glob or, when there are include globs, match none of them; [?] stands
    for one character and [*] for any sequence, across [/] and line ends. *)
Theorem should_skip_spec `{RegexLaws} (inc exc : list str) (f : Filters) (key : str) :
  Filters_new inc exc = Ok f →
  should_skip f key = true ↔
    Exists (λ p, glob_match p key) exc ∨
    (inc ≠ [] ∧ ¬ Exists (λ p, glob_match p key) inc).
Proof.
  intros (i & Hi & (e & He & [= <-])%result_bind_Ok)%result_bind_Ok.
  unfold should_skip; cbn [excludes includes].
  rewrite <-(compile_globs_spec exc e key He), <-(compile_globs_spec inc i key Hi).
  rewrite <-(compile_globs_nil inc i Hi).
  destruct (existsb _ e); [naive_solver|].
  destruct (decide (i = [])) as [->|Hne].
  - rewrite bool_decide_true by done. simpl. naive_solver.
  - rewrite bool_decide_false by done. simpl. destruct (existsb _ i); naive_solver.
Qed.

Lemma should_skip_spec_witness :
  should_skip {| includes := [glob_toks ($"data/*")]; excludes := [glob_toks ($"*.tmp")] |}
    ($"data/x.tmp") = true ↔
  Exists (λ p, glob_match p ($"data/x.tmp")) [$"*.tmp"] ∨
  ([$"data/*"] ≠ [] ∧ ¬ Exists (λ p, glob_match p ($"data/x.tmp")) [$"data/*"]).
Proof. apply (should_skip_spec [$"data/*"] [$"*.tmp"]). reflexivity. Defined.
