(* ===== verification/Url.v ===== *)
(** * Local and remote URLs: src/src/storage/url.rs.

    The state of a [Url] is a record with the source's fields ([url_prefix] and
    [url_filter] for [prefix] and [filter]); the methods that mutate it return
    the new record. *)

From S2P Require Import Prelude RustStr Strutil.

Inductive UrlType := Remote | Local.

Global Instance UrlType_eq_dec : EqDecision UrlType.
Proof. solve_decision. Defined.

Definition S3_SEPARATOR : str := $"/".

Definition is_glob (c : ascii) : bool := is_chr "?"%char c || is_chr "*"%char c.

Definition has_glob_character (s : str) : bool := contains_chr is_glob s.

(** ** Path helpers *)

Definition remote_base (p : str) : str :=
  if decide (p = []) then $"."
  else
    let trimmed := trim_end_matches is_slash p in
    if decide (trimmed = []) then $"/"
    else match rfind is_slash trimmed with
         | Some i => drop (i + 1) trimmed
         | None => trimmed
         end.

Definition remote_dir (p : str) : str :=
  match rfind is_slash p with
  | None => $"."
  | Some O => $"/"
  | Some i => take i p
  end.

Definition local_base_fallback (p : str) : str := if decide (p = []) then $"." else p.

(** One segment of [clean_path]; [out] is the [Vec] with its last element first. *)
Definition clean_seg (rooted : bool) (out : list str) (seg : str) : list str :=
  if decide (seg = [] ∨ seg = $".") then out
  else if decide (seg = $"..") then
    match out with
    | last :: rest =>
        if decide (last ≠ $"..") then rest
        else if negb rooted then $".." :: out else out
    | [] => if negb rooted then [$".."] else out
    end
  else seg :: out.

Definition clean_segs (rooted : bool) (segs : list str) : list str :=
  reverse (foldl (clean_seg rooted) [] segs).

Definition clean_path (p : str) : str :=
  if decide (p = []) then $"."
  else
    let rooted := starts_with ($"/") p in
    let result := join ($"/") (clean_segs rooted (split_chr SLASH p)) in
    let result := if rooted then $"/" ++ result else result in
    if decide (result = []) then $"." else result.

Definition path_join (a b : str) : str :=
  let joined :=
    if decide (a = []) then b
    else if decide (b = []) then a
    else trim_end_matches is_slash a ++ $"/" ++ b in
  clean_path joined.

(** The loop of [go_dir] stops at the last slash: [end] is one past it. *)
Definition go_dir (p : str) : str :=
  if decide (p = []) then $"."
  else
    let end_ := match rfind is_slash p with Some i => S i | None => O end in
    clean_path (take end_ p).

Definition nonempty_segs (p : str) : list str :=
  List.filter (λ s, negb (bool_decide (s = []))) (split_chr SLASH p).

(** The index of the first difference of two segment lists. *)
Fixpoint common_len (a b : list str) : nat :=
  match a, b with
  | x :: a', y :: b' => if decide (x = y) then S (common_len a' b') else O
  | _, _ => O
  end.

Definition rel_path (base target : str) : str :=
  let base := clean_path base in
  let target := clean_path target in
  if decide (base = target) then $"."
  else
    let base_segs := nonempty_segs base in
    let target_segs := nonempty_segs target in
    let i := common_len base_segs target_segs in
    let ups := length base_segs - i in
    let parts := repeat ($"..") ups ++ drop i target_segs in
    if decide (parts = []) then $"." else join ($"/") parts.

Definition upper_hex (n : nat) : ascii :=
  if n <? 10 then ascii_of_nat (48 + n) else ascii_of_nat (55 + n).

(** [format!("%{b:02X}")] *)
Definition percent (b : ascii) : str :=
  ["%"%char; upper_hex (code b / 16); upper_hex (code b mod 16)].

Definition is_unreserved (b : ascii) : bool :=
  in_range 65 90 b || in_range 97 122 b || in_range 48 57 b
  || existsb (λ d, bool_decide (b = d)) ($"-_.~").

Definition query_escape (s : str) : str :=
  flat_map (λ b, if is_unreserved b then [b]
                 else if is_chr " "%char b then $"+" else percent b) s.

Definition parse_batch (prefix key : str) : str :=
  match rfind is_slash prefix with
  | None => key
  | Some index =>
      if negb (starts_with prefix key) then key
      else let trimmed := drop index key in
           default trimmed (strip_prefix S3_SEPARATOR trimmed)
  end.

Definition parse_non_batch (prefix key : str) : str :=
  if negb (starts_with prefix key) then key
  else
    let parsed_key := default key (strip_suffix S3_SEPARATOR key) in
    match rfind is_slash parsed_key with
    | Some loc =>
        if (loc <? length prefix) then
          let parsed := drop loc key in
          default parsed (strip_prefix S3_SEPARATOR parsed)
        else
          let stripped := default key (strip_prefix prefix key) in
          let stripped := default stripped (strip_prefix S3_SEPARATOR stripped) in
          match find is_slash stripped with
          | Some i =>
              let index := i + 1 in
              if length stripped <=? index then stripped else take index stripped
          | None => stripped
          end
    | None => key
    end.

(** ** The URL record *)

Section Url.
Context `{RegexLib}.

Record Url := {
  kind : UrlType;
  scheme : str;
  bucket : str;
  path : str;
  delimiter : str;
  url_prefix : str;
  version_id : str;
  all_versions : bool;
  start_after : str;
  relative_path : str;
  url_filter : str;
  filter_regex : option re;
  raw : bool;
}.

Record UrlOptions := {
  opt_raw : bool;
  opt_version_id : option str;
  opt_all_versions : bool;
  opt_start_after : option str;
}.

Definition UrlOptions_default : UrlOptions :=
  {| opt_raw := false; opt_version_id := None; opt_all_versions := false;
     opt_start_after := None |}.

Definition with_path (u : Url) (p : str) : Url :=
  {| kind := kind u; scheme := scheme u; bucket := bucket u; path := p;
     delimiter := delimiter u; url_prefix := url_prefix u; version_id := version_id u;
     all_versions := all_versions u; start_after := start_after u;
     relative_path := relative_path u; url_filter := url_filter u;
     filter_regex := filter_regex u; raw := raw u |}.

Definition with_relative_path (u : Url) (r : str) : Url :=
  {| kind := kind u; scheme := scheme u; bucket := bucket u; path := path u;
     delimiter := delimiter u; url_prefix := url_prefix u; version_id := version_id u;
     all_versions := all_versions u; start_after := start_after u;
     relative_path := r; url_filter := url_filter u;
     filter_regex := filter_regex u; raw := raw u |}.

Definition with_version_id (u : Url) (v : str) : Url :=
  {| kind := kind u; scheme := scheme u; bucket := bucket u; path := path u;
     delimiter := delimiter u; url_prefix := url_prefix u; version_id := v;
     all_versions := all_versions u; start_after := start_after u;
     relative_path := relative_path u; url_filter := url_filter u;
     filter_regex := filter_regex u; raw := raw u |}.

Definition with_delimiter (u : Url) (d : str) : Url :=
  {| kind := kind u; scheme := scheme u; bucket := bucket u; path := path u;
     delimiter := d; url_prefix := url_prefix u; version_id := version_id u;
     all_versions := all_versions u; start_after := start_after u;
     relative_path := relative_path u; url_filter := url_filter u;
     filter_regex := filter_regex u; raw := raw u |}.

Definition set_prefix_and_filter (u : Url) : result Url str :=
  if raw u then Ok u
  else
    let '(delimiter', prefix', filter') :=
      match find is_glob (path u) with
      | None => (S3_SEPARATOR, path u, url_filter u)
      | Some loc => (delimiter u, take loc (path u), drop loc (path u))
      end in
    let fr := if decide (filter' = []) then $".*" else wildcard_to_regexp filter' in
    let fr := regex_escape prefix' ++ fr in
    let fr := match_from_start_to_end fr in
    let fr := add_newline_flag fr in
    let? r := regex_new fr in
    Ok {| kind := kind u; scheme := scheme u; bucket := bucket u; path := path u;
          delimiter := delimiter'; url_prefix := prefix'; version_id := version_id u;
          all_versions := all_versions u; start_after := start_after u;
          relative_path := relative_path u; url_filter := filter';
          filter_regex := Some r; raw := raw u |}.

(** The literal both branches of [Url::new] build before the filter is set. *)
Definition fresh_url (k : UrlType) (scheme bucket path : str) (opts : UrlOptions) : Url :=
  {| kind := k; scheme := scheme; bucket := bucket; path := path;
     delimiter := []; url_prefix := []; version_id := default [] (opt_version_id opts);
     all_versions := opt_all_versions opts; start_after := default [] (opt_start_after opts);
     relative_path := []; url_filter := []; filter_regex := None; raw := opt_raw opts |}.

Definition Url_new (s : str) (opts : UrlOptions) : result Url str :=
  match split_once ($"://") s with
  | None => set_prefix_and_filter (fresh_url Local [] [] s opts)
  | Some (scheme, rest) =>
      if negb (bool_decide (scheme = $"s3")) then
        Err ($"s3 url should start with " ++ ["034"%char] ++ $"s3://" ++ ["034"%char])
      else
        let '(bucket, key) :=
          match split_once S3_SEPARATOR rest with
          | Some (b, k) => (b, k)
          | None => (rest, [])
          end in
        if decide (bucket = []) then Err ($"s3 url should have a bucket")
        else if has_glob_character bucket then Err ($"bucket name cannot contain wildcards")
        else set_prefix_and_filter (fresh_url Remote ($"s3") bucket key opts)
  end.

Definition parse (s : str) : result Url str := Url_new s UrlOptions_default.

Definition is_remote (u : Url) : bool := bool_decide (kind u = Remote).
Definition is_prefix (u : Url) : bool := is_remote u && ends_with ($"/") (path u).
Definition is_bucket (u : Url) : bool := is_remote u && bool_decide (path u = []).
Definition is_versioned (u : Url) : bool :=
  all_versions u || negb (bool_decide (version_id u = [])).
Definition is_raw (u : Url) : bool := raw u.
Definition is_wildcard (u : Url) : bool := negb (raw u) && has_glob_character (path u).

Definition remote_url (u : Url) : str :=
  scheme u ++ $"://"
  ++ (if decide (bucket u = []) then [] else bucket u)
  ++ (if decide (path u = []) then [] else $"/" ++ path u).

Definition absolute (u : Url) : str := if negb (is_remote u) then path u else remote_url u.

(** [Display for Url] *)
Definition show_url (u : Url) : str := absolute u.

Definition relative (u : Url) : str :=
  if negb (bool_decide (relative_path u = [])) then relative_path u else absolute u.

Definition base (u : Url) : str :=
  if is_remote u then remote_base (path u)
  else default (local_base_fallback (path u)) (file_name (path u)).

Definition dir (u : Url) : str :=
  if is_remote u then remote_dir (path u)
  else match parent (path u) with
       | Some p => if decide (p = []) then $"." else p
       | None => $"."
       end.

Definition url_join (u : Url) (s : str) : Url :=
  if negb (is_remote u) then with_path u (path_join (path u) s)
  else with_path u (path u ++ s).

Definition set_relative (u base : Url) : Url :=
  let base_path := absolute base in
  let base_path :=
    if is_wildcard base then
      match find is_glob base_path with
      | Some loc => take loc base_path
      | None => base_path
      end
    else base_path in
  let base_dir := go_dir base_path in
  with_relative_path u (rel_path base_dir (absolute u)).

(** [matches] returns its answer and the receiver, whose relative path it sets
    on a match. *)
Definition matches (u : Url) (key : str) : bool * Url :=
  match filter_regex u with
  | None => (false, u)
  | Some r =>
      if negb (is_match r key) then (false, u)
      else
        let is_batch := negb (bool_decide (url_filter u = [])) in
        let v := if is_batch then parse_batch (url_prefix u) key
                 else parse_non_batch (url_prefix u) key in
        (true, with_relative_path u v)
  end.

Definition escaped_path (u : Url) : str :=
  let source_key := default (absolute u) (strip_prefix ($"s3://") (absolute u)) in
  join ($"/") (map query_escape (split_chr SLASH source_key)).

(** filters.rs: the key a listed object is filtered on. On Unix the separator
    is [/], so [to_slash] is the identity. *)
Definition to_slash (s : str) : str := s.
Definition filter_key (u : Url) : str := to_slash (relative u).
End Url.

(** ** Well-formed URLs *)

Lemma is_remote_true `{RegexLib} u : is_remote u = true ↔ kind u = Remote.
Proof. unfold is_remote. by rewrite bool_decide_eq_true. Qed.

(** What [Url::new] establishes, field by field. *)
Record url_wf `{RegexLib} (u : Url) : Prop := {
  wf_scheme : scheme u = (if is_remote u then $"s3" else []);
  wf_bucket : is_remote u = true → bucket u ≠ [] ∧ existsb (is_chr SLASH) (bucket u) = false
                                   ∧ has_glob_character (bucket u) = false;
  wf_raw : raw u = true → url_prefix u = [] ∧ url_filter u = [] ∧ filter_regex u = None;
  wf_split : raw u = false →
    path u = url_prefix u ++ url_filter u ∧ has_glob_character (url_prefix u) = false
    ∧ (url_filter u = [] ∨ ∃ c r, url_filter u = c :: r ∧ is_glob c = true)
    ∧ delimiter u = (if decide (url_filter u = []) then S3_SEPARATOR else [])
    ∧ ∃ r, filter_regex u = Some r ∧
        regex_new (add_newline_flag (match_from_start_to_end (regex_escape (url_prefix u) ++
          (if decide (url_filter u = []) then $".*" else wildcard_to_regexp (url_filter u)))))
        = Ok r;
}.

Section url_lemmas.
Context `{RegexLib}.
Implicit Types (u v : Url) (s key : str) (opts : UrlOptions).

Lemma set_prefix_and_filter_keeps u v :
  set_prefix_and_filter u = Ok v →
  kind v = kind u ∧ scheme v = scheme u ∧ bucket v = bucket u ∧ path v = path u ∧ raw v = raw u
  ∧ version_id v = version_id u ∧ relative_path v = relative_path u.
Proof.
  unfold set_prefix_and_filter. destruct (raw u) eqn:Hraw; [naive_solver|].
  repeat case_match; intros (r & _ & [= <-])%result_bind_Ok; simpl; auto 10.
Qed.

Lemma set_prefix_and_filter_start u v : set_prefix_and_filter u = Ok v → start_after v = start_after u.
Proof.
  unfold set_prefix_and_filter. destruct (raw u) eqn:Hraw; [by intros [= <-]|].
  by repeat case_match; intros (r & _ & [= <-])%result_bind_Ok.
Qed.

Lemma set_prefix_and_filter_wf k sc b p opts v :
  set_prefix_and_filter (fresh_url k sc b p opts) = Ok v →
  sc = (if decide (k = Remote) then $"s3" else []) →
  (k = Remote → b ≠ [] ∧ existsb (is_chr SLASH) b = false ∧ has_glob_character b = false) →
  url_wf v.
Proof.
  intros Hset Hsc Hb. pose proof Hset as (Hk & Hs & Hbk & Hp & Hr & _)%set_prefix_and_filter_keeps.
  cbn [fresh_url kind scheme bucket path raw] in *.
  constructor.
  - rewrite Hs, Hsc. unfold is_remote. rewrite Hk. by destruct k.
  - rewrite is_remote_true, Hk, Hbk. done.
  - rewrite Hr. intros Hraw. unfold set_prefix_and_filter in Hset. cbn in Hset.
    rewrite Hraw in Hset. injection Hset as <-. done.
  - rewrite Hr. intros Hraw. unfold set_prefix_and_filter in Hset. cbn in Hset.
    rewrite Hraw in Hset. destruct (find is_glob p) as [loc|] eqn:Hf.
    + destruct (find_Some _ _ _ Hf) as (c & r' & Heq & Hc & Hno & Hlen).
      assert (Hdrop : drop loc p = c :: r').
      { rewrite Heq at 1. rewrite drop_app_ge by (rewrite length_take; lia).
        rewrite length_take. replace (loc - (loc `min` length p)) with 0 by lia. done. }
      apply result_bind_Ok in Hset as (r & Hr' & [= <-]). cbn.
      split_and!; [by rewrite take_drop| | | |].
      * unfold has_glob_character, contains_chr. by apply existsb_forallb_negb.
      * right. eauto.
      * rewrite Hdrop. done.
      * eauto.
    + apply result_bind_Ok in Hset as (r & Hr' & [= <-]). cbn.
      split_and!; [by rewrite app_nil_r| |by left|done|eauto].
      apply find_None in Hf. done.
Qed.

Lemma Url_new_inv s opts u :
  Url_new s opts = Ok u →
  (split_once ($"://") s = None ∧ set_prefix_and_filter (fresh_url Local [] [] s opts) = Ok u) ∨
  (∃ b k, s = $"s3://" ++ b ++ (match split_once S3_SEPARATOR (drop 5 s) with
                                | Some _ => $"/" ++ k | None => [] end) ∧
     b ≠ [] ∧ existsb (is_chr SLASH) b = false ∧ has_glob_character b = false ∧
     set_prefix_and_filter (fresh_url Remote ($"s3") b k opts) = Ok u).
Proof.
  unfold Url_new. destruct (split_once ($"://") s) as [[sch rest]|] eqn:Hs; [|by left].
  right. destruct (bool_decide _) eqn:Hsc; [|done]. apply bool_decide_eq_true in Hsc as ->.
  apply split_once_Some in Hs. cbn [negb] in *.
  assert (Hd : drop 5 s = rest) by (by rewrite Hs). rewrite Hd.
  destruct (split_once S3_SEPARATOR rest) as [[b k]|] eqn:Hb.
  - case_decide; [done|]. destruct (has_glob_character b) eqn:Hg; [done|].
    apply split_once_chr_Some in Hb as [-> Hno]. exists b, k. split_and!; try done.
    by apply existsb_forallb_negb.
  - case_decide; [done|]. destruct (has_glob_character rest) eqn:Hg; [done|].
    exists rest, []. rewrite app_nil_r. split_and!; try done.
    by apply split_once_chr_None.
Qed.

Lemma Url_new_wf s opts u : Url_new s opts = Ok u → url_wf u.
Proof.
  intros [[_ Hset]|(b & k & _ & Hb & Hsl & Hgl & Hset)]%Url_new_inv.
  - by eapply set_prefix_and_filter_wf.
  - by eapply set_prefix_and_filter_wf.
Qed.

Lemma Url_new_versions s opts u :
  Url_new s opts = Ok u → all_versions u = opt_all_versions opts ∧ version_id u = default [] (opt_version_id opts).
Proof.
  assert (Hk : ∀ u v, set_prefix_and_filter u = Ok v → all_versions v = all_versions u ∧ version_id v = version_id u).
  { intros u0 v. unfold set_prefix_and_filter. destruct (raw u0); [by intros [= <-]|].
    by repeat case_match; intros (r & _ & [= <-])%result_bind_Ok. }
  by intros [[_ Hset]|(b & k & _ & _ & _ & _ & Hset)]%Url_new_inv; apply Hk in Hset.
Qed.

Lemma Url_new_start s opts u : Url_new s opts = Ok u → start_after u = default [] (opt_start_after opts).
Proof.
  by intros [[_ Hset]|(b & k & _ & _ & _ & _ & Hset)]%Url_new_inv; apply set_prefix_and_filter_start in Hset.
Qed.

Lemma Url_new_remote b k opts :
  b ≠ [] → existsb (is_chr SLASH) b = false → has_glob_character b = false →
  Url_new ($"s3://" ++ b ++ $"/" ++ k) opts = set_prefix_and_filter (fresh_url Remote ($"s3") b k opts).
Proof.
  intros Hb Hsl Hgl. unfold Url_new.
  change (split_once ($"://") ($"s3://" ++ b ++ $"/" ++ k)) with (Some ($"s3", b ++ $"/" ++ k)).
  cbv beta iota. rewrite bool_decide_true by done. cbv beta iota delta [negb].
  change (b ++ $"/" ++ k) with (b ++ SLASH :: k). unfold S3_SEPARATOR. change ($"/") with [SLASH].
  rewrite split_once_chr by (by apply existsb_forallb_negb).
  rewrite decide_False by done. by rewrite Hgl.
Qed.

Lemma Url_new_bucket b opts :
  b ≠ [] → existsb (is_chr SLASH) b = false → has_glob_character b = false →
  Url_new ($"s3://" ++ b) opts = set_prefix_and_filter (fresh_url Remote ($"s3") b [] opts).
Proof.
  intros Hb Hsl Hgl. unfold Url_new.
  change (split_once ($"://") ($"s3://" ++ b)) with (Some ($"s3", b)).
  cbv beta iota. rewrite bool_decide_true by done. cbv beta iota delta [negb].
  unfold S3_SEPARATOR. change ($"/") with [SLASH].
  rewrite (proj2 (split_once_chr_None SLASH b)) by done.
  rewrite decide_False by done. by rewrite Hgl.
Qed.

(** C36. Round trip: a URL that was parsed renders (its absolute form, also what
    is shown in results and logs) to text that parses, under the same options,
    to the same URL: every field, the compiled filter included. *)
Theorem Url_new_absolute s opts u :
  Url_new s opts = Ok u → Url_new (absolute u) opts = Ok u.
Proof.
  intros [[Hs Hset]|(b & k & Hs & Hb & Hsl & Hgl & Hset)]%Url_new_inv.
  - pose proof Hset as (Hk & _ & _ & Hp & _)%set_prefix_and_filter_keeps. cbn in Hk, Hp.
    unfold absolute, is_remote. rewrite Hk, Hp. rewrite bool_decide_false by done. simpl.
    unfold Url_new. by rewrite Hs.
  - pose proof Hset as (Hk & Hsc & Hbk & Hp & _)%set_prefix_and_filter_keeps.
    cbn [fresh_url kind scheme bucket path] in Hk, Hsc, Hbk, Hp.
    unfold absolute, is_remote, remote_url. rewrite Hk, Hsc, Hbk, Hp.
    rewrite bool_decide_true by done. simpl negb. cbv iota.
    rewrite decide_False by done. case_decide as Hk0.
    + rewrite app_nil_r, <-Hset, Hk0.
      change ($"s3" ++ $"://" ++ b) with ($"s3://" ++ b). by apply Url_new_bucket.
    + rewrite <-Hset.
      change ($"s3" ++ $"://" ++ b ++ $"/" ++ k) with ($"s3://" ++ b ++ $"/" ++ k).
      by apply Url_new_remote.
Qed.

Lemma with_path_same u : with_path u (path u) = u.
Proof. by destruct u. Qed.
End url_lemmas.

(** [s3://b/a/b/test?/*.tsv], as [parse] builds it with the concrete engine. *)
Definition sample_url : Url (H := SimpleRegex) :=
  {| kind := Remote; scheme := $"s3"; bucket := $"b"; path := $"a/b/test?/*.tsv";
     delimiter := []; url_prefix := $"a/b/test"; version_id := []; all_versions := false;
     start_after := []; relative_path := []; url_filter := $"?/*.tsv";
     filter_regex := Some (map Lit ($"a/b/test") ++ glob_toks ($"?/*.tsv")); raw := false |}.

Lemma parse_sample : parse (H := SimpleRegex) ($"s3://b/a/b/test?/*.tsv") = Ok sample_url.
Proof. vm_refl. Qed.

Lemma Url_new_absolute_witness :
  Url_new (H := SimpleRegex) (absolute sample_url) UrlOptions_default = Ok sample_url.
Proof. apply (Url_new_absolute ($"s3://b/a/b/test?/*.tsv")), parse_sample. Defined.

(** ** Matching *)

Section matching.
Context `{RegexLaws}.
Implicit Types (u : Url) (key p : str).

Lemma tok_match_lits p ts s :
  tok_match (map Lit p ++ ts) s ↔ ∃ r, s = p ++ r ∧ tok_match ts r.
Proof.
  revert s. induction p as [|c p IH]; intros s; simpl; [naive_solver|]. split.
  - inversion 1; subst. naive_solver.
  - intros (r & -> & Hr). constructor. apply IH. eauto.
Qed.

Lemma tok_match_seq s : tok_match [AnySeq] s ↔ utf8 s.
Proof.
  split.
  - inversion 1 as [| | |cs ? r Hcs Hr]; subst. inversion Hr; subst. by rewrite app_nil_r.
  - intros Hs. rewrite <-(app_nil_r s). by repeat constructor.
Qed.

Lemma render_lits p ts : render meta (map Lit p ++ ts) = flat_map (esc meta) p ++ render meta ts.
Proof.
  unfold render. rewrite flat_map_app. f_equal. induction p as [|c p IH]; [done|].
  simpl. by rewrite IH.
Qed.

Lemma filter_regex_spec u r key :
  url_wf u → raw u = false → filter_regex u = Some r →
  is_match r key = true ↔
    ∃ rest, key = url_prefix u ++ rest ∧
      (if decide (url_filter u = []) then utf8 rest else glob_match (url_filter u) rest).
Proof.
  intros Hwf Hraw Hr. destruct (wf_split u Hwf Hraw) as (_ & _ & _ & _ & r' & Hr' & Hnew).
  rewrite Hr in Hr'. injection Hr' as <-.
  unfold add_newline_flag, match_from_start_to_end in Hnew. rewrite regex_escape_spec in Hnew.
  case_decide.
  - change ($".*") with (render meta [AnySeq]) in Hnew. rewrite <-render_lits in Hnew.
    rewrite (regex_new_spec _ _ _ Hnew), tok_match_lits.
    by setoid_rewrite tok_match_seq.
  - rewrite wildcard_to_regexp_render, <-render_lits in Hnew.
    by rewrite (regex_new_spec _ _ _ Hnew), tok_match_lits.
Qed.

(** The directory of a prefix: up to and including its last slash. *)
Definition dir_part p : str :=
  match rfind is_slash p with Some i => take (S i) p | None => [] end.

Lemma parse_batch_dir p rest : dir_part p ++ parse_batch p (p ++ rest) = p ++ rest.
Proof.
  unfold dir_part, parse_batch. destruct (rfind is_slash p) as [i|] eqn:Hi; [|done].
  rewrite (proj2 (starts_with_true p (p ++ rest))) by eauto. simpl negb. cbv iota.
  destruct (rfind_Some _ _ _ Hi) as (c & r & Heq & Hc & Hno & Hlen).
  unfold is_slash in Hc. apply is_chr_true in Hc as ->.
  assert (Hd : drop i (p ++ rest) = $"/" ++ r ++ rest).
  { rewrite Heq at 1. rewrite <-app_assoc, drop_app_ge by (rewrite length_take; lia).
    rewrite length_take. by replace (i - (i `min` length p)) with 0 by lia. }
  rewrite Hd. unfold S3_SEPARATOR. rewrite strip_prefix_app. simpl default.
  assert (Ht : take (S i) p = take i p ++ [SLASH]).
  { rewrite Heq at 1. rewrite take_app_ge by (rewrite length_take; lia).
    rewrite length_take. by replace (S i - (i `min` length p)) with 1 by lia. }
  rewrite Ht. rewrite <-app_assoc. cbn [app]. rewrite Heq at 2. by rewrite <-app_assoc.
Qed.

Lemma matches_wf u key :
  url_wf u → raw u = false →
  ((matches u key).1 = true ↔
     ∃ rest, key = url_prefix u ++ rest ∧
       (if decide (url_filter u = []) then utf8 rest else glob_match (url_filter u) rest)).
Proof.
  intros Hwf Hraw. destruct (wf_split u Hwf Hraw) as (_ & _ & _ & _ & r & Hr & _).
  rewrite <-(filter_regex_spec u r key Hwf Hraw Hr). unfold matches. rewrite Hr. by destruct (is_match r key).
Qed.

(** A listing asks the server for the literal prefix: nothing else can match. *)
Lemma matches_extends u key : url_wf u → raw u = false → (matches u key).1 = true → starts_with (url_prefix u) key = true.
Proof. intros Hwf Hraw (rest & -> & _)%matches_wf; [|done..]. apply starts_with_true. by exists rest. Qed.

(** Below a wildcard, the relative path of a matched key is what follows its directory. *)
Lemma matches_dir u key :
  url_wf u → raw u = false → url_filter u ≠ [] → (matches u key).1 = true →
  dir_part (url_prefix u) ++ relative_path (matches u key).2 = key.
Proof.
  intros Hwf Hraw Hf Hm. pose proof (proj1 (matches_wf u key Hwf Hraw) Hm) as (rest & -> & _). revert Hm.
  unfold matches. destruct (filter_regex u) as [r|]; [|done]. destruct (is_match r _); cbn [negb]; [|done]. intros _.
  rewrite bool_decide_false by done. cbn [negb snd relative_path with_relative_path]. apply parse_batch_dir.
Qed.

(** C34. Listing filter: a key matches a parsed, non-raw URL exactly when it
    extends the URL's literal prefix by something its wildcard part matches (by
    anything, without wildcards). On a wildcard match the relative path it is
    given is the key without the directory of the prefix, so that directory
    followed by the relative path is the key: no two matched keys collide. *)
Theorem matches_spec s opts u key :
  Url_new s opts = Ok u → opt_raw opts = false →
  ((matches u key).1 = true ↔
     ∃ rest, key = url_prefix u ++ rest ∧
       (if decide (url_filter u = []) then utf8 rest else glob_match (url_filter u) rest)) ∧
  ((matches u key).1 = true → url_filter u ≠ [] →
     dir_part (url_prefix u) ++ relative_path (matches u key).2 = key) ∧
  ((matches u key).1 = false → (matches u key).2 = u).
Proof.
  intros Hnew Hopt. pose proof (Url_new_wf _ _ _ Hnew) as Hwf.
  assert (Hraw : raw u = false).
  { apply Url_new_inv in Hnew as [[_ Hset]|(b & k & _ & _ & _ & _ & Hset)];
      apply set_prefix_and_filter_keeps in Hset as (_ & _ & _ & _ & -> & _); done. }
  destruct (wf_split u Hwf Hraw) as (_ & _ & _ & _ & r & Hr & _).
  pose proof (filter_regex_spec u r key Hwf Hraw Hr) as Hspec.
  unfold matches. rewrite Hr. destruct (is_match r key) eqn:Hm; simpl.
  - split_and!; [rewrite <-Hspec; done| |done].
    intros _ Hf. rewrite bool_decide_false by done. simpl.
    destruct (proj1 Hspec eq_refl) as (rest & -> & _). apply parse_batch_dir.
  - split_and!; [rewrite <-Hspec; done|done|done].
Qed.
End matching.

Lemma matches_spec_witness :
  dir_part (url_prefix sample_url)
    ++ relative_path (matches sample_url ($"a/b/test2/x.tsv")).2
  = $"a/b/test2/x.tsv".
Proof.
  destruct (matches_spec ($"s3://b/a/b/test?/*.tsv") UrlOptions_default sample_url
              ($"a/b/test2/x.tsv") parse_sample eq_refl) as (_ & Hrel & _).
  apply Hrel; [vm_refl|done].
Defined.

(** A remote URL of an object, as [Url::new] makes them. *)
Definition object_url `{RegexLib} (u : Url) : Prop :=
  kind u = Remote ∧ scheme u = $"s3" ∧ bucket u ≠ [] ∧ existsb is_slash (bucket u) = false ∧ path u ≠ [].
