(* ===== verification/UrlPath.v ===== *)
(** * Lexical paths: the theory of [clean_path] and [rel_path]
    (src/src/storage/url.rs), and what [set_relative] gives a walked file. *)

From S2P Require Import Prelude RustStr Strutil Url.

Definition no_slash (s : str) : Prop := forallb (negb ∘ is_slash) s = true.

(** A segment that [clean_path] keeps. *)
Definition plain_seg (s : str) : Prop := s ≠ [] ∧ s ≠ $"." ∧ s ≠ $".." ∧ no_slash s.

(** The states of the cleaning loop: plain segments on top of a run of [..],
    which is empty for a rooted path. *)
Definition clean_state (rooted : bool) (out : list str) : Prop :=
  ∃ plain k, out = plain ++ repeat ($"..") k ∧ Forall plain_seg plain ∧ (rooted = true → k = 0).

Lemma clean_seg_state rooted out seg :
  no_slash seg → clean_state rooted out → clean_state rooted (clean_seg rooted out seg).
Proof.
  intros Hseg (plain & k & -> & Hpl & Hk). unfold clean_seg.
  case_decide as H1; [by exists plain, k|]. case_decide as H2.
  - destruct plain as [|s plain]; cbn [app].
    + destruct k as [|k]; cbn [repeat].
      * destruct rooted; [by exists [], 0|]. by exists [], 1.
      * case_decide as Hd; [by destruct Hd|].
        destruct rooted; [discriminate (Hk eq_refl)|]. by exists [], (S (S k)).
    + apply Forall_cons in Hpl as [(? & ? & ? & ?) Hpl]. case_decide; [|done].
      by exists plain, k.
  - exists (seg :: plain), k. split_and!; [done| |done]. constructor; [|done].
    apply not_or_and_not in H1 as [? ?] || (apply Decidable.not_or in H1 as [? ?]).
    done.
Qed.

Lemma clean_fold_state rooted segs out :
  Forall no_slash segs → clean_state rooted out →
  clean_state rooted (foldl (clean_seg rooted) out segs).
Proof.
  intros Hs. revert out. induction Hs as [|s segs Hs Hss IH]; intros out Hout; simpl; [done|].
  by apply IH, clean_seg_state.
Qed.

Lemma clean_seg_plain rooted out s : plain_seg s → clean_seg rooted out s = s :: out.
Proof.
  intros (? & ? & ? & _). unfold clean_seg.
  rewrite decide_False by tauto. by rewrite decide_False.
Qed.

Lemma clean_fold_plain rooted out segs :
  Forall plain_seg segs → foldl (clean_seg rooted) out segs = reverse segs ++ out.
Proof.
  intros Hs. revert out. induction Hs as [|s segs Hs Hss IH]; intros out; simpl; [done|].
  rewrite clean_seg_plain by done. rewrite IH, reverse_cons, <-app_assoc. done.
Qed.

Lemma clean_fold_dotdots k j :
  foldl (clean_seg false) (repeat ($"..") j) (repeat ($"..") k) = repeat ($"..") (k + j).
Proof.
  revert j. induction k as [|k IH]; intros j; [done|]. cbn [repeat foldl].
  replace (clean_seg false (repeat ($"..") j) ($"..")) with (repeat ($"..") (S j)).
  - rewrite IH. f_equal. lia.
  - by destruct j.
Qed.

(** Plain segments are undone by as many [..]. *)
Lemma clean_fold_pop rooted plain out n :
  Forall plain_seg plain → n ≤ length plain →
  foldl (clean_seg rooted) (plain ++ out) (repeat ($"..") n) = drop n plain ++ out.
Proof.
  intros Hpl. revert n. induction Hpl as [|s plain (? & ? & ? & ?) Hpl IH]; intros [|n] Hn;
    simpl in *; try done; try lia.
  unfold clean_seg at 2. simpl. rewrite decide_True by done. apply IH. lia.
Qed.

Lemma clean_segs_id rooted segs :
  clean_state rooted (reverse segs) → clean_segs rooted segs = segs.
Proof.
  intros (plain & k & Heq & Hpl & Hk). unfold clean_segs.
  rewrite <-(reverse_involutive segs), Heq. f_equal.
  assert (Hrep : reverse (repeat ($"..") k) = repeat ($"..") k).
  { clear. induction k as [|k IH]; [done|]. cbn [repeat]. rewrite reverse_cons, IH.
    clear. induction k as [|k IH]; [done|]. cbn [repeat app]. by rewrite IH. }
  rewrite reverse_app, Hrep, foldl_app.
  replace (foldl (clean_seg rooted) [] (repeat ($"..") k)) with (repeat ($"..") k).
  - rewrite clean_fold_plain by (by apply Forall_reverse). by rewrite reverse_involutive.
  - destruct rooted; [by rewrite Hk|]. pose proof (clean_fold_dotdots k 0) as Hd. cbn [repeat] in Hd.
    rewrite Hd. by rewrite Nat.add_0_r.
Qed.

(** ** The result of [clean_path] *)

Definition segs_of (p : str) : list str :=
  clean_segs (starts_with ($"/") p) (split_chr SLASH p).

Lemma segs_of_state p : clean_state (starts_with ($"/") p) (reverse (segs_of p)).
Proof.
  unfold segs_of, clean_segs. rewrite reverse_involutive. apply clean_fold_state.
  - apply split_chr_no_sep.
  - by exists [], 0.
Qed.

Lemma segs_of_good p : Forall (λ s, s ≠ [] ∧ s ≠ $"." ∧ no_slash s) (segs_of p).
Proof.
  destruct (segs_of_state p) as (plain & k & Heq & Hpl & _).
  rewrite <-(reverse_involutive (segs_of p)), Heq. apply Forall_reverse, Forall_app. split.
  - eapply Forall_impl; [exact Hpl|]. by intros s (? & ? & _ & ?).
  - apply Forall_forall. intros s Hs%list_elem_of_In%repeat_spec. by subst.
Qed.

Lemma segs_of_rooted p : starts_with ($"/") p = true → Forall plain_seg (segs_of p).
Proof.
  intros Hr. destruct (segs_of_state p) as (plain & k & Heq & Hpl & Hk). rewrite Hk in Heq by done.
  rewrite <-(reverse_involutive (segs_of p)), Heq. by rewrite app_nil_r; apply Forall_reverse.
Qed.

Lemma clean_path_rooted p :
  starts_with ($"/") p = true → clean_path p = $"/" ++ join ($"/") (segs_of p).
Proof.
  intros Hr. unfold clean_path, segs_of. rewrite Hr.
  rewrite decide_False; [by rewrite decide_False|]. by intros ->.
Qed.

Lemma clean_path_relative p :
  starts_with ($"/") p = false →
  clean_path p = if decide (segs_of p = []) then $"." else join ($"/") (segs_of p).
Proof.
  intros Hr. unfold clean_path. rewrite Hr. case_decide as Hp; [by subst|].
  fold (segs_of p). replace (clean_segs false (split_chr SLASH p)) with (segs_of p)
    by (unfold segs_of; by rewrite Hr).
  pose proof (segs_of_good p) as Hg. destruct (segs_of p) as [|s ss]; [done|].
  apply Forall_cons in Hg as [(Hs & _) _].
  rewrite (decide_False (P := s :: ss = [])) by done. rewrite decide_False; [done|].
  destruct ss; [done|]. simpl. destruct s; done.
Qed.

Lemma starts_with_slash s : starts_with ($"/") (SLASH :: s) = true.
Proof. apply starts_with_true. by exists s. Qed.

Lemma clean_segs_nil rooted segs : clean_segs rooted ([] :: segs) = clean_segs rooted segs.
Proof. done. Qed.

Lemma split_join_segs p : segs_of p ≠ [] → split_chr SLASH (join ($"/") (segs_of p)) = segs_of p.
Proof.
  intros Hne. apply split_join; [done|]. eapply Forall_impl; [apply segs_of_good|].
  by intros s (_ & _ & ?).
Qed.

Lemma segs_of_clean_rooted p :
  starts_with ($"/") p = true → segs_of (clean_path p) = segs_of p.
Proof.
  intros Hr. rewrite (clean_path_rooted p) by done. unfold segs_of at 1.
  change ($"/" ++ join ($"/") (segs_of p)) with (SLASH :: join ($"/") (segs_of p)).
  rewrite starts_with_slash.
  change (SLASH :: join ($"/") (segs_of p)) with ([] ++ SLASH :: join ($"/") (segs_of p)). rewrite split_chr_app by done.
  rewrite clean_segs_nil. pose proof (segs_of_state p) as Hst. rewrite Hr in Hst.
  destruct (decide (segs_of p = [])) as [->|Hne]; [done|].
  rewrite split_join_segs by done. by apply clean_segs_id.
Qed.

Lemma join_segs_head p : segs_of p ≠ [] → starts_with ($"/") (join ($"/") (segs_of p)) = false.
Proof.
  intros Hne. pose proof (segs_of_good p) as Hg. destruct (segs_of p) as [|s ss]; [done|].
  apply Forall_cons in Hg as [(Hs & _ & Hsl) _]. destruct s as [|c s]; [done|].
  apply not_true_iff_false. intros [r Hr]%starts_with_true.
  assert (c = SLASH) as -> by (destruct ss; cbn [join app] in Hr; by injection Hr).
  done.
Qed.

(** [clean_path] is idempotent: its result is a normal form. *)
Theorem clean_path_idempotent p : clean_path (clean_path p) = clean_path p.
Proof.
  destruct (starts_with ($"/") p) eqn:Hr.
  - assert (Hr' : starts_with ($"/") (clean_path p) = true).
    { rewrite clean_path_rooted by done. apply starts_with_true. eauto. }
    rewrite (clean_path_rooted (clean_path p)) by done.
    rewrite segs_of_clean_rooted by done. by rewrite clean_path_rooted.
  - rewrite (clean_path_relative p) by done. case_decide as Hne; [done|].
    pose proof (join_segs_head p Hne) as Hr'. rewrite clean_path_relative by done.
    assert (Hs : segs_of (join ($"/") (segs_of p)) = segs_of p).
    { unfold segs_of at 1. rewrite Hr', split_join_segs by done.
      pose proof (segs_of_state p) as Hst. rewrite Hr in Hst. by apply clean_segs_id. }
    rewrite Hs. by rewrite decide_False.
Qed.

(** ** Relative paths *)

Lemma nonempty_segs_rooted p :
  starts_with ($"/") p = true → nonempty_segs (clean_path p) = segs_of p.
Proof.
  intros Hr. rewrite clean_path_rooted by done. unfold nonempty_segs.
  change ($"/" ++ join ($"/") (segs_of p)) with ([] ++ SLASH :: join ($"/") (segs_of p)).
  rewrite split_chr_app by done. cbn [List.filter]. rewrite bool_decide_true by done. simpl negb. cbv iota.
  destruct (decide (segs_of p = [])) as [->|Hne]; [done|].
  rewrite split_join_segs by done. pose proof (segs_of_good p) as Hg. clear Hne.
  induction Hg as [|s ss (Hs & _) Hss IH]; [done|]. cbn [List.filter].
  rewrite bool_decide_false by done. simpl. by rewrite IH.
Qed.

Lemma join_nonempty (parts : list str) :
  Forall (λ s : str, s ≠ []) parts → parts ≠ [] → join ($"/") parts ≠ [].
Proof.
  intros [|s ss Hs _] Hne; [done|]. destruct ss; cbn [join]; [done|].
  by destruct s.
Qed.

Lemma common_len_take a b :
  take (common_len a b) a = take (common_len a b) b ∧ common_len a b ≤ length a
  ∧ common_len a b ≤ length b.
Proof.
  revert b. induction a as [|x a IH]; intros [|y b]; simpl; try (split_and!; done || lia).
  case_decide; simpl; [|split_and!; done || lia]. subst.
  destruct (IH b) as (-> & ? & ?). split_and!; [done|lia..].
Qed.

(** Trailing slashes do not change what the segments clean to. *)
Lemma fold_trim_end rooted b :
  foldl (clean_seg rooted) [] (split_chr SLASH (trim_end_matches is_slash b))
  = foldl (clean_seg rooted) [] (split_chr SLASH b).
Proof.
  unfold trim_end_matches. rewrite <-(reverse_involutive b) at 2.
  induction (reverse b) as [|c r IH]; [done|]. simpl.
  destruct (is_slash c) eqn:Hc; [|done]. rewrite IH. apply is_chr_true in Hc as ->.
  rewrite reverse_cons, (split_chr_app_gen SLASH (reverse r) []), foldl_app. done.
Qed.

Lemma trim_end_rooted b r :
  starts_with ($"/") b = true →
  starts_with ($"/") (trim_end_matches is_slash b ++ $"/" ++ r) = true.
Proof.
  intros [x ->]%starts_with_true. apply starts_with_true. unfold trim_end_matches.
  change ($"/" ++ x) with (SLASH :: x). rewrite reverse_cons.
  induction (reverse x) as [|c y IH]; simpl; [by eexists|].
  destruct (is_slash c); [done|].
  rewrite reverse_cons, reverse_app. simpl. eexists. rewrite <-!app_assoc. done.
Qed.

Lemma path_join_rooted b r parts :
  starts_with ($"/") b = true → r ≠ [] → split_chr SLASH r = parts →
  path_join b r =
    $"/" ++ join ($"/") (reverse (foldl (clean_seg true) (reverse (segs_of b)) parts)).
Proof.
  intros Hb Hr <-. unfold path_join. rewrite decide_False by (by intros ->).
  rewrite decide_False by done.
  pose proof (trim_end_rooted b r Hb) as Hroot. rewrite clean_path_rooted by done.
  unfold segs_of, clean_segs. rewrite Hroot, Hb, reverse_involutive.
  change (trim_end_matches is_slash b ++ $"/" ++ r)
    with (trim_end_matches is_slash b ++ SLASH :: r).
  rewrite split_chr_app_gen, foldl_app, fold_trim_end. done.
Qed.

(** Relative paths of absolute paths are correct: joining the base with
    [rel_path base target] is the cleaned target, whatever [.], [..] and repeated
    slashes either contains. *)
Theorem rel_path_join base target :
  starts_with ($"/") base = true → starts_with ($"/") target = true →
  path_join base (rel_path base target) = clean_path target.
Proof.
  intros Hb Ht. pose proof (segs_of_rooted base Hb) as HB. pose proof (segs_of_rooted target Ht) as HT.
  assert (Hdot : clean_path base = clean_path target →
                 path_join base ($".") = clean_path target).
  { intros <-. rewrite (path_join_rooted base ($".") [$"."]) by done. cbn [foldl].
    change (clean_seg true (reverse (segs_of base)) ($".")) with (reverse (segs_of base)).
    by rewrite reverse_involutive, clean_path_rooted. }
  unfold rel_path. case_decide as Heq; [by apply Hdot|].
  rewrite !nonempty_segs_rooted by done. cbv zeta.
  destruct (common_len_take (segs_of base) (segs_of target)) as (Htake & Hle1 & Hle2).
  set (i := common_len _ _) in *.
  set (parts := repeat ($"..") (length (segs_of base) - i) ++ drop i (segs_of target)).
  assert (Hsegs : reverse (foldl (clean_seg true) (reverse (segs_of base)) parts) = segs_of target).
  { unfold parts. rewrite foldl_app.
    rewrite <-(app_nil_r (reverse (segs_of base))).
    rewrite clean_fold_pop; [|by apply Forall_reverse|rewrite length_reverse; lia].
    rewrite app_nil_r, clean_fold_plain by (by apply Forall_drop).
    rewrite reverse_app, reverse_involutive.
    replace (reverse (drop (length (segs_of base) - i) (reverse (segs_of base))))
      with (take i (segs_of base)).
    - by rewrite Htake, take_drop.
    - replace (reverse (segs_of base))
        with (reverse (drop i (segs_of base)) ++ reverse (take i (segs_of base)))
        by (by rewrite <-reverse_app, take_drop).
      rewrite drop_app_ge by (rewrite length_reverse, length_drop; lia).
      rewrite length_reverse, length_drop, Nat.sub_diag, drop_0. by rewrite reverse_involutive. }
  assert (Hns : Forall no_slash parts).
  { apply Forall_app. split.
    - apply Forall_forall. intros s Hs%list_elem_of_In%repeat_spec. by subst.
    - apply Forall_drop. eapply Forall_impl; [exact HT|]. by intros s (_ & _ & _ & ?). }
  case_decide as Hparts.
  - apply Hdot. rewrite Hparts in Hsegs. simpl in Hsegs. rewrite reverse_involutive in Hsegs.
    by rewrite !clean_path_rooted, Hsegs.
  - rewrite (path_join_rooted base _ parts); [|done| |by apply split_join].
    + by rewrite Hsegs, clean_path_rooted.
    + assert (Hne : Forall (λ s : str, s ≠ []) parts).
      { apply Forall_app. split.
        - apply Forall_forall. intros s Hs%list_elem_of_In%repeat_spec. by subst.
        - apply Forall_drop. eapply Forall_impl; [exact HT|]. by intros s (? & _). }
      by apply join_nonempty.
Qed.

Definition abs_base : str := $"/data/a/./b".
Definition abs_target : str := $"/data//c/../d.txt".

Lemma rel_path_join_witness :
  starts_with ($"/") abs_base = true ∧ path_join abs_base (rel_path abs_base abs_target) = $"/data/d.txt".
Proof.
  split; [reflexivity|].
  rewrite (rel_path_join abs_base abs_target eq_refl eq_refl). reflexivity.
Defined.

(** A relative base without a slash: its directory is [.], which [rel_path] counts as
    a segment, so the relative path of a file below it starts with [..]. *)
Lemma rel_path_bare_base : rel_path (go_dir ($"data")) ($"data/x.txt") = $"../data/x.txt".
Proof. reflexivity. Qed.
