(* ===== verification/RateLimit.v ===== *)
(** * The shared bandwidth limiter (src/src/ratelimit.rs)

    Instants and durations are nanoseconds.  The mutex orders the calls of
    [acquire]; a trace lists them in that order with the clock each reads. *)

From S2P Require Import Prelude.

Local Open Scope Z_scope.

Record RateLimiter := {
  rate : Z;
  next_time : Z;
  burst : Z;
}.

(** [RateLimiter::new(rate)] at the instant [now]. *)
Definition RateLimiter_new (r now : Z) : RateLimiter :=
  {| rate := r; next_time := now; burst := Z.max r (5 * 1024 * 1024) |}.

Definition div_rate_to_nanos (bytes r : Z) : Z :=
  Z.min (bytes * 1000000000 / r) u64_max.

(** The part of [acquire] under the lock, at the clock reading [now]: the start it
    grants ([None]: it returns at once) and the limiter it leaves. *)
Definition acquire (rl : RateLimiter) (n now : Z) : option Z * RateLimiter :=
  if (n =? 0) || (rate rl =? 0) then (None, rl)
  else
    let cost := div_rate_to_nanos n (rate rl) in
    let start := if next_time rl >? now then next_time rl else now in
    let max_lag := div_rate_to_nanos (burst rl) (rate rl) in
    let start := if now >? start + max_lag then now - max_lag else start in
    (Some start, {| rate := rate rl; next_time := start + cost; burst := burst rl |}).

(** The rest of [acquire]: the instant it returns, the second reading of the clock
    being [now2]. *)
Definition acquire_returns (start : option Z) (now2 : Z) : Z :=
  match start with
  | None => now2
  | Some s => if s >? now2 then now2 + (s - now2) else now2
  end.

(** One call: the bytes asked for and the clock readings. *)
Record call := { bytes : Z; clock : Z; clock2 : Z }.

(** The calls in the order of the lock: each one's grant. *)
Fixpoint acquire_all (rl : RateLimiter) (cs : list call) : list (call * Z) :=
  match cs with
  | [] => []
  | c :: cs =>
      let '(start, rl') := acquire rl (bytes c) (clock c) in
      match start with
      | Some s => (c, s) :: acquire_all rl' cs
      | None => acquire_all rl' cs
      end
  end.

Definition total_bytes (g : list (call * Z)) : Z := foldr Z.add 0 (map (bytes ∘ fst) g).

(** When each granted call returns. *)
Definition returns (g : call * Z) : Z := acquire_returns (Some (snd g)) (clock2 (fst g)).

(** ** Lemmas *)

Definition rl_ok (rl : RateLimiter) : Prop := 0 < rate rl ∧ 0 <= burst rl.

Lemma RateLimiter_new_ok r now : 0 < r → rl_ok (RateLimiter_new r now).
Proof. unfold rl_ok, RateLimiter_new. simpl. lia. Qed.

Lemma div_rate_nonneg b r : 0 <= b → 0 < r → 0 <= div_rate_to_nanos b r.
Proof.
  intros. unfold div_rate_to_nanos, u64_max. pose proof (Z.div_pos (b * 1000000000) r). lia.
Qed.

(** The rounding of the cost loses less than a nanosecond. *)
Lemma div_rate_bound b r :
  0 < r → b * 1000000000 / r <= u64_max → b * 1000000000 < r * (div_rate_to_nanos b r + 1).
Proof.
  intros Hr Hs. unfold div_rate_to_nanos. rewrite Z.min_l by done.
  pose proof (Z.mul_succ_div_gt (b * 1000000000) r Hr). lia.
Qed.

Lemma acquire_grant rl n now start rl' :
  rl_ok rl → acquire rl n now = (Some start, rl') →
  start = Z.max (next_time rl) now
  ∧ rl' = {| rate := rate rl; next_time := start + div_rate_to_nanos n (rate rl); burst := burst rl |}.
Proof.
  intros [Hr Hb]. unfold acquire. destruct (_ || _); [done|].
  pose proof (div_rate_nonneg (burst rl) (rate rl) Hb Hr) as Hlag.
  set (m := div_rate_to_nanos (burst rl) (rate rl)) in *. intros [= <- <-].
  destruct (Z.gtb_spec (next_time rl) now).
  - destruct (Z.gtb_spec now (next_time rl + m)); [lia|]. split; [lia|done].
  - destruct (Z.gtb_spec now (now + m)); [lia|]. split; [lia|done].
Qed.

Lemma acquire_none rl n now rl' : acquire rl n now = (None, rl') → rl' = rl.
Proof. unfold acquire. destruct (_ || _); [by intros [= <-]|done]. Qed.

(** Every grant of a trace starts at or after [next_time], and the costs of the
    grants before it lie in between. *)
Lemma acquire_all_spaced rl cs pre g :
  rl_ok rl → Forall (λ c, 0 <= bytes c) cs →
  (∀ c, c ∈ cs → bytes c * 1000000000 / rate rl <= u64_max) →
  acquire_all rl cs = pre ++ [g] →
  total_bytes pre * 1000000000 <= rate rl * (snd g - next_time rl + Z.of_nat (length pre)).
Proof.
  revert rl pre. induction cs as [|c cs IH]; intros rl pre Hok Hpos Hsat; cbn [acquire_all].
  { intros Heq. by destruct pre. }
  destruct (acquire rl (bytes c) (clock c)) as [start rl'] eqn:Hacq.
  apply Forall_cons in Hpos as [Hc Hpos]. destruct start as [s|].
  - destruct (acquire_grant _ _ _ _ _ Hok Hacq) as [Hs ->]. intros Heq.
    destruct pre as [|g0 pre]; simpl in Heq.
    + injection Heq as <- _. simpl. unfold total_bytes. simpl. destruct Hok. nia.
    + injection Heq as <- Heq. eapply IH in Heq; [|done..|].
      * cbn [rate next_time] in Heq. unfold total_bytes in *. simpl.
        rewrite Nat2Z.inj_succ.
        pose proof (div_rate_bound (bytes c) (rate rl) ltac:(destruct Hok; done)
                      (Hsat c ltac:(set_solver))). destruct Hok. nia.
      * intros c' Hc'. apply Hsat. set_solver.
  - apply acquire_none in Hacq as ->. intros Heq. apply (IH rl pre); try done.
    intros c' Hc'. apply Hsat. set_solver.
Qed.

(** The limiter never grants the burst its comments describe: [start] is at least
    [now], so the branch that moves it back is dead. *)
Lemma acquire_no_burst rl n now start rl' :
  rl_ok rl → acquire rl n now = (Some start, rl') → now <= start.
Proof. intros Hok [-> _]%acquire_grant; [lia|done]. Qed.

Lemma returns_after_start g : snd g <= returns g.
Proof.
  unfold returns, acquire_returns. destruct (Z.gtb_spec (snd g) (clock2 (fst g))); lia.
Qed.

(** ** Theorems *)

(** C23. The rate cap is aggregate: in any interleaving of calls, the bytes of all
    the calls granted before some call, whatever tasks made them, take at least
    [bytes / rate] seconds from the limiter's creation until that call returns, up to one
    nanosecond of rounding per call. *)
Theorem aggregate_rate_cap r t0 cs pre g :
  0 < r → Forall (λ c, 0 <= bytes c) cs →
  (∀ c, c ∈ cs → bytes c * 1000000000 / r <= u64_max) →
  acquire_all (RateLimiter_new r t0) cs = pre ++ [g] →
  total_bytes pre * 1000000000 <= r * (returns g - t0 + Z.of_nat (length pre)).
Proof.
  intros Hr Hpos Hsat Heq. pose proof (returns_after_start g).
  apply acquire_all_spaced in Heq; [|by apply RateLimiter_new_ok|done|done].
  cbn [rate next_time RateLimiter_new] in Heq. nia.
Qed.

Definition sample_calls : list call :=
  [{| bytes := 500; clock := 10; clock2 := 12 |}; {| bytes := 0; clock := 11; clock2 := 12 |};
   {| bytes := 500; clock := 13; clock2 := 14 |}; {| bytes := 7; clock := 15; clock2 := 16 |}].

Lemma aggregate_rate_cap_witness :
  let g := acquire_all (RateLimiter_new 1000 5) sample_calls in
  length g = 3%nat ∧ map returns g = [12; 500000010; 1000000010] ∧
  total_bytes (take 2 g) * 1000000000 <= 1000 * (returns (nth 2 g (nth 0 sample_calls
    {| bytes := 0; clock := 0; clock2 := 0 |}, 0)) - 5 + 2).
Proof.
  cbv zeta. split; [reflexivity|]. split; [reflexivity|].
  apply (aggregate_rate_cap 1000 5 sample_calls
           (take 2 (acquire_all (RateLimiter_new 1000 5) sample_calls))).
  - lia.
  - repeat constructor; simpl; lia.
  - intros c Hc. unfold sample_calls in Hc.
    repeat (apply elem_of_cons in Hc as [->|Hc]; [vm_compute; discriminate|]).
    by apply elem_of_nil in Hc.
  - reflexivity.
Defined.

(** The limiter delays no more than it must: a call is granted at the later of its
    own clock and the end of the transfers granted before it. In particular no call of
    an idle limiter waits, and the burst allowance its comments describe is never
    granted. *)
Theorem acquire_work_conserving rl n now start rl' :
  rl_ok rl → acquire rl n now = (Some start, rl') →
  start = Z.max (next_time rl) now ∧ next_time rl' = start + div_rate_to_nanos n (rate rl) ∧
  (∀ now2, now <= now2 → acquire_returns (Some start) now2 = Z.max (next_time rl) now2).
Proof.
  intros Hok Hacq. destruct (acquire_grant _ _ _ _ _ Hok Hacq) as [-> ->].
  split_and!; [done|done|]. intros now2 Hnow. unfold acquire_returns.
  destruct (Z.gtb_spec (Z.max (next_time rl) now) now2); lia.
Qed.

Lemma acquire_work_conserving_witness :
  let rl := {| rate := 10; next_time := 100; burst := 5242880 |} in
  acquire rl 5 40 = (Some 100, {| rate := 10; next_time := 500000100; burst := 5242880 |})
  ∧ 100 = Z.max 100 40.
Proof.
  cbv zeta. split; [reflexivity|].
  refine (proj1 (acquire_work_conserving {| rate := 10; next_time := 100; burst := 5242880 |} 5 40
    100 {| rate := 10; next_time := 500000100; burst := 5242880 |} _ _)).
  - split; simpl; lia.
  - reflexivity.
Defined.
