(* ===== verification/Rlimit.v ===== *)
(** * File-descriptor limits (src/src/rlimit.rs)

    [getrlimit] and [setrlimit] are system calls, parameters of the model. *)

From S2P Require Import Prelude RustStr.

Local Open Scope Z_scope.

Definition FD_HEADROOM : Z := 64.

Definition needed_descriptors (numworkers concurrency : Z) : Z :=
  let numworkers := Z.max numworkers 1 in
  let per_worker := sat_add_u64 (Z.max concurrency 1) 1 in
  sat_add_u64 (sat_mul_u64 numworkers per_worker) FD_HEADROOM.

Definition nofile_warning (soft needed : Z) : option str :=
  if soft >=? needed then None
  else Some
    ($"warning: open-file limit RLIMIT_NOFILE (soft = " ++ to_string soft
     ++ $") is below the estimated " ++ to_string needed
     ++ $" file descriptors needed for the current parallelism; you may hit "
     ++ ["034"%char] ++ $"Too many open files" ++ ["034"%char]
     ++ $" (EMFILE) errors. Raise it with `ulimit -n " ++ to_string needed
     ++ $"` (or higher), or reduce --numworkers/--concurrency.").

Definition EMFILE_HINT : str :=
  $"the OS open-file limit (RLIMIT_NOFILE) was exhausted; raise it with `ulimit -n <N>` or reduce --numworkers/--concurrency".

Definition RLIM_INFINITY : Z := u64_max.
Definition norm (v : Z) : Z := if v =? RLIM_INFINITY then u64_max else v.
Definition denorm (v : Z) : Z := if v =? u64_max then RLIM_INFINITY else v.

(** The system calls: a kernel state, [getrlimit] and [setrlimit] of
    [RLIMIT_NOFILE]; [None] and [false] are a non-zero return code. *)
Class RlimitSys (K : Type) := {
  getrlimit : K → option (Z * Z);
  setrlimit : Z → Z → K → bool * K;
}.

Section Setup.
Context `{RlimitSys K}.

Definition get_nofile (k : K) : option (Z * Z) :=
  match getrlimit k with
  | None => None
  | Some (c, m) => Some (norm c, norm m)
  end.

Definition set_nofile (soft hard : Z) (k : K) : bool * K := setrlimit (denorm soft) (denorm hard) k.

(** [setup_nofile_limits]: the lines printed to stderr, and the kernel after. *)
Definition setup_nofile_limits (numworkers concurrency : Z) (k : K) : list str * K :=
  match get_nofile k with
  | None => ([], k)
  | Some (soft, hard) =>
      let '(effective_soft, k) :=
        if soft <? hard then
          let '(ok, k) := set_nofile hard hard k in
          if ok then (hard, k)
          else match get_nofile k with
               | Some (new_soft, _) => (new_soft, k)
               | None => (soft, k)
               end
        else (soft, k) in
      let needed := needed_descriptors numworkers concurrency in
      match nofile_warning effective_soft needed with
      | Some msg => ([msg], k)
      | None => ([], k)
      end
  end.
End Setup.

(** What POSIX documents of the two calls. *)
Class RlimitLaws (K : Type) `{RlimitSys K} := {
  getrlimit_range : ∀ k s h, getrlimit k = Some (s, h) → 0 <= s <= h ∧ h <= u64_max;
  setrlimit_ok : ∀ s h k k', setrlimit s h k = (true, k') → getrlimit k' = Some (s, h);
  setrlimit_fail : ∀ s h k k', setrlimit s h k = (false, k') → getrlimit k' = getrlimit k;
}.

Lemma norm_id v : norm v = v.
Proof. unfold norm, RLIM_INFINITY. destruct (Z.eqb_spec v u64_max); congruence. Qed.

Lemma denorm_id v : denorm v = v.
Proof. unfold denorm, RLIM_INFINITY. destruct (Z.eqb_spec v u64_max); congruence. Qed.

Lemma get_nofile_getrlimit `{RlimitSys K} (k : K) : get_nofile k = getrlimit k.
Proof. unfold get_nofile. destruct (getrlimit k) as [[s h]|]; [|done]. by rewrite !norm_id. Qed.

(** [needed_descriptors] is the exact estimate
    [max workers 1 * (max concurrency 1 + 1) + 64] wherever that fits a [u64], and saturates otherwise;
    it never wraps. *)
Theorem needed_descriptors_exact w c :
  in_u64 w → in_u64 c →
  needed_descriptors w c = Z.min (Z.max w 1 * (Z.max c 1 + 1) + 64) u64_max.
Proof.
  unfold in_u64, needed_descriptors, sat_add_u64, sat_mul_u64, FD_HEADROOM. intros Hw Hc.
  set (w' := Z.max w 1). set (c' := Z.max c 1).
  assert (1 <= w' <= u64_max) by (unfold w', u64_max in *; lia).
  assert (1 <= c' <= u64_max) by (unfold c', u64_max in *; lia). clearbody w' c'.
  destruct (Z.min_spec (c' + 1) u64_max) as [[? ->]|[? ->]]; [|nia].
  destruct (Z.min_spec (w' * (c' + 1)) u64_max) as [[? ->]|[? ->]]; [done|nia].
Qed.

Lemma needed_descriptors_exact_witness :
  in_u64 256 ∧ in_u64 5 ∧ needed_descriptors 256 5 = Z.min (256 * 6 + 64) u64_max.
Proof.
  split; [split; vm_compute; discriminate|]. split; [split; vm_compute; discriminate|].
  apply (needed_descriptors_exact 256 5); split; vm_compute; discriminate.
Defined.

Lemma nofile_warning_None soft needed : nofile_warning soft needed = None ↔ needed <= soft.
Proof. unfold nofile_warning. destruct (Z.geb_spec soft needed); naive_solver lia. Qed.

(** Start-up never lowers the soft limit, and prints one warning exactly when the
    limit in force afterwards is below the estimate. *)
Theorem setup_nofile_limits_spec `{RlimitLaws K} w c (k k' : K) soft hard out :
  getrlimit k = Some (soft, hard) → setup_nofile_limits w c k = (out, k') →
  ∃ soft' hard', getrlimit k' = Some (soft', hard') ∧ soft <= soft' ∧
    (out = [] ↔ needed_descriptors w c <= soft') ∧ (length out <= 1)%nat.
Proof.
  intros Hget. unfold setup_nofile_limits. rewrite get_nofile_getrlimit, Hget.
  assert (Hout : ∀ e (k1 : K), match nofile_warning e (needed_descriptors w c) with
                        | Some msg => ([msg], k1) | None => ([], k1) end = (out, k') →
                   k' = k1 ∧ (out = [] ↔ needed_descriptors w c <= e) ∧ (length out <= 1)%nat).
  { intros e k1. rewrite <-nofile_warning_None.
    destruct (nofile_warning e _); intros [= <- <-]; naive_solver. }
  pose proof (getrlimit_range _ _ _ Hget) as [Hr _].
  destruct (Z.ltb_spec soft hard).
  - destruct (set_nofile hard hard k) as [ok k1] eqn:Hset. unfold set_nofile in Hset.
    rewrite denorm_id in Hset. destruct ok.
    + intros (-> & Hw & Hl)%Hout. exists hard, hard.
      split; [by eapply setrlimit_ok|]. split; [lia|by split].
    + apply setrlimit_fail in Hset. rewrite get_nofile_getrlimit, Hset, Hget.
      intros (-> & Hw & Hl)%Hout. exists soft, hard. split; [congruence|]. split; [lia|by split].
  - intros (-> & Hw & Hl)%Hout. exists soft, hard. split; [done|]. split; [lia|by split].
Qed.

(** A kernel that allows any soft limit up to the hard one. *)
#[export] Instance posix_rlimit : RlimitSys (Z * Z) := {
  getrlimit k := if bool_decide (0 <= k.1 <= k.2 ∧ k.2 <= u64_max) then Some k else None;
  setrlimit s h k := if bool_decide (0 <= s <= h ∧ h <= k.2 ∧ h <= u64_max) then (true, (s, h)) else (false, k);
}.

#[export] Instance posix_rlimit_laws : RlimitLaws (Z * Z).
Proof.
  constructor; intros s h; cbn.
  - intros ?. case_bool_decide; [|done]. intros [= ->]. simpl in *. lia.
  - intros k k'. case_bool_decide; [|done]. intros [= <-]. simpl. rewrite bool_decide_true; [done|lia].
  - intros k k'. case_bool_decide; [done|]. by intros [= <-].
Qed.

Lemma setup_nofile_limits_witness :
  ∃ out k', setup_nofile_limits 256 8 (1024, 4096) = (out, k') ∧
  ∃ soft' hard', getrlimit k' = Some (soft', hard') ∧ 1024 <= soft' ∧
    (out = [] ↔ needed_descriptors 256 8 <= soft') ∧ (length out <= 1)%nat.
Proof.
  exists [], (4096, 4096). split; [vm_compute; reflexivity|].
  apply (setup_nofile_limits_spec 256 8 (1024, 4096) (4096, 4096) 1024 4096 []);
    vm_compute; reflexivity.
Defined.
