(* ===== verification/Storage.v ===== *)
(** * The storage data model (src/src/storage/mod.rs) and errors (src/src/error.rs)

    [SystemTime] is nanoseconds since the Unix epoch.  An [anyhow::Error] is its
    chain: the messages from the outermost context to the root cause, each with
    its raw OS error number if it is an I/O error. *)

From S2P Require Import Prelude RustStr Strutil Url RateLimit Rlimit.

Local Open Scope Z_scope.

(** ** Errors *)

(** The Rust type of a cause, as far as the program downcasts to it. *)
Inductive ErrorType :=
  | Untyped
  | TObjectNotFound
  | TNoObjectFound
  | TPreconditionFailed
  | TDirNotEmpty
  | TAlreadyExists
  | THttpStatus (status : Z).

#[export] Instance ErrorType_eq_dec : EqDecision ErrorType.
Proof. solve_decision. Defined.

Record cause := {
  message : str;
  raw_os_error : option Z;
  err_type : ErrorType;
}.
Definition Error : Type := cause * list cause.

Definition chain (e : Error) : list cause := fst e :: snd e.
(** [anyhow!(msg)], [e.context(msg)], [{e}] and [{e:#}]. *)
Definition typed_error (t : ErrorType) (msg : str) : Error :=
  ({| message := msg; raw_os_error := None; err_type := t |}, []).
Definition anyhow (msg : str) : Error := typed_error Untyped msg.
Definition context (msg : str) (e : Error) : Error :=
  ({| message := msg; raw_os_error := None; err_type := Untyped |}, chain e).
Definition show_error (e : Error) : str := message (fst e).
Definition show_error_alt (e : Error) : str := join ($": ") (map message (chain e)).

(** [e.downcast_ref::<T>().is_some()]. *)
Definition is_type (t : ErrorType) (e : Error) : bool :=
  existsb (λ c, bool_decide (err_type c = t)) (chain e).

Definition ObjectNotFound (u : str) : Error :=
  typed_error TObjectNotFound ($"given object " ++ u ++ $" not found").
Definition NoObjectFound : Error := typed_error TNoObjectFound ($"no object found").
Definition PreconditionFailedError (u : str) : Error :=
  typed_error TPreconditionFailed ($"object already exists, skipped: " ++ u).

Definition is_not_found (e : Error) : bool := is_type TObjectNotFound e.
Definition is_no_object (e : Error) : bool := is_type TNoObjectFound e.
Definition is_precondition_failed (e : Error) : bool := is_type TPreconditionFailed e.

Inductive Warning :=
  | ObjectExists
  | ObjectIsNewer
  | ObjectSizesMatch
  | ObjectIsNewerAndSizesMatch
  | ObjectIsGlacier.

Definition show_warning (w : Warning) : str :=
  match w with
  | ObjectExists => $"object already exists"
  | ObjectIsNewer => $"object is newer or same age"
  | ObjectSizesMatch => $"object size matches"
  | ObjectIsNewerAndSizesMatch => $"object is newer or same age and object size matches"
  | ObjectIsGlacier => $"object is in Glacier storage class"
  end.

(** No letter of [cancel] is the lower case of a non-ASCII character. *)
Definition is_cancellation (e : Error) : bool :=
  existsb (λ c, contains ($"cancel") (to_ascii_lowercase (message c))) (chain e).

Definition EMFILE : Z := 24.

Definition is_emfile (e : Error) : bool :=
  existsb (λ c, bool_decide (raw_os_error c = Some EMFILE)) (chain e).

Definition format_error (e : Error) : str :=
  let base := show_error_alt e in
  if is_emfile e then base ++ $" (" ++ EMFILE_HINT ++ $")" else base.

Section Storage.
Context `{RegexLib}.

Record JobError := { op : str; src : option Url; dst : option Url; err : Error }.

Definition full_command (e : JobError) : str :=
  let s := default [] (option_map show_url (src e)) in
  let d := default [] (option_map show_url (dst e)) in
  trim (op e ++ $" " ++ s ++ $" " ++ d).

(** ** Objects *)

Inductive ObjectType := File | Dir | Symlink | Unknown.

Definition is_dir (t : ObjectType) : bool := match t with Dir => true | _ => false end.
Definition is_symlink (t : ObjectType) : bool := match t with Symlink => true | _ => false end.
Definition is_regular (t : ObjectType) : bool := match t with File => true | _ => false end.

Definition show_type (t : ObjectType) : str :=
  match t with
  | File => $"file" | Dir => $"directory" | Symlink => $"symlink" | Unknown => []
  end.

Record StorageClass := { class_name : str }.
Definition is_glacier (c : StorageClass) : bool := bool_decide (class_name c = $"GLACIER").

Record Object := {
  url : option Url;
  etag : str;
  mod_time : option Z;
  typ : ObjectType;
  size : Z;
  storage_class : StorageClass;
  is_delete_marker : bool;
  obj_err : option Error;
}.

Definition Object_default : Object :=
  {| url := None; etag := []; mod_time := None; typ := Unknown; size := 0;
     storage_class := {| class_name := [] |}; is_delete_marker := false; obj_err := None |}.

Definition with_error (e : Error) : Object :=
  {| url := None; etag := []; mod_time := None; typ := Unknown; size := 0;
     storage_class := {| class_name := [] |}; is_delete_marker := false; obj_err := Some e |}.

Definition show_object (o : Object) : str :=
  match url o with Some u => show_url u | None => [] end.

(** The error a listing reports first, and what it sent before. *)
Fixpoint first_error (objs : list Object) : option Error :=
  match objs with
  | [] => None
  | o :: objs => match obj_err o with Some e => Some e | None => first_error objs end
  end.

Fixpoint before_error (objs : list Object) : list Object :=
  match objs with
  | [] => []
  | o :: objs => match obj_err o with Some _ => [] | None => o :: before_error objs end
  end.

Lemma before_error_all objs : first_error objs = None → before_error objs = objs.
Proof. induction objs as [|o objs IH]; [done|]. cbn. destruct (obj_err o); [done|]. intros Hn. by rewrite IH. Qed.
End Storage.

Record Bucket := { creation_date : option Z; bucket_name : str }.

Record Metadata := {
  acl : option str;
  cache_control : option str;
  expires : option str;
  md_storage_class : option str;
  content_type : option str;
  content_encoding : option str;
  content_disposition : option str;
  encryption_method : option str;
  encryption_key_id : option str;
  user_defined : gmap (list ascii) str;
  directive : option str;
  if_none_match : bool;
}.

Definition Metadata_default : Metadata :=
  {| acl := None; cache_control := None; expires := None; md_storage_class := None;
     content_type := None; content_encoding := None; content_disposition := None;
     encryption_method := None; encryption_key_id := None; user_defined := ∅;
     directive := None; if_none_match := false |}.

(** ** Options and the two sides of a transfer *)

Record Options := {
  max_retries : Z;
  endpoint : option str;
  no_verify_ssl : bool;
  dry_run : bool;
  no_sign_request : bool;
  use_list_objects_v1 : bool;
  request_payer : option str;
  profile : option str;
  region : option str;
  source_region : option str;
  destination_region : option str;
  source_endpoint : option str;
  destination_endpoint : option str;
  proxy : option str;
  addressing_style : option str;
  ca_certs_file : option str;
  use_dualstack_endpoint : bool;
  use_fips_endpoint : bool;
  part_size : Z;
  concurrency : Z;
  preserve_timestamps : bool;
  client_copy : bool;
  remove_empty_dirs : bool;
  upload_limiter : option RateLimiter;
  download_limiter : option RateLimiter;
}.

Definition DEFAULT_PART_SIZE : Z := 8 * 1024 * 1024.
Definition DEFAULT_CONCURRENCY : Z := 8.

Definition Options_default : Options :=
  {| max_retries := 0; endpoint := None; no_verify_ssl := false; dry_run := false;
     no_sign_request := false; use_list_objects_v1 := false; request_payer := None;
     profile := None; region := None; source_region := None; destination_region := None;
     source_endpoint := None; destination_endpoint := None; proxy := None;
     addressing_style := None; ca_certs_file := None; use_dualstack_endpoint := false;
     use_fips_endpoint := false; part_size := DEFAULT_PART_SIZE;
     concurrency := DEFAULT_CONCURRENCY; preserve_timestamps := false; client_copy := false;
     remove_empty_dirs := false; upload_limiter := None; download_limiter := None |}.

Inductive Side := Source | Destination.

(** [opt.clone().filter(|s| !s.is_empty()).or_else(|| shared.clone())]. *)
Definition per_side_or (per_side shared : option str) : option str :=
  match per_side with
  | Some s => if decide (s = []) then shared else Some s
  | None => shared
  end.

Definition region_for (o : Options) (s : Side) : option str :=
  per_side_or (match s with Source => source_region o | Destination => destination_region o end)
    (region o).

Definition endpoint_for (o : Options) (s : Side) : option str :=
  per_side_or (match s with Source => source_endpoint o | Destination => destination_endpoint o end)
    (endpoint o).

Definition for_side (o : Options) (s : Side) : Options :=
  {| max_retries := max_retries o; endpoint := endpoint_for o s; no_verify_ssl := no_verify_ssl o;
     dry_run := dry_run o; no_sign_request := no_sign_request o;
     use_list_objects_v1 := use_list_objects_v1 o; request_payer := request_payer o;
     profile := profile o; region := region_for o s; source_region := source_region o;
     destination_region := destination_region o; source_endpoint := source_endpoint o;
     destination_endpoint := destination_endpoint o; proxy := proxy o;
     addressing_style := addressing_style o; ca_certs_file := ca_certs_file o;
     use_dualstack_endpoint := use_dualstack_endpoint o; use_fips_endpoint := use_fips_endpoint o;
     part_size := part_size o; concurrency := concurrency o;
     preserve_timestamps := preserve_timestamps o; client_copy := client_copy o;
     remove_empty_dirs := remove_empty_dirs o; upload_limiter := upload_limiter o;
     download_limiter := download_limiter o |}.

Definition sides_differ (o : Options) : bool :=
  negb (bool_decide (region_for o Source = region_for o Destination))
  || negb (bool_decide (endpoint_for o Source = endpoint_for o Destination)).

Definition MTIME_METADATA_KEY : str := $"file-mtime".

(** ** Lemmas and theorems *)

Lemma per_side_or_same x y : per_side_or x (per_side_or x y) = per_side_or x y.
Proof. destruct x as [s|]; simpl; [|done]. by repeat case_decide. Qed.

(** No per-side override is set. *)
Definition no_overrides (o : Options) : Prop :=
  Forall (λ x, x = None ∨ x = Some [])
    [source_region o; destination_region o; source_endpoint o; destination_endpoint o].

Lemma per_side_or_unset x y : x = None ∨ x = Some [] → per_side_or x y = y.
Proof. by intros [->| ->]. Qed.

(** Resolving a side anchors the client there: [for_side] makes the shared region and
    endpoint those of the side and is idempotent; the sides differ exactly when the
    two resolved clients would be anchored differently; and without overrides every
    side is the shared one, so the sides do not differ. *)
Theorem for_side_spec o :
  (∀ s, region (for_side o s) = region_for o s ∧ endpoint (for_side o s) = endpoint_for o s ∧
        for_side (for_side o s) s = for_side o s) ∧
  (sides_differ o = true ↔
     region (for_side o Source) ≠ region (for_side o Destination) ∨
     endpoint (for_side o Source) ≠ endpoint (for_side o Destination)) ∧
  (no_overrides o → sides_differ o = false ∧ ∀ s, region_for o s = region o ∧ endpoint_for o s = endpoint o).
Proof.
  split; [|split].
  - intros s. split; [done|]. split; [done|]. unfold for_side, region_for, endpoint_for. simpl.
    by destruct s; rewrite !per_side_or_same.
  - unfold sides_differ, for_side. simpl.
    rewrite orb_true_iff, !negb_true_iff, !bool_decide_eq_false. done.
  - unfold no_overrides. rewrite !Forall_cons. intros (H1 & H2 & H3 & H4 & _).
    unfold sides_differ, region_for, endpoint_for. rewrite !per_side_or_unset by done.
    rewrite !bool_decide_true by done. split; [done|]. intros []; by rewrite !per_side_or_unset.
Qed.

Lemma for_side_spec_witness :
  no_overrides Options_default ∧ sides_differ Options_default = false.
Proof.
  assert (Hno : no_overrides Options_default) by (repeat constructor).
  split; [exact Hno|]. exact (proj1 (proj2 (proj2 (for_side_spec Options_default)) Hno)).
Defined.

Lemma show_error_alt_context m e : show_error_alt (context m e) = m ++ $": " ++ show_error_alt e.
Proof. by destruct e. Qed.

(** The descriptor hint is printed exactly for the errors an exhausted descriptor
    table caused, however many contexts wrap the cause, and the message of the error
    itself always comes first. *)
Theorem format_error_spec e ms :
  let wrapped := foldr context e ms in
  format_error wrapped =
    foldr (λ m r, m ++ $": " ++ r) [] ms ++ show_error_alt e ++
    (if is_emfile e then $" (" ++ EMFILE_HINT ++ $")" else []).
Proof.
  cbv zeta.
  assert (Hem : is_emfile (foldr context e ms) = is_emfile e).
  { induction ms as [|m ms IH]; [done|]. rewrite <-IH. cbn [foldr].
    destruct (foldr context e ms). done. }
  assert (Hsh : show_error_alt (foldr context e ms)
                = foldr (λ m r, m ++ $": " ++ r) [] ms ++ show_error_alt e).
  { clear Hem. induction ms as [|m ms IH]; [done|]. cbn [foldr].
    rewrite show_error_alt_context, IH. by rewrite <-!app_assoc. }
  unfold format_error. rewrite Hem, Hsh.
  destruct (is_emfile e); [|by rewrite app_nil_r]. by rewrite <-!app_assoc.
Qed.
