(* ===== verification/Pool.v ===== *)
(** * The bounded worker pool

    cp, mv and sync spawn one task per job in a [JoinSet] bounded to [workers]
    (src/src/command/cp.rs, and twice in src/src/command/sync.rs); run keeps its lines
    in a [FuturesUnordered] of the same size (src/src/command/run.rs). The pool is a step function; a schedule is the
    list of its choices. A task's effect is taken at one instant between its
    spawn and its join, and [join_next] returns any task that has finished. *)

From S2P Require Import Prelude.

Section Pool.
Context {Job Res Acc World : Type}.
(** One task, the report of its result, and the test that stops the loop. *)
Context (exec : Job → World → Res * World) (report : Job → Res → Acc → Acc).
Context (stop : Acc → bool) (workers : nat).

Record pool := {
  todo : list Job;
  running : list (Job * option Res);
  acc : Acc;
  world : World;
  executed : list (Job * Res);
  reported : list (Job * Res);
  dropped : list Job;
}.

Definition pool_init (jobs : list Job) (a : Acc) (w : World) : pool :=
  {| todo := jobs; running := []; acc := a; world := w; executed := []; reported := []; dropped := [] |}.

Definition pool_final (p : pool) : Prop := todo p = [] ∧ running p = [].

Inductive choice := Spawn | Exec (i : nat) | Join (i : nat).

(** The loop head: with room for a task, leave the loop if stopped, else spawn. *)
Definition spawn_task (p : pool) : option pool :=
  match todo p with
  | [] => None
  | j :: rest =>
      if length (running p) <? workers then
        if stop (acc p) then
          Some {| todo := []; running := running p; acc := acc p; world := world p;
                  executed := executed p; reported := reported p; dropped := dropped p ++ j :: rest |}
        else
          Some {| todo := rest; running := running p ++ [(j, None)]; acc := acc p; world := world p;
                  executed := executed p; reported := reported p; dropped := dropped p |}
      else None
  end.

(** A spawned task runs. *)
Definition exec_task (i : nat) (p : pool) : option pool :=
  match running p !! i with
  | Some (j, None) =>
      let '(r, w) := exec j (world p) in
      Some {| todo := todo p; running := <[i := (j, Some r)]> (running p); acc := acc p; world := w;
              executed := executed p ++ [(j, r)]; reported := reported p; dropped := dropped p |}
  | _ => None
  end.

(** [join_next]: awaited when the set is full, and when draining it after the loop; in the
    loop a stop is tested right after the report. *)
Definition join_task (i : nat) (p : pool) : option pool :=
  match running p !! i with
  | Some (j, Some r) =>
      let a := report j r (acc p) in
      let running' := delete i (running p) in
      match todo p with
      | [] =>
          Some {| todo := []; running := running'; acc := a; world := world p;
                  executed := executed p; reported := reported p ++ [(j, r)]; dropped := dropped p |}
      | t =>
          if workers <=? length (running p) then
            if stop a then
              Some {| todo := []; running := running'; acc := a; world := world p;
                      executed := executed p; reported := reported p ++ [(j, r)]; dropped := dropped p ++ t |}
            else
              Some {| todo := t; running := running'; acc := a; world := world p;
                      executed := executed p; reported := reported p ++ [(j, r)]; dropped := dropped p |}
          else None
      end
  | _ => None
  end.

Definition pool_step (c : choice) (p : pool) : option pool :=
  match c with Spawn => spawn_task p | Exec i => exec_task i p | Join i => join_task i p end.

Fixpoint pool_run (cs : list choice) (p : pool) : option pool :=
  match cs with
  | [] => Some p
  | c :: cs => match pool_step c p with Some p' => pool_run cs p' | None => None end
  end.

(** Sequential execution of a list of jobs, for comparison. *)
Fixpoint exec_all (js : list Job) (w : World) : list (Job * Res) * World :=
  match js with
  | [] => ([], w)
  | j :: js => let '(r, w) := exec j w in
               let '(l, w) := exec_all js w in ((j, r) :: l, w)
  end.

Definition report_all (l : list (Job * Res)) (a : Acc) : Acc :=
  foldl (λ a jr, report (fst jr) (snd jr) a) a l.

(** ** The invariant *)

Definition finished (p : pool) : list (Job * Res) :=
  omap (λ jr, match snd jr with Some r => Some (fst jr, r) | None => None end) (running p).

Record pool_inv (jobs : list Job) (a0 : Acc) (w0 : World) (p : pool) : Prop := {
  inv_bound : length (running p) <= workers;
  (** every job is in exactly one place *)
  inv_jobs : jobs ≡ₚ map fst (reported p) ++ map fst (running p) ++ todo p ++ dropped p;
  (** what ran is what is finished or reported *)
  inv_exec : executed p ≡ₚ reported p ++ finished p;
  inv_world : exec_all (map fst (executed p)) w0 = (executed p, world p);
  inv_acc : acc p = report_all (reported p) a0;
  (** jobs are dropped only by a stop *)
  inv_drop : dropped p ≠ [] → todo p = [] ∧ ∃ pre, pre `prefix_of` reported p ∧ stop (report_all pre a0) = true;
}.

Lemma exec_all_snoc js j w :
  exec_all (js ++ [j]) w =
    let '(l, w1) := exec_all js w in let '(r, w2) := exec j w1 in (l ++ [(j, r)], w2).
Proof.
  revert w. induction js as [|j' js IH]; intros w; simpl.
  - by destruct (exec j w).
  - destruct (exec j' w) as [r1 w1]. rewrite IH. destruct (exec_all js w1) as [l w2].
    by destruct (exec j w2).
Qed.

Lemma report_all_snoc l j r a : report_all (l ++ [(j, r)]) a = report j r (report_all l a).
Proof. unfold report_all. by rewrite foldl_app. Qed.

Lemma pool_init_inv jobs a w : pool_inv jobs a w (pool_init jobs a w).
Proof. constructor; simpl; try done; try lia. by rewrite app_nil_r. Qed.

Lemma map_fst_insert i j (r0 r : option Res) (l : list (Job * option Res)) :
  l !! i = Some (j, r0) → map fst (<[i := (j, r)]> l) = map fst l.
Proof.
  intros Hi. change (@map (Job * option Res) Job fst) with (@fmap list _ (Job * option Res) Job fst).
  rewrite list_fmap_insert. apply list_insert_id. rewrite list_lookup_fmap, Hi. done.
Qed.

Lemma finished_insert i j r (p : pool) :
  running p !! i = Some (j, None) →
  omap (λ jr : Job * option Res, match snd jr with Some r => Some (fst jr, r) | None => None end)
    (<[i := (j, Some r)]> (running p)) ≡ₚ (j, r) :: finished p.
Proof.
  intros Hi. unfold finished.
  rewrite <-(take_drop_middle (running p) i (j, None)) by done.
  assert (Hlen : length (take i (running p)) = i).
  { apply lookup_lt_Some in Hi. rewrite length_take. lia. }
  rewrite insert_app_r_alt by lia. rewrite Hlen, Nat.sub_diag. cbn [insert list_insert].
  rewrite !omap_app. simpl. by rewrite Permutation_middle.
Qed.

Lemma delete_perm {A} (l : list A) i x : l !! i = Some x → l ≡ₚ x :: delete i l.
Proof.
  intros Hi. rewrite <-(take_drop_middle l i x) at 1 by done. rewrite delete_take_drop.
  by rewrite <-Permutation_middle.
Qed.

Lemma spawn_inv jobs a w p p' : pool_inv jobs a w p → spawn_task p = Some p' → pool_inv jobs a w p'.
Proof.
  intros [Hb Hj He Hw Ha Hd]. unfold spawn_task. destruct (todo p) as [|j rest] eqn:Ht; [done|].
  destruct (Nat.ltb_spec (length (running p)) workers); [|done].
  destruct (stop (acc p)) eqn:Hs; intros [= <-]; constructor; cbn; try done.
  - rewrite Hj. by rewrite (Permutation_app_comm (j :: rest) (dropped p)).
  - intros _. split; [done|]. exists (reported p). by rewrite <-Ha.
  - rewrite length_app. simpl. lia.
  - rewrite Hj, map_app. simpl. rewrite <-!app_assoc. done.
  - rewrite He. unfold finished. cbn. by rewrite omap_app, app_nil_r.
  - intros [Hn _]%Hd. by rewrite Hn in Ht.
Qed.

Lemma exec_task_inv jobs a w i p p' :
  pool_inv jobs a w p → exec_task i p = Some p' → pool_inv jobs a w p'.
Proof.
  intros [Hb Hj He Hw Ha Hd]. unfold exec_task. destruct (running p !! i) as [[j [r|]]|] eqn:Hi; try done.
  destruct (exec j (world p)) as [r w'] eqn:Hex. intros [= <-]. constructor; cbn.
  - by rewrite length_insert.
  - by rewrite (map_fst_insert i j None).
  - unfold finished. cbn. rewrite finished_insert by done. rewrite He.
    rewrite <-app_assoc. apply Permutation_app_head. by rewrite Permutation_app_comm.
  - rewrite map_app. cbn [map fst]. rewrite exec_all_snoc, Hw, Hex. done.
  - done.
  - done.
Qed.

Lemma join_inv jobs a w i p p' : pool_inv jobs a w p → join_task i p = Some p' → pool_inv jobs a w p'.
Proof.
  intros [Hb Hj He Hw Ha Hd]. unfold join_task. destruct (running p !! i) as [[j [r|]]|] eqn:Hi; try done.
  assert (Hlen : length (delete i (running p)) <= workers).
  { rewrite length_delete by eauto. lia. }
  assert (Hjobs : map fst (running p) ≡ₚ j :: map fst (delete i (running p))).
  { by rewrite (delete_perm _ _ _ Hi) at 1. }
  assert (Hfin : finished p ≡ₚ (j, r) :: omap (λ jr : Job * option Res,
             match snd jr with Some r => Some (fst jr, r) | None => None end) (delete i (running p))).
  { unfold finished. rewrite (delete_perm _ _ _ Hi) at 1. done. }
  assert (Hex' : executed p ≡ₚ (reported p ++ [(j, r)]) ++ omap (λ jr : Job * option Res,
             match snd jr with Some r => Some (fst jr, r) | None => None end) (delete i (running p))).
  { rewrite He, Hfin, <-app_assoc. done. }
  assert (Hacc : report j r (acc p) = report_all (reported p ++ [(j, r)]) a).
  { by rewrite report_all_snoc, <-Ha. }
  assert (Hj' : ∀ t d, jobs ≡ₚ map fst (reported p) ++ map fst (running p) ++ t ++ d →
            jobs ≡ₚ map fst (reported p ++ [(j, r)]) ++ map fst (delete i (running p)) ++ t ++ d).
  { intros t d ->. rewrite map_app, Hjobs, <-app_assoc. done. }
  destruct (todo p) as [|t0 t] eqn:Ht.
  - intros [= <-]. constructor; cbn; try done; [by apply (Hj' [])|].
    intros Hn. destruct (Hd Hn) as (_ & pre & Hpre & Hst). split; [done|]. exists pre.
    split; [by apply prefix_app_r|done].
  - destruct (workers <=? _); [|done]. destruct (stop _) eqn:Hs; intros [= <-]; constructor; cbn; try done.
    + apply (Hj' [] (dropped p ++ t0 :: t)). rewrite Hj. cbn [app].
      by rewrite (Permutation_app_comm (dropped p)).
    + intros _. split; [done|]. exists (reported p ++ [(j, r)]). by rewrite <-Hacc.
    + by apply (Hj' (t0 :: t)).
    + intros [Hn _]%Hd. done.
Qed.

Lemma pool_step_inv jobs a w c p p' :
  pool_inv jobs a w p → pool_step c p = Some p' → pool_inv jobs a w p'.
Proof. destruct c; simpl; [apply spawn_inv|apply exec_task_inv|apply join_inv]. Qed.

Lemma pool_run_inv jobs a w cs p p' :
  pool_inv jobs a w p → pool_run cs p = Some p' → pool_inv jobs a w p'.
Proof.
  revert p. induction cs as [|c cs IH]; intros p Hp; simpl; [by intros [= <-]|].
  destruct (pool_step c p) eqn:Hc; [|done]. intros Hr. eapply IH; [|done]. by eapply pool_step_inv.
Qed.

Lemma pool_run_app cs1 cs2 p :
  pool_run (cs1 ++ cs2) p = match pool_run cs1 p with Some p' => pool_run cs2 p' | None => None end.
Proof. revert p. induction cs1; intros p; simpl; [done|]. by destruct (pool_step _ p). Qed.

(** ** Progress and termination *)

Definition weight (jr : Job * option Res) : nat := match snd jr with None => 2 | Some _ => 1 end.
Definition pool_measure (p : pool) : nat :=
  3 * length (todo p) + sum_list (map weight (running p)).

Lemma sum_list_app l1 l2 : sum_list (l1 ++ l2) = sum_list l1 + sum_list l2.
Proof. induction l1; simpl; lia. Qed.

Lemma measure_delete i (jr : Job * option Res) l :
  l !! i = Some jr → sum_list (map weight l) = weight jr + sum_list (map weight (delete i l)).
Proof.
  revert i. induction l as [|x l IH]; intros [|i]; simpl; intros Hi; try done.
  - by injection Hi as ->.
  - rewrite (IH _ Hi). lia.
Qed.

Lemma measure_insert i j r (l : list (Job * option Res)) :
  l !! i = Some (j, None) →
  S (sum_list (map weight (<[i := (j, Some r)]> l))) = sum_list (map weight l).
Proof.
  revert i. induction l as [|x l IH]; intros [|i]; simpl; intros Hi; try done.
  - by injection Hi as ->.
  - rewrite <-(IH _ Hi). lia.
Qed.

Lemma pool_step_decreases c p p' : pool_step c p = Some p' → pool_measure p' < pool_measure p.
Proof.
  unfold pool_measure. destruct c as [|i|i]; simpl.
  - unfold spawn_task. destruct (todo p) as [|j rest] eqn:Ht; [done|]. destruct (_ <? _); [|done].
    destruct (stop _); intros [= <-]; simpl; [lia|].
    rewrite map_app, sum_list_app. cbn [map weight snd sum_list foldr]. unfold id. lia.
  - unfold exec_task. destruct (running p !! i) as [[j [r|]]|] eqn:Hi; try done.
    destruct (exec j (world p)) as [r w']. intros [= <-]. simpl.
    pose proof (measure_insert i j r _ Hi). lia.
  - unfold join_task. destruct (running p !! i) as [[j [r|]]|] eqn:Hi; try done.
    pose proof (measure_delete i _ _ Hi) as Hm. unfold weight at 2 in Hm. simpl in Hm.
    destruct (todo p) as [|t0 t]; [intros [= <-]; simpl; lia|].
    destruct (_ <=? _); [|done]. destruct (stop _); intros [= <-]; simpl in *; lia.
Qed.

Lemma pool_run_length cs p p' :
  pool_run cs p = Some p' → length cs + pool_measure p' <= pool_measure p.
Proof.
  revert p. induction cs as [|c cs IH]; intros p; simpl; [intros [= <-]; lia|].
  destruct (pool_step c p) eqn:Hc; [|done]. intros Hr%IH. apply pool_step_decreases in Hc. lia.
Qed.

(** A pool that is not done can take a step, whatever the state of its tasks. *)
Lemma pool_progress p :
  0 < workers → pool_final p ∨ ∃ c p', pool_step c p = Some p'.
Proof.
  intros Hw. destruct (running p) as [|[j [r|]] l] eqn:Hr.
  - destruct (todo p) as [|j rest] eqn:Ht; [by left|]. right. exists Spawn. simpl. unfold spawn_task.
    rewrite Ht, Hr. simpl. destruct workers; [lia|]. simpl. destruct (stop _); eauto.
  - right. destruct (todo p) as [|j' rest] eqn:Ht.
    + exists (Join 0). simpl. unfold join_task. rewrite Hr, Ht. simpl. eauto.
    + destruct (Nat.ltb_spec (length (running p)) workers) as [Hlt|Hge].
      * exists Spawn. simpl. unfold spawn_task. rewrite Ht.
        apply Nat.ltb_lt in Hlt as ->. destruct (stop _); eauto.
      * exists (Join 0). simpl. unfold join_task. apply Nat.leb_le in Hge. rewrite Hr, Ht in *.
        rewrite Hge. simpl. destruct (stop _); eauto.
  - right. exists (Exec 0). simpl. unfold exec_task. rewrite Hr. simpl.
    destruct (exec j (world p)). eauto.
Qed.

Lemma pool_completes p :
  0 < workers → ∃ cs p', pool_run cs p = Some p' ∧ pool_final p'.
Proof.
  intros Hw. remember (pool_measure p) as m eqn:Hm. revert p Hm.
  induction m as [m IH] using lt_wf_ind. intros p ->.
  destruct (pool_progress p Hw) as [Hf|(c & p' & Hc)]; [by exists [], p|].
  destruct (IH (pool_measure p') (pool_step_decreases _ _ _ Hc) p' eq_refl) as (cs & p'' & Hr & Hf).
  exists (c :: cs), p''. simpl. by rewrite Hc.
Qed.

(** ** What a completed run has done *)

Lemma pool_final_reported jobs a w cs p :
  pool_run cs (pool_init jobs a w) = Some p → pool_final p →
  executed p ≡ₚ reported p ∧ jobs ≡ₚ map fst (reported p) ++ dropped p ∧
  acc p = report_all (reported p) a ∧ exec_all (map fst (executed p)) w = (executed p, world p) ∧
  (dropped p ≠ [] → ∃ pre, pre `prefix_of` reported p ∧ stop (report_all pre a) = true).
Proof.
  intros Hrun [Ht Hr]. pose proof (pool_run_inv _ _ _ _ _ _ (pool_init_inv jobs a w) Hrun) as [Hb Hj He Hw Ha Hd].
  unfold finished in He. rewrite Hr in *. rewrite Ht in Hj. simpl in *. rewrite app_nil_r in He.
  split_and!; [done|done|done|done|]. intros Hne. by destruct (Hd Hne) as [_ ?].
Qed.

Lemma pool_final_all jobs a w cs p :
  (∀ l, l ⊆+ jobs → ∀ rs, map fst rs = l → stop (report_all rs a) = false) →
  pool_run cs (pool_init jobs a w) = Some p → pool_final p →
  jobs ≡ₚ map fst (reported p).
Proof.
  intros Hns Hrun Hf. destruct (pool_final_reported _ _ _ _ _ Hrun Hf) as (He & Hj & Ha & Hw & Hd).
  destruct (decide (dropped p = [])) as [Hn|Hne].
  - rewrite Hn, app_nil_r in Hj. done.
  - destruct (Hd Hne) as (pre & Hpre & Hst). exfalso.
    rewrite (Hns (map fst pre)) in Hst; [done| |done]. rewrite Hj.
    destruct Hpre as [k ->]. rewrite map_app, <-app_assoc. apply submseteq_inserts_r. done.
Qed.

(** ** What the jobs establish

    [inv] holds between the jobs, as long as their results are [ok]; each job establishes
    its [post], which no other job of the run undoes. *)

Section Establish.
Context (ok : Res → Prop) (jobs : list Job) (inv : World → Prop) (post : Job → World → Prop).
Hypothesis keeps : ∀ j w r w', j ∈ jobs → inv w → exec j w = (r, w') → ok r → inv w'.

Lemma exec_all_keeps js w rs w' :
  js ⊆ jobs → inv w → exec_all js w = (rs, w') → Forall (λ jr, ok (snd jr)) rs → inv w'.
Proof.
  revert w rs. induction js as [|j js IH]; intros w rs Hin Hw; cbn [exec_all]; [by intros [= _ <-]|].
  destruct (exec j w) as [r w1] eqn:Hj. destruct (exec_all js w1) as [rs1 w2] eqn:Hr. intros [= <- <-] [Hok Hall]%Forall_cons.
  apply (IH w1 rs1); [set_solver| |done|done]. apply (keeps j w r w1); [set_solver|done..].
Qed.

Hypothesis establishes : ∀ j w r w', j ∈ jobs → inv w → exec j w = (r, w') → ok r → post j w'.
Hypothesis stable : ∀ i j w r w', i ∈ jobs → j ∈ jobs → inv w → post j w → exec i w = (r, w') → ok r → post j w'.

Lemma exec_all_stable js j w rs w' :
  js ⊆ jobs → j ∈ jobs → inv w → post j w → exec_all js w = (rs, w') → Forall (λ jr, ok (snd jr)) rs → post j w'.
Proof.
  revert w rs. induction js as [|i js IH]; intros w rs Hin Hj Hw Hp; cbn [exec_all]; [by intros [= _ <-]|].
  destruct (exec i w) as [r w1] eqn:Hi. destruct (exec_all js w1) as [rs1 w2] eqn:Hr. intros [= <- <-] [Hok Hall]%Forall_cons.
  apply (IH w1 rs1); [set_solver|done|apply (keeps i w r w1)|apply (stable i j w r w1)|done|done]; done || set_solver.
Qed.

Lemma exec_all_establishes js w rs w' :
  js ⊆ jobs → inv w → exec_all js w = (rs, w') → Forall (λ jr, ok (snd jr)) rs → ∀ j, j ∈ js → post j w'.
Proof.
  revert w rs. induction js as [|i js IH]; intros w rs Hin Hw; cbn [exec_all]; [by intros _ _ j ?%elem_of_nil|].
  destruct (exec i w) as [r w1] eqn:Hi. destruct (exec_all js w1) as [rs1 w2] eqn:Hr. intros [= <- <-] [Hok Hall]%Forall_cons.
  assert (Hi' : i ∈ jobs) by set_solver. assert (Hjs : js ⊆ jobs) by set_solver.
  assert (Hw1 : inv w1) by by apply (keeps i w r w1).
  intros j [->|Hj]%elem_of_cons; [|by apply (IH w1 rs1)].
  apply (exec_all_stable js i w1 rs1 w2); [done..|by apply (establishes i w r w1)|done|done].
Qed.

Lemma pool_establishes a w cs p :
  pool_run cs (pool_init jobs a w) = Some p → pool_final p → inv w → Forall (λ jr, ok (snd jr)) (reported p) →
  inv (world p) ∧ (jobs ≡ₚ map fst (reported p) → ∀ j, j ∈ jobs → post j (world p)).
Proof.
  intros Hrun Hfin Hw Hall. destruct (pool_final_reported _ _ _ _ _ Hrun Hfin) as (He & Hj & _ & Hx & _).
  assert (Hsub : map fst (executed p) ⊆ jobs).
  { intros j Hin. rewrite Hj, elem_of_app. left. by rewrite <-He. }
  rewrite <-He in Hall. split; [by apply (exec_all_keeps _ _ _ _ Hsub Hw Hx)|].
  intros Hjobs j Hin. apply (exec_all_establishes _ _ _ _ Hsub Hw Hx Hall). by rewrite He, <-Hjobs.
Qed.
End Establish.
End Pool.

(** C10. The worker pool is correct under every schedule: at most [workers] tasks are in
    flight; every schedule is finite and can be completed; and a completed one has
    executed and reported every job exactly once, except those dropped by a stop that
    some report requested. The reports see the results of the executions, in a world
    that is a sequential execution of the jobs. *)
Theorem worker_pool_correct {Job Res A World : Type} (exec : Job → World → Res * World)
    (report : Job → Res → A → A) (stop : A → bool) workers jobs a w cs p :
  0 < workers →
  pool_run exec report stop workers cs (pool_init jobs a w) = Some p →
  length (running p) <= workers ∧ length cs <= 3 * length jobs ∧
  (∃ cs' p', pool_run exec report stop workers cs' p = Some p' ∧ pool_final p') ∧
  (pool_final p →
     executed p ≡ₚ reported p ∧ jobs ≡ₚ map fst (executed p) ++ dropped p ∧
     exec_all exec (map fst (executed p)) w = (executed p, world p) ∧
     acc p = report_all report (reported p) a ∧
     (dropped p ≠ [] → ∃ pre, pre `prefix_of` reported p ∧ stop (report_all report pre a) = true)).
Proof.
  intros Hw Hrun. split; [|split; [|split]].
  - eapply inv_bound, (pool_run_inv exec report stop workers jobs a w); [|exact Hrun].
    apply pool_init_inv.
  - apply pool_run_length in Hrun. unfold pool_init, pool_measure in Hrun. simpl in Hrun. lia.
  - by apply pool_completes.
  - intros Hf. destruct (pool_final_reported _ _ _ _ _ _ _ _ _ Hrun Hf) as (He & Hj & Ha & Hx & Hd).
    split_and!; [done| |done|done|done]. by rewrite He.
Qed.

(** Two workers, three jobs that count; the second task finishes first. *)
Definition sample_exec (j : nat) (w : nat) : nat * nat := (j + w, S w).
Definition sample_schedule : list choice :=
  [Spawn; Spawn; Exec 1; Join 1; Spawn; Exec 0; Exec 1; Join 1; Join 0].

Lemma worker_pool_correct_witness :
  ∃ p, pool_run sample_exec (λ _ r a, a + r) (λ _, false) 2 sample_schedule (pool_init [10; 20; 30] 0 0)
       = Some p ∧ pool_final p ∧ [10; 20; 30] ≡ₚ map fst (executed p) ++ dropped p.
Proof.
  eexists. split; [vm_compute; reflexivity|]. split; [done|].
  eapply (worker_pool_correct sample_exec (λ _ r a, a + r) (λ _, false) 2 [10; 20; 30] 0 0
            sample_schedule); [lia|vm_compute; reflexivity|done].
Defined.
