(* ===== verification/Fs.v ===== *)
(** * Storage backends and the local filesystem (src/src/storage/fs.rs)

    [M W] is the state and error monad of the commands over a world [W].  The
    operating system's file operations and the [walkdir] and [glob] crates are
    the class [Os]; the S3 backend is the class [S3Ops], the interface the
    commands use (src/src/storage/mod.rs, the [Storage] trait, and the further
    methods of [S3]). *)

From S2P Require Import Prelude RustStr Strutil Url Storage.

Local Open Scope Z_scope.

(** ** The monad *)

Definition M (W A : Type) : Type := W → result A Error * W.

Definition mret {W A} (a : A) : M W A := λ w, (Ok a, w).
Definition mfail {W A} (e : Error) : M W A := λ w, (Err e, w).
Definition mbind {W A B} (m : M W A) (f : A → M W B) : M W B := λ w,
  match m w with (Ok a, w') => f a w' | (Err e, w') => (Err e, w') end.
Definition mlift {W A} (r : result A Error) : M W A := λ w, (r, w).

Notation "'let!' x := m 'in' k" := (mbind m (λ x, k))
  (at level 10, x pattern, m at level 100, k at level 200) : rs_scope.

Lemma mbind_Ok {W A B} (m : M W A) (f : A → M W B) w b w' :
  mbind m f w = (Ok b, w') ↔ ∃ a w1, m w = (Ok a, w1) ∧ f a w1 = (Ok b, w').
Proof.
  unfold mbind. destruct (m w) as [[a|e] w1]; split.
  - eauto.
  - by intros (? & ? & [= -> ->] & ?).
  - done.
  - by intros (? & ? & [=] & _).
Qed.

(** [Debug] of a string: quotes and backslashes escaped, the ASCII controls as
    [\t], [\r], [\n], [\0] or [\u{x}]; other characters are kept. *)
Definition debug_char (c : ascii) : str :=
  let n := nat_of_ascii c in
  if decide (c = "034"%char) then [BS; c]
  else if decide (c = BS) then [BS; c]
  else if (n =? 9)%nat then [BS; "t"%char]
  else if (n =? 10)%nat then [BS; "n"%char]
  else if (n =? 13)%nat then [BS; "r"%char]
  else if (n =? 0)%nat then [BS; "0"%char]
  else if (n <? 16)%nat then [BS] ++ $"u{" ++ [nth n ($"0123456789abcdef") "0"%char] ++ $"}"
  else if (n <? 32)%nat then [BS] ++ $"u{1" ++ [nth (n - 16) ($"0123456789abcdef") "0"%char] ++ $"}"
  else if (n =? 127)%nat then [BS] ++ $"u{7f}"
  else [c].

Definition debug_str (s : str) : str := ["034"%char] ++ concat (map debug_char s) ++ ["034"%char].

(** ** The operating system *)

Inductive FileType := FtFile | FtDir | FtSymlink | FtOther.

Definition ft_is_dir (t : FileType) : bool := match t with FtDir => true | _ => false end.
Definition ft_is_file (t : FileType) : bool := match t with FtFile => true | _ => false end.
Definition ft_is_symlink (t : FileType) : bool := match t with FtSymlink => true | _ => false end.

Record FileMeta := { ft : FileType; len : Z; modified : option Z }.
Record IoError := { io_not_found : bool; io_error : Error }.
Record WalkEntry := { we_path : str; we_type : FileType }.
Record WalkError := { walk_path : option str; walk_msg : str }.

Class Os (W : Type) := {
  symlink_metadata : str → W → result FileMeta IoError;
  metadata : str → W → result FileMeta IoError;
  read_link : str → W → result str IoError;
  read_to_string : str → W → result str str;
  read_bytes : str → W → result str IoError;
  remove_file : str → M W unit;
  remove_dir : str → M W unit;
  create_dir_all : str → M W unit;
  copy_file : str → str → M W unit;
  symlink : str → str → M W unit;
  (* an open file, named by its path *)
  write_all_at : str → str → Z → M W unit;
  read_at : str → Z → Z → W → result str Error;
  set_len : str → Z → M W unit;
  sync_all : str → M W unit;
  (* [OpenOptions] read, write, create, and truncate when the flag says so *)
  open_create : str → bool → M W unit;
  fs_write : str → str → M W unit;
  (* third-party crates *)
  walkdir : str → bool → W → list (result WalkEntry WalkError);
  glob : str → W → result (list (result str str)) str;
}.

(** ** The S3 backend's interface *)

Class S3Ops `{RegexLib} (W : Type) := {
  S3 : Type;
  S3_new : Url → Options → M W S3;
  s3_stat : S3 → Url → M W Object;
  s3_list : S3 → Url → W → list Object * W;
  s3_delete : S3 → Url → M W unit;
  s3_copy : S3 → Url → Url → Metadata → M W unit;
  s3_download : S3 → Url → str → M W unit;
  s3_upload : S3 → str → Url → Metadata → M W unit;
  s3_client_copy : S3 → Url → Url → Metadata → M W unit;
  s3_client_copy_to : S3 → S3 → Url → Url → Metadata → M W unit;
  s3_multi_delete : S3 → list Url → W → list Object * W;
  put_object_bytes : S3 → Url → str → M W unit;
  get_object_bytes : S3 → Url → M W str;
  s3_read_range : S3 → Url → Z → Z → M W str;
}.

Section Fs.
Context `{RegexLib} {W : Type} `{!Os W}.

Definition object_type (t : FileType) : ObjectType :=
  if ft_is_symlink t then Symlink else if ft_is_dir t then Dir else File.

Definition stat_sync (u : Url) (w : W) : result Object Error :=
  let abs := absolute u in
  match symlink_metadata abs w with
  | Err e => if io_not_found e then Err (ObjectNotFound abs) else Err (io_error e)
  | Ok meta =>
      let followed := match metadata abs w with Ok m => m | Err _ => meta end in
      Ok {| url := Some u; etag := []; mod_time := modified followed;
            typ := object_type (ft meta); size := as_i64 (len followed);
            storage_class := {| class_name := [] |}; is_delete_marker := false; obj_err := None |}
  end.

Definition should_process_url (path : str) (follow_symlinks : bool) (w : W) : bool :=
  if follow_symlinks then true
  else match symlink_metadata path w with
       | Ok m => negb (ft_is_symlink (ft m))
       | Err _ => false
       end.

(** The loop of [walk_dir] over the walked entries. *)
Fixpoint walk_entries (src : Url) (follow_symlinks : bool)
    (es : list (result WalkEntry WalkError)) (w : W) : list Object :=
  match es with
  | [] => []
  | Err e :: es =>
      with_error (anyhow ($"skipping broken symlink or unreadable path "
                          ++ default (absolute src) (walk_path e) ++ $": " ++ walk_msg e))
      :: walk_entries src follow_symlinks es w
  | Ok e :: es =>
      if ft_is_dir (we_type e) then walk_entries src follow_symlinks es w
      else if negb (ft_is_file (we_type e)) then walk_entries src follow_symlinks es w
      else match Url_new (from_utf8_lossy (we_path e)) UrlOptions_default with
           | Err m =>
               with_error (anyhow ($"skipping " ++ from_utf8_lossy (we_path e)
                                   ++ $": could not build url: " ++ m))
               :: walk_entries src follow_symlinks es w
           | Ok fileurl =>
               let fileurl := set_relative fileurl src in
               if negb (should_process_url (we_path e) follow_symlinks w)
               then walk_entries src follow_symlinks es w
               else match stat_sync fileurl w with
                    | Ok obj => obj :: walk_entries src follow_symlinks es w
                    | Err e => [with_error e]
                    end
           end
  end.

Definition walk_dir (src : Url) (follow_symlinks : bool) (w : W) : list Object :=
  if negb (should_process_url (absolute src) follow_symlinks w) then []
  else walk_entries src follow_symlinks (walkdir (absolute src) follow_symlinks w) w.

(** The loop of [expand_glob]: the objects sent, and whether an entry was found;
    [None] when it returned early. *)
Fixpoint glob_entries (src : Url) (follow_symlinks : bool) (es : list (result str str)) (w : W)
  : list Object * bool :=
  match es with
  | [] => ([], true)
  | Err m :: _ => ([with_error (anyhow m)], false)
  | Ok path :: es =>
      match Url_new (from_utf8_lossy path) UrlOptions_default with
      | Err m => ([with_error (anyhow m)], false)
      | Ok fileurl =>
          let fileurl := set_relative fileurl src in
          match stat_sync fileurl w with
          | Err e => ([with_error e], false)
          | Ok obj =>
              let sent := if negb (is_dir (typ obj)) then [obj]
                          else walk_dir fileurl follow_symlinks w in
              let '(rest, done) := glob_entries src follow_symlinks es w in
              (sent ++ rest, done)
          end
      end
  end.

Definition expand_glob (src : Url) (follow_symlinks : bool) (w : W) : list Object :=
  match glob (absolute src) w with
  | Err e => [with_error (anyhow e)]
  | Ok [] => [with_error (anyhow ($"no match found for " ++ debug_str (show_url src)))]
  | Ok es => fst (glob_entries src follow_symlinks es w)
  end.

(** [Filesystem]: its [dry_run] flag is its only state. *)
Definition fs_list (src : Url) (follow_symlinks : bool) (w : W) : list Object :=
  if is_wildcard src then expand_glob src follow_symlinks w
  else match stat_sync src w with
       | Ok obj => if is_dir (typ obj) then walk_dir src follow_symlinks w else [obj]
       | Err e => [with_error e]
       end.

Definition fs_delete (dry : bool) (src : Url) : M W unit :=
  if dry then mret tt else remove_file (absolute src).

Definition fs_copy (dry : bool) (src dst : Url) (_ : Metadata) : M W unit :=
  if dry then mret tt
  else
    let d := dir dst in
    let! _ := (if negb (bool_decide (d = [])) && negb (bool_decide (d = $"."))
               then create_dir_all d else mret tt) in
    copy_file (absolute src) (absolute dst).
End Fs.

(** ** The client of a URL (src/src/storage/mod.rs) *)

Section Client.
Context `{RegexLib} {W : Type} `{!Os W, !S3Ops W}.

Inductive Client := ClientS3 (s : S3) | ClientFs (dry : bool).

Definition new_client (u : Url) (opts : Options) : M W Client :=
  if is_remote u then let! s := S3_new u opts in mret (ClientS3 s)
  else mret (ClientFs (dry_run opts)).

Definition storage_stat (c : Client) (u : Url) : M W Object :=
  match c with
  | ClientS3 s => s3_stat s u
  | ClientFs _ => λ w, (stat_sync u w, w)
  end.

Definition storage_list (c : Client) (u : Url) (follow_symlinks : bool) (w : W) : list Object * W :=
  match c with
  | ClientS3 s => s3_list s u w
  | ClientFs _ => (fs_list u follow_symlinks w, w)
  end.

Definition storage_delete (c : Client) (u : Url) : M W unit :=
  match c with
  | ClientS3 s => s3_delete s u
  | ClientFs dry => fs_delete dry u
  end.

Definition storage_copy (c : Client) (src dst : Url) (m : Metadata) : M W unit :=
  match c with
  | ClientS3 s => s3_copy s src dst m
  | ClientFs dry => fs_copy dry src dst m
  end.
End Client.
