(* ===== verification/Output.v ===== *)
(** * The console: result lines, JSON, and standard input (src/src/output.rs)

    The process-global flags of output.rs and the two streams are a record around the world
    of the storage operations; the commands run in [M (Console W)]. *)

From S2P Require Import Prelude RustStr Storage Fs.

Local Open Scope Z_scope.
#[local] Set Warnings "-register-all".

(** [serde_json::Value], as the commands build it; an object lists its fields in the order
    they were set. *)
Inductive Json :=
  | JBool (b : bool)
  | JNum (n : Z)
  | JStr (s : str)
  | JArr (l : list Json)
  | JObj (l : list (str * Json)).

(** A line printed: text on standard output or on standard error, or a JSON value (on
    standard output; its text is serde_json's); or bytes on standard output, with no line end. *)
Inductive Line := Stdout (s : str) | Stderr (s : str) | JsonLine (v : Json) | Raw (s : str).

Record OutMode := { is_json : bool; is_color : bool; is_dry_run : bool }.

Inductive ColorChoice := Auto | Always | Never.

(** [set_json], [set_color] and [set_dry_run], in the order of main.rs; [terminal] is
    [stdout().is_terminal()], [no_color] the variable [NO_COLOR]. *)
Definition out_mode (json dry : bool) (choice : ColorChoice) (terminal : bool) (no_color : option str) : OutMode :=
  let no_color := match no_color with Some v => negb (bool_decide (v = [])) | None => false end in
  let enabled := match choice with Never => false | Always => true | Auto => terminal && negb no_color end in
  {| is_json := json; is_color := enabled && negb json; is_dry_run := dry |}.

Definition ESC : ascii := "027"%char.
Definition C_RESET : str := ESC :: $"[0m".
Definition C_BLUE : str := ESC :: $"[34m".
Definition C_GREEN : str := ESC :: $"[32m".
Definition C_RED : str := ESC :: $"[31m".

Definition paint (color : str) (m : OutMode) (s : str) : str := if is_color m then color ++ s ++ C_RESET else s.
Definition paint_dir : OutMode → str → str := paint C_BLUE.
Definition paint_object : OutMode → str → str := paint C_GREEN.
Definition paint_error : OutMode → str → str := paint C_RED.

Definition op_success (m : OutMode) (op src : str) (dst : option str) : Line :=
  if is_json m then
    JsonLine (JObj ([($"operation", JStr op); ($"success", JBool true); ($"source", JStr src)]
      ++ match dst with Some d => [($"destination", JStr d)] | None => [] end
      ++ if is_dry_run m then [($"dryRun", JBool true)] else []))
  else
    let marker := if is_dry_run m then $"(dry-run) " else [] in
    Stdout (match dst with
            | Some d => marker ++ op ++ $" " ++ src ++ $" " ++ d
            | None => marker ++ op ++ $" " ++ src
            end).

Definition op_error (m : OutMode) (op src : str) (dst : option str) (err : str) : Line :=
  if is_json m then
    JsonLine (JObj ([($"operation", JStr op); ($"success", JBool false); ($"source", JStr src); ($"error", JStr err)]
      ++ match dst with Some d => [($"destination", JStr d)] | None => [] end))
  else
    let prefix := paint_error m ($"ERROR") in
    Stderr (match dst with
            | Some d => prefix ++ $" " ++ op ++ $" " ++ src ++ $" " ++ d ++ $": " ++ err
            | None => prefix ++ $" " ++ op ++ $" " ++ src ++ $": " ++ err
            end).

(** ** The console *)

(** What a read of a stream yields next: some bytes (none is the end of input) or an error. *)
Definition Stream : Type := list (result str Error).

Record Console (W : Type) := { mode : OutMode; printed : list Line; stdin : Stream; world : W }.
Arguments mode {W} c.
Arguments printed {W} c.
Arguments stdin {W} c.
Arguments world {W} c.

Section Console.
Context {W : Type}.

Definition set_world (c : Console W) (w : W) : Console W :=
  {| mode := mode c; printed := printed c; stdin := stdin c; world := w |}.
Definition set_stdin (c : Console W) (i : Stream) : Console W :=
  {| mode := mode c; printed := printed c; stdin := i; world := world c |}.

(** An operation of the world. *)
Definition io {A} (m : M W A) : M (Console W) A := λ c, let '(r, w) := m (world c) in (r, set_world c w).
(** One that cannot fail. *)
Definition io' {A} (m : W → A * W) : M (Console W) A := λ c, let '(a, w) := m (world c) in (Ok a, set_world c w).

Lemma io_same {A} (m : M W A) r (c : Console W) : m (world c) = (r, world c) → io m c = (r, c).
Proof. unfold io. intros ->. by destruct c. Qed.

Definition emit (l : OutMode → Line) : M (Console W) unit := λ c,
  (Ok tt, {| mode := mode c; printed := printed c ++ [l (mode c)]; stdin := stdin c; world := world c |}).

Definition success (op src : str) : M (Console W) unit := emit (λ m, op_success m op src None).
Definition failure (op src err : str) : M (Console W) unit := emit (λ m, op_error m op src None err).
Definition say (s : str) : M (Console W) unit := emit (λ _, Stdout s).
Definition complain (s : str) : M (Console W) unit := emit (λ _, Stderr s).
Definition write_raw (s : str) : M (Console W) unit := emit (λ _, Raw s).

(** [let _ = m], or a [match] on the result of [m]. *)
Definition attempt {S A} (m : M S A) : M S (result A Error) := λ s, let '(r, s) := m s in (Ok r, s).
End Console.
