(* ===== verification/Hoare.v ===== *)
(** * Hoare triples for the monad of the commands

    [triple P m Q E]: from a state satisfying [P], [m] ends in one satisfying [Q] of its
    value, or [E] when it fails. [keeps I m]: [m] keeps [I], failing or not. The tactic
    [keep] walks over a handler, using the hints of the database [keeps]. *)

From S2P Require Import Prelude Storage Fs.

Create HintDb keeps.

Lemma mbind_inv {S A B} (m : M S A) (f : A → M S B) s r s' :
  mbind m f s = (r, s') →
  (∃ e, m s = (Err e, s') ∧ r = Err e) ∨ ∃ a s1, m s = (Ok a, s1) ∧ f a s1 = (r, s').
Proof.
  unfold mbind. destruct (m s) as [[a|e] s1]; [right; eauto|]. intros [= <- <-]. left. eauto.
Qed.

Lemma mbind_step {S A B} (m : M S A) (f : A → M S B) s a s1 : m s = (Ok a, s1) → mbind m f s = f a s1.
Proof. intros Hm. unfold mbind. by rewrite Hm. Qed.

Lemma mbind_assoc {S A B C} (m : M S A) (f : A → M S B) (g : B → M S C) s :
  mbind (mbind m f) g s = mbind m (λ a, mbind (f a) g) s.
Proof. unfold mbind. destruct (m s) as [[|] ?]; [|done]. done. Qed.

Section Hoare.
Context {S : Type}.
Implicit Types (P I E : S → Prop).

Definition triple {A} P (m : M S A) (Q : A → S → Prop) E : Prop :=
  ∀ s r s', P s → m s = (r, s') → match r with Ok a => Q a s' | Err _ => E s' end.

Lemma triple_ret {A} P E (a : A) : triple P (mret a) (λ b s, b = a ∧ P s) E.
Proof. by intros s r s' HP [= <- <-]. Qed.

Lemma triple_fail {A} P Q e : triple P (mfail (A := A) e) Q P.
Proof. by intros s r s' HP [= <- <-]. Qed.

Lemma triple_bind {A B} P (m : M S A) (f : A → M S B) R Q E :
  triple P m R E → (∀ a, triple (R a) (f a) Q E) → triple P (mbind m f) Q E.
Proof.
  intros Hm Hf s r s' HP. unfold mbind. destruct (m s) as [[a|e] s1] eqn:Hr.
  - intros Hfa. apply (Hm _ _ _ HP) in Hr. cbn in Hr. by eapply Hf.
  - intros [= <- <-]. by apply (Hm _ _ _ HP) in Hr.
Qed.

Lemma triple_conseq {A} P P' (m : M S A) Q Q' E E' :
  triple P m Q E → (∀ s, P' s → P s) → (∀ a s, Q a s → Q' a s) → (∀ s, E s → E' s) → triple P' m Q' E'.
Proof.
  intros Hm HP HQ HE s r s' Hs Hr. specialize (Hm _ _ _ (HP _ Hs) Hr). destruct r; eauto.
Qed.

(** The state after is one the triple's error condition allows, whatever the outcome. *)
Definition keeps {A} I (m : M S A) : Prop := triple I m (λ _, I) I.

Lemma keeps_run {A} I (m : M S A) s r s' : keeps I m → I s → m s = (r, s') → I s'.
Proof. intros Hm Hs Hr. specialize (Hm _ _ _ Hs Hr). by destruct r. Qed.

Lemma keeps_intro {A} I (m : M S A) : (∀ s r s', I s → m s = (r, s') → I s') → keeps I m.
Proof. intros Hm s r s' Hs Hr. specialize (Hm _ _ _ Hs Hr). by destruct r. Qed.

Lemma keeps_ret {A} I (a : A) : keeps I (mret a).
Proof. by intros s r s' Hs [= <- <-]. Qed.

Lemma keeps_fail {A} I e : keeps I (mfail (A := A) e).
Proof. by intros s r s' Hs [= <- <-]. Qed.

Lemma keeps_mlift {A} I (x : result A Error) : keeps I (mlift x).
Proof. intros s r s' Hs [= <- <-]. by destruct x. Qed.

Lemma keeps_bind {A B} I (m : M S A) (f : A → M S B) :
  keeps I m → (∀ a, keeps I (f a)) → keeps I (mbind m f).
Proof. intros Hm Hf. by eapply triple_bind. Qed.

Lemma keeps_assoc {A B C} I (m : M S A) (f : A → M S B) (g : B → M S C) :
  keeps I (mbind (mbind m f) g) → keeps I (mbind m (λ a, mbind (f a) g)).
Proof.
  intros Hm s r s' HI Hr. apply (Hm _ _ _ HI). revert Hr. unfold mbind. by destruct (m s) as [[a|e] s1].
Qed.

(** A value that satisfies [φ], whatever the state it was taken from. *)
Definition gives {A} I (m : M S A) (φ : A → Prop) : Prop := triple I m (λ a s, I s ∧ φ a) I.

Lemma keeps_gives {A B} I (m : M S A) (f : A → M S B) φ :
  gives I m φ → (∀ a, φ a → keeps I (f a)) → keeps I (mbind m f).
Proof.
  intros Hm Hf. eapply triple_bind; [exact Hm|]. intros a s r s' [HI Ha]. by apply (Hf a Ha).
Qed.

Lemma gives_bind {A B} I (m : M S A) (f : A → M S B) φ ψ :
  gives I m φ → (∀ a, φ a → gives I (f a) ψ) → gives I (mbind m f) ψ.
Proof.
  intros Hm Hf. eapply triple_bind; [exact Hm|]. intros a s r s' [HI Ha]. by apply (Hf a Ha).
Qed.

Lemma gives_keeps {A} I (m : M S A) : keeps I m → gives I m (λ _, True).
Proof. intros Hm. eapply triple_conseq; [exact Hm|done..]. Qed.

Lemma gives_ret {A} I (a : A) (φ : A → Prop) : φ a → gives I (mret a) φ.
Proof. by intros Ha s r s' Hs [= <- <-]. Qed.

Lemma gives_fail {A} I e (φ : A → Prop) : gives I (mfail e) φ.
Proof. by intros s r s' Hs [= <- <-]. Qed.
End Hoare.

#[export] Hint Resolve keeps_ret keeps_fail keeps_mlift : keeps.

Ltac keep_step :=
  match goal with
  | |- ∀ _, keeps _ _ => intros ?
  | |- keeps _ (mbind _ _) => apply keeps_bind; [|intros ?]
  | |- keeps _ (let _ := _ in _) => cbv zeta
  | |- keeps _ (match ?x with _ => _ end) => let H := fresh "Hm" in destruct x eqn:H
  | |- keeps _ (if ?x then _ else _) => destruct x
  end.
Ltac keep := repeat first [solve [auto with keeps] | keep_step].
