(* ===== verification/Tasks.v ===== *)
(** * Concurrent tasks: [buffer_unordered] (storage/s3.rs, mount/reader.rs)

    [stream::iter(tasks).buffer_unordered(n).collect()] runs every task and yields
    the results in the order of completion, which the program does not control: the
    class [Unordered] is that order. *)

From S2P Require Import Prelude RustStr Strutil Url Storage Fs.

(** The order in which concurrent tasks complete. *)
Class Unordered := {
  arrange : ∀ {A : Type}, list A → list A;
  arrange_perm : ∀ {A : Type} (l : list A), arrange l ≡ₚ l;
}.

(** [collect::<Vec<_>>()] of the results of tasks run in the given order, and then
    [into_iter().collect::<Result<Vec<_>>>()]: the first error wins. *)
Fixpoint run_tasks {W A} (ts : list (M W A)) (w : W) : list (result A Error) * W :=
  match ts with
  | [] => ([], w)
  | t :: ts => let '(r, w) := t w in let '(rs, w) := run_tasks ts w in (r :: rs, w)
  end.

Fixpoint collect_results {A E} (rs : list (result A E)) : result (list A) E :=
  match rs with
  | [] => Ok []
  | Ok a :: rs => let? l := collect_results rs in Ok (a :: l)
  | Err e :: _ => Err e
  end.


Lemma collect_results_Ok {A E} (rs : list (result A E)) l :
  collect_results rs = Ok l → rs = map Ok l.
Proof.
  revert l. induction rs as [|[a|e] rs IH]; intros l; cbn; [by intros [= <-]| |done].
  intros (l' & Hl & [= <-])%result_bind_Ok. by rewrite (IH l').
Qed.

Lemma collect_results_map {A E} (l : list A) : collect_results (map (@Ok A E) l) = Ok l.
Proof. induction l as [|a l IH]; [done|]. cbn. by rewrite IH. Qed.

Lemma run_tasks_length {W A} (ts : list (M W A)) w : length (run_tasks ts w).1 = length ts.
Proof.
  revert w. induction ts as [|t ts IH]; intros w; [done|]. cbn [run_tasks].
  destruct (t w) as [r w1]. specialize (IH w1). destruct (run_tasks ts w1). cbn in *. by rewrite IH.
Qed.

Lemma collect_results_Err {A E} (rs : list (result A E)) e :
  collect_results rs = Err e → Err e ∈ rs.
Proof.
  induction rs as [|[a|e'] rs IH]; cbn; [done| |by intros [= ->]; left].
  destruct (collect_results rs); [done|]. cbn. intros [= ->]. right. by apply IH.
Qed.

#[export] Instance in_reverse : Unordered := {
  arrange A l := reverse l;
  arrange_perm A l := reverse_Permutation l;
}.
