(* ===== verification/S3Client.v ===== *)
(** * The S3 client: its construction and its requests (src/src/storage/s3.rs)

    The AWS SDK, the TLS and URL crates and tokio's file functions are the classes
    [Sdk] and [Tokio]; a request is a record with the fields the code sets on the
    SDK's builder. The TLS connectors, the proxy tunnels and the smithy adapters of
    the file are not modelled. *)

From S2P Require Import Prelude RustStr Strutil Url RateLimit Storage Fs.

Local Open Scope Z_scope.

(** ** Pure helpers *)

Definition DELETE_CHUNK_SIZE : Z := 1000.
Definition DEFAULT_MULTIPART_COPY_THRESHOLD : Z := 5 * 1024 * 1024 * 1024.
Definition MAX_MULTIPART_PARTS : Z := 10000.
Definition INLINE_BODY_MAX : Z := 1024 * 1024.

Definition is_copy_source_too_large (e : Error) : bool :=
  let m := to_ascii_lowercase (show_error_alt e) in
  contains ($"larger than the maximum allowable size") m || contains ($"entitytoolarge") m.

(** On the [Debug] text of the error. *)
Definition is_precondition_text (debug : str) : bool :=
  let m := to_ascii_lowercase debug in
  contains ($"preconditionfailed") m || contains ($"precondition failed") m.

Definition is_range_not_satisfiable (debug : str) : bool :=
  let m := to_ascii_lowercase debug in
  contains ($"rangenotsatisfiable") m || contains ($"invalidrange") m
  || contains ($"range not satisfiable") m || contains ($"requested range not satisfiable") m.

(** [cr.rsplit('/').next()]: what follows the last slash. *)
Definition after_last_slash (s : str) : str :=
  match rfind is_slash s with Some i => drop (i + 1) s | None => s end.

Definition parse_content_range_total (cr : option str) : option Z :=
  match cr with
  | None => None
  | Some cr => parse_uint u64_max (trim (after_last_slash cr))
  end.

Definition hex_val (b : ascii) : option nat :=
  if in_range 48 57 b then Some (code b - 48)%nat
  else if in_range 97 102 b then Some (code b - 97 + 10)%nat
  else if in_range 65 70 b then Some (code b - 65 + 10)%nat
  else None.

(** The loop of [percent_decode], over the bytes that are left. *)
Definition hex_pair (h l : ascii) : option ascii :=
  match hex_val h, hex_val l with
  | Some hv, Some lv => Some (ascii_of_nat (16 * hv + lv))
  | _, _ => None
  end.

Fixpoint percent_bytes (bytes : str) : str :=
  match bytes with
  | [] => []
  | b :: rest =>
      match rest with
      | h :: l :: rest' =>
          match (if is_chr "%"%char b then hex_pair h l else None) with
          | Some c => c :: percent_bytes rest'
          | None => b :: percent_bytes rest
          end
      | _ => b :: percent_bytes rest
      end
  end.

Definition percent_decode (s : str) : str := from_utf8_lossy (percent_bytes s).

Definition nonempty (o : option str) : option str :=
  match o with Some s => if decide (s = []) then None else Some s | None => None end.

(** The [Range] of the bytes [first] to [last]. *)
Definition range_header (first last : Z) : str :=
  $"bytes=" ++ to_string first ++ $"-" ++ to_string last.

(** ** Requests and responses *)

Record SdkError := { sdk_error : Error; sdk_debug : str; sdk_not_found : bool }.

Record ObjectRequest := {
  q_bucket : str;
  q_key : str;
  q_range : option str;
  q_version : option str;
  q_payer : option str;
}.

Record Headers := {
  h_content_type : option str;
  h_storage_class : option str;
  h_acl : option str;
  h_cache_control : option str;
  h_content_encoding : option str;
  h_content_disposition : option str;
  h_directive : option str;
  h_sse : option str;
  h_sse_key : option str;
  h_metadata : gmap str str;
}.

(** The body of a GET arrives in chunks, any of which can fail. *)
Record GetOutput := {
  out_body : list (result str Error);
  out_content_range : option str;
  out_content_length : option Z;
  out_metadata : gmap str str;
}.

Record HeadOutput := {
  head_length : option Z;
  head_etag : option str;
  head_modified : option Z;
  head_type : option str;
  head_class : option str;
  head_sse : option str;
  head_user : gmap str str;
}.

Record ListRequest := {
  l_bucket : str;
  l_prefix : str;
  l_delimiter : option str;
  l_start_after : option str;
  l_payer : option str;
}.

Record Content := {
  c_key : option str;
  c_etag : option str;
  c_modified : option Z;
  c_size : option Z;
  c_class : option str;
  c_version : option str;
}.

(** A page of a listing; the fields a call does not have are empty. *)
Record Page := {
  p_prefixes : list (option str);
  p_contents : list Content;
  p_markers : list Content;
  p_truncated : option bool;
  p_next_key : option str;
  p_next_version : option str;
}.

Record DeleteOutput := {
  deleted : list (option str);
  errors : list (option str * option str);
}.

(** ** The client's configuration *)

Record ProxyConfig := { socks5 : bool; p_host : str; p_port : Z; auth : option (str * str) }.

Record ParsedUrl := {
  pu_scheme : str;
  pu_host : option str;
  pu_port : option Z;
  pu_user : str;
  pu_password : option str;
}.

(** [build_sdk_http_client]: the settings its connector is built from. *)
Record HttpConfig := { hc_no_verify : bool; hc_roots : list str; hc_proxy : option ProxyConfig }.

Record SdkConfig := {
  cfg_region : option str;
  cfg_profile : option str;
  cfg_endpoint : option str;
  cfg_path_style : option bool;
  cfg_dual_stack : bool;
  cfg_fips : bool;
  cfg_http : option HttpConfig;
}.

Class Sdk (W : Type) := {
  Handle : Type;
  from_conf : SdkConfig → Handle;
  env_var : str → W → option str;
  (* the region of the shared configuration, given an explicit region and a profile *)
  shared_region : option str → option str → W → option str;
  url_parse : str → result ParsedUrl str;
  pem_certs : str → result (list str) str;
  check_root : str → option str;
  (* the [Debug] text of an [anyhow::Error] *)
  anyhow_debug : Error → str;
  get_object : Handle → ObjectRequest → W → result GetOutput SdkError * W;
  head_object : Handle → ObjectRequest → W → result HeadOutput SdkError * W;
  put_object : Handle → ObjectRequest → Headers → bool → str → W → result unit SdkError * W;
  create_multipart_upload : Handle → ObjectRequest → Headers → W → result (option str) SdkError * W;
  upload_part : Handle → ObjectRequest → str → Z → str → W → result (option str) SdkError * W;
  upload_part_copy : Handle → ObjectRequest → str → Z → str → str → W → result (option str) SdkError * W;
  complete_multipart_upload : Handle → ObjectRequest → str → list (Z * option str) → bool → W →
    result unit SdkError * W;
  abort_multipart_upload : Handle → ObjectRequest → str → W → result unit SdkError * W;
  copy_object : Handle → ObjectRequest → str → Headers → W → result unit SdkError * W;
  delete_object : Handle → ObjectRequest → W → result unit SdkError * W;
  delete_objects : Handle → str → list str → option str → W → result DeleteOutput SdkError * W;
  (* the pages the V2 paginator yields *)
  list_objects_v2_pages : Handle → ListRequest → W → list (result Page SdkError) * W;
  list_objects : Handle → ListRequest → option str → W → result Page SdkError * W;
  list_versions : Handle → ListRequest → option str → option str → W → result Page SdkError * W;
  sdk_list_buckets : Handle → W → result (list (option str * option Z)) SdkError * W;
  create_bucket : Handle → str → W → result unit SdkError * W;
  delete_bucket : Handle → str → W → result unit SdkError * W;
  sdk_get_versioning : Handle → str → W → result (option str) SdkError * W;
  sdk_put_versioning : Handle → str → str → W → result unit SdkError * W;
}.

(** Files, the clock and the cells behind the shared limiters. *)
Class Tokio (W : Type) := {
  read_file : str → W → result str Error;
  (* [ByteStream::read_from().offset(o).length(Exact(n))], consumed by the request *)
  byte_stream : str → Z → Z → W → result str Error;
  (* [ByteStream::from_path], likewise *)
  byte_stream_file : str → W → result str Error;
  open_truncate : str → M W unit;
  set_file_mtime : str → Z → Z → M W unit;
  (* [temp_dir()] joined with the next unique name *)
  temp_name : W → str * W;
  instant_now : W → Z * W;
  sleep_for : Z → W → W;
  limiter_cell : RateLimiter → W → RateLimiter;
  set_limiter_cell : RateLimiter → RateLimiter → W → W;
}.

Section S3Client.
Context `{RegexLib} {W : Type} `{!Os W, !Sdk W, !Tokio W}.

Record S3Client := {
  s_client : Handle;
  s_dry_run : bool;
  s_use_v1 : bool;
  s_payer : option str;
  s_part_size : Z;
  s_concurrency : Z;
  multipart_copy_threshold : Z;
  s_preserve : bool;
  s_upload_limiter : option RateLimiter;
  s_download_limiter : option RateLimiter;
}.

(** ** Construction *)

Definition ProxyConfig_parse (s : str) : result ProxyConfig Error :=
  match url_parse s with
  | Err e => Err (anyhow ($"invalid proxy URL " ++ debug_str s ++ $": " ++ e))
  | Ok u =>
      let sch := to_ascii_lowercase (pu_scheme u) in
      let? socks :=
        if bool_decide (sch ∈ [$"socks5"; $"socks5h"]) then Ok true
        else if bool_decide (sch ∈ [$"http"; $"https"]) then Ok false
        else Err (anyhow ($"unsupported proxy scheme " ++ debug_str sch
                          ++ $" (use socks5/socks5h/http/https)")) in
      let? host := (match pu_host u with
                    | Some h => Ok h
                    | None => Err (anyhow ($"proxy URL " ++ debug_str s ++ $" has no host"))
                    end) in
      let? port := (match pu_port u with
                    | Some p => Ok p
                    | None => Err (anyhow ($"proxy URL " ++ debug_str s ++ $" has no port"))
                    end) in
      Ok {| socks5 := socks; p_host := host; p_port := port;
            auth := if decide (pu_user u = []) then None
                    else Some (pu_user u, default [] (pu_password u)) |}
  end.

Fixpoint first_env (names : list str) (w : W) : option str :=
  match names with
  | [] => None
  | n :: ns => match env_var n w with Some v => Some v | None => first_env ns w end
  end.

(** [env_any] *)
Definition env_any (names : list str) (w : W) : option str := nonempty (first_env names w).

Definition or_else {A} (a b : option A) : option A := match a with Some _ => a | None => b end.

Definition effective_proxy (opts : Options) (w : W) : result (option ProxyConfig) Error :=
  let raw := or_else (nonempty (proxy opts))
               (or_else (env_any [$"ALL_PROXY"; $"all_proxy"] w)
               (or_else (env_any [$"HTTPS_PROXY"; $"https_proxy"] w)
                        (env_any [$"HTTP_PROXY"; $"http_proxy"] w))) in
  match raw with
  | Some s => let? p := ProxyConfig_parse s in Ok (Some p)
  | None => Ok None
  end.

Definition load_ca_bundle (path : str) (w : W) : result (list str) Error :=
  let? pem := result_map_err (λ e, anyhow ($"ca-certs-file " ++ path ++ $": " ++ show_error e))
                (read_file path w) in
  match pem_certs pem with
  | Err e => Err (anyhow ($"parsing ca-certs-file " ++ path ++ $": " ++ e))
  | Ok [] => Err (anyhow ($"ca-certs-file " ++ path ++ $" contained no certificates"))
  | Ok certs => Ok certs
  end.

Fixpoint add_roots (certs : list str) : result unit Error :=
  match certs with
  | [] => Ok tt
  | c :: cs => match check_root c with
               | Some e => Err (anyhow ($"adding ca-certs-file cert: " ++ e))
               | None => add_roots cs
               end
  end.

Definition build_sdk_http_client (no_verify : bool) (p : option ProxyConfig) (ca : option str) (w : W)
  : result HttpConfig Error :=
  if no_verify then Ok {| hc_no_verify := true; hc_roots := []; hc_proxy := p |}
  else
    let? roots := match ca with
                  | None => Ok []
                  | Some path =>
                      let? certs := load_ca_bundle path w in
                      let? _ := add_roots certs in Ok certs
                  end in
    Ok {| hc_no_verify := false; hc_roots := roots; hc_proxy := p |}.

Definition client_config (opts : Options) (w : W) (http : option HttpConfig) : SdkConfig :=
  let ep := or_else (nonempty (endpoint opts))
              (or_else (env_var ($"AWS_ENDPOINT_URL") w) (env_var ($"S3_ENDPOINT_URL") w)) in
  let shared := shared_region (region opts) (profile opts) w in
  {| cfg_region :=
       match shared, region opts with None, None => Some ($"us-east-1") | _, _ => shared end;
     cfg_profile := profile opts;
     cfg_endpoint := ep;
     cfg_path_style :=
       match ep with
       | Some _ => Some (negb (bool_decide (addressing_style opts = Some ($"virtual"))))
       | None => match addressing_style opts with
                 | Some style => Some (bool_decide (style = $"path"))
                 | None => None
                 end
       end;
     cfg_dual_stack := use_dualstack_endpoint opts;
     cfg_fips := use_fips_endpoint opts;
     cfg_http := http |}.

Definition is_some_b {A} (o : option A) : bool := match o with Some _ => true | None => false end.

Definition S3Client_new (_ : Url) (opts : Options) : M W S3Client := λ w,
  (let? p := effective_proxy opts w in
   let? http :=
     if no_verify_ssl opts || is_some_b p || is_some_b (ca_certs_file opts)
     then let? h := build_sdk_http_client (no_verify_ssl opts) p (ca_certs_file opts) w in Ok (Some h)
     else Ok None in
   Ok {| s_client := from_conf (client_config opts w http);
         s_dry_run := dry_run opts;
         s_use_v1 := use_list_objects_v1 opts;
         s_payer := request_payer opts;
         s_part_size := Z.max (part_size opts) (5 * 1024 * 1024);
         s_concurrency := Z.max (concurrency opts) 1;
         multipart_copy_threshold :=
           default DEFAULT_MULTIPART_COPY_THRESHOLD
             (env_var ($"RS5CMD_MULTIPART_COPY_THRESHOLD") w ≫= parse_uint u64_max);
         s_preserve := preserve_timestamps opts;
         s_upload_limiter := upload_limiter opts;
         s_download_limiter := download_limiter opts |}, w).

(** ** Small requests *)

(** The request on an object; the version, when the URL names one. *)
Definition request (s : S3Client) (u : Url) (range : option str) : ObjectRequest :=
  {| q_bucket := bucket u; q_key := path u; q_range := range;
     q_version := nonempty (Some (version_id u)); q_payer := s_payer s |}.

(** The same for the requests that take no version. *)
Definition put_request (s : S3Client) (u : Url) : ObjectRequest :=
  {| q_bucket := bucket u; q_key := path u; q_range := None; q_version := None; q_payer := s_payer s |}.

(** [m.send().await?] *)
Definition send {A} (m : W → result A SdkError * W) : M W A := λ w,
  match m w with (Ok a, w) => (Ok a, w) | (Err e, w) => (Err (sdk_error e), w) end.

(** [body.collect().await?] *)
Fixpoint collect_body (chunks : list (result str Error)) : result str Error :=
  match chunks with
  | [] => Ok []
  | Err e :: _ => Err e
  | Ok c :: cs => let? r := collect_body cs in Ok (c ++ r)
  end.

Definition s3_read (s : S3Client) (src : Url) : M W (list (result str Error)) :=
  let! resp := send (get_object (s_client s) (request s src None)) in mret (out_body resp).

Definition read_range (s : S3Client) (src : Url) (offset len : Z) : M W str :=
  if len =? 0 then mret []
  else λ w,
    match get_object (s_client s) (request s src (Some (range_header offset (offset + len - 1)))) w with
    | (Err e, w) => if is_range_not_satisfiable (sdk_debug e) then (Ok [], w) else (Err (sdk_error e), w)
    | (Ok resp, w) => (collect_body (out_body resp), w)
    end.

Definition head_size (s : S3Client) (src : Url) : M W Z :=
  let! out := send (head_object (s_client s) (request s src None)) in
  mret (Z.max (default 0 (head_length out)) 0).

Definition head_content_type (s : S3Client) (src : Url) : M W (option str) :=
  let! out := send (head_object (s_client s) (request s src None)) in mret (head_type out).

(** An entity tag without its quotes, and a modification time of whole seconds. *)
Definition trim_quotes (e : option str) : str := trim_matches (is_chr "034"%char) (default [] e).
Definition from_secs (t : option Z) : option Z := option_map (λ s, Z.max s 0 * 1000000000) t.

Definition S3_stat (s : S3Client) (src : Url) : M W Object := λ w,
  match head_object (s_client s) (request s src None) w with
  | (Ok out, w) =>
      (Ok {| url := Some src; etag := trim_quotes (head_etag out); mod_time := from_secs (head_modified out);
             typ := File; size := default 0 (head_length out); storage_class := {| class_name := [] |};
             is_delete_marker := false; obj_err := None |}, w)
  | (Err e, w) => (Err (if sdk_not_found e then ObjectNotFound (absolute src) else sdk_error e), w)
  end.

Definition S3_delete (s : S3Client) (src : Url) : M W unit :=
  if s_dry_run s then mret tt else send (delete_object (s_client s) (request s src None)).

Definition no_headers : Headers :=
  {| h_content_type := None; h_storage_class := None; h_acl := None; h_cache_control := None;
     h_content_encoding := None; h_content_disposition := None; h_directive := None; h_sse := None; h_sse_key := None;
     h_metadata := ∅ |}.

(** The error wrapped with what was being done, and to which object. *)
Definition wrap_object {A} (what : str) (u : Url) (m : W → result A SdkError * W) : M W A := λ w,
  match m w with
  | (Ok a, w) => (Ok a, w)
  | (Err e, w) => (Err (anyhow (what ++ $" s3://" ++ bucket u ++ $"/" ++ path u ++ $": "
                                ++ show_error (sdk_error e))), w)
  end.

Definition S3_put_object_bytes (s : S3Client) (dst : Url) (body : str) : M W unit :=
  wrap_object ($"put object") dst (put_object (s_client s) (put_request s dst) no_headers false body).

Definition S3_get_object_bytes (s : S3Client) (src : Url) : M W str :=
  let! resp := wrap_object ($"get object") src (get_object (s_client s) (request s src None)) in
  mlift (match collect_body (out_body resp) with
         | Ok d => Ok d
         | Err e => Err (anyhow ($"reading object body s3://" ++ bucket src ++ $"/" ++ path src ++ $": "
                                 ++ show_error e))
         end).

(** ** Buckets *)

Definition list_buckets (s : S3Client) (prefix : str) : M W (list Bucket) :=
  let! bs := send (sdk_list_buckets (s_client s)) in
  mret (omap (λ '(name, created),
                let name := default [] name in
                if bool_decide (prefix = []) || starts_with prefix name
                then Some {| creation_date := from_secs created; bucket_name := name |}
                else None) bs).

Definition make_bucket (s : S3Client) (name : str) : M W unit :=
  if s_dry_run s then mret tt else send (create_bucket (s_client s) name).

Definition remove_bucket (s : S3Client) (name : str) : M W unit :=
  if s_dry_run s then mret tt else send (delete_bucket (s_client s) name).

Definition get_bucket_versioning (s : S3Client) (name : str) : M W str :=
  let! st := send (sdk_get_versioning (s_client s) name) in mret (default ($"Unset") st).

Definition set_bucket_versioning (s : S3Client) (name status : str) : M W unit :=
  if s_dry_run s then mret tt else send (sdk_put_versioning (s_client s) name status).

(** ** Bandwidth *)

(** [if let Some(limiter) = .. { limiter.acquire(n).await }] *)
Definition throttle (l : option RateLimiter) (n : Z) : M W unit := λ w,
  match l with
  | None => (Ok tt, w)
  | Some rl =>
      let '(t, w) := instant_now w in
      let '(start, rl') := acquire (limiter_cell rl w) n t in
      let w := set_limiter_cell rl rl' w in
      match start with
      | None => (Ok tt, w)
      | Some start =>
          let '(t2, w) := instant_now w in
          (Ok tt, if start >? t2 then sleep_for (start - t2) w else w)
      end
  end.
End S3Client.
