(* ===== verification/Proxy.v ===== *)
(** * Connections through a proxy (src/src/storage/s3.rs)

    [ProxyConnector::call] and the two tunnels it opens. The CONNECT tunnel reads the proxy's
    answer byte by byte, so what follows it is left to the caller: the TLS session. *)

From S2P Require Import Prelude RustStr Strutil Url Storage Fs Hoare S3Client.

Local Open Scope Z_scope.

(** Sockets, the resolver, tokio_socks and base64. *)
Class Tcp (W : Type) := {
  Conn : Type;
  SocketAddr : Type;
  tcp_connect : str → M W Conn;
  tcp_write_all : Conn → str → M W unit;
  (* a read into one byte; [None]: the end of the stream *)
  tcp_read1 : Conn → M W (option ascii);
  lookup_host : str → M W (list SocketAddr);
  socks5_connect : SocketAddr → str * Z → option (str * str) → M W Conn;
  base64_standard : str → str;
}.

(** [http::Uri] *)
Record Uri := { uri_scheme : option str; uri_host : option str; uri_port : option Z }.

Definition CRLF : str := [CR; LF].

(** [ProxyConfig::addr] *)
Definition addr (p : ProxyConfig) : str := p_host p ++ $":" ++ to_string (p_port p).

Section Proxy.
Context {W : Type} `{!Tcp W}.

Definition connect_request (p : ProxyConfig) (host : str) (port : Z) : str :=
  let target := host ++ $":" ++ to_string port in
  $"CONNECT " ++ target ++ $" HTTP/1.1" ++ CRLF ++ $"Host: " ++ target ++ CRLF
  ++ match auth p with
     | Some (u, pw) => $"Proxy-Authorization: Basic " ++ base64_standard (u ++ $":" ++ pw) ++ CRLF
     | None => []
     end
  ++ CRLF.

(** The loop that reads the status line and the headers. *)
Fixpoint read_head (fuel : nat) (tcp : Conn) (buf : str) (w : W) : option (result str Error * W) :=
  match fuel with
  | O => None
  | S fuel =>
      match tcp_read1 tcp w with
      | (Err e, w) => Some (Err e, w)
      | (Ok None, w) => Some (Err (anyhow ($"proxy closed connection during CONNECT")), w)
      | (Ok (Some byte), w) =>
          let buf := buf ++ [byte] in
          if ends_with (CRLF ++ CRLF) buf then Some (Ok buf, w)
          else if Z.of_nat (length buf) >? 8192 then Some (Err (anyhow ($"proxy CONNECT response headers too large")), w)
          else read_head fuel tcp buf w
      end
  end.

(** No head is longer: see [read_head_ends]. *)
Definition HEAD_FUEL : nat := Z.to_nat 8193.

Definition status_line (head : str) : str := hd [] (lines (from_utf8_lossy head)).

Definition head_result (tcp : Conn) (head : str) : result Conn Error :=
  let status := status_line head in
  if negb (contains ($" 200") status) then Err (anyhow ($"proxy CONNECT failed: " ++ status)) else Ok tcp.

Definition connect_via_http (p : ProxyConfig) (host : str) (port : Z) (w : W) : option (result Conn Error * W) :=
  match (let! tcp := tcp_connect (addr p) in
         let! _ := tcp_write_all tcp (connect_request p host port) in mret tcp) w with
  | (Err e, w) => Some (Err e, w)
  | (Ok tcp, w) =>
      match read_head HEAD_FUEL tcp [] w with
      | None => None
      | Some (Err e, w) => Some (Err e, w)
      | Some (Ok head, w) => Some (head_result tcp head, w)
      end
  end.

(** The target is passed on as a name, for the proxy to resolve. *)
Definition connect_via_socks5 (p : ProxyConfig) (host : str) (port : Z) : M W Conn :=
  let! addrs := lookup_host (addr p) in
  match addrs with
  | [] => mfail (anyhow ($"proxy " ++ addr p ++ $" did not resolve"))
  | proxy_sa :: _ => socks5_connect proxy_sa (host, port) (auth p)
  end.

Definition target_port (dst : Uri) : Z :=
  default (if bool_decide (uri_scheme dst = Some ($"https")) then 443 else 80) (uri_port dst).

(** [ProxyConnector::call] *)
Definition proxy_call (p : ProxyConfig) (dst : Uri) (w : W) : option (result Conn Error * W) :=
  match uri_host dst with
  | None => Some (Err (anyhow ($"proxy: target URI has no host")), w)
  | Some host =>
      if socks5 p then Some (connect_via_socks5 p host (target_port dst) w)
      else connect_via_http p host (target_port dst) w
  end.
End Proxy.

(** ** What a tunnel reads *)

(** The bytes a socket will still deliver, and those it was given. *)
Class TcpLaws (W : Type) `{!Tcp W} := {
  incoming : W → Conn → str;
  outgoing : W → Conn → str;
  connect_law : ∀ a w c w', tcp_connect a w = (Ok c, w') → outgoing w' c = [];
  write_law : ∀ c d w w', tcp_write_all c d w = (Ok tt, w') → outgoing w' c = outgoing w c ++ d;
  read_law : ∀ c w r w', tcp_read1 c w = (r, w') → outgoing w' c = outgoing w c ∧
    match r with
    | Ok (Some b) => incoming w c = b :: incoming w' c
    | Ok None => incoming w c = []
    | Err _ => True
    end;
}.

(** [head] is the text up to its first blank line, within what the loop accepts. *)
Definition is_head (head : str) : Prop :=
  ends_with (CRLF ++ CRLF) head = true ∧ Z.of_nat (length head) <= 8193 ∧
  ∀ k, (k < length head)%nat → ends_with (CRLF ++ CRLF) (take k head) = false.

Section ProxySpec.
Context {W : Type} `{!Tcp W, !TcpLaws W}.

(** Nothing read so far ends in a blank line, and there is room for more. *)
Definition unfinished (buf : str) : Prop :=
  Z.of_nat (length buf) <= 8192 ∧ ∀ k, (k <= length buf)%nat → ends_with (CRLF ++ CRLF) (take k buf) = false.

Lemma unfinished_snoc buf b :
  unfinished buf → ends_with (CRLF ++ CRLF) (buf ++ [b]) = false → Z.of_nat (length (buf ++ [b])) <= 8192 → unfinished (buf ++ [b]).
Proof.
  intros [_ Hk] He Hlen. split; [done|]. intros k Hle. destruct (decide (k <= length buf)%nat) as [Hle'|Hgt].
  - rewrite take_app_le by done. by apply Hk.
  - rewrite take_ge; [done|]. rewrite length_app in *. cbn in *. lia.
Qed.

Lemma finished_head buf b : unfinished buf → ends_with (CRLF ++ CRLF) (buf ++ [b]) = true → is_head (buf ++ [b]).
Proof.
  intros [Hlen Hk] He. split; [done|]. rewrite length_app. cbn [length]. split; [lia|].
  intros k Hlt. rewrite take_app_le by lia. apply Hk. lia.
Qed.

(** The loop ends, whatever arrives; and what it returns is a head, read and no byte more. *)
Lemma read_head_ends fuel c buf w :
  unfinished buf → 8193 <= Z.of_nat (fuel + length buf) →
  ∃ r w', read_head fuel c buf w = Some (r, w') ∧ outgoing w' c = outgoing w c ∧
    ∀ head, r = Ok head → is_head head ∧ ∃ more, head = buf ++ more ∧ incoming w c = more ++ incoming w' c.
Proof.
  revert buf w. induction fuel as [|fuel IH]; intros buf w Hu Hf; cbn [read_head]; [destruct Hu; lia|].
  destruct (tcp_read1 c w) as [r w1] eqn:Hr. apply read_law in Hr as [Ho Hin].
  destruct r as [[b|]|e]; [|by eexists _, _..].
  destruct (ends_with _ _) eqn:He.
  - eexists _, _. split; [done|]. split; [done|]. intros head [= <-]. split; [by apply finished_head|]. by exists [b].
  - destruct (Z.gtb_spec (Z.of_nat (length (buf ++ [b]))) 8192) as [Hbig|Hroom]; [by eexists _, _|].
    destruct (IH (buf ++ [b]) w1) as (r & w' & Hrun & Ho' & Hhead); [by apply unfinished_snoc|rewrite length_app; cbn; lia|].
    exists r, w'. split; [done|]. split; [by rewrite Ho'|]. intros head Hr. destruct (Hhead head Hr) as (Hh & more & -> & Hin').
    split; [done|]. exists (b :: more). rewrite <-app_assoc. split; [done|]. by rewrite Hin, Hin'.
Qed.

(** A head that arrives is found. *)
Lemma read_head_finds fuel c buf w rest more :
  (∀ w, is_ok (tcp_read1 c w).1 = true) → unfinished buf → is_head (buf ++ more) → 8193 <= Z.of_nat (fuel + length buf) →
  incoming w c = more ++ rest → ∃ w', read_head fuel c buf w = Some (Ok (buf ++ more), w') ∧ incoming w' c = rest.
Proof.
  intros Hok. revert buf w more. induction fuel as [|fuel IH]; intros buf w more Hu Hh Hf Hin; cbn [read_head]; [destruct Hu; lia|].
  specialize (Hok w) as Hokw. destruct (tcp_read1 c w) as [r w1] eqn:Hr. apply read_law in Hr as [_ Hr].
  destruct more as [|b more].
  { exfalso. rewrite app_nil_r in Hh. destruct Hh as [He _], Hu as [_ Hu]. specialize (Hu (length buf) ltac:(lia)).
    rewrite firstn_all in Hu. congruence. }
  destruct r as [[b'|]|e]; [| |done]; rewrite Hin in Hr; [|done]. injection Hr as <- Hr.
  change (b :: more) with ([b] ++ more) in Hh |- *. rewrite app_assoc in Hh |- *.
  destruct (ends_with _ (buf ++ [b])) eqn:He.
  - assert (more = []) as ->; [|rewrite app_nil_r; by eexists].
    destruct more as [|x more]; [done|exfalso]. destruct Hh as (_ & _ & Hfirst).
    specialize (Hfirst (length (buf ++ [b])) ltac:(rewrite !length_app; cbn [length]; lia)). rewrite take_app_length in Hfirst. congruence.
  - assert (Hlen : Z.of_nat (length (buf ++ [b])) <= 8192).
    { destruct more as [|x more]; [destruct Hh as [Hh _]; rewrite app_nil_r in Hh; congruence|].
      destruct Hh as (_ & Hh & _). rewrite length_app in Hh. cbn [length] in Hh. lia. }
    destruct (Z.gtb_spec (Z.of_nat (length (buf ++ [b]))) 8192); [lia|].
    apply IH; [by apply unfinished_snoc|done| |done]. rewrite length_app. cbn. lia.
Qed.

Lemma unfinished_nil : unfinished [].
Proof. split; [done|]. intros k _. by rewrite take_nil. Qed.

Lemma head_result_Ok tcp head c : head_result tcp head = Ok c → c = tcp ∧ contains ($" 200") (status_line head) = true.
Proof. unfold head_result. destruct (contains _ _) eqn:Hc; [|done]. by intros [= <-]. Qed.

(** C38. A CONNECT tunnel is transparent and its set-up ends: whatever the proxy sends, at most
    8,193 bytes are read; a connection that is handed over was sent exactly the request, its
    status line holds " 200", and what was read of it is exactly the head of the answer, so
    the first byte of the tunnelled stream is the next one read. When the head of an answer
    arrives, its status alone decides. *)
Theorem tunnel_exact p host port w :
  ∃ r w', connect_via_http p host port w = Some (r, w') ∧
    (∀ c, r = Ok c → outgoing w' c = connect_request p host port ∧
       ∃ w1 head, incoming w1 c = head ++ incoming w' c ∧ is_head head ∧ contains ($" 200") (status_line head) = true) ∧
    (∀ c w0 w1 head rest, tcp_connect (addr p) w = (Ok c, w0) → tcp_write_all c (connect_request p host port) w0 = (Ok tt, w1) →
       (∀ w, is_ok (tcp_read1 c w).1 = true) → is_head head → incoming w1 c = head ++ rest →
       r = head_result c head ∧ incoming w' c = rest).
Proof.
  unfold connect_via_http.
  destruct (tcp_connect (addr p) w) as [[c|e] w0] eqn:Hc.
  2:{ unfold mbind. rewrite Hc. eexists _, _. split; [done|]. split; [done|]. by intros c ? ? ? ? [=]. }
  rewrite (mbind_step _ _ _ _ _ Hc). apply connect_law in Hc as Ho0.
  destruct (tcp_write_all c (connect_request p host port) w0) as [[[]|e] w1] eqn:Hw.
  2:{ unfold mbind. rewrite Hw. eexists _, _. split; [done|]. split; [done|]. intros c' ? ? ? ? [= <- <-]. congruence. }
  rewrite (mbind_step _ _ _ _ _ Hw). unfold mret. apply write_law in Hw as Ho1. rewrite Ho0 in Ho1. cbn [app] in Ho1.
  destruct (read_head_ends HEAD_FUEL c [] w1 unfinished_nil) as (r & w2 & Hrun & Ho2 & Hread); [unfold HEAD_FUEL; cbn [length]; lia|].
  rewrite Hrun. destruct r as [head|e].
  - destruct (Hread head eq_refl) as (Hh & more & -> & Hin). cbn [app] in Hin, Hh |- *. eexists _, _. split; [done|]. split.
    + intros c' [-> Hst]%head_result_Ok. split; [by rewrite Ho2|]. by exists w1, more.
    + intros c' ? ? head rest [= <- <-] Hw' Hok Hh' Hin'. rewrite Hw in Hw'. injection Hw' as <-.
      destruct (read_head_finds HEAD_FUEL c [] w1 rest head Hok unfinished_nil Hh') as (w3 & Hrun' & Hrest);
        [unfold HEAD_FUEL; cbn [length]; lia|done|].
      rewrite Hrun in Hrun'. cbn [app] in Hrun'. by injection Hrun' as -> ->.
  - eexists _, _. split; [done|]. split; [done|].
    intros c' ? ? head rest [= <- <-] Hw' Hok Hh' Hin'. rewrite Hw in Hw'. injection Hw' as <-.
    destruct (read_head_finds HEAD_FUEL c [] w1 rest head Hok unfinished_nil Hh') as (w3 & Hrun' & Hrest);
      [unfold HEAD_FUEL; cbn [length]; lia|done|]. by rewrite Hrun in Hrun'.
Qed.
End ProxySpec.

(** ** A concrete proxy *)

Record TcpWorld := { tw_in : str; tw_out : str }.

#[export] Instance tcp_world : Tcp TcpWorld := {
  Conn := unit;
  SocketAddr := str;
  tcp_connect _ w := (Ok tt, {| tw_in := tw_in w; tw_out := [] |});
  tcp_write_all _ d w := (Ok tt, {| tw_in := tw_in w; tw_out := tw_out w ++ d |});
  tcp_read1 _ w := match tw_in w with
                   | [] => (Ok None, w)
                   | b :: r => (Ok (Some b), {| tw_in := r; tw_out := tw_out w |})
                   end;
  lookup_host a w := (Ok [a], w);
  socks5_connect _ _ _ w := (Ok tt, w);
  base64_standard s := s;
}.

#[export] Program Instance tcp_world_laws : TcpLaws TcpWorld := { incoming w _ := tw_in w; outgoing w _ := tw_out w }.
Next Obligation. by intros a w c w' [= <- <-]. Qed.
Next Obligation. by intros c d w w' [= <-]. Qed.
Next Obligation. intros c w r w'. cbn. destruct (tw_in w) as [|b l]; by intros [= <- <-]. Qed.

Definition demo_proxy : ProxyConfig :=
  {| socks5 := false; p_host := $"proxy"; p_port := 3128; auth := Some ($"me", $"pw") |}.

Definition answering (status after : str) : TcpWorld := {| tw_in := status ++ CRLF ++ $"Via: x" ++ CRLF ++ CRLF ++ after; tw_out := [] |}.

Lemma tunnel_exact_witness :
  option_map (λ rw : result unit Error * TcpWorld, (rw.1, tw_in rw.2))
    (connect_via_http demo_proxy ($"s3") 443 (answering ($"HTTP/1.1 200 OK") ($"TLS"))) = Some (Ok tt, $"TLS").
Proof.
  destruct (tunnel_exact demo_proxy ($"s3") 443 (answering ($"HTTP/1.1 200 OK") ($"TLS"))) as (r & w' & -> & _ & Hfinds).
  set (head := $"HTTP/1.1 200 OK" ++ CRLF ++ $"Via: x" ++ CRLF ++ CRLF).
  assert (Hhead : is_head head).
  { split_and!; [vm_refl|vm_compute; done|]. intros k Hk. vm_compute in Hk. do 27 (destruct k as [|k]; [vm_refl|]). lia. }
  edestruct (Hfinds tt) as [-> Hrest]; [reflexivity|reflexivity|by intros []; cbn; destruct tw_in0|exact Hhead|reflexivity|].
  cbn [option_map fst snd]. cbn in Hrest. by rewrite Hrest.
Defined.

(** The status is searched in the whole line: a refusal whose reason holds " 200" opens the tunnel ... *)
Example refusal_taken_for_success :
  option_map fst (connect_via_http demo_proxy ($"s3") 443 (answering ($"HTTP/1.1 502 upstream said 200") [])) = Some (Ok tt).
Proof. vm_compute. reflexivity. Qed.

(** ... and a success other than 200 does not. *)
Example success_204_refused :
  option_map (λ rw, is_ok rw.1) (connect_via_http demo_proxy ($"s3") 443 (answering ($"HTTP/1.1 204 No Content") [])) = Some false.
Proof. vm_compute. reflexivity. Qed.
