(* ===== verification/Transfer.v ===== *)
(** * Transfers: download, upload, copy (src/src/storage/s3.rs)

    The parts of a transfer are concurrent tasks ([Tasks]); each task is one request
    with the file access around it. *)

From S2P Require Import Prelude RustStr Strutil Url RateLimit Storage Fs Tasks S3Client.

Local Open Scope Z_scope.

(** [file_mtime_value]'s format: [seconds.nanoseconds], nine digits after the dot. *)
Definition pad9 (s : str) : str := repeat "0"%char (9 - length s) ++ s.
Definition show_mtime (ns : Z) : str :=
  to_string (ns / 1000000000) ++ $"." ++ pad9 (to_string (ns mod 1000000000)).

(** [s.parse::<i64>()] *)
Definition parse_i64 (s : str) : option Z :=
  match s with
  | "-"%char :: ds =>
      if bool_decide (ds = []) || negb (forallb is_digit ds) then None
      else let v := - digits_val 0 ds in if v <? - 2 ^ 63 then None else Some v
  | _ => parse_uint i64_max s
  end.

(** The seconds and nanoseconds [set_file_mtime_from_value] reads. *)
Definition parse_mtime (value : str) : option (Z * Z) :=
  match split_once ($".") value with
  | Some (s, n) => option_map (λ secs, (secs, default 0 (parse_uint u32_max n))) (parse_i64 s)
  | None => option_map (λ secs, (secs, 0)) (parse_i64 value)
  end.

(** The parts of [size] bytes in parts of [part_size]: part [i] starts at
    [i * part_size]. *)
Definition part_offset (part_size i : Z) : Z := i * part_size.
Definition part_len (part_size size i : Z) : Z := Z.min part_size (size - part_offset part_size i).

(** The part size of a multipart copy, grown to stay within the part limit. *)
Definition copy_part_size (part_size size : Z) : Z :=
  let min_part := div_ceil size MAX_MULTIPART_PARTS in
  if part_size <? min_part then div_ceil min_part (1024 * 1024) * 1024 * 1024 else part_size.

Definition part_le (a b : Z * option str) : Prop := fst a <= fst b.

#[export] Instance part_le_dec a b : Decision (part_le a b).
Proof. apply Z_le_dec. Defined.

Definition sort_parts (ps : list (Z * option str)) : list (Z * option str) := merge_sort part_le ps.

Definition with_content_type (m : Metadata) (ct : option str) : Metadata :=
  {| acl := acl m; cache_control := cache_control m; expires := expires m;
     md_storage_class := md_storage_class m; content_type := ct;
     content_encoding := content_encoding m; content_disposition := content_disposition m;
     encryption_method := encryption_method m; encryption_key_id := encryption_key_id m;
     user_defined := user_defined m; directive := directive m; if_none_match := if_none_match m |}.

Definition with_user_defined (m : Metadata) (ud : gmap str str) : Metadata :=
  {| acl := acl m; cache_control := cache_control m; expires := expires m;
     md_storage_class := md_storage_class m; content_type := content_type m;
     content_encoding := content_encoding m; content_disposition := content_disposition m;
     encryption_method := encryption_method m; encryption_key_id := encryption_key_id m;
     user_defined := ud; directive := directive m; if_none_match := if_none_match m |}.

(** [apply_put_metadata] on a request with the content type [ct]. *)
Definition put_headers (ct : option str) (m : Metadata) : Headers :=
  {| h_content_type := ct; h_storage_class := nonempty (md_storage_class m); h_acl := nonempty (acl m);
     h_cache_control := nonempty (cache_control m); h_content_encoding := nonempty (content_encoding m);
     h_content_disposition := nonempty (content_disposition m); h_directive := None; h_sse := None; h_sse_key := None;
     h_metadata := user_defined m |}.

(** The headers [upload_multipart] creates the upload with. *)
Definition multipart_headers (ct : str) (m : Metadata) : Headers :=
  {| h_content_type := Some ct; h_storage_class := nonempty (md_storage_class m); h_acl := nonempty (acl m);
     h_cache_control := None; h_content_encoding := None; h_content_disposition := None;
     h_directive := None; h_sse := None; h_sse_key := None; h_metadata := user_defined m |}.

Definition copy_headers (m : Metadata) : Headers :=
  {| h_content_type := nonempty (content_type m); h_storage_class := nonempty (md_storage_class m);
     h_acl := nonempty (acl m); h_cache_control := nonempty (cache_control m);
     h_content_encoding := None; h_content_disposition := None; h_directive := nonempty (directive m);
     h_sse := None; h_sse_key := None; h_metadata := user_defined m |}.

Definition copy_multipart_headers (ct : option str) (m : Metadata) : Headers :=
  {| h_content_type := ct; h_storage_class := nonempty (md_storage_class m); h_acl := nonempty (acl m);
     h_cache_control := nonempty (cache_control m); h_content_encoding := None;
     h_content_disposition := None; h_directive := None; h_sse := None; h_sse_key := None;
     h_metadata := ∅ |}.

Section Transfer.
Context `{RegexLib} {W : Type} `{!Os W, !Sdk W, !Tokio W, !Unordered}.

Definition map_conditional_write_error (e : Error) (dst : Url) : Error :=
  if is_precondition_text (anyhow_debug e) then PreconditionFailedError (show_url dst) else e.

(** ** Modification times *)

Definition file_mtime_value (path : str) (w : W) : option str :=
  match metadata path w with
  | Ok m => match modified m with
            | Some ns => if ns <? 0 then None else Some (show_mtime ns)
            | None => None
            end
  | Err _ => None
  end.

(** Best effort: [download] only warns about its error. *)
Definition set_file_mtime_from_value (path value : str) : M W unit :=
  match parse_mtime value with
  | Some (secs, nanos) => set_file_mtime path secs nanos
  | None => mfail (anyhow ($"invalid digit found in string"))
  end.

Definition ignore_error {A} (m : M W A) : M W unit := λ w, (Ok tt, snd (m w)).

(** ** Download *)

(** The loop of [download_single]: the chunks are appended at [pos]. *)
Fixpoint write_chunks (s : S3Client) (dst : str) (pos : Z) (chunks : list (result str Error)) : M W unit :=
  match chunks with
  | [] => mret tt
  | Err e :: _ => mfail e
  | Ok c :: cs =>
      let! _ := throttle (s_download_limiter s) (Z.of_nat (length c)) in
      let! _ := write_all_at dst c pos in
      write_chunks s dst (pos + Z.of_nat (length c)) cs
  end.

Definition download_single (s : S3Client) (src : Url) (dst : str) : M W unit :=
  let! body := s3_read s src in
  let! _ := open_truncate dst in
  write_chunks s dst 0 body.

Definition download_part (s : S3Client) (src : Url) (dst : str) (total part_size i : Z) : M W unit :=
  let offset := part_offset part_size i in
  let len := part_len part_size total i in
  let! resp := send (get_object (s_client s) (request s src (Some (range_header offset (offset + len - 1))))) in
  let! data := mlift (collect_body (out_body resp)) in
  let! _ := throttle (s_download_limiter s) (Z.of_nat (length data)) in
  write_all_at dst data offset.

Definition download_remaining_parts (s : S3Client) (src : Url) (dst : str) (total part_size : Z) : M W unit :=
  let n_parts := div_ceil total part_size in
  λ w,
    let '(rs, w) := run_tasks (map (download_part s src dst total part_size)
                                 (arrange (seqZ 1 (n_parts - 1)))) w in
    match collect_results rs with Ok _ => (Ok tt, w) | Err e => (Err e, w) end.

(** [download] once the first part's response is in. *)
Definition download_body (s : S3Client) (src : Url) (dst : str) (resp : GetOutput) : M W unit :=
  let part_size := s_part_size s in
  let total := default 0 (or_else (parse_content_range_total (out_content_range resp))
                            (option_map (Z.max 0) (out_content_length resp))) in
  let mtime_value := if s_preserve s then out_metadata resp !! MTIME_METADATA_KEY else None in
  let! first := mlift (collect_body (out_body resp)) in
  let! _ := throttle (s_download_limiter s) (Z.of_nat (length first)) in
  let! _ := open_truncate dst in
  let! _ := set_len dst total in
  let! _ := write_all_at dst first 0 in
  let! _ := (if total >? part_size then download_remaining_parts s src dst total part_size else mret tt) in
  match mtime_value with
  | Some v => ignore_error (set_file_mtime_from_value dst v)
  | None => mret tt
  end.

Definition download (s : S3Client) (src : Url) (dst : str) : M W unit :=
  if s_dry_run s then mret tt
  else
    let! _ := (match parent dst with
               | Some p => if decide (p = []) then mret tt else create_dir_all p
               | None => mret tt
               end) in
    λ w,
      match get_object (s_client s) (request s src (Some (range_header 0 (s_part_size s - 1)))) w with
      | (Err e, w) =>
          if is_range_not_satisfiable (sdk_debug e) then download_single s src dst w
          else (Err (sdk_error e), w)
      | (Ok resp, w) => download_body s src dst resp w
      end.

(** ** Upload *)

Definition content_type_or_default (m : Metadata) : str :=
  default ($"application/octet-stream") (content_type m).

(** [std::fs::metadata(src)?.len()] *)
Definition file_len (src : str) : M W Z := λ w,
  match metadata src w with Ok m => (Ok (len m), w) | Err e => (Err (io_error e), w) end.

Definition upload_single (s : S3Client) (src : str) (dst : Url) (m : Metadata) : M W unit := λ w,
  let size := match metadata src w with Ok fm => len fm | Err _ => u64_max end in
  (let! _ := (if negb (size =? u64_max) then throttle (s_upload_limiter s) size else mret tt) in
   let! body := (if size <=? INLINE_BODY_MAX then λ w, (read_file src w, w)
                 else λ w, (byte_stream_file src w, w)) in
   λ w,
     match put_object (s_client s) (put_request s dst)
             (put_headers (Some (content_type_or_default m)) m) (if_none_match m) body w with
     | (Ok _, w) => (Ok tt, w)
     | (Err e, w) => (Err (map_conditional_write_error (sdk_error e) dst), w)
     end) w.

Definition upload_part_task (s : S3Client) (src : str) (dst : Url) (upload_id : str) (part_size size i : Z)
  : M W (Z * option str) :=
  let part_number := i + 1 in
  let offset := part_offset part_size i in
  let len := part_len part_size size i in
  let! _ := throttle (s_upload_limiter s) len in
  let! body := (λ w, (byte_stream src offset len w, w)) in
  let! tag := send (upload_part (s_client s) (put_request s dst) upload_id part_number body) in
  mret (part_number, tag).

Definition upload_parts (s : S3Client) (src : str) (dst : Url) (upload_id : str) (size : Z)
  : M W (list (Z * option str)) :=
  let part_size := s_part_size s in
  let n_parts := as_i32 (div_ceil size part_size) in
  λ w,
    let '(rs, w) := run_tasks (map (upload_part_task s src dst upload_id part_size size)
                                 (arrange (seqZ 0 n_parts))) w in
    match collect_results rs with Ok ps => (Ok (sort_parts ps), w) | Err e => (Err e, w) end.

(** [abort_multipart_upload], its result ignored, and the error returned. *)
Definition abort_with {A} (s : S3Client) (dst : Url) (upload_id : str) (e : Error) : M W A := λ w,
  (Err e, snd (abort_multipart_upload (s_client s) (put_request s dst) upload_id w)).

Definition created_id (id : option str) : M W str :=
  match id with
  | Some id => mret id
  | None => mfail (anyhow ($"CreateMultipartUpload returned no upload id"))
  end.

Definition upload_multipart (s : S3Client) (src : str) (dst : Url) (m : Metadata) (size : Z) : M W unit :=
  let! created := send (create_multipart_upload (s_client s) (put_request s dst)
                          (multipart_headers (content_type_or_default m) m)) in
  let! id := created_id created in
  λ w,
    match upload_parts s src dst id size w with
    | (Ok parts, w) =>
        match complete_multipart_upload (s_client s) (put_request s dst) id parts (if_none_match m) w with
        | (Ok _, w) => (Ok tt, w)
        | (Err e, w) => (Err (map_conditional_write_error (sdk_error e) dst), w)
        end
    | (Err e, w) => abort_with s dst id e w
    end.

Definition upload (s : S3Client) (src : str) (dst : Url) (m : Metadata) : M W unit :=
  if s_dry_run s then mret tt
  else
    let! size := file_len src in
    λ w,
      let m :=
        if s_preserve s then
          match file_mtime_value src w with
          | Some v => with_user_defined m (<[MTIME_METADATA_KEY := v]> (user_defined m))
          | None => m
          end
        else m in
      if size <=? s_part_size s then upload_single s src dst m w
      else upload_multipart s src dst m size w.

(** ** Server-side copy *)

Definition copy_source_header (src : Url) : str :=
  if decide (version_id src = []) then escaped_path src
  else escaped_path src ++ $"?versionId=" ++ version_id src.

Definition copy_object_single (s : S3Client) (src dst : Url) (m : Metadata) : M W unit := λ w,
  let '(exists_, w) :=
    if if_none_match m then let '(r, w) := head_size s dst w in (is_ok r, w) else (false, w) in
  if exists_ then (Err (PreconditionFailedError (show_url dst)), w)
  else send (copy_object (s_client s) (put_request s dst) (copy_source_header src) (copy_headers m)) w.

Definition copy_part_task (s : S3Client) (copy_source : str) (dst : Url) (upload_id : str)
    (part_size size i : Z) : M W (Z * option str) :=
  let part_number := i + 1 in
  let offset := part_offset part_size i in
  let len := part_len part_size size i in
  let! tag := send (upload_part_copy (s_client s) (put_request s dst) upload_id part_number copy_source
                      (range_header offset (offset + len - 1))) in
  mret (part_number, tag).

Definition copy_parts (s : S3Client) (copy_source : str) (dst : Url) (upload_id : str) (size : Z)
  : M W (list (Z * option str)) :=
  let part_size := copy_part_size (s_part_size s) size in
  let n_parts := as_i32 (div_ceil size part_size) in
  λ w,
    let '(rs, w) := run_tasks (map (copy_part_task s copy_source dst upload_id part_size size)
                                 (arrange (seqZ 0 n_parts))) w in
    match collect_results rs with Ok ps => (Ok (sort_parts ps), w) | Err e => (Err e, w) end.

(** [head_content_type(src).await.ok().flatten()] *)
Definition content_type_of (s : S3Client) (src : Url) (w : W) : option str * W :=
  match head_content_type s src w with (Ok ct, w) => (ct, w) | (Err _, w) => (None, w) end.

Definition copy_multipart (s : S3Client) (src dst : Url) (m : Metadata) (size : Z) : M W unit := λ w,
  let '(ct, w) := match nonempty (content_type m) with
                  | Some ct => (Some ct, w)
                  | None => content_type_of s src w
                  end in
  (let! created := send (create_multipart_upload (s_client s) (put_request s dst)
                           (copy_multipart_headers ct m)) in
   let! id := created_id created in
   λ w,
     match copy_parts s (copy_source_header src) dst id size w with
     | (Ok parts, w) => send (complete_multipart_upload (s_client s) (put_request s dst) id parts false) w
     | (Err e, w) => abort_with s dst id e w
     end) w.

(** After the threshold check. *)
Definition copy_or_fall_back (s : S3Client) (src dst : Url) (m : Metadata) : M W unit := λ w,
  match copy_object_single s src dst m w with
  | (Ok _, w) => (Ok tt, w)
  | (Err e, w) =>
      if is_copy_source_too_large e then
        (let! size := head_size s src in copy_multipart s src dst m size) w
      else (Err e, w)
  end.

Definition S3_copy (s : S3Client) (src dst : Url) (m : Metadata) : M W unit :=
  if s_dry_run s then mret tt
  else if multipart_copy_threshold s <? DEFAULT_MULTIPART_COPY_THRESHOLD then
    let! size := head_size s src in
    if size >? multipart_copy_threshold s then copy_multipart s src dst m size
    else copy_or_fall_back s src dst m
  else copy_or_fall_back s src dst m.

(** ** Copy through the client *)

(** The tail shared by [client_copy] and [client_copy_to]. *)
Definition copy_through (s dst_client : S3Client) (src dst : Url) (m : Metadata) : M W unit := λ w,
  let '(tmp, w) := temp_name w in
  (let! _ := download s src tmp in
   λ w,
     let '(m, w) :=
       match nonempty (content_type m) with
       | Some _ => (m, w)
       | None => let '(ct, w) := content_type_of s src w in (with_content_type m ct, w)
       end in
     let '(r, w) := upload dst_client tmp dst m w in
     (r, snd (remove_file tmp w))) w.

Definition S3_client_copy (s : S3Client) (src dst : Url) (m : Metadata) : M W unit :=
  if s_dry_run s then mret tt else copy_through s s src dst m.

Definition S3_client_copy_to (s dst_client : S3Client) (src dst : Url) (m : Metadata) : M W unit :=
  if s_dry_run s || s_dry_run dst_client then mret tt else copy_through s dst_client src dst m.
End Transfer.
