(* ===== verification/TransferParts.v ===== *)
(** * The parts of a transfer and the texts of its headers: lemmas on [Transfer] *)

From S2P Require Import Prelude RustStr Strutil Url Storage Fs Tasks S3Client Transfer.

Local Open Scope Z_scope.

(** ** How the server reads what the client writes *)

(** An object: its bucket, its key and, when one is named, its version. *)
Definition objkey : Type := str * str * option str.

Definition plus_to_space (s : str) : str := map (λ c, if is_chr "+"%char c then " "%char else c) s.

(** A copy source is [bucket/key], URL-encoded, and an optional version. *)
Definition decode_source (s : str) : option objkey :=
  let '(p, v) := match split_once ($"?versionId=") s with
                 | Some (p, v) => (p, Some v)
                 | None => (s, None)
                 end in
  match split_once ($"/") p with
  | Some (b, k) => Some (percent_bytes (plus_to_space b), percent_bytes (plus_to_space k), v)
  | None => None
  end.

Definition url_key `{RegexLib} (u : Url) : objkey := (bucket u, path u, nonempty (Some (version_id u))).
Definition current_key `{RegexLib} (u : Url) : objkey := (bucket u, path u, None).
Definition request_key (q : ObjectRequest) : objkey := (q_bucket q, q_key q, q_version q).

(** The [Content-Range] of a partial answer. *)
Definition content_range_text (a b total : Z) : str :=
  $"bytes " ++ to_string a ++ $"-" ++ to_string b ++ $"/" ++ to_string total.

(** ** The parts cover the data, once and in order *)

Lemma part_len_bounds ps size i :
  0 < ps → 0 <= i < div_ceil size ps → 0 <= size →
  0 < part_len ps size i <= ps ∧ 0 <= part_offset ps i ∧ part_offset ps i + part_len ps size i <= size.
Proof.
  intros Hps Hi Hs. unfold part_len, part_offset.
  pose proof (div_ceil_spec size ps Hs Hps) as [_ Hd]. nia.
Qed.

Lemma part_len_full ps size i :
  0 < ps → 0 <= size → 0 <= i < div_ceil size ps - 1 → part_len ps size i = ps.
Proof.
  intros Hps Hs Hi. unfold part_len, part_offset.
  pose proof (div_ceil_spec size ps Hs Hps) as [_ Hd]. nia.
Qed.

Definition part_of_data {A} (ps : Z) (data : list A) (i : Z) : list A :=
  slice data (part_offset ps i) (part_len ps (Z.of_nat (length data)) i).

Lemma seqZ_1 a : seqZ (0 + a) 1 = [a].
Proof. done. Qed.

Lemma parts_prefix {A} ps (data : list A) k :
  0 < ps → Z.of_nat k <= div_ceil (Z.of_nat (length data)) ps →
  concat (map (part_of_data ps data) (seqZ 0 (Z.of_nat k))) = slice data 0 (Z.of_nat k * ps).
Proof.
  intros Hps. induction k as [|k IH]; intros Hk; [done|].
  rewrite Nat2Z.inj_succ, <-Z.add_1_r, seqZ_app by lia. rewrite map_app, concat_app, IH by lia.
  rewrite seqZ_1. cbn [map concat]. rewrite app_nil_r. unfold part_of_data.
  pose proof (div_ceil_spec (Z.of_nat (length data)) ps ltac:(lia) Hps) as [_ Hd].
  unfold part_offset.
  assert (Hpl : slice data (Z.of_nat k * ps) (part_len ps (Z.of_nat (length data)) (Z.of_nat k))
                = slice data (Z.of_nat k * ps) ps).
  { unfold part_len, part_offset, slice. destruct (Z.le_gt_cases ps (Z.of_nat (length data) - Z.of_nat k * ps)).
    - f_equal. lia.
    - rewrite !take_ge; [done| |]; rewrite length_drop; nia. }
  rewrite Hpl. rewrite <-(Z.add_0_l (Z.of_nat k * ps)) at 2. rewrite slice_app by nia. f_equal. lia.
Qed.

Lemma parts_tile {A} ps (data : list A) :
  0 < ps → concat (map (part_of_data ps data) (seqZ 0 (div_ceil (Z.of_nat (length data)) ps))) = data.
Proof.
  intros Hps. pose proof (div_ceil_spec (Z.of_nat (length data)) ps ltac:(lia) Hps) as [H0 Hd].
  rewrite <-(Z2Nat.id (div_ceil _ _)) by done. rewrite parts_prefix by lia.
  apply slice_all. nia.
Qed.

(** ** Part numbers in ascending order, whatever order the parts completed in *)

#[export] Instance part_le_total : Total part_le.
Proof. intros a b. unfold part_le. lia. Qed.

#[export] Instance part_le_trans : Transitive part_le.
Proof. intros a b c. unfold part_le. lia. Qed.

Lemma seqZ_sorted a n : StronglySorted Z.lt (seqZ a n).
Proof.
  destruct (Z.le_gt_cases n 0) as [Hn|Hn]; [rewrite seqZ_nil by lia; constructor|].
  rewrite <-(Z2Nat.id n) by lia. clear Hn. revert a. induction (Z.to_nat n) as [|k IH]; intros a; [constructor|].
  rewrite seqZ_cons by lia. replace (Z.pred (Z.of_nat (S k))) with (Z.of_nat k) by lia.
  constructor; [apply IH|]. apply Forall_forall. intros x Hx%elem_of_seqZ. lia.
Qed.

Lemma sorted_lt_le l : Sorted Z.lt l → Sorted Z.le l.
Proof.
  induction 1 as [|x l Hl IH Hhd]; constructor; [done|]. destruct Hhd; constructor. lia.
Qed.

Lemma sort_parts_seq ps n :
  map fst ps ≡ₚ seqZ 1 n → map fst (sort_parts ps) = seqZ 1 n.
Proof.
  intros Hp. apply (Sorted_unique Z.le).
  - assert (Hs : Sorted part_le (sort_parts ps)) by (apply Sorted_merge_sort; apply _).
    clear Hp. induction Hs as [|x l Hl IH Hhd]; cbn [map]; constructor; [done|].
    destruct Hhd; cbn; by constructor.
  - apply sorted_lt_le, StronglySorted_Sorted, seqZ_sorted.
  - unfold sort_parts. by rewrite <-Hp, (merge_sort_Permutation part_le ps).
Qed.

(** ** Percent-encoding *)

(** [e] is an URL encoding of [s]: any byte may be escaped, with digits of either
    case, and a percent sign must be. *)
Inductive url_encoded : str → str → Prop :=
  | enc_nil : url_encoded [] []
  | enc_keep b e s : b ≠ "%"%char → url_encoded e s → url_encoded (b :: e) (b :: s)
  | enc_escape h l b e s : hex_pair h l = Some b → url_encoded e s →
      url_encoded ("%"%char :: h :: l :: e) (b :: s).

Lemma is_chr_refl c : is_chr c c = true.
Proof. by apply is_chr_true. Qed.

Lemma is_chr_ne c d : d ≠ c → is_chr c d = false.
Proof. intros Hn. unfold is_chr. by apply bool_decide_eq_false. Qed.

Lemma percent_bytes_encoded e s : url_encoded e s → percent_bytes e = s.
Proof.
  induction 1 as [|b e s Hb He IH|h l b e s Hh He IH]; [done| |].
  - cbn [percent_bytes]. destruct e as [|h [|l e]]; rewrite ?(is_chr_ne _ _ Hb); by rewrite IH.
  - cbn [percent_bytes]. by rewrite is_chr_refl, Hh, IH.
Qed.

(** Listed keys come back as they are: whatever characters S3 escapes in a key and with
    whichever hexadecimal digits, decoding yields the key. *)
Theorem percent_decode_roundtrip e s : url_encoded e s → utf8 s → percent_decode e = s.
Proof.
  intros He Hs. unfold percent_decode. by rewrite (percent_bytes_encoded e s), from_utf8_lossy_utf8.
Qed.

Lemma percent_decode_roundtrip_witness :
  url_encoded ($"caf%C3%a9/%25") (["c"; "a"; "f"; "195"; "169"; "/"; "%"])%char ∧
  percent_decode ($"caf%C3%a9/%25") = (["c"; "a"; "f"; "195"; "169"; "/"; "%"])%char.
Proof.
  assert (He : url_encoded ($"caf%C3%a9/%25") (["c"; "a"; "f"; "195"; "169"; "/"; "%"])%char).
  { do 3 (apply enc_keep; [done|]). do 2 (apply enc_escape; [vm_refl|]). apply enc_keep; [done|].
    apply enc_escape; [vm_refl|]. apply enc_nil. }
  split; [exact He|]. apply (percent_decode_roundtrip _ _ He).
  do 3 (apply (utf8_app [_]); [vm_refl|]). apply (utf8_app ["195"; "169"]%char); [vm_refl|].
  do 2 (apply (utf8_app [_]); [vm_refl|]). apply utf8_nil.
Defined.

(** ** The copy source header *)

Lemma all_bytes (f : ascii → bool) :
  forallb f (map ascii_of_nat (seq 0 256)) = true → ∀ c, f c = true.
Proof.
  rewrite forallb_forall. intros Hf c. apply Hf. rewrite <-(ascii_nat_embedding c).
  apply in_map, in_seq. pose proof (nat_ascii_bounded c). lia.
Qed.

(** A slash stays, any other byte is escaped. *)
Definition escape_byte (c : ascii) : str := if is_chr SLASH c then [c] else query_escape [c].

Lemma query_escape_app a b : query_escape (a ++ b) = query_escape a ++ query_escape b.
Proof. unfold query_escape. by rewrite flat_map_app. Qed.

Lemma join_app_head sep a b ps : join sep ((a ++ b) :: ps) = a ++ join sep (b :: ps).
Proof. destruct ps; [done|]. cbn. by rewrite <-app_assoc. Qed.

Lemma join_escaped s : join ($"/") (map query_escape (split_chr SLASH s)) = flat_map escape_byte s.
Proof.
  induction s as [|c s IH]; [done|]. cbn [split_chr flat_map]. rewrite <-IH. unfold escape_byte.
  destruct (split_chr SLASH s) as [|p ps] eqn:Hs; [by apply split_chr_nonempty in Hs|].
  case_decide as Hc.
  - subst. rewrite is_chr_refl. cbn [map]. by rewrite join_cons.
  - rewrite is_chr_ne by done. cbn [map]. change (c :: p) with ([c] ++ p).
    by rewrite query_escape_app, join_app_head.
Qed.

(** An escaped byte, once pluses are read as spaces, is an URL encoding of the byte,
    and holds no question mark. *)
Definition escape_ok (c : ascii) : bool :=
  negb (existsb (is_chr "?"%char) (escape_byte c)) &&
  (is_chr SLASH c || negb (existsb is_slash (escape_byte c))) &&
  match plus_to_space (escape_byte c) with
  | [d] => is_chr c d && negb (is_chr "%"%char d)
  | [p; h; l] => is_chr "%"%char p && bool_decide (hex_pair h l = Some c)
  | _ => false
  end.

Lemma escape_byte_ok c : escape_ok c = true.
Proof. revert c. apply all_bytes. vm_refl. Qed.

Lemma url_encoded_app a b s t : url_encoded a s → url_encoded b t → url_encoded (a ++ b) (s ++ t).
Proof. induction 1; cbn; [done|by constructor; auto|intros; eapply enc_escape; eauto]. Qed.

Lemma escaped_encoding s : url_encoded (plus_to_space (flat_map escape_byte s)) s.
Proof.
  induction s as [|c s IH]; [constructor|]. cbn [flat_map]. unfold plus_to_space. rewrite map_app.
  apply (url_encoded_app _ _ [c]); [|exact IH]. clear IH.
  pose proof (escape_byte_ok c) as Hc. unfold escape_ok in Hc. reflect_bools.
  fold (plus_to_space (escape_byte c)).
  destruct (plus_to_space (escape_byte c)) as [|p [|h [|l [|]]]]; try done; reflect_bools.
  - rewrite is_chr_true in *. subst. apply enc_keep; [|constructor].
    intros ->. by rewrite is_chr_refl in *.
  - rewrite is_chr_true in *. subst. by apply enc_escape; [|constructor].
Qed.

Lemma escaped_no (p : ascii → bool) s :
  (∀ c, c ∈ s → existsb p (escape_byte c) = false) → existsb p (flat_map escape_byte s) = false.
Proof.
  induction s as [|c s IH]; intros Hs; [done|]. cbn [flat_map]. rewrite existsb_app, Hs, IH; [done| |by left].
  intros d Hd. apply Hs. by right.
Qed.

Lemma split_once_fresh c p a b :
  existsb (is_chr c) a = false → split_once (c :: p) (a ++ (c :: p) ++ b) = Some (a, b).
Proof.
  induction a as [|d a IH]; intros Ha.
  - cbn [app split_once]. change (c :: p ++ b) with ((c :: p) ++ b). by rewrite strip_prefix_app.
  - cbn [existsb] in Ha. apply orb_false_iff in Ha as [Hd Ha].
    change ((d :: a) ++ (c :: p) ++ b) with (d :: (a ++ (c :: p) ++ b)).
    cbn [split_once strip_prefix]. rewrite decide_False; [by rewrite IH|].
    intros ->. by rewrite is_chr_refl in Hd.
Qed.

Lemma split_once_absent c p s : existsb (is_chr c) s = false → split_once (c :: p) s = None.
Proof.
  intros Hs. apply split_once_None. intros a b ->. rewrite !existsb_app in Hs. cbn in Hs.
  rewrite is_chr_refl in Hs. by rewrite orb_true_r in Hs.
Qed.

Lemma no_question s : existsb (is_chr "?"%char) (flat_map escape_byte s) = false.
Proof.
  apply escaped_no. intros c _. pose proof (escape_byte_ok c) as Hc. unfold escape_ok in Hc. by reflect_bools.
Qed.

Lemma copy_source_header_key `{RegexLib} u :
  object_url u → decode_source (copy_source_header u) = Some (url_key u).
Proof.
  intros (Hk & Hs & Hb & Hslash & Hp).
  assert (He : escaped_path u = flat_map escape_byte (bucket u) ++ $"/" ++ flat_map escape_byte (path u)).
  { unfold escaped_path, absolute, is_remote. rewrite Hk, bool_decide_true by done. cbn [negb].
    unfold remote_url. rewrite Hs, !decide_False by done.
    change ($"s3" ++ $"://" ++ bucket u ++ $"/" ++ path u) with ($"s3://" ++ bucket u ++ $"/" ++ path u).
    rewrite strip_prefix_app. cbn [from_option id]. rewrite join_escaped, !flat_map_app. done. }
  assert (Hdec : ∀ v : option str, match split_once ($"/") (escaped_path u) with
            | Some (b, k) => Some (percent_bytes (plus_to_space b), percent_bytes (plus_to_space k), v)
            | None => None end = Some (bucket u, path u, v)).
  { intros v. rewrite He. change ($"/") with [SLASH] at 1.
    change ($"/" ++ flat_map escape_byte (path u)) with (SLASH :: flat_map escape_byte (path u)).
    rewrite split_once_chr.
    - by rewrite !(percent_bytes_encoded _ _ (escaped_encoding _)).
    - apply existsb_forallb_negb. apply (escaped_no is_slash). intros c Hc.
      pose proof (escape_byte_ok c) as Ho. unfold escape_ok in Ho. reflect_bools.
      destruct (is_chr SLASH c) eqn:Hsc; [|cbn [orb] in *; by reflect_bools].
      apply (proj1 (existsb_false_Forall _ _)) in Hslash. rewrite Forall_forall in Hslash.
      specialize (Hslash c Hc). unfold is_slash in Hslash. congruence. }
  assert (Hq : existsb (is_chr "?"%char) (escaped_path u) = false).
  { rewrite He, !existsb_app, !no_question. done. }
  unfold decode_source, copy_source_header, url_key. cbn [nonempty].
  change ($"?versionId=") with ("?"%char :: $"versionId=").
  destruct (decide (version_id u = [])) as [Hv|Hv].
  - rewrite (split_once_absent "?"%char ($"versionId=") _ Hq). apply Hdec.
  - rewrite (split_once_fresh "?"%char ($"versionId=") _ _ Hq). apply Hdec.
Qed.

(** The source of a server-side copy is the object the URL names: reading the header the
    way S3 does gives back the bucket, the key and the version, whatever bytes they hold. *)
Theorem copy_source_roundtrip `{RegexLib} u :
  object_url u → decode_source (copy_source_header u) = Some (url_key u).
Proof. apply copy_source_header_key. Qed.

Definition versioned_source : Url (H := SimpleRegex) :=
  {| kind := Remote; scheme := $"s3"; bucket := $"my-bucket"; path := $"a b/c+%?d"; delimiter := []; url_prefix := [];
     version_id := $"v7"; all_versions := false; start_after := []; relative_path := []; url_filter := [];
     filter_regex := None; raw := true |}.

Lemma copy_source_roundtrip_witness :
  copy_source_header versioned_source = $"my-bucket/a+b/c%2B%25%3Fd?versionId=v7" ∧
  decode_source (copy_source_header versioned_source) = Some ($"my-bucket", $"a b/c+%?d", Some ($"v7")).
Proof.
  split; [vm_refl|]. refine (copy_source_roundtrip versioned_source _). by repeat split.
Defined.

(** ** Sizes and times in headers *)

Lemma digit_bytes c : is_digit c = true → negb (is_slash c) && negb (ws1 c) && (code c <? 128)%nat = true.
Proof.
  pose proof (all_bytes (λ c, negb (is_digit c) || (negb (is_slash c) && negb (ws1 c) && (code c <? 128)%nat))
                ltac:(vm_refl) c) as Hc. cbn beta in Hc. intros Hd. by rewrite Hd in Hc.
Qed.

Lemma digits_trimmed s : forallb is_digit s = true → trimmed s = true.
Proof.
  intros Hs. apply trimmed_ascii. rewrite forallb_Forall in *. eapply Forall_impl; [exact Hs|].
  intros c [[_ Hw]%andb_true_iff Hc]%digit_bytes%andb_true_iff. by rewrite Hw, Hc.
Qed.

Lemma digits_no_slash s : forallb is_digit s = true → existsb is_slash s = false.
Proof.
  intros Hs. apply existsb_false_Forall. rewrite forallb_Forall in Hs. eapply Forall_impl; [exact Hs|].
  intros c Hc%digit_bytes. by reflect_bools.
Qed.

Lemma rfind_app_last p a c b :
  p c = true → existsb p b = false → rfind p (a ++ c :: b) = Some (length a).
Proof.
  intros Hc Hb. induction a as [|d a IH]; cbn [app rfind length].
  - by rewrite (proj2 (rfind_None p b) Hb), Hc.
  - by rewrite IH.
Qed.

Lemma content_range_parsed a b total :
  0 <= total <= u64_max → parse_content_range_total (Some (content_range_text a b total)) = Some total.
Proof.
  intros Ht. pose proof (to_string_digits total ltac:(lia)) as Hd.
  unfold parse_content_range_total, after_last_slash, content_range_text.
  replace ($"bytes " ++ to_string a ++ $"-" ++ to_string b ++ $"/" ++ to_string total)
    with (($"bytes " ++ to_string a ++ $"-" ++ to_string b) ++ SLASH :: to_string total)
    by (by rewrite <-!app_assoc).
  rewrite (rfind_app_last is_slash _ SLASH _); [|by apply is_chr_refl|by apply digits_no_slash].
  rewrite Nat.add_1_r. 
  replace (drop _ _) with (to_string total).
  - rewrite trim_trimmed by by apply digits_trimmed. by apply parse_to_string.
  - rewrite drop_app_ge by lia. by replace (S _ - _)%nat with 1%nat by lia.
Qed.

Lemma digits_val_zeros k s : digits_val 0 (repeat "0"%char k ++ s) = digits_val 0 s.
Proof. induction k as [|k IH]; [done|]. cbn [repeat app digits_val]. exact IH. Qed.

Lemma digits_no_sign s : forallb is_digit s = true →
  ∀ A (f g : str → A), match s with "+"%char :: s' => f s' | _ => g s end = g s ∧
                       match s with "-"%char :: s' => f s' | _ => g s end = g s.
Proof.
  intros Hs A f g. destruct s as [|c s]; [done|]. cbn [forallb] in Hs.
  apply andb_true_iff in Hs as [Hc _]. by destruct c as [[] [] [] [] [] [] [] []].
Qed.

Lemma parse_uint_digits max s :
  s ≠ [] → forallb is_digit s = true → digits_val 0 s <= max → parse_uint max s = Some (digits_val 0 s).
Proof.
  intros Hne Hs Hv. unfold parse_uint. rewrite (proj1 (digits_no_sign s Hs _ (λ s, s) (λ s, s))).
  rewrite bool_decide_false, Hs by done. cbn [negb orb]. by destruct (Z.leb_spec (digits_val 0 s) max); [|lia].
Qed.

Lemma parse_i64_to_string n : 0 <= n <= i64_max → parse_i64 (to_string n) = Some n.
Proof.
  intros Hn. unfold parse_i64.
  rewrite (proj2 (digits_no_sign (to_string n) (to_string_digits n ltac:(lia)) _
    (λ ds, if bool_decide (ds = []) || negb (forallb is_digit ds) then None
           else let v := - digits_val 0 ds in if v <? - 2 ^ 63 then None else Some v) (parse_uint i64_max))).
  by apply parse_to_string.
Qed.

Lemma parse_show_mtime ns :
  0 <= ns → ns / 1000000000 <= i64_max →
  parse_mtime (show_mtime ns) = Some (ns / 1000000000, ns mod 1000000000).
Proof.
  intros Hns Hmax. pose proof (Z.mod_pos_bound ns 1000000000 ltac:(lia)) as Hm.
  assert (Hq : 0 <= ns / 1000000000) by (apply Z.div_pos; lia).
  unfold parse_mtime, show_mtime.
  change ($"." ++ pad9 (to_string (ns mod 1000000000))) with ("."%char :: pad9 (to_string (ns mod 1000000000))).
  change ($".") with ["."%char]. rewrite (split_once_chr "."%char).
  2:{ pose proof (to_string_digits _ Hq) as Hd. rewrite forallb_Forall in *. eapply Forall_impl; [exact Hd|].
      intros c Hc. cbn. apply negb_true_iff, is_chr_ne. by intros ->. }
  rewrite parse_i64_to_string by lia. cbn [option_map]. unfold pad9.
  set (d := to_string (ns mod 1000000000)).
  assert (Hd : forallb is_digit d = true) by (apply to_string_digits; lia).
  assert (Hv : digits_val 0 (repeat "0"%char (9 - length d) ++ d) = ns mod 1000000000).
  { rewrite digits_val_zeros. apply to_string_val. lia. }
  rewrite parse_uint_digits, Hv; [done| | |].
  - intros [_ Hnil]%app_nil. by apply to_string_nonempty in Hnil.
  - rewrite forallb_app, Hd, andb_true_r. rewrite forallb_Forall. apply Forall_forall.
    intros c Hc%list_elem_of_In%repeat_spec. by subst.
  - rewrite Hv. unfold u32_max. lia.
Qed.

(** With preserved timestamps the time survives the object store: what the upload stores
    for a file modified at [ns] is what the download sets back, to the nanosecond. *)
Theorem mtime_roundtrip `{RegexLib} {W : Type} `{!Os W, !Tokio W} (p q : str) (w : W) m ns :
  metadata p w = Ok m → modified m = Some ns → 0 <= ns → ns / 1000000000 <= i64_max →
  ∃ v, file_mtime_value p w = Some v ∧
       set_file_mtime_from_value q v = set_file_mtime q (ns / 1000000000) (ns mod 1000000000) ∧
       ns / 1000000000 * 1000000000 + ns mod 1000000000 = ns.
Proof.
  intros Hm Hmod Hns Hmax. exists (show_mtime ns). unfold file_mtime_value, set_file_mtime_from_value.
  rewrite Hm, Hmod, parse_show_mtime by done. destruct (Z.ltb_spec ns 0); [lia|]. split; [done|]. split; [done|].
  pose proof (Z.div_mod ns 1000000000 ltac:(lia)). lia.
Qed.

(** ** The part limit *)

(** C37. A multipart copy always fits: whatever the source's size (up to S3's 5 TiB and
    beyond), the copy needs at most 10,000 parts, every part but the last is at least the
    configured size, no part of a 5 TiB source exceeds 5 GiB, and the part count is
    computed without overflow. *)
Theorem copy_parts_bounded ps size :
  5 * 1024 * 1024 <= ps → 0 <= size <= u64_max →
  let cps := copy_part_size ps size in
  let n := as_i32 (div_ceil size cps) in
  n = div_ceil size cps ∧ 0 <= n <= MAX_MULTIPART_PARTS ∧ ps <= cps ∧
  (∀ i, 0 <= i < n - 1 → part_len cps size i = cps) ∧
  (∀ i, 0 <= i < n → 0 < part_len cps size i) ∧
  (size <= 5 * 1024 * 1024 * 1024 * 1024 → ps <= 5 * 1024 * 1024 * 1024 →
   ∀ i, 0 <= i < n → part_len cps size i <= 5 * 1024 * 1024 * 1024).
Proof.
  intros Hps Hsize. cbv zeta.
  pose proof (div_ceil_spec size MAX_MULTIPART_PARTS ltac:(lia) ltac:(done)) as [Hm0 Hm].
  unfold MAX_MULTIPART_PARTS in *.
  set (mp := div_ceil size 10000) in *.
  pose proof (div_ceil_spec mp (1024 * 1024) Hm0 ltac:(lia)) as [Hk0 Hk].
  assert (Hc : ps <= copy_part_size ps size ∧ mp <= copy_part_size ps size ∧
               copy_part_size ps size <= Z.max ps (mp + 1024 * 1024)).
  { unfold copy_part_size, MAX_MULTIPART_PARTS. fold mp. destruct (Z.ltb_spec ps mp); lia. }
  set (cps := copy_part_size ps size) in *.
  pose proof (div_ceil_spec size cps ltac:(lia) ltac:(lia)) as [Hn0 Hn].
  assert (Hn1 : div_ceil size cps <= 10000) by (apply div_ceil_le; nia).
  rewrite as_i32_small by lia. split_and!; [done|lia|lia|lia| | |].
  - intros i Hi. apply part_len_full; lia.
  - intros i Hi. apply part_len_bounds; lia.
  - intros Hs Hp i Hi. unfold part_len. lia.
Qed.

Lemma copy_parts_bounded_witness :
  (5 * 1024 * 1024 <= 8 * 1024 * 1024 ∧ 0 <= 5 * 1024 ^ 4 <= u64_max) ∧
  as_i32 (div_ceil (5 * 1024 ^ 4) (copy_part_size (8 * 1024 * 1024) (5 * 1024 ^ 4))) <= 10000.
Proof.
  assert (Hp : 5 * 1024 * 1024 <= 8 * 1024 * 1024 ∧ 0 <= 5 * 1024 ^ 4 <= u64_max) by (unfold u64_max; lia).
  split; [exact Hp|]. exact (proj2 (proj1 (proj2 (copy_parts_bounded _ _ (proj1 Hp) (proj2 Hp))))).
Defined.

(** An upload does not grow its parts: 100 GiB with the default 8 MiB parts takes
    12,800 of them, more than S3 accepts. *)
Lemma upload_exceeds_part_limit :
  MAX_MULTIPART_PARTS < as_i32 (div_ceil (100 * 1024 ^ 3) DEFAULT_PART_SIZE).
Proof. vm_compute. done. Qed.
