(* ===== verification/Store.v ===== *)
(** * What the store and the system promise

    [StoreLaws] is what the AWS SDK, S3 and the operating system promise of the calls the
    transfers make (src/src/storage/s3.rs): the bytes of files, objects and uploaded parts,
    and what each call leaves alone. *)

From S2P Require Import Prelude RustStr Strutil Url RateLimit Storage Fs Tasks S3Client Transfer TransferParts.

Local Open Scope Z_scope.

Section Laws.
Context `{RegexLib} {W : Type} `{!Os W, !Sdk W, !Tokio W}
  (file_of : W → str → option str) (obj_of : W → objkey → option str)
  (part_of : W → str → Z → option str).

Definition same_files (w w' : W) : Prop := ∀ p, file_of w' p = file_of w p.
Definition same_objs (w w' : W) : Prop := ∀ o, obj_of w' o = obj_of w o.
Definition same_parts (w w' : W) : Prop := ∀ i n, part_of w' i n = part_of w i n.
Definition same (w w' : W) : Prop := same_files w w' ∧ same_objs w w' ∧ same_parts w w'.

(** Only the file [p] changes. *)
Definition only_file (p : str) (w w' : W) : Prop :=
  (∀ q, q ≠ p → file_of w' q = file_of w q) ∧ same_objs w w' ∧ same_parts w w'.

(** Of files and objects, only the versions of the object at [l] change. *)
Definition touches (l : str * str) (w w' : W) : Prop :=
  same_files w w' ∧ ∀ k : objkey, k.1 ≠ l → obj_of w' k = obj_of w k.
End Laws.

(** The object a request names. *)
Definition request_loc (q : ObjectRequest) : str * str := (q_bucket q, q_key q).

Class StoreLaws `{RegexLib} (W : Type) `{!Os W, !Sdk W, !Tokio W} := {
  file_of : W → str → option str;
  obj_of : W → objkey → option str;
  part_of : W → str → Z → option str;
  (* clocks and limiters *)
  now_same : ∀ w t w', instant_now w = (t, w') → same file_of obj_of part_of w w';
  sleep_same : ∀ d w, same file_of obj_of part_of w (sleep_for d w);
  cell_same : ∀ a b w, same file_of obj_of part_of w (set_limiter_cell a b w);
  (* files *)
  metadata_len : ∀ p w m f, metadata p w = Ok m → file_of w p = Some f → len m = Z.of_nat (length f);
  read_file_Ok : ∀ p w d, read_file p w = Ok d → file_of w p = Some d;
  byte_stream_file_Ok : ∀ p w d, byte_stream_file p w = Ok d → file_of w p = Some d;
  byte_stream_Ok : ∀ p o n w d f, byte_stream p o n w = Ok d → file_of w p = Some f →
    d = slice f o n ∧ Z.of_nat (length d) = n;
  open_truncate_spec : ∀ p w r w', open_truncate p w = (r, w') → only_file file_of obj_of part_of p w w' ∧
    (r = Ok tt → file_of w' p = Some []);
  write_spec : ∀ p d o w r w', write_all_at p d o w = (r, w') →
    only_file file_of obj_of part_of p w w' ∧
    (∀ f, file_of w p = Some f → r = Ok tt → file_of w' p = Some (write_at "000"%char f o d));
  set_len_spec : ∀ p n w r w', set_len p n w = (r, w') →
    only_file file_of obj_of part_of p w w' ∧
    (∀ f, file_of w p = Some f → r = Ok tt → file_of w' p = Some (resize "000"%char f n));
  mkdir_same : ∀ p w r w', create_dir_all p w = (r, w') → same file_of obj_of part_of w w';
  mtime_same : ∀ p s n w r w', set_file_mtime p s n w = (r, w') → same file_of obj_of part_of w w';
  (* requests *)
  get_same : ∀ c q w r w', get_object c q w = (r, w') → same file_of obj_of part_of w w';
  get_whole : ∀ c q w resp w' d, q_range q = None → get_object c q w = (Ok resp, w') →
    collect_body (out_body resp) = Ok d → obj_of w (request_key q) = Some d;
  get_range : ∀ c q a b w resp w' d, q_range q = Some (range_header a b) → 0 <= a <= b →
    get_object c q w = (Ok resp, w') → collect_body (out_body resp) = Ok d →
    ∃ o, obj_of w (request_key q) = Some o ∧ d = slice o a (b - a + 1) ∧ Z.of_nat (length o) <= u64_max ∧
         out_content_range resp
         = Some (content_range_text a (Z.min b (Z.of_nat (length o) - 1)) (Z.of_nat (length o)));
  head_same : ∀ c q w r w', head_object c q w = (r, w') → same file_of obj_of part_of w w';
  head_len : ∀ c q w out w' o, head_object c q w = (Ok out, w') → obj_of w (request_key q) = Some o →
    head_length out = Some (Z.of_nat (length o));
  put_spec : ∀ c q h b body w r w', put_object c q h b body w = (r, w') →
    same_files file_of w w' ∧
    (r = Ok tt → obj_of w' (q_bucket q, q_key q, None) = Some body) ∧
    (r ≠ Ok tt → same_objs obj_of w w');
  create_same : ∀ c q h w r w', create_multipart_upload c q h w = (r, w') →
    same file_of obj_of part_of w w';
  part_spec : ∀ c q id n body w r w', upload_part c q id n body w = (r, w') →
    same_files file_of w w' ∧ same_objs obj_of w w' ∧
    (∀ t, r = Ok t → part_of w' id n = Some body ∧ ∀ m, m ≠ n → part_of w' id m = part_of w id m);
  part_copy_spec : ∀ c q id n cs src a b w r w', upload_part_copy c q id n cs (range_header a b) w = (r, w') →
    decode_source cs = Some src → 0 <= a <= b →
    same_files file_of w w' ∧ same_objs obj_of w w' ∧
    (∀ t, r = Ok t → ∃ o, obj_of w src = Some o ∧ part_of w' id n = Some (slice o a (b - a + 1)) ∧
                          ∀ m, m ≠ n → part_of w' id m = part_of w id m);
  complete_spec : ∀ c q id ps b w r w' bodies, complete_multipart_upload c q id ps b w = (r, w') →
    Sorted Z.lt (map fst ps) → Forall2 (λ p body, part_of w id (fst p) = Some body) ps bodies →
    same_files file_of w w' ∧
    (r = Ok tt → obj_of w' (q_bucket q, q_key q, None) = Some (concat bodies)) ∧
    (r ≠ Ok tt → same_objs obj_of w w');
  abort_keeps : ∀ c q id w r w', abort_multipart_upload c q id w = (r, w') →
    same_files file_of w w' ∧ same_objs obj_of w w';
  copy_spec : ∀ c q cs h src w r w', copy_object c q cs h w = (r, w') → decode_source cs = Some src →
    same_files file_of w w' ∧
    (r = Ok tt → ∃ o, obj_of w src = Some o ∧ obj_of w' (q_bucket q, q_key q, None) = Some o) ∧
    (r ≠ Ok tt → same_objs obj_of w w');
  (* what the requests that write leave alone, whatever they are given *)
  put_touches : ∀ c q h b body w r w', put_object c q h b body w = (r, w') →
    touches file_of obj_of (request_loc q) w w';
  complete_touches : ∀ c q id ps b w r w', complete_multipart_upload c q id ps b w = (r, w') →
    touches file_of obj_of (request_loc q) w w';
  copy_touches : ∀ c q cs h w r w', copy_object c q cs h w = (r, w') → touches file_of obj_of (request_loc q) w w';
  part_copy_keeps : ∀ c q id n cs range w r w', upload_part_copy c q id n cs range w = (r, w') →
    same_files file_of w w' ∧ same_objs obj_of w w';
}.

Section Store.
Context `{StoreLaws}.

#[local] Abbreviation same := (same file_of obj_of part_of).
#[local] Abbreviation same_files := (same_files file_of).
#[local] Abbreviation same_objs := (same_objs obj_of).
#[local] Abbreviation touches := (touches file_of obj_of).

#[export] Instance same_files_po : PreOrder same_files.
Proof. split; [by intros ??|]. intros a b c Hab Hbc p. by rewrite Hbc, Hab. Qed.

#[export] Instance same_objs_po : PreOrder same_objs.
Proof. split; [by intros ??|]. intros a b c Hab Hbc p. by rewrite Hbc, Hab. Qed.

#[export] Instance same_po : PreOrder same.
Proof.
  split; [by intros ?; repeat split|]. intros a b c (Hf & Ho & Hp) (Hf' & Ho' & Hp'). split_and!.
  - by transitivity b.
  - by transitivity b.
  - intros i n. by rewrite Hp', Hp.
Qed.

Lemma throttle_same l n w r w' : throttle l n w = (r, w') → r = Ok tt ∧ same w w'.
Proof.
  unfold throttle. destruct l as [rl|]; [|by intros [= <- <-]].
  destruct (instant_now w) as [t w1] eqn:Hn. apply now_same in Hn.
  destruct (acquire _ _ _) as [start rl']. pose proof (cell_same rl rl' w1) as Hc.
  destruct start as [start|]; [|intros [= <- <-]; split; [done|by transitivity w1]].
  destruct (instant_now _) as [t2 w3] eqn:Hn2. apply now_same in Hn2.
  intros [= <- <-]. split; [done|].
  assert (same w w3) by (transitivity w1; [done|]; by etransitivity).
  destruct (start >? t2); [|done]. transitivity w3; [done|]. apply sleep_same.
Qed.

#[export] Instance touches_po l : PreOrder (touches l).
Proof.
  split; [by intros ?|]. intros a b c [Hf Ho] [Hf' Ho']. split; [by transitivity b|]. intros k Hk. by rewrite Ho', Ho.
Qed.

Lemma objs_touches l w w' : same_files w w' → same_objs w w' → touches l w w'.
Proof. intros Hf Ho. split; [done|]. intros k _. apply Ho. Qed.

Lemma same_touches l w w' : same w w' → touches l w w'.
Proof. intros (Hf & Ho & _). by apply objs_touches. Qed.
End Store.
