(* ===== verification/TransferFrame.v ===== *)
(** * What a transfer leaves alone

    An upload and a server-side copy touch no file and no object but their destination,
    whatever they are given and whatever fails. *)

From S2P Require Import Prelude RustStr Strutil Url RateLimit Storage Fs Hoare Tasks S3Client Transfer TransferParts Store.

Local Open Scope Z_scope.

Section Frame.
Context `{StoreLaws, !Unordered}.
(** Since [w0], only the object at [l] changed. *)
Context (l : str * str) (w0 : W).

#[local] Abbreviation only := (λ w, touches file_of obj_of l w0 w).

Lemma only_same {A} (m : M W A) : (∀ w r w', m w = (r, w') → same file_of obj_of part_of w w') → keeps only m.
Proof. intros Hm. apply keeps_intro. intros w r w' Hw Hr. etransitivity; [exact Hw|]. eapply same_touches, Hm, Hr. Qed.

Lemma only_run {A} (m : M W A) : (∀ w r w', m w = (r, w') → touches file_of obj_of l w w') → keeps only m.
Proof. intros Hm. apply keeps_intro. intros w r w' Hw Hr. etransitivity; [exact Hw|]. by eapply Hm. Qed.

Lemma keeps_send {A} (m : W → result A SdkError * W) :
  (∀ w r w', m w = (r, w') → touches file_of obj_of l w w') → keeps only (send m).
Proof.
  intros Hm. apply only_run. intros w r w'. unfold send. destruct (m w) as [[a|e] w1] eqn:Hr; intros [= _ <-]; by eapply Hm.
Qed.

Lemma only_throttle lim n : keeps only (throttle lim n).
Proof. apply only_same. intros w r w' Hr. by apply throttle_same in Hr as [_ ?]. Qed.

Lemma only_reads {A} (f : W → result A Error) : keeps only (λ w, (f w, w)).
Proof. apply only_same. by intros w r w' [= _ <-]. Qed.

Lemma only_file_len p : keeps only (file_len p).
Proof. apply only_same. intros w r w'. unfold file_len. by destruct (metadata p w); intros [= _ <-]. Qed.

Lemma only_head s u : keeps only (head_size s u).
Proof. unfold head_size. keep. apply keeps_send. intros w r w' Hr. eapply same_touches, head_same, Hr. Qed.

Lemma only_create c q h : keeps only (send (create_multipart_upload c q h)).
Proof. apply keeps_send. intros w r w' Hr. eapply same_touches, create_same, Hr. Qed.

Lemma only_upload_part c q id n d : keeps only (send (upload_part c q id n d)).
Proof. apply keeps_send. intros w r w' Hr. destruct (part_spec _ _ _ _ _ _ _ _ Hr) as (? & ? & _). by apply objs_touches. Qed.

Lemma only_part_copy c q id n cs range : keeps only (send (upload_part_copy c q id n cs range)).
Proof. apply keeps_send. intros w r w' Hr. apply part_copy_keeps in Hr as [? ?]. by apply objs_touches. Qed.

Lemma only_complete c q id ps b : request_loc q = l → keeps only (send (complete_multipart_upload c q id ps b)).
Proof. intros Hq. apply keeps_send. intros w r w' Hr. rewrite <-Hq. by eapply complete_touches. Qed.

Lemma only_copy_object c q cs h : request_loc q = l → keeps only (send (copy_object c q cs h)).
Proof. intros Hq. apply keeps_send. intros w r w' Hr. rewrite <-Hq. by eapply copy_touches. Qed.

Lemma only_abort {A} s dst id e : keeps only (abort_with (A := A) s dst id e).
Proof.
  apply only_run. intros w r w'. unfold abort_with. destruct (abort_multipart_upload _ _ _ w) as [ra wa] eqn:Ha.
  intros [= _ <-]. cbn. apply abort_keeps in Ha as [? ?]. by apply objs_touches.
Qed.

Lemma only_tasks {A} (ts : list (M W A)) w rs w' :
  Forall (keeps only) ts → only w → run_tasks ts w = (rs, w') → only w'.
Proof.
  intros Hts. revert w rs. induction Hts as [|t ts Ht Hts IH]; intros w rs Hw; cbn [run_tasks]; [by intros [= _ <-]|].
  destruct (t w) as [r w1] eqn:Hr. destruct (run_tasks ts w1) as [rs1 w2] eqn:Hrs. intros [= _ <-].
  eapply IH; [|exact Hrs]. by eapply keeps_run.
Qed.

(** A state-dependent choice of computation. *)
Lemma keeps_state {A} (f : W → M W A) : (∀ w, keeps only (f w)) → keeps only (λ w, f w w).
Proof. intros Hf. apply keeps_intro. intros w r w' Hw Hr. exact (keeps_run _ _ _ _ _ (Hf w) Hw Hr). Qed.

#[local] Hint Resolve only_throttle only_reads only_file_len only_head only_create only_upload_part only_part_copy
  only_abort : keeps.

Lemma only_created id : keeps only (created_id id).
Proof. unfold created_id. keep. Qed.

#[local] Hint Resolve only_created : keeps.

(** ** Uploads *)

Section Upload.
Context (s : S3Client) (dst : Url) (Hdst : (bucket dst, path dst) = l).

(** A request whose error is mapped, and its value dropped. *)
Lemma only_mapped (f : SdkError → Error) (m : W → result unit SdkError * W) :
  (∀ w r w', m w = (r, w') → touches file_of obj_of l w w') →
  keeps only (λ w, match m w with (Ok _, w) => (Ok tt, w) | (Err e, w) => (Err (f e), w) end).
Proof. intros Hm. apply only_run. intros w r w'. destruct (m w) as [[a|e] w1] eqn:Hr; intros [= _ <-]; by eapply Hm. Qed.

Lemma only_put h b d : keeps only (λ w,
  match put_object (s_client s) (put_request s dst) h b d w with
  | (Ok _, w) => (Ok tt, w)
  | (Err e, w) => (Err (map_conditional_write_error (sdk_error e) dst), w)
  end).
Proof.
  apply (only_mapped (λ e, map_conditional_write_error (sdk_error e) dst)). intros w r w' Hp%put_touches. by rewrite <-Hdst.
Qed.

Lemma only_complete_put id ps b : keeps only (λ w,
  match complete_multipart_upload (s_client s) (put_request s dst) id ps b w with
  | (Ok _, w) => (Ok tt, w)
  | (Err e, w) => (Err (map_conditional_write_error (sdk_error e) dst), w)
  end).
Proof.
  apply (only_mapped (λ e, map_conditional_write_error (sdk_error e) dst)). intros w r w' Hp%complete_touches.
  by rewrite <-Hdst.
Qed.

Lemma only_parts (task : Z → M W (Z * option str)) idxs :
  (∀ i, keeps only (task i)) →
  keeps only (λ w, let '(rs, w) := run_tasks (map task idxs) w in
                   match collect_results rs with Ok ps => (Ok (sort_parts ps), w) | Err e => (Err e, w) end).
Proof.
  intros Ht. apply keeps_intro. intros w r w' Hw. destruct (run_tasks _ w) as [rs w1] eqn:Hrs.
  assert (Hw1 : only w1).
  { eapply only_tasks; [|exact Hw|exact Hrs]. apply Forall_map, Forall_forall. auto. }
  by destruct (collect_results rs); intros [= _ <-].
Qed.

(** The end of a multipart upload or copy. *)
Lemma only_finish (parts : M W (list (Z * option str))) id (fin : list (Z * option str) → M W unit) :
  keeps only parts → (∀ ps, keeps only (fin ps)) →
  keeps only (λ w, match parts w with (Ok ps, w) => fin ps w | (Err e, w) => abort_with s dst id e w end).
Proof.
  intros Hp Hf. apply keeps_intro. intros w r w' Hw. destruct (parts w) as [[ps|e] w1] eqn:Hr;
    apply (keeps_run _ _ _ _ _ Hp Hw) in Hr.
  - by apply keeps_run.
  - apply keeps_run; [apply only_abort|done].
Qed.

Lemma only_upload src m : keeps only (upload s src dst m).
Proof.
  unfold upload. destruct (s_dry_run s); [keep|]. apply keeps_bind; [apply only_file_len|]. intros size.
  apply keeps_intro. intros w r w' Hw. cbv zeta.
  match goal with |- context [upload_single s src dst ?m' w] => generalize m' end. intros m'. destruct (_ <=? _).
  - unfold upload_single. cbv zeta. apply keeps_run; [|done]. keep. apply only_put.
  - apply keeps_run; [|done]. unfold upload_multipart. keep.
    refine (only_finish _ _ _ _ (λ ps, only_complete_put _ ps _)). apply only_parts. intros i. unfold upload_part_task. keep.
Qed.

(** ** Server-side copies *)

Lemma only_copy_multipart src m size : keeps only (copy_multipart s src dst m size).
Proof.
  unfold copy_multipart. apply keeps_intro. intros w r w' Hw.
  assert (Hct : ∀ ct w1, match nonempty (content_type m) with
                  | Some ct => (Some ct, w) | None => content_type_of s src w end = (ct, w1) → only w1).
  { intros ct w1. destruct (nonempty _); [by intros [= _ <-]|]. unfold content_type_of.
    destruct (head_content_type s src w) as [rh w2] eqn:Hh. assert (Hk : keeps only (head_content_type s src)).
    { unfold head_content_type. keep. apply keeps_send. intros a x b Hr. eapply same_touches, head_same, Hr. }
    apply (keeps_run _ _ _ _ _ Hk Hw) in Hh. by destruct rh; intros [= _ <-]. }
  destruct (match nonempty (content_type m) with Some _ => _ | None => _ end) as [ct w1]. specialize (Hct _ _ eq_refl).
  apply keeps_run; [|exact Hct]. keep.
  refine (only_finish _ _ _ _ (λ ps, only_complete (s_client s) (put_request s dst) _ ps false Hdst)). apply only_parts. intros i. unfold copy_part_task. keep.
Qed.

Lemma only_copy_single src m : keeps only (copy_object_single s src dst m).
Proof.
  unfold copy_object_single. apply keeps_intro. intros w r w' Hw. destruct (if_none_match m).
  - destruct (head_size s dst w) as [rh w1] eqn:Hh. apply (keeps_run _ _ _ _ _ (only_head _ _) Hw) in Hh.
    destruct (is_ok rh); [by intros [= _ <-]|]. apply keeps_run; [by apply only_copy_object|done].
  - apply keeps_run; [by apply only_copy_object|done].
Qed.

Lemma only_copy src m : keeps only (S3_copy s src dst m).
Proof.
  assert (Hfb : keeps only (copy_or_fall_back s src dst m)).
  { unfold copy_or_fall_back. apply keeps_intro. intros w r w' Hw.
    destruct (copy_object_single s src dst m w) as [[[]|e] w1] eqn:Hs;
      apply (keeps_run _ _ _ _ _ (only_copy_single _ _) Hw) in Hs; [by intros [= _ <-]|].
    destruct (is_copy_source_too_large e); [|by intros [= _ <-]]. apply keeps_run; [|exact Hs].
    keep. apply only_copy_multipart. }
  unfold S3_copy. keep. apply only_copy_multipart.
Qed.
End Upload.
End Frame.

(** An upload, and a copy, whatever happens. *)
Section Touches.
Context `{StoreLaws, !Unordered}.

Lemma upload_touches s src dst m w r w' :
  upload s src dst m w = (r, w') → touches file_of obj_of (bucket dst, path dst) w w'.
Proof. apply keeps_run; [by apply only_upload|done]. Qed.

Lemma copy_touches_only s src dst m w r w' :
  S3_copy s src dst m w = (r, w') → touches file_of obj_of (bucket dst, path dst) w w'.
Proof. apply keeps_run; [by apply only_copy|done]. Qed.
End Touches.
