(* ===== verification/TransferSpec.v ===== *)
(** * What a transfer guarantees

    From [StoreLaws]: a download, an upload and a copy that succeed moved exactly the bytes
    of their source. *)

From S2P Require Import Prelude RustStr Strutil Url RateLimit Storage Fs Tasks S3Client Transfer TransferParts Store TransferFrame.

Local Open Scope Z_scope.

Section TransferSpec.
Context `{StoreLaws, !Unordered}.

#[local] Abbreviation same := (same file_of obj_of part_of).
#[local] Abbreviation same_files := (same_files file_of).
#[local] Abbreviation same_objs := (same_objs obj_of).
#[local] Abbreviation only_file := (only_file file_of obj_of part_of).

Lemma file_len_spec p w r w' f :
  file_len p w = (r, w') → file_of w p = Some f → w' = w ∧ ∀ n, r = Ok n → n = Z.of_nat (length f).
Proof.
  unfold file_len. destruct (metadata p w) as [m|e] eqn:Hm; intros [= <- <-] Hf; split; try done.
  intros n [= <-]. by apply (metadata_len _ _ _ _ Hm).
Qed.

(** ** The parts of an upload *)

(** What a run of part tasks leaves: files and objects as they were, and when every task
    succeeded, each part's number and bytes. *)
Definition parts_done (id : str) (part : Z → str) (idxs : list Z) (rs : list (result (Z * option str) Error))
    (w w' : W) : Prop :=
  same_files w w' ∧ same_objs w w' ∧
  ∀ ps, collect_results rs = Ok ps →
    map fst ps = map (λ i, i + 1) idxs ∧
    (∀ i, i ∈ idxs → part_of w' id (i + 1) = Some (part i)) ∧
    (∀ n, n ∉ map (λ i, i + 1) idxs → part_of w' id n = part_of w id n).

Lemma run_parts (task : Z → M W (Z * option str)) id (part : Z → str) idxs w rs w' (good : W → Prop) :
  (∀ a b, same_files a b → same_objs a b → good a → good b) →
  (∀ i a r b, i ∈ idxs → good a → task i a = (r, b) →
     same_files a b ∧ same_objs a b ∧
     ∀ p, r = Ok p → fst p = i + 1 ∧ part_of b id (i + 1) = Some (part i) ∧
                     ∀ m, m ≠ i + 1 → part_of b id m = part_of a id m) →
  NoDup idxs → good w → run_tasks (map task idxs) w = (rs, w') → parts_done id part idxs rs w w'.
Proof.
  intros Hkeep. revert w rs w'. induction idxs as [|i idxs IH]; intros w rs w' Htask Hnd Hw; cbn [map run_tasks].
  { intros [= <- <-]. split; [done|]. split; [done|]. intros ps [= <-]. split; [done|].
    split; [by intros ? ?%elem_of_nil|done]. }
  destruct (task i w) as [r w1] eqn:Hi. destruct (run_tasks _ w1) as [rs1 w2] eqn:Hrs. intros [= <- <-].
  apply NoDup_cons in Hnd as [Hni Hnd].
  destruct (Htask i w r w1 ltac:(by left) Hw Hi) as (Hf & Ho & Hr).
  destruct (IH w1 rs1 w2) as (Hf2 & Ho2 & Hrest).
  { intros j a r0 b Hj. apply Htask. by right. } { done. } { by apply (Hkeep w). } { done. }
  split; [by transitivity w1|]. split; [by transitivity w1|].
  intros ps Hps. destruct r as [p|e]; [|done]. cbn [collect_results] in Hps.
  apply result_bind_Ok in Hps as (ps1 & Hps1 & [= <-]).
  destruct (Hrest _ Hps1) as (Hfst & Hin & Hout). destruct (Hr p eq_refl) as (Hp & Hpart & Hothers).
  assert (Hni' : i + 1 ∉ map (λ i, i + 1) idxs).
  { intros (j & Hj & Hin')%list_elem_of_fmap. by replace i with j in Hni by lia. }
  split; [cbn; by rewrite Hp, Hfst|]. split.
  - intros j [->|Hj]%elem_of_cons; [|by apply Hin]. by rewrite Hout.
  - intros n Hn. cbn [map] in Hn. apply not_elem_of_cons in Hn as [Hn Hn']. rewrite Hout by done. by apply Hothers.
Qed.

Lemma map_succ_seqZ n : map (λ i, i + 1) (seqZ 0 n) = seqZ 1 n.
Proof. rewrite <-(fmap_add_seqZ 1 0). apply list_fmap_ext. intros. lia. Qed.

(** Completing the upload: the parts sorted by number, their bytes in order. *)
Lemma complete_ok c q id part n idxs b rs w w1 r w' ps :
  idxs ≡ₚ seqZ 0 n → parts_done id part idxs rs w w1 → collect_results rs = Ok ps →
  complete_multipart_upload c q id (sort_parts ps) b w1 = (r, w') →
  same_files w w' ∧ (r = Ok tt → obj_of w' (q_bucket q, q_key q, None) = Some (concat (map part (seqZ 0 n)))) ∧
  (r ≠ Ok tt → same_objs w w').
Proof.
  intros Hidx (Hf & Ho & Hdone) Hps Hcomp. destruct (Hdone _ Hps) as (Hfst & Hparts & _).
  assert (Hperm : map fst ps ≡ₚ seqZ 1 n).
  { rewrite Hfst, <-map_succ_seqZ. by apply Permutation_map. }
  pose proof (sort_parts_seq _ _ Hperm) as Hsorted.
  assert (HF : Forall2 (λ p body, part_of w1 id (fst p) = Some body) (sort_parts ps) (map part (seqZ 0 n))).
  { apply (Forall2_fmap_l fst (λ k body, part_of w1 id k = Some body)). change (fst <$> sort_parts ps) with (map fst (sort_parts ps)).
    rewrite Hsorted, <-map_succ_seqZ. apply Forall2_fmap, Forall_Forall2_diag, Forall_forall.
    intros i Hi. apply Hparts. by rewrite Hidx. }
  assert (Hlt : Sorted Z.lt (map fst (sort_parts ps))).
  { rewrite Hsorted. apply StronglySorted_Sorted, seqZ_sorted. }
  destruct (complete_spec _ _ _ _ _ _ _ _ _ Hcomp Hlt HF) as (Hf1 & Hok & Herr).
  split; [by transitivity w1|]. split; [done|]. intros Hne. transitivity w1; auto.
Qed.

(** ** Upload *)

(** A transfer of the bytes [f] to [dst]: all of them arrived, or nothing changed. *)
Definition transferred (f : str) (dst : Url) (w : W) (r : result unit Error) (w' : W) : Prop :=
  same_files w w' ∧ (r = Ok tt → obj_of w' (current_key dst) = Some f) ∧ (r ≠ Ok tt → same_objs w w').

Lemma transferred_after f dst w w1 r w' :
  same_files w w1 → same_objs w w1 → transferred f dst w1 r w' → transferred f dst w r w'.
Proof.
  intros Hf Ho (Hf' & Hok & Herr). split; [by transitivity w1|]. split; [done|].
  intros Hne. transitivity w1; auto.
Qed.

Lemma not_transferred f dst w e w' : same_files w w' → same_objs w w' → transferred f dst w (Err e) w'.
Proof. intros Hf Ho. by split_and!. Qed.

Lemma put_transferred s dst h b body w r w' :
  put_object (s_client s) (put_request s dst) h b body w = (r, w') →
  transferred body dst w (match r with Ok _ => Ok tt | Err e => Err (map_conditional_write_error (sdk_error e) dst) end) w'.
Proof.
  intros Hp. destruct (put_spec _ _ _ _ _ _ _ _ Hp) as (Hf & Hok & Herr).
  destruct r as [[]|e]; (split; [done|]); split; try done; intros _; [by apply Hok|by apply Herr].
Qed.

Lemma upload_single_ok s src dst m f w r w' :
  file_of w src = Some f → upload_single s src dst m w = (r, w') → transferred f dst w r w'.
Proof.
  intros Hf. unfold upload_single, mbind.
  set (size := match metadata src w with Ok fm => len fm | Err _ => u64_max end).
  destruct ((if negb (size =? u64_max) then throttle (s_upload_limiter s) size else mret tt) w)
    as [rt w1] eqn:Ht.
  assert (Hw1 : rt = Ok tt ∧ same w w1).
  { destruct (negb _); [by apply throttle_same in Ht|]. by injection Ht as <- <-. }
  clear Ht. destruct Hw1 as [-> (Hf1 & Ho1 & _)]. intros Hrun. apply (transferred_after f dst w w1); [done..|].
  assert (Hbody : ∃ rb : result str Error, (∀ d, rb = Ok d → d = f) ∧
    match rb with
    | Ok d => match put_object (s_client s) (put_request s dst)
                      (put_headers (Some (content_type_or_default m)) m) (if_none_match m) d w1 with
              | (Ok _, w) => (Ok tt, w)
              | (Err e, w) => (Err (map_conditional_write_error (sdk_error e) dst), w)
              end
    | Err e => (Err e, w1)
    end = (r, w')).
  { destruct (size <=? INLINE_BODY_MAX).
    - exists (read_file src w1). split; [|exact Hrun]. intros d Hd%read_file_Ok. rewrite Hf1 in Hd. congruence.
    - exists (byte_stream_file src w1). split; [|exact Hrun]. intros d Hd%byte_stream_file_Ok.
      rewrite Hf1 in Hd. congruence. }
  clear Hrun. destruct Hbody as (rb & Hd & Hrun). destruct rb as [d|e].
  - specialize (Hd d eq_refl) as ->.
    destruct (put_object _ _ _ _ _ w1) as [rp w2] eqn:Hput. apply put_transferred in Hput.
    destruct rp as [[]|e]; by injection Hrun as <- <-.
  - injection Hrun as <- <-. by apply not_transferred.
Qed.

Lemma upload_parts_done s src dst id ps f idxs w rs w' :
  0 < ps → NoDup idxs → (∀ i, i ∈ idxs → 0 <= i < div_ceil (Z.of_nat (length f)) ps) → file_of w src = Some f →
  run_tasks (map (upload_part_task s src dst id ps (Z.of_nat (length f))) idxs) w = (rs, w') →
  parts_done id (part_of_data ps f) idxs rs w w'.
Proof.
  intros Hps Hnd Hidx Hf. apply (run_parts _ _ _ _ _ _ _ (λ a, file_of a src = Some f)); [| |done..].
  - intros a b Hab _. by rewrite Hab.
  - intros i a r b Hi Ha. unfold upload_part_task, mbind, send, mret.
    destruct (throttle _ _ a) as [rt a1] eqn:Ht. apply throttle_same in Ht as [-> (Hf1 & Ho1 & Hp1)].
    destruct (byte_stream src _ _ a1) as [d|e] eqn:Hb; [|by intros [= <- <-]].
    apply (byte_stream_Ok _ _ _ _ _ f) in Hb as [-> _]; [|by rewrite Hf1].
    destruct (upload_part _ _ _ _ _ a1) as [rp a2] eqn:Hup.
    destruct (part_spec _ _ _ _ _ _ _ _ Hup) as (Hf2 & Ho2 & Hpart).
    destruct rp as [t|e]; intros [= <- <-]; (split; [by transitivity a1|]); (split; [by transitivity a1|]); [|done].
    intros p [= <-]. destruct (Hpart t eq_refl) as [Hin Hout]. split; [done|]. split; [done|].
    intros n Hn. by rewrite Hout, Hp1.
Qed.

Lemma abort_with_ok {A} s dst id e w (r : result A Error) w' :
  abort_with s dst id e w = (r, w') → r = Err e ∧ same_files w w' ∧ same_objs w w'.
Proof.
  unfold abort_with. intros [= <- <-]. split; [done|].
  destruct (abort_multipart_upload _ _ _ w) as [ra wa] eqn:Ha. by apply abort_keeps in Ha.
Qed.

(** The size fits the [i32] of the part numbers. *)
Definition few_parts (ps size : Z) : Prop := 0 < ps ∧ div_ceil size ps < 2 ^ 31.

Lemma few_parts_as_i32 ps size : few_parts ps size → 0 <= size → as_i32 (div_ceil size ps) = div_ceil size ps.
Proof. intros [Hps Hn] Hs. apply as_i32_small. pose proof (div_ceil_spec size ps Hs Hps). lia. Qed.

Lemma upload_multipart_ok s src dst m f w r w' :
  file_of w src = Some f → few_parts (s_part_size s) (Z.of_nat (length f)) →
  upload_multipart s src dst m (Z.of_nat (length f)) w = (r, w') → transferred f dst w r w'.
Proof.
  intros Hf Hfew. unfold upload_multipart, mbind, send.
  destruct (create_multipart_upload _ _ _ w) as [rc w1] eqn:Hc. apply create_same in Hc as (Hf1 & Ho1 & _).
  destruct rc as [[id|]|e]; cbn [created_id mret mfail];
    [|by intros [= <- <-]; apply not_transferred..].
  intros Hrun. apply (transferred_after f dst w w1); [done..|]. revert Hrun. unfold upload_parts.
  rewrite (few_parts_as_i32 _ _ Hfew) by lia. destruct Hfew as [Hps _].
  destruct (run_tasks _ w1) as [rs w2] eqn:Hrun.
  apply upload_parts_done in Hrun;
    [|done|by rewrite (arrange_perm (seqZ _ _)); apply NoDup_seqZ
     |by intros i; rewrite (arrange_perm (seqZ _ _)), elem_of_seqZ; lia|by rewrite Hf1].
  destruct (collect_results rs) as [ps|e] eqn:Hrs.
  - destruct (complete_multipart_upload _ _ _ _ _ w2) as [rf w3] eqn:Hcomp.
    destruct (complete_ok _ _ _ _ _ _ _ _ _ _ _ _ _ (arrange_perm _) Hrun Hrs Hcomp) as (Hf3 & Hok & Herr).
    rewrite parts_tile in Hok by done.
    destruct rf as [[]|e]; intros [= <- <-]; (split; [done|]); split; try done; intros _; [by apply Hok|by apply Herr].
  - destruct Hrun as (Hf2 & Ho2 & _). intros (-> & Hf3 & Ho3)%abort_with_ok.
    apply not_transferred; by etransitivity.
Qed.


(** ** Download *)

#[local] Instance only_file_po p : PreOrder (only_file p).
Proof.
  split; [by intros ?; split_and!|]. intros a b c (Hf & Ho & Hp) (Hf' & Ho' & Hp'). split_and!.
  - intros q Hq. by rewrite Hf', Hf.
  - by transitivity b.
  - intros i n. by rewrite Hp', Hp.
Qed.

Lemma same_only p w w' : same w w' → only_file p w w'.
Proof. intros (Hf & Ho & Hp). split_and!; [|done..]. intros q _. apply Hf. Qed.

(** [g] has the length of [f] and agrees with it at the positions of [P]. *)
Definition agrees (f g : str) (P : nat → Prop) : Prop :=
  length g = length f ∧ ∀ j, P j → g !! j = f !! j.

Lemma write_slice_agrees f g P off n :
  0 <= off → 0 <= n → off + n <= Z.of_nat (length f) → agrees f g P →
  agrees f (write_at "000"%char g off (slice f off n)) (λ j, P j ∨ off <= Z.of_nat j < off + n).
Proof.
  intros Hoff Hn Hfit [Hlen Hag]. pose proof (slice_length f off n Hoff Hn) as Hsl. split.
  - unfold write_at. rewrite !length_app, length_take, repeat_length, length_drop. lia.
  - intros j Hj. rewrite write_at_lookup by lia. case_decide as Hin.
    + rewrite slice_lookup by lia. f_equal. lia.
    + apply Hag. destruct Hj; [done|lia].
Qed.

Lemma agrees_all f g : agrees f g (λ _, True) → g = f.
Proof. intros [_ Hag]. apply list_eq. intros j. by apply Hag. Qed.

Definition in_part (ps total i : Z) (j : nat) : Prop :=
  part_offset ps i <= Z.of_nat j < part_offset ps i + part_len ps total i.

(** One part's task, on a file that holds [P] of the object already. *)
Lemma download_part_ok s src dst f ps i a r b :
  obj_of a (url_key src) = Some f → 0 < ps → 0 <= i < div_ceil (Z.of_nat (length f)) ps →
  download_part s src dst (Z.of_nat (length f)) ps i a = (r, b) →
  only_file dst a b ∧
  ∀ g P, r = Ok tt → file_of a dst = Some g → agrees f g P →
    ∃ g', file_of b dst = Some g' ∧ agrees f g' (λ j, P j ∨ in_part ps (Z.of_nat (length f)) i j).
Proof.
  intros Hobj Hps Hi. unfold download_part, mbind, send, mlift.
  destruct (part_len_bounds ps (Z.of_nat (length f)) i Hps Hi ltac:(lia)) as (Hpl & Hpo & Hfit).
  destruct (get_object _ _ a) as [rg a1] eqn:Hget. pose proof (get_same _ _ _ _ _ Hget) as Hs1.
  destruct rg as [resp|e]; [|intros [= <- <-]; split; [by apply same_only|done]].
  destruct (collect_body (out_body resp)) as [d|e] eqn:Hd; [|intros [= <- <-]; split; [by apply same_only|done]].
  destruct (throttle _ _ a1) as [rt a2] eqn:Ht. apply throttle_same in Ht as [-> Hs2].
  intros Hwr. destruct (write_spec _ _ _ _ _ _ Hwr) as [Ho Hw].
  assert (Hs : same a a2) by by transitivity a1.
  split; [transitivity a2; [by apply same_only|done]|].
  intros g P Hr Hg Hag. destruct Hs as (Hsf & _ & _). specialize (Hw g). rewrite Hsf in Hw. specialize (Hw Hg Hr).
  eexists. split; [exact Hw|].
  destruct (get_range (s_client s) (request s src (Some (range_header (part_offset ps i)
              (part_offset ps i + part_len ps (Z.of_nat (length f)) i - 1)))) _ _ _ _ _ _ eq_refl ltac:(lia) Hget Hd)
    as (o & Ho' & -> & _ & _).
  change (request_key (request s src _)) with (url_key src) in Ho'.
  assert (o = f) as -> by congruence.
  replace (_ - _ + 1) with (part_len ps (Z.of_nat (length f)) i) by lia.
  apply write_slice_agrees; [lia..|done].
Qed.

Lemma download_parts_ok s src dst f ps idxs w rs w' :
  obj_of w (url_key src) = Some f → 0 < ps →
  (∀ i, i ∈ idxs → 0 <= i < div_ceil (Z.of_nat (length f)) ps) →
  run_tasks (map (download_part s src dst (Z.of_nat (length f)) ps) idxs) w = (rs, w') →
  only_file dst w w' ∧
  ∀ l g P, collect_results rs = Ok l → file_of w dst = Some g → agrees f g P →
    ∃ g', file_of w' dst = Some g' ∧
          agrees f g' (λ j, P j ∨ ∃ i, i ∈ idxs ∧ in_part ps (Z.of_nat (length f)) i j).
Proof.
  intros Hobj Hps. revert w rs w' Hobj. induction idxs as [|i idxs IH]; intros w rs w' Hobj Hidx; cbn [map run_tasks].
  { intros [= <- <-]. split; [done|]. intros l g P _ Hg Hag. exists g. split; [done|].
    destruct Hag as [Hl Hag]. split; [done|]. intros j [?|(i & Hi%elem_of_nil & _)]; [by apply Hag|done]. }
  destruct (download_part _ _ _ _ _ _ w) as [r w1] eqn:Hi. destruct (run_tasks _ w1) as [rs1 w2] eqn:Hrs.
  intros [= <- <-].
  destruct (download_part_ok _ _ _ _ _ _ _ _ _ Hobj Hps (Hidx i ltac:(by left)) Hi) as [Ho1 Hok1].
  destruct (IH w1 rs1 w2) as [Ho2 Hok2]; [|by intros j Hj; apply Hidx; right|done|].
  { destruct Ho1 as (_ & Ho1 & _). by rewrite Ho1. }
  split; [by transitivity w1|]. intros l g P Hl Hg Hag.
  destruct r as [[]|e]; [|done]. cbn [collect_results] in Hl. apply result_bind_Ok in Hl as (l1 & Hl1 & _).
  destruct (Hok1 g P eq_refl Hg Hag) as (g1 & Hg1 & Hag1).
  destruct (Hok2 l1 g1 _ Hl1 Hg1 Hag1) as (g2 & Hg2 & [Hlen Hag2]). exists g2. split; [done|]. split; [done|].
  intros j [Hj|(i' & Hi' & Hj)]; apply Hag2; [by left; left|].
  apply elem_of_cons in Hi' as [->|Hi']; [by left; right|]. right. by exists i'.
Qed.

(** Every position is in the first part or in one of the others. *)
Lemma parts_cover ps (total : nat) j :
  0 < ps → (j < total)%nat → Z.of_nat j < ps ∨
  ∃ i, i ∈ seqZ 1 (div_ceil (Z.of_nat total) ps - 1) ∧ in_part ps (Z.of_nat total) i j.
Proof.
  intros Hps Hj. destruct (Z.lt_ge_cases (Z.of_nat j) ps) as [?|Hge]; [by left|right].
  pose proof (div_ceil_spec (Z.of_nat total) ps ltac:(lia) Hps) as [_ Hd].
  exists (Z.of_nat j / ps). pose proof (Z.mul_div_le (Z.of_nat j) ps Hps).
  pose proof (Z.mul_succ_div_gt (Z.of_nat j) ps Hps).
  assert (1 <= Z.of_nat j / ps) by (apply Z.div_le_lower_bound; lia).
  split; [apply elem_of_seqZ; nia|]. unfold in_part, part_len, part_offset. nia.
Qed.

Lemma resize_nil_agrees f : agrees f (resize "000"%char [] (Z.of_nat (length f))) (λ _, False).
Proof. split; [|done]. apply Nat2Z.inj. rewrite resize_length; lia. Qed.

Lemma agrees_mono f g (P Q : nat → Prop) : (∀ j, Q j → P j) → agrees f g P → agrees f g Q.
Proof. intros HPQ [Hl Hag]. split; [done|]. intros j Hj. by apply Hag, HPQ. Qed.

Lemma mtime_only dst (v : option str) w r w' :
  match v with Some v => ignore_error (set_file_mtime_from_value dst v) | None => mret tt end w = (r, w') →
  r = Ok tt ∧ same w w'.
Proof.
  destruct v as [v|]; [|by intros [= <- <-]]. unfold ignore_error, set_file_mtime_from_value.
  intros [= <- <-]. split; [done|]. destruct (parse_mtime v) as [[secs nanos]|]; [|done].
  destruct (set_file_mtime dst secs nanos w) as [r w'] eqn:Hm. by apply mtime_same in Hm.
Qed.

Lemma agrees_full f g P : agrees f g P → (∀ j, (j < length f)%nat → P j) → g = f.
Proof.
  intros [Hl Hag] HP. apply list_eq. intros j.
  destruct (decide (j < length f)%nat) as [Hj|Hj]; [by apply Hag, HP|]. by rewrite !lookup_ge_None_2 by lia.
Qed.

(** Once the first part is written: the parts that are left, if any. *)
Lemma download_rest_ok s src dst f g w r w' :
  obj_of w (url_key src) = Some f → 0 < s_part_size s → file_of w dst = Some g →
  agrees f g (λ j, Z.of_nat j < Z.min (s_part_size s) (Z.of_nat (length f))) →
  (if Z.of_nat (length f) >? s_part_size s
   then download_remaining_parts s src dst (Z.of_nat (length f)) (s_part_size s) else mret tt) w = (r, w') →
  only_file dst w w' ∧ (r = Ok tt → file_of w' dst = Some f).
Proof.
  intros Hobj Hps Hg Hag. destruct (Z.gtb_spec (Z.of_nat (length f)) (s_part_size s)) as [Hgt|Hle].
  - unfold download_remaining_parts. destruct (run_tasks _ w) as [rs w7] eqn:Hrun.
    apply (download_parts_ok _ _ _ _ _ _ _ _ _ Hobj Hps) in Hrun as [Ho7 Hok7].
    2:{ intros i. rewrite (arrange_perm (seqZ _ _)), elem_of_seqZ. lia. }
    destruct (collect_results rs) as [l|e]; intros [= <- <-]; (split; [done|]); [|done]. intros _.
    destruct (Hok7 l g _ eq_refl Hg Hag) as (g7 & Hg7 & Hag7). rewrite Hg7. f_equal.
    apply (agrees_full _ _ _ Hag7). intros j Hj.
    destruct (parts_cover (s_part_size s) (length f) j Hps Hj) as [Hlt|(i & Hi & Hin)]; [left; lia|].
    right. exists i. by rewrite (arrange_perm (seqZ _ _)).
  - intros [= <- <-]. split; [done|]. intros _. rewrite Hg. f_equal. apply (agrees_full _ _ _ Hag). lia.
Qed.

(** The first part, cut at the end of the object, into the sized file. *)
Lemma first_part_agrees f ps :
  0 < ps → agrees f (write_at "000"%char (resize "000"%char [] (Z.of_nat (length f))) 0 (slice f 0 (ps - 1 - 0 + 1)))
    (λ j, Z.of_nat j < Z.min ps (Z.of_nat (length f))).
Proof.
  intros Hps. replace (slice f 0 (ps - 1 - 0 + 1)) with (slice f 0 (Z.min ps (Z.of_nat (length f)))).
  - eapply agrees_mono; [|apply write_slice_agrees; [lia..|apply resize_nil_agrees]]. cbn. intros j Hj. lia.
  - unfold slice. rewrite drop_0. destruct (Z.le_gt_cases ps (Z.of_nat (length f))).
    + f_equal. lia.
    + rewrite !take_ge; [done|lia|lia].
Qed.

(** From the first part's response on. *)
Lemma download_body_ok s src dst f w resp w1 r w' :
  obj_of w (url_key src) = Some f → 0 < s_part_size s →
  get_object (s_client s) (request s src (Some (range_header 0 (s_part_size s - 1)))) w = (Ok resp, w1) →
  download_body s src dst resp w1 = (r, w') →
  only_file dst w w' ∧ (r = Ok tt → file_of w' dst = Some f).
Proof.
  intros Hobj Hps Hget. pose proof (get_same _ _ _ _ _ Hget) as Hs1.
  unfold download_body. set (total := default 0 _).
  set (v := if s_preserve s then out_metadata resp !! MTIME_METADATA_KEY else None).
  unfold mbind, mlift. destruct (collect_body (out_body resp)) as [d|e] eqn:Hd;
    [|intros [= <- <-]; split; [by apply same_only|done]].
  destruct (get_range (s_client s) (request s src (Some (range_header 0 (s_part_size s - 1)))) _ _ _ _ _ _
              eq_refl ltac:(lia) Hget Hd) as (o & Ho' & -> & Hmax & Hcr).
  change (request_key (request s src _)) with (url_key src) in Ho'. assert (o = f) as -> by congruence. clear Ho'.
  assert (Htotal : total = Z.of_nat (length f)).
  { unfold total. rewrite Hcr, content_range_parsed; [done|lia]. }
  clearbody total. subst total.
  destruct (throttle _ _ w1) as [rt w2] eqn:Ht. apply throttle_same in Ht as [-> Hs2].
  destruct (open_truncate dst w2) as [ro w3] eqn:Hopen. apply open_truncate_spec in Hopen as [Ho3 Hf3].
  assert (H13 : only_file dst w w3).
  { transitivity w2; [|done]. apply same_only. by transitivity w1. }
  clear Hs1 Hs2 Ho3. destruct ro as [[]|e]; [|by intros [= <- <-]]. specialize (Hf3 eq_refl).
  destruct (set_len dst _ w3) as [rl w4] eqn:Hset. apply set_len_spec in Hset as [Ho4 Hf4].
  assert (H14 : only_file dst w w4) by by transitivity w3. clear H13 Ho4.
  destruct rl as [[]|e]; [|by intros [= <- <-]]. specialize (Hf4 _ Hf3 eq_refl). clear Hf3.
  destruct (write_all_at dst _ 0 w4) as [rw w5] eqn:Hwr. apply write_spec in Hwr as [Ho5 Hf5].
  assert (H15 : only_file dst w w5) by by transitivity w4. clear H14 Ho5.
  destruct rw as [[]|e]; [|by intros [= <- <-]]. specialize (Hf5 _ Hf4 eq_refl). clear Hf4.
  pose proof (first_part_agrees f (s_part_size s) Hps) as Hag5. set (g5 := write_at _ _ 0 _) in Hf5, Hag5.
  clearbody g5.
  destruct ((if Z.of_nat (length f) >? s_part_size s then _ else mret tt) w5) as [rr w6] eqn:Hrem.
  assert (Hobj5 : obj_of w5 (url_key src) = Some f) by (destruct H15 as (_ & Ho & _); by rewrite Ho).
  destruct (download_rest_ok _ _ _ _ _ _ _ _ Hobj5 Hps Hf5 Hag5 Hrem) as [Ho6 Hf6].
  clear Hrem. assert (H16 : only_file dst w w6) by by transitivity w5.
  destruct rr as [[]|e]; [|by intros [= <- <-]]. specialize (Hf6 eq_refl).
  intros Hm. apply mtime_only in Hm as [-> Hs7]. split.
  - transitivity w6; [done|by apply same_only].
  - intros _. destruct Hs7 as (Hsf & _). by rewrite Hsf.
Qed.

(** The fallback for an empty object: the chunks of the body one after the other. *)
Lemma write_chunks_ok s dst g chunks w r w' :
  file_of w dst = Some g → write_chunks s dst (Z.of_nat (length g)) chunks w = (r, w') →
  only_file dst w w' ∧
  (r = Ok tt → ∃ d, collect_body chunks = Ok d ∧ file_of w' dst = Some (g ++ d)).
Proof.
  revert g w. induction chunks as [|[c|e] chunks IH]; intros g w Hg; cbn [write_chunks collect_body].
  - intros [= <- <-]. split; [done|]. intros _. exists []. by rewrite app_nil_r.
  - unfold mbind. destruct (throttle _ _ w) as [rt w1] eqn:Ht. apply throttle_same in Ht as [-> Hs1].
    destruct (write_all_at _ _ _ w1) as [rw w2] eqn:Hwr. apply write_spec in Hwr as [Ho2 Hf2].
    assert (H12 : only_file dst w w2) by (transitivity w1; [by apply same_only|done]).
    destruct rw as [[]|e]; [|by intros [= <- <-]].
    assert (Hg2 : file_of w2 dst = Some (g ++ c)).
    { destruct Hs1 as (Hsf & _). rewrite (Hf2 g); [|by rewrite Hsf|done]. f_equal. unfold write_at.
      rewrite Nat2Z.id, take_ge, Nat.sub_diag, drop_ge by lia. cbn. by rewrite app_nil_r. }
    replace (Z.of_nat (length g) + Z.of_nat (length c)) with (Z.of_nat (length (g ++ c)))
      by (rewrite length_app; lia).
    intros Hrun. destruct (IH _ _ Hg2 Hrun) as [Ho3 Hok]. split; [by transitivity w2|].
    intros Hr. destruct (Hok Hr) as (d & Hd & Hf). rewrite Hd. exists (c ++ d). by rewrite app_assoc.
  - intros [= <- <-]. by split.
Qed.

Lemma download_single_ok s src dst f w r w' :
  obj_of w (url_key src) = Some f → download_single s src dst w = (r, w') →
  only_file dst w w' ∧ (r = Ok tt → file_of w' dst = Some f).
Proof.
  intros Hobj. unfold download_single, s3_read, mbind, send, mret.
  destruct (get_object _ _ w) as [rg w1] eqn:Hget. pose proof (get_same _ _ _ _ _ Hget) as Hs1.
  destruct rg as [resp|e]; [|intros [= <- <-]; split; [by apply same_only|done]].
  destruct (open_truncate dst w1) as [ro w2] eqn:Hopen. apply open_truncate_spec in Hopen as [Ho2 Hf2].
  assert (H12 : only_file dst w w2) by (transitivity w1; [by apply same_only|done]).
  destruct ro as [[]|e]; [|by intros [= <- <-]]. specialize (Hf2 eq_refl).
  intros Hrun. destruct (write_chunks_ok s dst [] _ _ _ _ Hf2 Hrun) as [Ho3 Hok].
  split; [by transitivity w2|]. intros Hr. destruct (Hok Hr) as (d & Hd & ->).
  pose proof (get_whole (s_client s) (request s src None) _ _ _ _ eq_refl Hget Hd) as Hd'.
  change (request_key (request s src None)) with (url_key src) in Hd'. cbn. congruence.
Qed.

Lemma download_ok s src dst f w r w' :
  obj_of w (url_key src) = Some f → 0 < s_part_size s → s_dry_run s = false → download s src dst w = (r, w') →
  only_file dst w w' ∧ (r = Ok tt → file_of w' dst = Some f).
Proof.
  intros Hobj Hps Hdry. unfold download. rewrite Hdry. unfold mbind.
  destruct (match parent dst with Some p => if decide (p = []) then mret tt else create_dir_all p
            | None => mret tt end w) as [rd w1] eqn:Hdir.
  assert (Hs1 : same w w1).
  { destruct (parent dst) as [p|]; [|by injection Hdir as _ <-].
    case_decide; [by injection Hdir as _ <-|]. by apply mkdir_same in Hdir. }
  destruct rd as [[]|e]; [|intros [= <- <-]; split; [by apply same_only|done]].
  assert (Hobj1 : obj_of w1 (url_key src) = Some f) by (destruct Hs1 as (_ & Ho & _); by rewrite Ho).
  destruct (get_object _ _ w1) as [rg w2] eqn:Hget. pose proof (get_same _ _ _ _ _ Hget) as Hs2.
  destruct rg as [resp|e].
  - intros Hrun. destruct (download_body_ok _ _ _ _ _ _ _ _ _ Hobj1 Hps Hget Hrun) as [Ho Hok].
    split; [transitivity w1; [by apply same_only|done]|done].
  - assert (Hs12 : same w w2) by by transitivity w1.
    destruct (is_range_not_satisfiable _); [|intros [= <- <-]; split; [by apply same_only|done]].
    assert (Hobj2 : obj_of w2 (url_key src) = Some f) by (destruct Hs12 as (_ & Ho & _); by rewrite Ho).
    intros Hrun. destruct (download_single_ok _ _ _ _ _ _ _ Hobj2 Hrun) as [Ho Hok].
    split; [transitivity w2; [by apply same_only|done]|done].
Qed.

(** C7. Downloads are exact: a download that succeeds leaves the destination file with
    exactly the object's bytes, whether it took one request, ranged parts completing in any
    order, or the fallback for an empty object; no other file and no object changes. *)
Theorem download_exact s src dst f w r w' :
  obj_of w (url_key src) = Some f → 0 < s_part_size s → s_dry_run s = false → download s src dst w = (r, w') →
  (∀ q, q ≠ dst → file_of w' q = file_of w q) ∧ (∀ o, obj_of w' o = obj_of w o) ∧
  (r = Ok tt → file_of w' dst = Some f).
Proof. intros Hobj Hps Hdry Hd. destruct (download_ok _ _ _ _ _ _ _ Hobj Hps Hdry Hd) as [(Hf & Ho & _) Hok]. done. Qed.

(** ** Server-side copy *)

Lemma copy_part_size_ok ps size :
  5 * 1024 * 1024 <= ps → 0 <= size <= u64_max → few_parts (copy_part_size ps size) size.
Proof.
  intros Hps Hs. pose proof (div_ceil_spec size MAX_MULTIPART_PARTS ltac:(lia) ltac:(done)) as [Hm0 Hm].
  unfold MAX_MULTIPART_PARTS in *.
  pose proof (div_ceil_spec (div_ceil size 10000) (1024 * 1024) Hm0 ltac:(lia)) as [Hk0 Hk].
  assert (Hc : 0 < copy_part_size ps size ∧ div_ceil size 10000 <= copy_part_size ps size).
  { unfold copy_part_size, MAX_MULTIPART_PARTS. destruct (Z.ltb_spec ps (div_ceil size 10000)); lia. }
  split; [lia|]. assert (div_ceil size (copy_part_size ps size) <= 10000) by (apply div_ceil_le; nia). lia.
Qed.

Lemma copy_parts_done s src dst id ps f idxs w rs w' :
  object_url src → 0 < ps → NoDup idxs → (∀ i, i ∈ idxs → 0 <= i < div_ceil (Z.of_nat (length f)) ps) →
  obj_of w (url_key src) = Some f →
  run_tasks (map (copy_part_task s (copy_source_header src) dst id ps (Z.of_nat (length f))) idxs) w = (rs, w') →
  parts_done id (part_of_data ps f) idxs rs w w'.
Proof.
  intros Hsrc Hps Hnd Hidx Hf. apply (run_parts _ _ _ _ _ _ _ (λ a, obj_of a (url_key src) = Some f)); [| |done..].
  - intros a b _ Hab. by rewrite Hab.
  - intros i a r b Hi Ha. unfold copy_part_task, mbind, send, mret.
    destruct (part_len_bounds ps (Z.of_nat (length f)) i Hps (Hidx i Hi) ltac:(lia)) as (Hpl & Hpo & Hfit).
    destruct (upload_part_copy _ _ _ _ _ _ a) as [rp a2] eqn:Hup.
    destruct (part_copy_spec _ _ _ _ _ _ _ _ _ _ _ Hup (copy_source_header_key _ Hsrc) ltac:(lia)) as (Hf2 & Ho2 & Hpart).
    destruct rp as [t|e]; intros [= <- <-]; (split; [done|]); (split; [done|]); [|done].
    intros p [= <-]. destruct (Hpart t eq_refl) as (o & Ho & Hin & Hout). assert (o = f) as -> by congruence.
    split; [done|]. split; [|done]. rewrite Hin. unfold part_of_data. do 2 f_equal. lia.
Qed.

Lemma head_size_ok s u w r w' :
  head_size s u w = (r, w') → same w w' ∧
  ∀ f n, obj_of w (url_key u) = Some f → r = Ok n → n = Z.of_nat (length f).
Proof.
  unfold head_size, mbind, send, mret. destruct (head_object _ _ w) as [rh w1] eqn:Hh.
  pose proof (head_same _ _ _ _ _ Hh) as Hs. destruct rh as [out|e]; intros [= <- <-]; (split; [done|]); [|done].
  intros f n Hf [= <-]. change (url_key u) with (request_key (request s u None)) in Hf.
  rewrite (head_len _ _ _ _ _ _ Hh Hf). cbn. lia.
Qed.

Lemma content_type_of_same s u w ct w' : content_type_of s u w = (ct, w') → same w w'.
Proof.
  unfold content_type_of, head_content_type, mbind, send, mret.
  destruct (head_object _ _ w) as [[out|e] w1] eqn:Hh; intros [= <- <-]; by apply head_same in Hh.
Qed.

Lemma send_transferred f dst w (m : W → result unit SdkError * W) r w' :
  (∀ r1 w1, m w = (r1, w1) → same_files w w1 ∧ (r1 = Ok tt → obj_of w1 (current_key dst) = Some f) ∧
                             (r1 ≠ Ok tt → same_objs w w1)) →
  send m w = (r, w') → transferred f dst w r w'.
Proof.
  unfold send. intros Hm. destruct (m w) as [r1 w1]. destruct (Hm _ _ eq_refl) as (Hf & Hok & Herr).
  destruct r1 as [[]|e]; intros [= <- <-]; (split; [done|]); split; try done; intros _; [by apply Hok|by apply Herr].
Qed.

(** The requests of [copy_multipart] once the upload is created. *)
Lemma copy_parts_ok s src dst id f w r w' :
  object_url src → obj_of w (url_key src) = Some f → 5 * 1024 * 1024 <= s_part_size s →
  Z.of_nat (length f) <= u64_max →
  match copy_parts s (copy_source_header src) dst id (Z.of_nat (length f)) w with
  | (Ok parts, w) => send (complete_multipart_upload (s_client s) (put_request s dst) id parts false) w
  | (Err e, w) => abort_with s dst id e w
  end = (r, w') → transferred f dst w r w'.
Proof.
  intros Hsrc Hobj Hps Hmax. pose proof (copy_part_size_ok _ _ Hps (conj (Nat2Z.is_nonneg (length f)) Hmax)) as Hfew.
  unfold copy_parts. rewrite (few_parts_as_i32 _ _ Hfew) by lia. destruct Hfew as [Hcps _].
  destruct (run_tasks _ w) as [rs w2] eqn:Hrun.
  apply copy_parts_done in Hrun;
    [|done|done|by rewrite (arrange_perm (seqZ _ _)); apply NoDup_seqZ
     |by intros i; rewrite (arrange_perm (seqZ _ _)), elem_of_seqZ; lia|done].
  destruct (collect_results rs) as [ps|e] eqn:Hrs.
  - pose proof Hrun as (Hf2 & Ho2 & _). intros Hsend.
    apply (transferred_after f dst w w2); [done..|]. revert Hsend. apply send_transferred.
    intros r1 w3 Hcomp. destruct (complete_ok _ _ _ _ _ _ _ _ _ _ _ _ _ (arrange_perm _) Hrun Hrs Hcomp) as (Hf3 & Hok & Herr).
    rewrite parts_tile in Hok by done.
    assert (Hf23 : same_files w2 w3) by (intros p; by rewrite Hf2, Hf3).
    split; [done|]. split; [done|]. intros Hne o. by rewrite Ho2, (Herr Hne).
  - destruct Hrun as (Hf2 & Ho2 & _). intros (-> & Hf3 & Ho3)%abort_with_ok.
    apply not_transferred; by etransitivity.
Qed.

Lemma copy_multipart_ok s src dst m f w r w' :
  object_url src → obj_of w (url_key src) = Some f → 5 * 1024 * 1024 <= s_part_size s →
  Z.of_nat (length f) <= u64_max →
  copy_multipart s src dst m (Z.of_nat (length f)) w = (r, w') → transferred f dst w r w'.
Proof.
  intros Hsrc Hobj Hps Hmax. unfold copy_multipart.
  destruct (match nonempty (content_type m) with Some ct => (Some ct, w) | None => content_type_of s src w end)
    as [ct w1] eqn:Hct.
  assert (Hs1 : same w w1).
  { destruct (nonempty _); [by injection Hct as _ <-|]. by apply content_type_of_same in Hct. }
  clear Hct. unfold mbind. destruct (send _ w1) as [rc w2] eqn:Hc.
  assert (Hs2 : same w w2).
  { transitivity w1; [done|]. unfold send in Hc. destruct (create_multipart_upload _ _ _ w1) as [rc' w2'] eqn:Hcr.
    apply create_same in Hcr. by destruct rc'; injection Hc as _ <-. }
  destruct Hs2 as (Hf2 & Ho2 & _).
  destruct rc as [[id|]|e]; cbn [created_id]; unfold mret, mfail; [|by intros [= <- <-]; apply not_transferred..].
  intros Hrun. apply (transferred_after f dst w w2); [done..|].
  eapply copy_parts_ok; [done| |done|done|exact Hrun]. by rewrite Ho2.
Qed.

Lemma copy_object_single_ok s src dst m f w r w' :
  object_url src → obj_of w (url_key src) = Some f →
  copy_object_single s src dst m w = (r, w') → transferred f dst w r w'.
Proof.
  intros Hsrc Hobj. unfold copy_object_single.
  destruct (if if_none_match m then let '(r, w) := head_size s dst w in (is_ok r, w) else (false, w))
    as [exists_ w1] eqn:Hex.
  assert (Hs1 : same w w1).
  { destruct (if_none_match m); [|by injection Hex as _ <-].
    destruct (head_size s dst w) as [rh wh] eqn:Hh. injection Hex as _ <-.
    by destruct (head_size_ok _ _ _ _ _ Hh). }
  destruct Hs1 as (Hf1 & Ho1 & _). destruct exists_; [intros [= <- <-]; by apply not_transferred|].
  intros Hrun. apply (transferred_after f dst w w1); [done..|]. revert Hrun. apply send_transferred.
  intros r1 w2 Hcopy. destruct (copy_spec _ _ _ _ _ _ _ _ Hcopy (copy_source_header_key _ Hsrc)) as (Hf2 & Hok & Herr).
  split; [done|]. split; [|done]. intros Hr. destruct (Hok Hr) as (o & Ho & Hdst).
  rewrite Ho1, Hobj in Ho. by injection Ho as <-.
Qed.

Lemma copy_or_fall_back_ok s src dst m f w r w' :
  object_url src → obj_of w (url_key src) = Some f → 5 * 1024 * 1024 <= s_part_size s →
  Z.of_nat (length f) <= u64_max →
  copy_or_fall_back s src dst m w = (r, w') → transferred f dst w r w'.
Proof.
  intros Hsrc Hobj Hps Hmax. unfold copy_or_fall_back.
  destruct (copy_object_single s src dst m w) as [rc w1] eqn:Hc.
  pose proof (copy_object_single_ok _ _ _ _ _ _ _ _ Hsrc Hobj Hc) as Ht.
  destruct rc as [[]|e]; [by intros [= <- <-]|]. destruct (is_copy_source_too_large e); [|by intros [= <- <-]].
  destruct Ht as (Hf1 & _ & Ho1). specialize (Ho1 ltac:(done)). unfold mbind.
  assert (Hobj1 : obj_of w1 (url_key src) = Some f) by by rewrite Ho1.
  destruct (head_size s src w1) as [rh w2] eqn:Hh. apply head_size_ok in Hh as [(Hf2 & Ho2 & _) Hn].
  assert (Hf : same_files w w2) by by transitivity w1. assert (Ho : same_objs w w2) by by transitivity w1.
  destruct rh as [n|e2]; [|intros [= <- <-]; by apply not_transferred].
  rewrite (Hn _ _ Hobj1 eq_refl). intros Hrun. apply (transferred_after f dst w w2); [done..|].
  eapply copy_multipart_ok; [done| |done|done|exact Hrun]. by rewrite Ho.
Qed.

End TransferSpec.
