(* ===== verification/Pipe.v ===== *)
(** * [pipe]: standard input to an object (src/src/command/pipe.rs)

    The concurrency only bounds how many parts are in flight: the tasks complete in any
    order ([Unordered]), and those of a dropped [JoinSet] may have run or not ([Aborted]). *)

From S2P Require Import Prelude RustStr Strutil Url Storage Fs Tasks S3Client Transfer Output.

Local Open Scope Z_scope.

Definition MIN_PART_SIZE_MIB : Z := 5.
Definition DEFAULT_PART_SIZE_MIB : Z := 8.
Definition PIPE_CONCURRENCY : Z := 8.

(** [usize] arithmetic wraps around. *)
Definition effective_part_size_bytes (part_size_mib : Z) : Z :=
  let mib := if part_size_mib =? 0 then DEFAULT_PART_SIZE_MIB else Z.max part_size_mib MIN_PART_SIZE_MIB in
  (mib * 1024 * 1024) mod 2 ^ 64.

Definition effective_concurrency (concurrency : Z) : Z := Z.max concurrency 1.

(** The tasks of a dropped [JoinSet] are aborted: those that had run before, in their order. *)
Class Aborted := {
  started : ∀ {A : Type}, list A → list A;
  started_sub : ∀ {A : Type} (l : list A), started l ⊆+ l;
}.

(** The Debug text of a [Url], which holds the regex crate's of its filter. *)
Class UrlDebug `{RegexLib} := { url_debug : Url → str }.

Record PipeArgs := {
  pipe_dst : str;
  pipe_storage_class : option str;
  pipe_acl : option str;
  pipe_content_type : option str;
  pipe_content_encoding : option str;
  pipe_content_disposition : option str;
  pipe_cache_control : option str;
  pipe_sse : option str;
  pipe_sse_kms_key_id : option str;
  pipe_part_size : Z;
  pipe_concurrency : Z;
}.

(** The extension: what follows the last dot of the URL, unless it holds a slash. *)
Definition extension (abs : str) : option str :=
  let e := List.last (split_chr "."%char abs) [] in
  if contains_chr is_slash e then None else Some e.

Definition content_types : list (str * str) :=
  [($"txt", $"text/plain"); ($"html", $"text/html"); ($"htm", $"text/html"); ($"css", $"text/css");
   ($"csv", $"text/csv"); ($"json", $"application/json"); ($"xml", $"application/xml");
   ($"js", $"application/javascript"); ($"pdf", $"application/pdf"); ($"zip", $"application/zip");
   ($"gz", $"application/gzip"); ($"tar", $"application/x-tar"); ($"png", $"image/png");
   ($"jpg", $"image/jpeg"); ($"jpeg", $"image/jpeg"); ($"gif", $"image/gif"); ($"svg", $"image/svg+xml");
   ($"webp", $"image/webp"); ($"mp4", $"video/mp4"); ($"mp3", $"audio/mpeg")].

Section Pipe.
Context `{RegexLib} {W : Type} `{!Os W, !Sdk W, !Tokio W, !Unordered, !Aborted, !UrlDebug}.

Definition guess_content_type (dst : Url) : str :=
  match extension (absolute dst) with
  | Some e => match List.find (λ ct : str * str, bool_decide (ct.1 = to_ascii_lowercase e)) content_types with
              | Some ct => ct.2
              | None => $"application/octet-stream"
              end
  | None => $"application/octet-stream"
  end.

Definition pipe_metadata (a : PipeArgs) (dst : Url) : Metadata :=
  {| acl := pipe_acl a; cache_control := pipe_cache_control a; expires := None;
     md_storage_class := pipe_storage_class a;
     content_type := match nonempty (pipe_content_type a) with
                     | Some ct => Some ct
                     | None => Some (guess_content_type dst)
                     end;
     content_encoding := pipe_content_encoding a; content_disposition := pipe_content_disposition a;
     encryption_method := pipe_sse a; encryption_key_id := pipe_sse_kms_key_id a;
     user_defined := ∅; directive := None; if_none_match := false |}.

(** The headers [put_reader] and [multipart_upload] set. *)
Definition pipe_headers (m : Metadata) : Headers :=
  {| h_content_type := Some (content_type_or_default m); h_storage_class := nonempty (md_storage_class m);
     h_acl := nonempty (acl m); h_cache_control := nonempty (cache_control m);
     h_content_encoding := nonempty (content_encoding m);
     h_content_disposition := nonempty (content_disposition m); h_directive := None;
     h_sse := nonempty (encryption_method m); h_sse_key := nonempty (encryption_key_id m);
     h_metadata := user_defined m |}.

(** ** Reading *)

(** Fills a buffer of [cap] bytes; stops at the end of the input. A read that yields more
    than the room left keeps the rest for the next one. *)
Fixpoint read_part (cap : Z) (reader : Stream) : result str Error * Stream :=
  if cap <=? 0 then (Ok [], reader)
  else
    match reader with
    | [] => (Ok [], [])
    | Err e :: reader => (Err e, reader)
    | Ok [] :: reader => (Ok [], reader)
    | Ok c :: reader =>
        if Z.of_nat (length c) <=? cap then
          let '(r, reader) := read_part (cap - Z.of_nat (length c)) reader in
          (match r with Ok d => Ok (c ++ d) | Err e => Err e end, reader)
        else (Ok (take (Z.to_nat cap) c), Ok (drop (Z.to_nat cap) c) :: reader)
    end.

(** [tokio::io::copy] to a sink. *)
Fixpoint drain (reader : Stream) : result unit Error * Stream :=
  match reader with
  | [] => (Ok tt, [])
  | Ok [] :: reader => (Ok tt, reader)
  | Ok _ :: reader => drain reader
  | Err e :: reader => (Err e, reader)
  end.

(** The parts after the first, up to an empty one; with the error that ended the reading. The
    fuel bounds the number of parts. *)
Fixpoint read_parts (fuel : nat) (part_size : Z) (reader : Stream) : list str * option Error * Stream :=
  match fuel with
  | O => ([], None, reader)
  | S fuel =>
      let '(r, reader) := read_part part_size reader in
      match r with
      | Err e => ([], Some e, reader)
      | Ok [] => ([], None, reader)
      | Ok buf => let '(bufs, e, reader) := read_parts fuel part_size reader in (buf :: bufs, e, reader)
      end
  end.

(** The bytes left in a stream: every part but an empty one takes one at least. *)
Definition bytes_left (reader : Stream) : nat :=
  list_sum (map (λ r, match r with Ok c => length c | Err _ => 0%nat end) reader).

(** ** Uploading *)

(** [join_next] until a task fails, which aborts the others. *)
Fixpoint join_all {A} (ts : list (M W A)) (w : W) : result (list A) Error * W :=
  match ts with
  | [] => (Ok [], w)
  | t :: ts =>
      match t w with
      | (Ok a, w) => let '(r, w) := join_all ts w in (match r with Ok l => Ok (a :: l) | Err e => Err e end, w)
      | (Err e, w) => (Err e, (run_tasks (started ts) w).2)
      end
  end.

Definition put_part (s : S3Client) (dst : Url) (upload_id : str) (p : Z * str) : M W (Z * option str) :=
  let! tag := send (upload_part (s_client s) (put_request s dst) upload_id p.1 p.2) in
  mret (p.1, tag).

(** The parts numbered from one, as [i32]. *)
Definition numbered (bufs : list str) : list (Z * str) :=
  zip (map as_i32 (seqZ 1 (Z.of_nat (length bufs)))) bufs.

(** The loop reads a part ahead while the uploads run: a read that fails drops the tasks. *)
Definition upload_parts_from_reader (s : S3Client) (reader : Stream) (first : str) (dst : Url) (upload_id : str)
    (part_size : Z) (w : W) : result (list (Z * option str)) Error * Stream * W :=
  let '(rest, e, reader) := read_parts (S (bytes_left reader)) part_size reader in
  let tasks := map (put_part s dst upload_id) (arrange (numbered (first :: rest))) in
  match e with
  | Some e => (Err e, reader, (run_tasks (started tasks) w).2)
  | None =>
      let '(r, w) := join_all tasks w in
      (match r with Ok ps => Ok (sort_parts ps) | Err e => Err e end, reader, w)
  end.

Definition put_reader (s : S3Client) (body : str) (dst : Url) (m : Metadata) : M W unit :=
  if s_dry_run s then mret tt
  else send (put_object (s_client s) (put_request s dst) (pipe_headers m) false body).

Definition pipe_multipart (s : S3Client) (reader : Stream) (first : str) (dst : Url) (m : Metadata)
    (part_size : Z) (w : W) : result unit Error * Stream * W :=
  match (let! created := send (create_multipart_upload (s_client s) (put_request s dst) (pipe_headers m)) in
         created_id created) w with
  | (Err e, w) => (Err e, reader, w)
  | (Ok id, w) =>
      let '(r, reader, w) := upload_parts_from_reader s reader first dst id part_size w in
      let '(r, w) :=
        match r with
        | Ok parts => send (complete_multipart_upload (s_client s) (put_request s dst) id parts false) w
        | Err e => abort_with s dst id e w
        end in
      (r, reader, w)
  end.

Definition put_multipart_reader (s : S3Client) (reader : Stream) (dst : Url) (m : Metadata) (part_size : Z)
    (w : W) : result unit Error * Stream * W :=
  let part_size := Z.max part_size 1 in
  let '(r, reader) := read_part part_size reader in
  match r with
  | Err e => (Err e, reader, w)
  | Ok first =>
      if Z.of_nat (length first) <? part_size then
        let '(r, w) := put_reader s first dst m w in (r, reader, w)
      else if s_dry_run s then let '(r, reader) := drain reader in (r, reader, w)
      else pipe_multipart s reader first dst m part_size w
  end.

(** ** The command *)

Definition check_destination (a : PipeArgs) : result Url Error :=
  let? dst := result_map_err anyhow (parse (pipe_dst a)) in
  if negb (is_remote dst) then Err (anyhow ($"destination must be a bucket"))
  else if is_bucket dst || is_prefix dst then
    Err (anyhow ($"target " ++ url_debug dst ++ $" must be an object"))
  else if is_wildcard dst then
    Err (anyhow ($"target " ++ debug_str (pipe_dst a) ++ $" can not contain glob characters"))
  else Ok dst.

Definition pipe_run (opts : Options) (a : PipeArgs) : M (Console W) unit :=
  let! dst := mlift (check_destination a) in
  let! s := io (S3Client_new dst opts) in
  let! _ := (λ c,
    let '(r, reader, w) := put_multipart_reader s (stdin c) dst (pipe_metadata a dst)
                             (effective_part_size_bytes (pipe_part_size a)) (world c) in
    (r, set_stdin (set_world c w) reader)) in
  say ($"pipe " ++ show_url dst).
End Pipe.
