(* ===== verification/PipeSpec.v ===== *)
(** * What [pipe] guarantees

    A [pipe] that succeeds stored exactly the bytes of standard input; one that fails, whether
    a request or the reading failed, left the object as it was. *)

From S2P Require Import Prelude RustStr Strutil Url RateLimit Storage Fs Tasks S3Client Transfer TransferParts.
From S2P Require Import Store TransferSpec Output Pipe.

Local Open Scope Z_scope.

(** ** Reading *)

(** The bytes of a stream; whether reading it to the end fails; streams that do not end early. *)
Definition input (reader : Stream) : str := concat (map (λ r, match r with Ok c => c | Err _ => [] end) reader).
Definition all_ok (reader : Stream) : bool := forallb is_ok reader.
Definition solid (reader : Stream) : Prop := Ok [] ∉ reader.

Lemma bytes_left_input reader : bytes_left reader = length (input reader).
Proof.
  unfold bytes_left, input. induction reader as [|[c|e] reader IH]; [done| |exact IH].
  cbn [map concat]. rewrite length_app, <-IH. done.
Qed.

(** What a reading of at most [cap] bytes yields. *)
Definition read_of (cap : Z) (reader : Stream) (d : str) (reader' : Stream) : Prop :=
  input reader = d ++ input reader' ∧ all_ok reader = all_ok reader' ∧ solid reader' ∧
  Z.of_nat (length d) <= cap ∧ (Z.of_nat (length d) < cap → reader' = []).

Lemma read_part_spec cap reader r reader' :
  0 <= cap → solid reader → read_part cap reader = (r, reader') →
  match r with Ok d => read_of cap reader d reader' | Err _ => all_ok reader = false end.
Proof.
  revert cap r reader'. induction reader as [|[c|e] reader IH]; intros cap r reader' Hcap Hs; cbn [read_part];
    (destruct (Z.leb_spec cap 0); [intros [= <- <-]; unfold read_of; split_and!; try done; intros; cbn in *; lia|]).
  - intros [= <- <-]. unfold read_of. split_and!; try done; cbn; lia.
  - apply not_elem_of_cons in Hs as [Hc Hs]. destruct c as [|x c]; [done|]. set (c' := x :: c) in *.
    destruct (Z.leb_spec (Z.of_nat (length c')) cap).
    + destruct (read_part _ reader) as [[d|e] reader1] eqn:Hr; intros [= <- <-];
        (apply IH in Hr; [|lia|done]).
      * destruct Hr as (Hi & Ho & Hs' & Hl & Hend). unfold read_of. change (x :: c ++ d) with (c' ++ d). rewrite length_app.
        split_and!; [| |done|lia|].
        -- unfold input in *. cbn [map concat]. by rewrite Hi, app_assoc.
        -- unfold all_ok in *. cbn. done.
        -- intros Hlt. apply Hend. lia.
      * unfold all_ok in *. by cbn.
    + intros [= <- <-]. unfold read_of. rewrite length_take. split_and!; [| | |lia|lia].
      * unfold input. cbn [map concat]. by rewrite app_assoc, take_drop.
      * done.
      * intros [Hd|Hin]%elem_of_cons; [|done]. injection Hd as Hd. apply (f_equal length) in Hd.
        rewrite length_drop in Hd. cbn [length] in Hd. lia.
  - intros [= <- <-]. done.
Qed.

Lemma drain_spec reader r reader' :
  solid reader → drain reader = (r, reader') → is_ok r = all_ok reader.
Proof.
  revert r reader'. induction reader as [|[c|e] reader IH]; intros r reader' Hs; cbn [drain].
  - by intros [= <- <-].
  - apply not_elem_of_cons in Hs as [Hc Hs]. destruct c; [done|]. intros Hd. cbn. by eapply IH.
  - by intros [= <- <-].
Qed.

Lemma read_parts_spec ps fuel reader bufs e reader' :
  0 < ps → solid reader → (length (input reader) < fuel)%nat → read_parts fuel ps reader = (bufs, e, reader') →
  match e with
  | None => all_ok reader = true ∧ concat bufs = input reader ∧
            Z.of_nat (length bufs) * ps < Z.of_nat (length (input reader)) + ps
  | Some _ => all_ok reader = false
  end.
Proof.
  intros Hps. revert reader bufs e reader'. induction fuel as [|fuel IH]; intros reader bufs e reader' Hs Hf; [lia|].
  cbn [read_parts]. destruct (read_part ps reader) as [r reader1] eqn:Hr.
  apply read_part_spec in Hr; [|lia|done]. destruct r as [d|err]; [|by intros [= <- <- <-]].
  destruct Hr as (Hi & Ho & Hs1 & Hl & Hend). destruct d as [|x d].
  - intros [= <- <- <-]. rewrite (Hend ltac:(cbn; lia)) in *. cbn in *. rewrite Hi. split_and!; [done|done|cbn; lia].
  - set (d' := x :: d) in *. destruct (read_parts fuel ps reader1) as [[bufs1 e1] reader2] eqn:Hrs. intros [= <- <- <-].
    assert (Hlen : (length (input reader1) < fuel)%nat) by (rewrite Hi, length_app in Hf; cbn in Hf; lia).
    specialize (IH _ _ _ _ Hs1 Hlen Hrs). destruct e1 as [e1|]; [by rewrite Ho|].
    destruct IH as (Hok & Hc & Hn). rewrite Ho. split_and!; [done|cbn; by rewrite Hc|].
    rewrite Hi, length_app. cbn [length]. destruct (Z.lt_ge_cases (Z.of_nat (length d')) ps) as [Hlt|Hge].
    + rewrite (Hend Hlt) in *. cbn in *. assert (bufs1 = []) as ->; [|cbn; lia].
      destruct bufs1; [done|]. cbn in Hn. lia.
    + lia.
Qed.

(** ** Uploading *)

Section PipeSpec.
Context `{StoreLaws, !Unordered, !Aborted, !UrlDebug}.

#[local] Abbreviation same_files := (same_files file_of).
#[local] Abbreviation same_objs := (same_objs obj_of).

Definition quiet {A} (t : M W A) : Prop := ∀ a r b, t a = (r, b) → same_files a b ∧ same_objs a b.

Lemma run_tasks_quiet {A} (ts : list (M W A)) w rs w' :
  Forall quiet ts → run_tasks ts w = (rs, w') → same_files w w' ∧ same_objs w w'.
Proof.
  intros Hts. revert w rs. induction Hts as [|t ts Ht Hts IH]; intros w rs; cbn [run_tasks].
  - by intros [= <- <-].
  - destruct (t w) as [r w1] eqn:Hr. destruct (run_tasks ts w1) as [rs1 w2] eqn:Hrs. intros [= <- <-].
    destruct (Ht _ _ _ Hr) as [Hf Ho]. destruct (IH _ _ Hrs) as [Hf' Ho']. split; intros ?; by rewrite ?Hf', ?Ho'.
Qed.

Lemma started_quiet {A} (ts : list (M W A)) : Forall quiet ts → Forall quiet (started ts).
Proof.
  intros Hts. apply Forall_forall. intros t Ht. rewrite Forall_forall in Hts. apply Hts.
  by apply (elem_of_submseteq _ _ _ Ht), started_sub.
Qed.

Lemma join_all_quiet {A} (ts : list (M W A)) w r w' :
  Forall quiet ts → join_all ts w = (r, w') → same_files w w' ∧ same_objs w w'.
Proof.
  intros Hts. revert w r. induction Hts as [|t ts Ht Hts IH]; intros w r; cbn [join_all].
  - by intros [= <- <-].
  - destruct (t w) as [[a|e] w1] eqn:Hr; destruct (Ht _ _ _ Hr) as [Hf Ho].
    + destruct (join_all ts w1) as [r1 w2] eqn:Hj. intros [= <- <-]. destruct (IH _ _ Hj) as [Hf' Ho'].
      split; intros ?; by rewrite ?Hf', ?Ho'.
    + intros [= <- <-]. destruct (run_tasks (started ts) w1) as [rs w2] eqn:Hrs.
      destruct (run_tasks_quiet _ _ _ _ (started_quiet _ Hts) Hrs) as [Hf' Ho']. split; intros ?; cbn; by rewrite ?Hf', ?Ho'.
Qed.

Lemma join_all_Ok {A} (ts : list (M W A)) w l w' :
  join_all ts w = (Ok l, w') → run_tasks ts w = (map Ok l, w').
Proof.
  revert w l. induction ts as [|t ts IH]; intros w l; cbn [join_all run_tasks].
  - by intros [= <- <-].
  - destruct (t w) as [[a|e] w1]; [|done]. destruct (join_all ts w1) as [[l1|e] w2] eqn:Hj; [|done].
    intros [= <- <-]. by rewrite (IH _ _ Hj).
Qed.

Lemma put_part_quiet s dst id p : quiet (put_part s dst id p).
Proof.
  intros a r b. unfold put_part, mbind, send, mret. destruct (upload_part _ _ _ _ _ a) as [x a1] eqn:Hu.
  destruct (part_spec _ _ _ _ _ _ _ _ Hu) as (Hf & Ho & _). by destruct x; intros [= <- <-].
Qed.

(** The parts by index. *)
Definition nth_part (bufs : list str) (i : Z) : str := default [] (bufs !! Z.to_nat i).

Lemma nth_parts bufs : map (nth_part bufs) (seqZ 0 (Z.of_nat (length bufs))) = bufs.
Proof.
  apply list_eq. intros j. change (map ?f ?l) with (f <$> l). rewrite list_lookup_fmap.
  destruct (decide (j < length bufs)%nat) as [Hj|Hj].
  - rewrite lookup_seqZ_lt by lia. cbn. unfold nth_part. replace (Z.to_nat _) with j by lia.
    destruct (lookup_lt_is_Some_2 bufs j Hj) as [b Hb]. by rewrite Hb.
  - rewrite lookup_seqZ_ge by lia. by rewrite lookup_ge_None_2 by lia.
Qed.

Lemma zip_map {A B C} (f : A → B) (g : A → C) l : zip (map f l) (map g l) = map (λ a, (f a, g a)) l.
Proof. induction l as [|a l IH]; [done|]. cbn. by rewrite <-IH. Qed.

Lemma numbered_spec bufs :
  Z.of_nat (length bufs) < 2 ^ 31 →
  numbered bufs = map (λ i, (i + 1, nth_part bufs i)) (seqZ 0 (Z.of_nat (length bufs))).
Proof.
  intros Hn. unfold numbered. pose proof (nth_parts bufs) as Hp. set (n := Z.of_nat (length bufs)) in *.
  rewrite <-Hp at 1. rewrite <-(map_succ_seqZ n), map_map, zip_map. apply map_ext_in.
  intros i Hi%list_elem_of_In%elem_of_seqZ. f_equal. apply as_i32_small. lia.
Qed.

(** All the parts, uploaded and completed. *)
Lemma upload_bufs_ok s dst id bufs w r w' :
  Z.of_nat (length bufs) < 2 ^ 31 →
  (let '(r, w1) := join_all (map (put_part s dst id) (arrange (numbered bufs))) w in
   match (match r with Ok ps => Ok (sort_parts ps) | Err e => Err e end) with
   | Ok parts => send (complete_multipart_upload (s_client s) (put_request s dst) id parts false) w1
   | Err e => abort_with s dst id e w1
   end) = (r, w') →
  transferred (concat bufs) dst w r w'.
Proof.
  intros Hn. destruct (join_all _ w) as [rj w1] eqn:Hj.
  assert (Hq : same_files w w1 ∧ same_objs w w1).
  { refine (join_all_quiet _ _ _ _ _ Hj). apply Forall_forall. intros t (p & -> & _)%list_elem_of_fmap. apply put_part_quiet. }
  destruct rj as [ps|e].
  2:{ intros (-> & Hf & Ho)%abort_with_ok. destruct Hq as [Hf1 Ho1].
      apply not_transferred; intros ?; by rewrite ?Hf, ?Ho. }
  apply join_all_Ok in Hj. set (idxs := map (λ p : Z * str, p.1 - 1) (arrange (numbered bufs))).
  assert (Hperm : arrange (numbered bufs) ≡ₚ map (λ i, (i + 1, nth_part bufs i)) (seqZ 0 (Z.of_nat (length bufs)))).
  { rewrite <-numbered_spec by done. apply arrange_perm. }
  assert (Hidx : idxs ≡ₚ seqZ 0 (Z.of_nat (length bufs))).
  { unfold idxs. rewrite Hperm, map_map. rewrite (map_ext _ (λ i, i)); [by rewrite map_id|]. intros i. cbn. lia. }
  assert (Htasks : map (put_part s dst id) (arrange (numbered bufs)) =
                   map (λ i, put_part s dst id (i + 1, nth_part bufs i)) idxs).
  { unfold idxs. rewrite map_map. apply map_ext_in. intros [n b] Hin%list_elem_of_In. f_equal.
    rewrite Hperm in Hin. apply list_elem_of_fmap in Hin as (i & [= -> ->] & _). cbn. by replace (i + 1 - 1) with i by lia. }
  rewrite Htasks in Hj.
  apply (run_parts _ id (nth_part bufs) _ _ _ _ (λ _, True)) in Hj;
    [|done| |by rewrite Hidx; apply NoDup_seqZ|done].
  - intros Hc. unfold send in Hc. destruct (complete_multipart_upload _ _ _ _ _ w1) as [rc w2] eqn:Hcomp.
    destruct (complete_ok _ _ _ _ _ _ _ _ _ _ _ _ _ Hidx Hj (collect_results_map ps) Hcomp) as (Hf & Hok & Herr).
    rewrite nth_parts in Hok. destruct rc as [[]|e]; injection Hc as <- <-; (split; [done|]); split; try done;
      intros _; [by apply Hok|by apply Herr].
  - intros i a x b _ _. unfold put_part, mbind, send, mret. cbn [fst snd].
    destruct (upload_part _ _ _ _ _ a) as [y a1] eqn:Hu. destruct (part_spec _ _ _ _ _ _ _ _ Hu) as (Hf & Ho & Hpart).
    destruct y as [t|e]; intros [= <- <-]; (split; [done|]); (split; [done|]); [|done].
    intros p [= <-]. destruct (Hpart t eq_refl) as [Hin Hout]. done.
Qed.

Lemma parts_few (bufs : list str) ps len :
  0 < ps → Z.of_nat (length bufs) * ps < len + ps → 0 <= len → div_ceil len ps < 2 ^ 31 →
  Z.of_nat (length bufs) < 2 ^ 31.
Proof.
  intros Hps Hn Hl Hd. pose proof (div_ceil_spec len ps Hl Hps) as [Hd0 Hd1]. nia.
Qed.

(** The multipart branch, whatever the stream yields after its first part. *)
Lemma pipe_multipart_ok s reader first dst m ps w r reader' w' :
  solid reader → Z.of_nat (length first) = ps → 0 < ps →
  div_ceil (Z.of_nat (length (first ++ input reader))) ps < 2 ^ 31 →
  pipe_multipart s reader first dst m ps w = (r, reader', w') →
  transferred (first ++ input reader) dst w r w' ∧ (r = Ok tt → all_ok reader = true).
Proof.
  intros Hs Hlen Hps Hfew. unfold pipe_multipart, mbind, send.
  destruct (create_multipart_upload _ _ _ w) as [rc w1] eqn:Hc. apply create_same in Hc as (Hf1 & Ho1 & _).
  destruct rc as [[id|]|e]; cbn [created_id mret mfail];
    [|by intros [= <- <- <-]; (split; [by apply not_transferred|])..].
  unfold upload_parts_from_reader.
  destruct (read_parts _ ps reader) as [[rest e] reader1] eqn:Hr.
  apply read_parts_spec in Hr; [|done|done|rewrite bytes_left_input; lia]. destruct e as [e|].
  - set (tasks := map _ _). destruct (run_tasks (started tasks) w1) as [rs w2] eqn:Hrs. cbn [snd].
    assert (Hq : same_files w1 w2 ∧ same_objs w1 w2).
    { refine (run_tasks_quiet _ _ _ _ (started_quiet _ _) Hrs). apply Forall_forall.
      intros t (p & -> & _)%list_elem_of_fmap. apply put_part_quiet. }
    destruct Hq as [Hf2 Ho2]. destruct (abort_with s dst id e w2) as [ra w3] eqn:Ha.
    apply abort_with_ok in Ha as (-> & Hf3 & Ho3). intros [= <- <- <-]. split; [|done].
    apply not_transferred; intros ?; by rewrite ?Hf3, ?Ho3, ?Hf2, ?Ho2, ?Hf1, ?Ho1.
  - destruct Hr as (Hok & Hcat & Hn).
    assert (Hbufs : Z.of_nat (length (first :: rest)) < 2 ^ 31).
    { rewrite length_app in Hfew. eapply (parts_few _ ps); [done| | |exact Hfew]; [|lia]. cbn [length]. lia. }
    pose proof (upload_bufs_ok s dst id (first :: rest) w1) as Hup.
    destruct (join_all _ w1) as [rj w2]. set (r2 := match rj with Ok ps0 => _ | Err e => _ end) in *. clearbody r2.
    destruct (match r2 with Ok parts => _ | Err e => _ end) as [r3 w3] eqn:Hfin. intros [= <- <- <-]. split; [|done].
    apply (transferred_after _ _ w w1); [done..|]. rewrite <-Hcat. by apply Hup.
Qed.

End PipeSpec.
