(* ===== verification/MemWorld.v ===== *)
(** * A concrete world

    An in-memory file system and object store: instances of [Os] and [S3Ops] on
    which the witnesses of the client files evaluate. It models nothing of the
    program; it is one world in which the program runs. *)

From S2P Require Import Prelude RustStr Strutil Url Storage Fs.

Local Open Scope Z_scope.

#[export] Existing Instance SimpleRegex.

Record node := { n_meta : FileMeta; n_body : str }.
Record s3obj := { o_body : str; o_time : Z; o_etag : str; o_class : str }.

Record MemWorld := {
  mem_fs : gmap str node;
  mem_s3 : gmap (str * str) s3obj;
  (** the buckets on which every request is denied *)
  mem_denied : list str;
  mem_log : list str;
}.

Definition with_fs (f : gmap str node) (w : MemWorld) : MemWorld :=
  {| mem_fs := f; mem_s3 := mem_s3 w; mem_denied := mem_denied w; mem_log := mem_log w |}.
Definition with_s3 (s : gmap (str * str) s3obj) (w : MemWorld) : MemWorld :=
  {| mem_fs := mem_fs w; mem_s3 := s; mem_denied := mem_denied w; mem_log := mem_log w |}.

(** A local file of the given size and time; an object likewise. *)
Definition mkfile (b : str) (t : Z) : node :=
  {| n_meta := {| ft := FtFile; len := Z.of_nat (length b); modified := Some t |}; n_body := b |}.
Definition mkdir_node : node :=
  {| n_meta := {| ft := FtDir; len := 0; modified := Some 0 |}; n_body := [] |}.
Definition mkobj (b : str) (t : Z) : s3obj := {| o_body := b; o_time := t; o_etag := []; o_class := [] |}.

Definition enoent : IoError := {| io_not_found := true; io_error := anyhow ($"No such file or directory") |}.

(** The length of a regular file is its bytes'. *)
Definition meta_of (n : node) : FileMeta :=
  if ft_is_file (ft (n_meta n))
  then {| ft := ft (n_meta n); len := Z.of_nat (length (n_body n)); modified := modified (n_meta n) |}
  else n_meta n.

Definition mem_lstat (p : str) (w : MemWorld) : result FileMeta IoError :=
  match mem_fs w !! p with Some n => Ok (meta_of n) | None => Err enoent end.

Fixpoint mem_stat (fuel : nat) (p : str) (w : MemWorld) : result FileMeta IoError :=
  match mem_fs w !! p with
  | None => Err enoent
  | Some n =>
      match ft (n_meta n), fuel with
      | FtSymlink, S f => mem_stat f (n_body n) w
      | FtSymlink, O => Err enoent
      | _, _ => Ok (meta_of n)
      end
  end.

Definition mem_remove (p : str) : M MemWorld unit := λ w,
  match mem_fs w !! p with
  | Some _ => (Ok tt, with_fs (delete p (mem_fs w)) w)
  | None => (Err (io_error enoent), w)
  end.

Definition mem_put (p : str) (n : node) : M MemWorld unit := λ w,
  (Ok tt, with_fs (<[p := n]> (mem_fs w)) w).

(** [rmdir]: only an empty directory. *)
Definition mem_rmdir (p : str) : M MemWorld unit := λ w,
  match mem_fs w !! p with
  | Some n =>
      if ft_is_dir (ft (n_meta n)) &&
         forallb (λ kn : str * node, negb (starts_with (p ++ $"/") kn.1)) (map_to_list (mem_fs w))
      then (Ok tt, with_fs (delete p (mem_fs w)) w)
      else (Err (anyhow ($"Directory not empty")), w)
  | None => (Err (io_error enoent), w)
  end.

(** The regular file at a path. *)
Definition mem_file (p : str) (w : MemWorld) : option node :=
  match mem_fs w !! p with
  | Some n => if ft_is_file (ft (n_meta n)) then Some n else None
  | None => None
  end.

Definition zero_byte : ascii := "000"%char.

Definition mem_walk (p : str) (_ : bool) (w : MemWorld) : list (result WalkEntry WalkError) :=
  omap (λ kn : str * node,
    if starts_with (p ++ $"/") kn.1 || bool_decide (kn.1 = p)
    then Some (Ok {| we_path := kn.1; we_type := ft (n_meta kn.2) |}) else None)
    (map_to_list (mem_fs w)).

#[export] Instance mem_os : Os MemWorld := {
  symlink_metadata := mem_lstat;
  metadata := mem_stat 8;
  read_link p w := match mem_fs w !! p with Some n => Ok (n_body n) | None => Err enoent end;
  read_to_string p w := match mem_fs w !! p with Some n => Ok (n_body n) | None => Err ($"not found") end;
  read_bytes p w := match mem_file p w with Some n => Ok (n_body n) | None => Err enoent end;
  remove_file := mem_remove;
  remove_dir := mem_rmdir;
  create_dir_all p w :=
    match mem_fs w !! p with
    | Some _ => (Ok tt, w)
    | None => mem_put p {| n_meta := {| ft := FtDir; len := 0; modified := None |}; n_body := [] |} w
    end;
  copy_file s d w :=
    match mem_file s w with
    | Some n => mem_put d n w
    | None => (Err (io_error enoent), w)
    end;
  symlink t p := mem_put p {| n_meta := {| ft := FtSymlink; len := 0; modified := None |}; n_body := t |};
  write_all_at p d off w :=
    match mem_file p w with
    | Some n => mem_put p {| n_meta := n_meta n; n_body := write_at zero_byte (n_body n) off d |} w
    | None => (Err (io_error enoent), w)
    end;
  read_at p off n w :=
    match mem_file p w with Some nd => Ok (slice (n_body nd) off n) | None => Err (io_error enoent) end;
  set_len p n w :=
    match mem_file p w with
    | Some nd => mem_put p {| n_meta := n_meta nd; n_body := resize zero_byte (n_body nd) n |} w
    | None => (Err (io_error enoent), w)
    end;
  sync_all p := mret tt;
  open_create p trunc w :=
    match mem_file p w with
    | Some n => if trunc then mem_put p (mkfile [] 1000) w else (Ok tt, w)
    | None => mem_put p (mkfile [] 1000) w
    end;
  fs_write p b := mem_put p (mkfile b 1000);
  walkdir := mem_walk;
  glob p w := Ok (omap (λ kn : str * node,
    if starts_with (default [] (split_once ($"*") p ≫= Some ∘ fst)) kn.1 then Some (Ok kn.1) else None)
    (map_to_list (mem_fs w)));
}.

Definition accessdenied : Error := anyhow ($"AccessDenied: denied").
Definition guard_bucket {A} (u : Url) (m : M MemWorld A) : M MemWorld A := λ w,
  if bool_decide (bucket u ∈ mem_denied w) then (Err accessdenied, w) else m w.

Definition mem_obj (u : Url) (o : s3obj) : Object :=
  {| url := Some u; etag := o_etag o; mod_time := Some (o_time o); typ := File;
     size := Z.of_nat (length (o_body o)); storage_class := {| class_name := o_class o |};
     is_delete_marker := false; obj_err := None |}.

Definition mem_get (u : Url) : M MemWorld s3obj := guard_bucket u (λ w,
  match mem_s3 w !! (bucket u, path u) with Some o => (Ok o, w) | None => (Err (ObjectNotFound (absolute u)), w) end).

Definition mem_set (u : Url) (o : s3obj) : M MemWorld unit := guard_bucket u (λ w,
  (Ok tt, with_s3 (<[(bucket u, path u) := o]> (mem_s3 w)) w)).

Definition mem_del (u : Url) : M MemWorld unit := guard_bucket u (λ w,
  (Ok tt, with_s3 (delete (bucket u, path u) (mem_s3 w)) w)).

Definition mem_list (u : Url) (w : MemWorld) : list Object * MemWorld :=
  match guard_bucket u (mret tt) w with
  | (Err e, _) => ([with_error e], w)
  | (Ok _, _) =>
      (omap (λ ko : (str * str) * s3obj,
        if bool_decide (ko.1.1 = bucket u) then
          let '(ok, u') := matches u ko.1.2 in
          if ok then Some (mem_obj (with_path u' ko.1.2) ko.2) else None
        else None) (map_to_list (mem_s3 w)), w)
  end.

#[export] Instance mem_s3ops : S3Ops MemWorld := {
  S3 := unit;
  S3_new _ _ := mret tt;
  s3_stat _ u := let! o := mem_get u in mret (mem_obj u o);
  s3_list _ u := mem_list u;
  s3_delete _ u := mem_del u;
  s3_copy _ s d _ := let! o := mem_get s in mem_set d o;
  s3_download _ s p := let! o := mem_get s in
    mem_put p {| n_meta := {| ft := FtFile; len := Z.of_nat (length (o_body o)); modified := Some (o_time o) |};
                 n_body := o_body o |};
  s3_upload _ p d _ w :=
    match mem_file p w with
    | Some n => mem_set d {| o_body := n_body n; o_time := 1000; o_etag := []; o_class := [] |} w
    | None => (Err (io_error enoent), w)
    end;
  s3_client_copy _ s d _ := let! o := mem_get s in mem_set d o;
  s3_client_copy_to _ _ s d _ := let! o := mem_get s in mem_set d o;
  s3_multi_delete _ us w := foldl (λ '(out, w) u,
     let '(r, w) := mem_del u w in
     (out ++ [match r with
              | Ok _ => {| url := Some u; etag := []; mod_time := None; typ := Unknown; size := 0;
                           storage_class := {| class_name := [] |}; is_delete_marker := false; obj_err := None |}
              | Err e => {| url := Some u; etag := []; mod_time := None; typ := Unknown; size := 0;
                           storage_class := {| class_name := [] |}; is_delete_marker := false; obj_err := Some e |}
              end], w)) ([], w) us;
  put_object_bytes _ d b := mem_set d {| o_body := b; o_time := 1000; o_etag := []; o_class := [] |};
  get_object_bytes _ s := let! o := mem_get s in mret (o_body o);
  s3_read_range _ s start n := let! o := mem_get s in mret (slice (o_body o) start n);
}.
