(* ===== verification/FsSpec.v ===== *)
(** * What the local listing promises (src/src/storage/fs.rs) *)

From S2P Require Import Prelude RustStr Strutil Url UrlPath Storage Fs MemWorld.

Local Open Scope Z_scope.

Section FsSpec.
Context `{RegexLib} {W : Type} `{!Os W}.

(** The URL [walk_dir] gives a walked entry. *)
Definition entry_url (src : Url) (e : WalkEntry) : option Url :=
  match Url_new (from_utf8_lossy (we_path e)) UrlOptions_default with
  | Ok u => Some (set_relative u src)
  | Err _ => None
  end.

(** The entries a walk must transfer: regular files, and no links unless followed. *)
Definition wanted (follow : bool) (w : W) (e : result WalkEntry WalkError) : bool :=
  match e with
  | Ok e => ft_is_file (we_type e) && should_process_url (we_path e) follow w
  | Err _ => false
  end.

Definition good (o : Object) : bool := match obj_err o with None => true | Some _ => false end.

Lemma stat_sync_url u w o : stat_sync u w = Ok o → url o = Some u ∧ obj_err o = None.
Proof.
  unfold stat_sync. destruct (symlink_metadata (absolute u) w) as [m|e]; [|by destruct (io_not_found e)].
  by intros [= <-].
Qed.

Lemma walk_entries_good src follow es w :
  (∀ e u, Ok e ∈ es → entry_url src e = Some u → is_ok (stat_sync u w) = true) →
  (∀ e, Ok e ∈ es → is_Some (entry_url src e)) →
  map url (List.filter good (walk_entries src follow es w))
  = map (λ e, match e with Ok e => entry_url src e | Err _ => None end) (List.filter (wanted follow w) es).
Proof.
  intros Hstat Hurl. induction es as [|[e|e] es IH]; [done| |].
  - assert (IH' : map url (List.filter good (walk_entries src follow es w))
      = map (λ e, match e with Ok e => entry_url src e | Err _ => None end) (List.filter (wanted follow w) es)).
    { apply IH; [intros e' u He'; apply Hstat; set_solver|intros e' He'; apply Hurl; set_solver]. }
    clear IH. specialize (Hstat e). destruct (Hurl e ltac:(set_solver)) as [u Hu].
    specialize (Hstat u ltac:(set_solver) Hu).
    cbn [walk_entries List.filter wanted]. unfold entry_url in Hu.
    destruct (we_type e); cbn [ft_is_dir ft_is_file negb andb]; try exact IH'.
    destruct (Url_new (from_utf8_lossy (we_path e)) UrlOptions_default) as [u0|] eqn:Hnew; [|done].
    injection Hu as Hu. destruct (should_process_url (we_path e) follow w) eqn:Hp; cbn [negb]; [|exact IH'].
    rewrite Hu. destruct (stat_sync u w) as [o|] eqn:Ho; [|done].
    destruct (stat_sync_url _ _ _ Ho) as [Hou Hoe].
    cbn [List.filter]. unfold good at 1. rewrite Hoe. cbn [map]. rewrite Hou, IH'. f_equal.
    unfold entry_url. by rewrite Hnew, Hu.
  - cbn [walk_entries List.filter wanted good with_error obj_err].
    apply IH; [intros e' u He'; apply Hstat; set_solver|intros e' He'; apply Hurl; set_solver].
Qed.

(** A broken entry does not hide the rest of a walk: when the files of a directory
    can be read, the listing's good entries are exactly its regular files (links to files only
    when followed), in the order walked, each with its path relative to the source,
    whatever errors the walk met in between. *)
Theorem walk_dir_complete src follow w :
  let es := walkdir (absolute src) follow w in
  should_process_url (absolute src) follow w = true →
  (∀ e u, Ok e ∈ es → entry_url src e = Some u → is_ok (stat_sync u w) = true) →
  (∀ e, Ok e ∈ es → is_Some (entry_url src e)) →
  map url (List.filter good (walk_dir src follow w))
  = map (λ e, match e with Ok e => entry_url src e | Err _ => None end) (List.filter (wanted follow w) es)
  ∧ length (List.filter (negb ∘ good) (walk_dir src follow w))
    = length (List.filter (negb ∘ is_ok) es).
Proof.
  cbv zeta. intros Hp Hstat Hurl. unfold walk_dir. rewrite Hp. cbn [negb].
  split; [by apply walk_entries_good|]. clear Hp.
  induction (walkdir (absolute src) follow w) as [|[e|e] es IH]; [done| |].
  - assert (IH' := IH ltac:(intros e' u He'; apply Hstat; set_solver)
                      ltac:(intros e' He'; apply Hurl; set_solver)). clear IH.
    cbn [walk_entries List.filter is_ok negb compose]. unfold compose at 2. cbn [is_ok negb].
    destruct (we_type e); cbn [ft_is_dir ft_is_file negb]; try exact IH'.
    destruct (Hurl e ltac:(set_solver)) as [u Hu]. specialize (Hstat e u ltac:(set_solver) Hu).
    unfold entry_url in Hu.
    destruct (Url_new (from_utf8_lossy (we_path e)) UrlOptions_default) as [u0|]; [|done].
    injection Hu as Hu. destruct (should_process_url _ _ _); cbn [negb]; [|exact IH'].
    rewrite Hu. destruct (stat_sync u w) as [o|] eqn:Ho; [|done].
    destruct (stat_sync_url _ _ _ Ho) as [_ Hoe]. cbn [List.filter]. unfold compose, good in *.
    rewrite Hoe. exact IH'.
  - cbn [walk_entries List.filter]. unfold compose in *. cbn [good with_error obj_err is_ok negb length].
    f_equal. apply IH; [intros e' u He'; apply Hstat; set_solver|intros e' He'; apply Hurl; set_solver].
Qed.
End FsSpec.

Definition walk_world : MemWorld :=
  {| mem_fs := <[$"/d" := mkdir_node]> (<[$"/d/a.txt" := mkfile ($"hello") 7]>
                (<[$"/d/l" := {| n_meta := {| ft := FtSymlink; len := 0; modified := None |};
                                 n_body := $"/d/a.txt" |}]> ∅));
     mem_s3 := ∅; mem_denied := []; mem_log := [] |}.

Definition walk_src : Url :=
  {| kind := Local; scheme := []; bucket := []; path := $"/d"; delimiter := $"/"; url_prefix := $"/d";
     version_id := []; all_versions := false; start_after := []; relative_path := []; url_filter := [];
     filter_regex := None; raw := false |}.

Definition readable (src : Url) (w : MemWorld) (e : result WalkEntry WalkError) : bool :=
  match e with
  | Ok e => match entry_url src e with Some u => is_ok (stat_sync u w) | None => false end
  | Err _ => true
  end.

Lemma walk_dir_complete_witness :
  map url (List.filter good (walk_dir walk_src false walk_world))
    = [entry_url walk_src {| we_path := $"/d/a.txt"; we_type := FtFile |}].
Proof.
  assert (Hok : ∀ e, e ∈ walkdir (absolute walk_src) false walk_world → readable walk_src walk_world e = true).
  { intros e He. eapply (proj1 (forallb_forall (readable walk_src walk_world) _)); [|by apply list_elem_of_In].
    vm_refl. }
  refine (eq_trans (proj1 (walk_dir_complete walk_src false walk_world _ _ _)) _).
  - vm_refl.
  - intros e u He Hu. apply Hok in He. unfold readable in He. by rewrite Hu in He.
  - intros e He. apply Hok in He. unfold readable in He. by destruct (entry_url walk_src e).
  - vm_refl.
Defined.
