(* ===== verification/S3cfg.v ===== *)
(** * Configuration files (src/src/s3cfg.rs, src/src/command/import_s3cfg.rs)

    [bytesize::ByteSize]'s parser is a third-party parameter. *)

From S2P Require Import Prelude RustStr Strutil Fs.

Local Open Scope Z_scope.

Class ByteSizeLib := {
  (** [s.parse::<ByteSize>().map(|b| b.as_u64())], the error displayed *)
  parse_bytesize : str → result Z str;
}.

(** [as_u64] is a [u64]. *)
Class ByteSizeLaws `{ByteSizeLib} := {
  parse_bytesize_range : ∀ s n, parse_bytesize s = Ok n → in_u64 n;
}.

Record Translated := {
  access_key : option str;
  secret_key : option str;
  session_token : option str;
  t_endpoint_url : option str;
  t_addressing_style : option str;
  t_region : option str;
  t_no_verify_ssl : bool;
  t_ca_certs_file : option str;
  t_proxy : option str;
  t_retry_count : option Z;
  t_limitrate : option Z;
  t_request_payer : option str;
  warnings : list str;
}.

Definition u16_max : Z := 2 ^ 16 - 1.

(** ** Writing and reading INI text *)

Definition kv (k v : str) : str := k ++ $" = " ++ v ++ [LF].
Definition opt_kv (k : str) (v : option str) : str :=
  match v with Some v => kv k v | None => [] end.

Definition to_rs5cmd_ini (t : Translated) : str :=
  $"# rs5cmd config (generated by `import-s3cfg`)" ++ [LF] ++ $"[rs5cmd]" ++ [LF]
  ++ opt_kv ($"endpoint_url") (t_endpoint_url t)
  ++ opt_kv ($"region") (t_region t)
  ++ opt_kv ($"addressing_style") (t_addressing_style t)
  ++ opt_kv ($"no_verify_ssl") (if t_no_verify_ssl t then Some ($"true") else None)
  ++ opt_kv ($"ca_certs_file") (t_ca_certs_file t)
  ++ opt_kv ($"proxy") (t_proxy t)
  ++ opt_kv ($"retry_count") (to_string <$> t_retry_count t)
  ++ opt_kv ($"limitrate") (to_string <$> t_limitrate t)
  ++ opt_kv ($"request_payer") (t_request_payer t).

(** One turn of [parse_ini]'s loop. *)
Definition ini_line (m : gmap str str) (line : str) : gmap str str :=
  let line := trim line in
  if bool_decide (line = []) || starts_with ($"#") line || starts_with ($";") line then m
  else if starts_with ($"[") line then m
  else match split_once ($"=") line with
       | Some (k, v) => <[to_ascii_lowercase (trim k) := trim v]> m
       | None => m
       end.

Definition parse_ini (text : str) : gmap str str := foldl ini_line ∅ (lines text).

Definition parse_bool (s : str) : option bool :=
  let s := to_ascii_lowercase (trim s) in
  if bool_decide (s ∈ [$"true"; $"1"; $"yes"; $"on"]) then Some true
  else if bool_decide (s ∈ [$"false"; $"0"; $"no"; $"off"]) then Some false
  else None.

Definition nonempty (m : gmap str str) (key : str) : option str :=
  match m !! key with
  | Some s => let s := trim s in if decide (s = []) then None else Some s
  | None => None
  end.

Definition normalize_region (loc : str) : str :=
  let loc := trim loc in
  if bool_decide (loc ∈ [$"US"; $"us"]) then $"us-east-1"
  else if bool_decide (loc ∈ [$"EU"; $"eu"]) then $"eu-west-1"
  else loc.

(** [map.get(key).and_then(|v| parse_bool(v))] *)
Definition get_bool (m : gmap str str) (key : str) : option bool := m !! key ≫= parse_bool.

Section S3cfg.
Context `{ByteSizeLib}.

Definition parse_byte_rate (s : str) : result Z str :=
  let s := trim s in
  match parse_uint u64_max s with
  | Some n => Ok n
  | None => result_map_err (λ e, $"invalid byte rate " ++ debug_str s ++ $": " ++ e) (parse_bytesize s)
  end.

Definition s3cfg_endpoint (m : gmap str str) : option str :=
  match nonempty m ($"host_base") with
  | None => None
  | Some host =>
      let host := trim_end_matches is_slash host in
      let lower := to_ascii_lowercase host in
      if starts_with ($"http://") lower || starts_with ($"https://") lower then Some host
      else
        let https := default true (get_bool m ($"use_https")) in
        let scheme := if https then $"https" else $"http" in
        Some (scheme ++ $"://" ++ host)
  end.

Definition s3cfg_addressing (m : gmap str str) : option str :=
  match nonempty m ($"host_bucket") with
  | None => None
  | Some hb => Some (if starts_with ($"%(bucket)s") (trim_start hb) then $"virtual" else $"path")
  end.

Definition s3cfg_region (m : gmap str str) : option str :=
  match nonempty m ($"region") with
  | Some r => Some (normalize_region r)
  | None => normalize_region <$> nonempty m ($"bucket_location")
  end.

Definition s3cfg_proxy (m : gmap str str) : option str :=
  match nonempty m ($"proxy_host") with
  | None => None
  | Some ph =>
      let lower := to_ascii_lowercase ph in
      if starts_with ($"http://") lower || starts_with ($"https://") lower
         || starts_with ($"socks5") lower
      then Some ph
      else
        let port := default 3128 (m !! ($"proxy_port") ≫= λ p, parse_uint u16_max (trim p)) in
        Some ($"http://" ++ ph ++ $":" ++ to_string port)
  end.

Definition s3cfg_limitrate (m : gmap str str) : option Z * list str :=
  match nonempty m ($"limitrate") with
  | None => (None, [])
  | Some raw =>
      match parse_byte_rate raw with
      | Ok n => if n >? 0 then (Some n, []) else (None, [])
      | Err e => (None, [$"ignoring limitrate: " ++ e])
      end
  end.

Definition is_some {A} (o : option A) : bool := match o with Some _ => true | None => false end.

Definition translate_s3cfg (m : gmap str str) : Translated :=
  let cert_off := bool_decide (get_bool m ($"check_ssl_certificate") = Some false) in
  let host_off := bool_decide (get_bool m ($"check_ssl_hostname") = Some false) in
  let '(rate, rate_warnings) := s3cfg_limitrate m in
  let sse := bool_decide (get_bool m ($"server_side_encryption") = Some true) in
  {| access_key := nonempty m ($"access_key");
     secret_key := nonempty m ($"secret_key");
     session_token := nonempty m ($"access_token");
     t_endpoint_url := s3cfg_endpoint m;
     t_addressing_style := s3cfg_addressing m;
     t_region := s3cfg_region m;
     t_no_verify_ssl := cert_off || host_off;
     t_ca_certs_file := nonempty m ($"ca_certs_file");
     t_proxy := s3cfg_proxy m;
     t_retry_count := m !! ($"max_retries") ≫= λ v, parse_uint u32_max (trim v);
     t_limitrate := rate;
     t_request_payer :=
       if bool_decide (get_bool m ($"requester_pays") = Some true) then Some ($"requester") else None;
     warnings :=
       rate_warnings
       ++ (if bool_decide (get_bool m ($"signature_v2") = Some true)
           then [$"signature_v2 is not supported (rs5cmd signs with SigV4 only); ignoring"] else [])
       ++ (if is_some (nonempty m ($"storage_class"))
           then [$"storage_class is not applied globally; pass --storage-class per command"] else [])
       ++ (if sse || is_some (nonempty m ($"kms_key"))
           then [$"server-side encryption is not applied globally; pass --sse/--sse-kms-key-id per command"]
           else [])
       ++ (if bool_decide (get_bool m ($"encrypt") = Some true)
           then [$"client-side GPG encryption (encrypt) is not supported; ignoring"] else []) |}.

Definition from_rs5cmd (m : gmap str str) : Translated :=
  {| access_key := nonempty m ($"access_key");
     secret_key := nonempty m ($"secret_key");
     session_token := nonempty m ($"session_token");
     t_endpoint_url := nonempty m ($"endpoint_url");
     t_addressing_style := nonempty m ($"addressing_style");
     t_region := nonempty m ($"region");
     t_no_verify_ssl := default false (get_bool m ($"no_verify_ssl"));
     t_ca_certs_file := nonempty m ($"ca_certs_file");
     t_proxy := nonempty m ($"proxy");
     t_retry_count := m !! ($"retry_count") ≫= (λ v, parse_uint u32_max (trim v));
     t_limitrate := nonempty m ($"limitrate") ≫= (λ v, result_ok (parse_byte_rate v));
     t_request_payer := nonempty m ($"request_payer");
     warnings := [] |}.
End S3cfg.

(** ** Replacing a section of the credentials file (import_s3cfg.rs) *)

Definition push_line_end (s : str) : str := if ends_with [LF] s then s else s ++ [LF].

(** One turn of the loop of [replace_ini_section]: output, [skipping], [replaced]. *)
Definition section_line (header replacement : str) (st : str * bool * bool) (line : str)
  : str * bool * bool :=
  let '(out, skipping, replaced) := st in
  let trimmed := trim line in
  if starts_with ($"[") trimmed && ends_with ($"]") trimmed then
    if decide (trimmed = header) then (out ++ push_line_end replacement, true, true)
    else (out ++ line ++ [LF], false, replaced)
  else if negb skipping then (out ++ line ++ [LF], skipping, replaced)
  else (out, skipping, replaced).

Definition replace_ini_section (text name replacement : str) : str :=
  let header := $"[" ++ name ++ $"]" in
  let '(out, _, replaced) := foldl (section_line header replacement) ([], false, false) (lines text) in
  if negb replaced then
    let out := if negb (bool_decide (out = [])) && negb (ends_with [LF] out) then out ++ [LF] else out in
    out ++ push_line_end replacement
  else out.

(** The credentials text [write_aws_credentials] writes over [existing]. *)
Definition credentials_text (existing prof ak sk : str) (tok : option str) : str :=
  let section := $"[" ++ prof ++ $"]" ++ [LF] ++ $"aws_access_key_id = " ++ ak ++ [LF]
                 ++ $"aws_secret_access_key = " ++ sk ++ [LF] in
  let section := match tok with
                 | Some tok => section ++ $"aws_session_token = " ++ tok ++ [LF]
                 | None => section
                 end in
  replace_ini_section existing prof section.

(** ** The round trip through [~/.rs5cmd] *)

(** A value that survives a line of INI text. *)
Definition clean (v : str) : Prop := v ≠ [] ∧ trimmed v = true ∧ no_lf v = true.
Definition clean_opt (o : option str) : Prop := match o with Some v => clean v | None => True end.

Definition ins_opt (k : str) (o : option str) (m : gmap str str) : gmap str str :=
  match o with Some v => <[k := v]> m | None => m end.

Lemma ins_opt_eq k o m : m !! k = None → ins_opt k o m !! k = o.
Proof. intros Hm. destruct o; simpl; [by rewrite lookup_insert_eq|done]. Qed.

Lemma ins_opt_ne k k' o m : k ≠ k' → ins_opt k o m !! k' = m !! k'.
Proof. intros Hk. destruct o; simpl; [by rewrite lookup_insert_ne|done]. Qed.

(** A key of the file: lower case, without the bytes the parser looks at. *)
Definition key_char (c : ascii) : bool :=
  negb (ws1 c) && negb (128 <=? Z.of_nat (code c)) && negb (is_chr "="%char c)
  && negb (is_chr "#"%char c) && negb (is_chr ";"%char c) && negb (is_chr "["%char c)
  && negb (is_chr LF c) && bool_decide (to_ascii_lowercase1 c = c).
Definition good_key (k : str) : bool := negb (bool_decide (k = [])) && forallb key_char k.

Definition after_lines (s : str) (m : gmap str str) : gmap str str := foldl ini_line m (lines s).

Lemma key_char_props c :
  key_char c = true →
  ws1 c = false ∧ (code c < 128)%nat ∧ c ≠ "="%char ∧ c ≠ "#"%char ∧ c ≠ ";"%char ∧ c ≠ "["%char
  ∧ c ≠ LF ∧ to_ascii_lowercase1 c = c.
Proof.
  unfold key_char, is_chr. rewrite !andb_true_iff, !negb_true_iff, !bool_decide_eq_false, bool_decide_eq_true.
  rewrite Z.leb_gt. intros (((((((? & ?) & ?) & ?) & ?) & ?) & ?) & ?). split_and!; try done; try lia.
Qed.

Lemma ws_head_ascii c s : ws1 c = false → (code c < 128)%nat → ws_head (c :: s) = 0%nat.
Proof.
  intros Hw Hc. simpl. rewrite Hw. destruct s as [|d s]; [done|].
  destruct (ws2 c d) eqn:H2; [apply ws2_code in H2; lia|]. destruct s as [|e s]; [done|].
  destruct (ws3 c d e) eqn:H3; [apply ws3_code in H3; lia|done].
Qed.

Lemma ws_last_ascii c s : ws1 c = false → (code c < 128)%nat → ws_last (c :: s) = 0%nat.
Proof.
  intros Hw Hc. simpl. rewrite Hw. destruct s as [|d s]; [done|].
  destruct (ws2 d c) eqn:H2; [apply ws2_code in H2; lia|]. destruct s as [|e s]; [done|].
  destruct (ws3 e d c) eqn:H3; [apply ws3_code in H3; lia|done].
Qed.

Lemma ws_last_prefix a b : ws_last (a ++ b) = 0%nat → ws_last a = 0%nat.
Proof.
  destruct a as [|x [|y [|z a]]]; simpl; try done.
  - by destruct (ws1 x).
  - destruct (ws1 x); [done|]. by destruct (ws2 y x).
Qed.

(** Text that starts in ASCII and ends in what does not end in white space. *)
Lemma trimmed_app k c v :
  ws1 c = false → (code c < 128)%nat → v ≠ [] → trimmed v = true → trimmed (c :: k ++ " "%char :: v) = true.
Proof.
  intros Hw Hc Hne [_ Hl]%trimmed_true. apply trimmed_true. split; [by apply ws_head_ascii|].
  rewrite app_comm_cons, reverse_app, reverse_cons, <-app_assoc. simpl.
  apply ws_last_app; [|done|reflexivity].
  intros Hn. apply Hne. rewrite <-(reverse_involutive v), Hn. done.
Qed.

Lemma good_key_trimmed k : good_key k = true → trimmed k = true.
Proof.
  intros [Hne Hk]%andb_true_iff. rewrite forallb_Forall in Hk. apply trimmed_true.
  rewrite negb_true_iff, bool_decide_eq_false in Hne. split.
  - destruct Hk as [|c k (? & ? & _)%key_char_props _]; [done|]. by apply ws_head_ascii.
  - apply Forall_reverse in Hk.
    destruct (reverse k) as [|c r] eqn:Hr; [done|].
    apply Forall_cons in Hk as [(? & ? & _)%key_char_props _]. by apply ws_last_ascii.
Qed.

Lemma good_key_lower k : good_key k = true → to_ascii_lowercase k = k.
Proof.
  intros [_ Hk]%andb_true_iff. rewrite forallb_Forall in Hk. unfold to_ascii_lowercase.
  induction Hk as [|c k (_ & _ & _ & _ & _ & _ & _ & Hc)%key_char_props _ IH]; [done|].
  simpl. by rewrite Hc, IH.
Qed.

Lemma good_key_forallb k c :
  good_key k = true → c ∈ ["="%char; LF] → forallb (negb ∘ is_chr c) k = true.
Proof.
  intros [_ Hk]%andb_true_iff Hc. rewrite forallb_Forall in *. eapply Forall_impl; [exact Hk|].
  intros d (_ & _ & ? & _ & _ & _ & ? & _)%key_char_props. unfold compose, is_chr.
  rewrite negb_true_iff, bool_decide_eq_false. intros ->. set_solver.
Qed.

(** A [kv] line is read back. *)
Lemma ini_line_kv k v m :
  good_key k = true → clean v → ini_line m (k ++ $" = " ++ v) = <[k := v]> m.
Proof.
  intros Hk (Hne & Hv & Hlf).
  pose proof Hk as [Hkne Hkc]%andb_true_iff. rewrite negb_true_iff, bool_decide_eq_false in Hkne.
  assert (Hfirst : ∃ c k', k = c :: k' ∧ key_char c = true).
  { destruct k as [|c k']; [done|]. exists c, k'. by apply andb_true_iff in Hkc as [? _]. }
  destruct Hfirst as (c & k' & Hkeq & (Hw & Hc & Heq & Hh & Hs & Hb & _ & _)%key_char_props).
  assert (Htr : trim (k ++ $" = " ++ v) = k ++ $" = " ++ v).
  { apply trim_trimmed. rewrite Hkeq. change (c :: k') with ([] ++ c :: k').
    rewrite <-app_assoc. cbn [app].
    replace (c :: k' ++ $" = " ++ v) with (c :: (k' ++ $" =") ++ " "%char :: v)
      by (by rewrite <-app_assoc).
    by apply trimmed_app. }
  unfold ini_line. rewrite Htr.
  rewrite bool_decide_false by (rewrite Hkeq; done).
  assert (Hst : ∀ d, d ≠ c → starts_with [d] (k ++ $" = " ++ v) = false).
  { intros d Hd. apply not_true_iff_false. intros [r Hr]%starts_with_true. rewrite Hkeq in Hr.
    simpl in Hr. congruence. }
  change ($"#") with ["#"%char]. change ($";") with [";"%char]. change ($"[") with ["["%char].
  rewrite !Hst by congruence. simpl orb. cbv iota.
  replace (k ++ $" = " ++ v) with ((k ++ $" ") ++ "="%char :: ($" " ++ v)) by (by rewrite <-app_assoc).
  change ($"=") with ["="%char]. rewrite split_once_chr.
  - change ($" " ++ v) with (" "%char :: v).
    rewrite trim_cons by reflexivity. rewrite (trim_trimmed v) by done.
    change ($" ") with [" "%char]. rewrite trim_snoc by (done || by apply good_key_trimmed). by rewrite good_key_lower.
  - rewrite forallb_app, good_key_forallb; [done|done|set_solver].
Qed.

Lemma after_kv k v s m :
  good_key k = true → clean v → after_lines (kv k v ++ s) m = after_lines s (<[k := v]> m).
Proof.
  intros Hk Hv. unfold after_lines, kv.
  replace ((k ++ $" = " ++ v ++ [LF]) ++ s) with ((k ++ $" = " ++ v) ++ LF :: s)
    by (by rewrite <-!app_assoc).
  pose proof Hv as (Hne & Htr & Hlf). apply trimmed_true in Htr as [_ Hl].
  rewrite lines_cons.
  - cbn [foldl]. by rewrite ini_line_kv.
  - unfold no_lf. rewrite !forallb_app, good_key_forallb by (done || set_solver). exact Hlf.
  - intros r Hr. rewrite app_assoc in Hr. destruct (app_eq_inv _ _ _ _ Hr) as [(q & Hq1 & Hq2)|(q & Hq1 & Hq2)].
    + destruct q as [|? [|]]; [| |].
      2: { apply (f_equal length) in Hq2; destruct v; simpl in Hq2; [done|lia]. }
      2: { apply (f_equal length) in Hq2. rewrite length_app in Hq2. simpl in Hq2. lia. }
      simpl in Hq2. rewrite <-Hq2 in Hl. done.
    + rewrite Hq2, reverse_app in Hl. done.
Qed.

Lemma after_opt_kv k o s m :
  good_key k = true → clean_opt o → after_lines (opt_kv k o ++ s) m = after_lines s (ins_opt k o m).
Proof. intros Hk Ho. destruct o; simpl; [by apply after_kv|done]. Qed.

(** What the dotfile can carry. *)
Record dotfile_ok (t : Translated) : Prop := {
  ok_strings : Forall clean_opt [t_endpoint_url t; t_region t; t_addressing_style t;
                                 t_ca_certs_file t; t_proxy t; t_request_payer t];
  ok_retry : match t_retry_count t with Some n => in_u32 n | None => True end;
  ok_rate : match t_limitrate t with Some n => in_u64 n | None => True end;
}.

(** The connection settings of [t]: all but the secrets and the warnings. *)
Definition connection (t : Translated) : Translated :=
  {| access_key := None; secret_key := None; session_token := None;
     t_endpoint_url := t_endpoint_url t; t_addressing_style := t_addressing_style t;
     t_region := t_region t; t_no_verify_ssl := t_no_verify_ssl t;
     t_ca_certs_file := t_ca_certs_file t; t_proxy := t_proxy t; t_retry_count := t_retry_count t;
     t_limitrate := t_limitrate t; t_request_payer := t_request_payer t; warnings := [] |}.

Lemma digit_range c : is_digit c = true → (48 <= code c <= 57)%nat.
Proof. unfold is_digit. rewrite andb_true_iff, !Nat.leb_le. done. Qed.

Lemma digits_clean s : s ≠ [] → forallb is_digit s = true → clean s.
Proof.
  intros Hne Hd. pose proof Hd as Hd'. rewrite forallb_Forall in Hd.
  assert (Hw : ∀ c, is_digit c = true → ws1 c = false ∧ (code c < 128)%nat).
  { intros c Hc%digit_range. split; [|lia]. unfold ws1.
    destruct (Nat.leb_spec (code c) 13); [lia|].
    destruct (Nat.eqb_spec (code c) 32); [lia|]. by rewrite andb_false_r. }
  split; [done|]. split.
  - apply trimmed_true. split.
    + destruct Hd as [|c s Hc _]; [done|]. apply Hw in Hc as [? ?]. by apply ws_head_ascii.
    + apply Forall_reverse in Hd. destruct (reverse s) as [|c r]; [done|].
      apply Forall_cons in Hd as [Hc _]. apply Hw in Hc as [? ?]. by apply ws_last_ascii.
  - unfold no_lf. rewrite forallb_Forall. eapply Forall_impl; [exact Hd|].
    intros c Hc%digit_range. unfold compose, is_chr. rewrite negb_true_iff, bool_decide_eq_false.
    intros ->. vm_compute in Hc. lia.
Qed.

Lemma to_string_clean n : 0 <= n → clean (to_string n).
Proof. intros Hn. apply digits_clean; [apply to_string_nonempty|by apply to_string_digits]. Qed.

Lemma nonempty_clean m k v : m !! k = Some v → clean v → nonempty m k = Some v.
Proof.
  intros Hm (Hne & Htr & _). unfold nonempty. rewrite Hm, trim_trimmed by done. by rewrite decide_False.
Qed.

Lemma nonempty_opt m k o : m !! k = o → clean_opt o → nonempty m k = o.
Proof.
  intros Hm Ho. destruct o as [v|]; [by apply nonempty_clean|]. unfold nonempty. by rewrite Hm.
Qed.

(** Lookups in a chain of [ins_opt]s of distinct literal keys. *)
Ltac ini_lookup :=
  repeat (rewrite ins_opt_ne by (intros [=]));
  first [ apply lookup_empty
        | rewrite ins_opt_eq; [reflexivity|ini_lookup] ].

(** The map the written dotfile parses to. *)
Definition dotfile_map (t : Translated) : gmap str str :=
  ins_opt ($"request_payer") (t_request_payer t)
  (ins_opt ($"limitrate") (to_string <$> t_limitrate t)
  (ins_opt ($"retry_count") (to_string <$> t_retry_count t)
  (ins_opt ($"proxy") (t_proxy t)
  (ins_opt ($"ca_certs_file") (t_ca_certs_file t)
  (ins_opt ($"no_verify_ssl") (if t_no_verify_ssl t then Some ($"true") else None)
  (ins_opt ($"addressing_style") (t_addressing_style t)
  (ins_opt ($"region") (t_region t)
  (ins_opt ($"endpoint_url") (t_endpoint_url t) ∅)))))))).

Lemma clean_opt_digits o : match o with Some n => in_u64 n | None => True end → clean_opt (to_string <$> o).
Proof. destruct o as [n|]; [|done]. intros [? _]. by apply to_string_clean. Qed.

Lemma in_u32_u64 n : in_u32 n → in_u64 n.
Proof. unfold in_u32, in_u64, u32_max, u64_max. lia. Qed.

Lemma parse_ini_dotfile t : dotfile_ok t → parse_ini (to_rs5cmd_ini t) = dotfile_map t.
Proof.
  intros [Hs Hr Hl]. rewrite !Forall_cons in Hs. destruct Hs as (H1 & H2 & H3 & H4 & H5 & H6 & _).
  assert (Hr' : clean_opt (to_string <$> t_retry_count t)).
  { apply clean_opt_digits. destruct (t_retry_count t); [by apply in_u32_u64|done]. }
  apply clean_opt_digits in Hl.
  assert (Hb : clean_opt (if t_no_verify_ssl t then Some ($"true") else None)).
  { destruct (t_no_verify_ssl t); [|done]. split; [done|]. by split; vm_compute. }
  change (parse_ini (to_rs5cmd_ini t)) with (after_lines (to_rs5cmd_ini t) ∅).
  unfold to_rs5cmd_ini. unfold after_lines at 1.
  rewrite (app_assoc _ [LF]), <-(app_assoc _ [LF]). cbn [app].
  rewrite lines_cons; [|reflexivity|intros r Hr0; apply (f_equal reverse) in Hr0;
                        rewrite reverse_app in Hr0; discriminate Hr0].
  cbn [foldl]. rewrite (lines_cons ($"[rs5cmd]"));
    [|reflexivity|intros r Hr0; apply (f_equal reverse) in Hr0;
                  rewrite reverse_app in Hr0; discriminate Hr0].
  cbn [foldl].
  set (k1 := $"endpoint_url"). set (m0 := ini_line (ini_line ∅ _) _).
  replace m0 with (∅ : gmap str str) by reflexivity. unfold k1.
  match goal with |- foldl ini_line ?m (lines ?s) = _ => change (after_lines s m = dotfile_map t) end.
  rewrite !after_opt_kv by (reflexivity || done).
  rewrite <-(app_nil_r (opt_kv ($"request_payer") (t_request_payer t))).
  by rewrite after_opt_kv.
Qed.

Ltac dotfile_field := apply nonempty_opt; [unfold dotfile_map; ini_lookup|done].

Section Roundtrip.
Context `{ByteSizeLib}.

Lemma parse_byte_rate_digits n : in_u64 n → parse_byte_rate (to_string n) = Ok n.
Proof.
  intros Hn. unfold parse_byte_rate.
  rewrite trim_trimmed by (apply to_string_clean, Hn). by rewrite parse_to_string.
Qed.

Lemma from_rs5cmd_dotfile t : dotfile_ok t → from_rs5cmd (dotfile_map t) = connection t.
Proof.
  intros [Hs Hr Hl]. rewrite !Forall_cons in Hs. destruct Hs as (H1 & H2 & H3 & H4 & H5 & H6 & _).
  pose proof (clean_opt_digits _ Hl) as Hl'.
  unfold from_rs5cmd, connection. f_equal.
  - dotfile_field.
  - dotfile_field.
  - dotfile_field.
  - dotfile_field.
  - dotfile_field.
  - dotfile_field.
  - unfold get_bool.
    replace (dotfile_map t !! ($"no_verify_ssl")) with (if t_no_verify_ssl t then Some ($"true") else None)
      by (symmetry; unfold dotfile_map; ini_lookup).
    by destruct (t_no_verify_ssl t).
  - dotfile_field.
  - dotfile_field.
  - replace (dotfile_map t !! ($"retry_count")) with (to_string <$> t_retry_count t)
      by (symmetry; unfold dotfile_map; ini_lookup).
    destruct (t_retry_count t) as [n|]; [|done]. simpl. unfold in_u32 in Hr.
    rewrite trim_trimmed by (apply to_string_clean; lia). rewrite parse_to_string; [done|lia].
  - rewrite (nonempty_opt _ _ (to_string <$> t_limitrate t)); [|unfold dotfile_map; ini_lookup|done].
    destruct (t_limitrate t) as [n|]; [|done]. simpl. by rewrite parse_byte_rate_digits.
  - dotfile_field.
Qed.

(** ** What a parsed file's values look like *)

Definition ini_ok (m : gmap str str) : Prop := map_Forall (λ _ v, no_lf v = true) m.

Lemma ini_line_ok m l : ini_ok m → no_lf l = true → ini_ok (ini_line m l).
Proof.
  intros Hm Hl. unfold ini_line. cbv zeta. destruct (_ || _); [done|].
  destruct (starts_with _ _); [done|].
  destruct (split_once ($"=") (trim l)) as [[k v]|] eqn:Hs; [|done].
  apply map_Forall_insert_2; [|done]. apply trim_forallb.
  apply split_once_Some in Hs. apply (trim_forallb _ l) in Hl.
  rewrite Hs, !forallb_app, !andb_true_iff in Hl. apply Hl.
Qed.

Lemma parse_ini_ok text : ini_ok (parse_ini text).
Proof.
  unfold parse_ini. pose proof (lines_no_lf text) as Hls.
  assert (H0 : ini_ok ∅) by apply map_Forall_empty. revert H0. generalize (∅ : gmap str str).
  induction Hls as [|l ls Hl Hls IH]; intros m Hm; [done|]. simpl. by apply IH, ini_line_ok.
Qed.

Lemma nonempty_Some_clean m k v : ini_ok m → nonempty m k = Some v → clean v.
Proof.
  intros Hm. unfold nonempty. destruct (m !! k) as [s|] eqn:Hk; [|done].
  case_decide as Hne; [done|]. intros [= <-].
  split; [done|]. split; [apply trim_is_trimmed|]. apply trim_forallb. by eapply Hm.
Qed.

Lemma nonempty_clean_opt m k : ini_ok m → clean_opt (nonempty m k).
Proof. intros Hm. destruct (nonempty m k) eqn:Hk; [|done]. by eapply nonempty_Some_clean. Qed.

Lemma normalize_region_clean r : clean r → clean (normalize_region r).
Proof.
  intros Hr. unfold normalize_region. destruct Hr as (Hne & Htr & Hlf).
  rewrite trim_trimmed by done.
  repeat case_bool_decide; by split_and!; try done; vm_compute.
Qed.

Lemma s3cfg_region_clean m : ini_ok m → clean_opt (s3cfg_region m).
Proof.
  intros Hm. unfold s3cfg_region. destruct (nonempty m ($"region")) as [r|] eqn:Hr.
  - by eapply normalize_region_clean, nonempty_Some_clean.
  - destruct (nonempty m ($"bucket_location")) as [b|] eqn:Hb; [|done].
    by eapply normalize_region_clean, nonempty_Some_clean.
Qed.

Lemma clean_url_port p ph n :
  no_lf ph = true → 0 <= n → ws_head ($"http://" ++ p) = 0%nat →
  clean ($"http://" ++ ph ++ $":" ++ to_string n).
Proof.
  intros Hph Hn _. destruct (to_string_clean n Hn) as (Hne & [_ Hl]%trimmed_true & Hlf).
  split; [done|]. split.
  - apply trimmed_true. split; [by apply ws_head_ascii; [|vm_compute; lia]|].
    rewrite !app_assoc, reverse_app.
    pose proof (to_string_digits n Hn) as Hd. rewrite forallb_Forall in Hd. apply Forall_reverse in Hd.
    destruct (reverse (to_string n)) as [|c r] eqn:Hr.
    { apply (f_equal reverse) in Hr. rewrite reverse_involutive in Hr. done. }
    apply Forall_cons in Hd as [Hc%digit_range _]. apply ws_last_ascii; [|lia].
    unfold ws1. destruct (Nat.leb_spec (code c) 13); [lia|].
    destruct (Nat.eqb_spec (code c) 32); [lia|]. by rewrite andb_false_r.
  - unfold no_lf in *. by rewrite !forallb_app, Hph, Hlf.
Qed.

Lemma s3cfg_proxy_clean m : ini_ok m → clean_opt (s3cfg_proxy m).
Proof.
  intros Hm. unfold s3cfg_proxy. destruct (nonempty m ($"proxy_host")) as [ph|] eqn:Hp; [|done].
  apply nonempty_Some_clean in Hp; [|done]. cbv zeta. destruct (_ || _); [done|].
  apply (clean_url_port []); [apply Hp| |done].
  destruct (m !! ($"proxy_port")) as [p|]; simpl; [|lia].
  destruct (parse_uint u16_max (trim p)) as [n|] eqn:Hn; simpl; [|lia].
  apply parse_uint_range in Hn. lia.
Qed.

Lemma trim_end_matches_forallb f p s : forallb f s = true → forallb f (trim_end_matches p s) = true.
Proof.
  unfold trim_end_matches. rewrite !forallb_Forall. intros Hs%Forall_reverse. apply Forall_reverse.
  induction Hs as [|c r Hc Hr IH]; simpl; [done|]. destruct (p c); [done|]. by constructor.
Qed.

Lemma s3cfg_endpoint_lf m e : ini_ok m → s3cfg_endpoint m = Some e → e ≠ [] ∧ no_lf e = true.
Proof.
  intros Hm. unfold s3cfg_endpoint. destruct (nonempty m ($"host_base")) as [h|] eqn:Hh; [|done].
  apply nonempty_Some_clean in Hh as (_ & _ & Hlf); [|done].
  apply (trim_end_matches_forallb _ is_slash) in Hlf. fold (no_lf (trim_end_matches is_slash h)) in Hlf.
  cbv zeta. destruct (_ || _) eqn:Hst; intros [= <-].
  - split; [|done]. by intros Hn; rewrite Hn in Hst.
  - unfold no_lf in *. by destruct (default _ _); split; try done; rewrite !forallb_app, Hlf.
Qed.
End Roundtrip.

Lemma s3cfg_limitrate_range `{ByteSizeLaws} m n : (s3cfg_limitrate m).1 = Some n → in_u64 n.
Proof.
  unfold s3cfg_limitrate. destruct (nonempty m ($"limitrate")) as [raw|]; [|done].
  unfold parse_byte_rate. destruct (parse_uint u64_max (trim raw)) as [k|] eqn:Hp.
  - apply parse_uint_range in Hp. destruct (k >? 0); [|done]. by intros [= <-].
  - destruct (parse_bytesize (trim raw)) as [k|] eqn:Hb; [|done]. simpl.
    apply parse_bytesize_range in Hb. destruct (k >? 0); [|done]. by intros [= <-].
Qed.

Lemma translate_dotfile_ok `{ByteSizeLaws} m :
  ini_ok m → (match t_endpoint_url (translate_s3cfg m) with Some e => trimmed e = true | None => True end) →
  dotfile_ok (translate_s3cfg m).
Proof.
  intros Hm. pose proof (s3cfg_limitrate_range m) as Hrate. unfold translate_s3cfg.
  destruct (s3cfg_limitrate m) as [rate ws] eqn:Hlr. simpl in *. intros He. constructor; simpl.
  - rewrite !Forall_cons. split; [|split; [|split; [|split; [|split; [|split; [|done]]]]]].
    + destruct (s3cfg_endpoint m) as [e|] eqn:Hse; [|done]. simpl.
      destruct (s3cfg_endpoint_lf _ _ Hm Hse). done.
    + by apply s3cfg_region_clean.
    + unfold s3cfg_addressing. destruct (nonempty m _); [|done].
      destruct (starts_with _ _); (split; [done|]); by split; vm_compute.
    + by apply nonempty_clean_opt.
    + by apply s3cfg_proxy_clean.
    + destruct (bool_decide _); [|done]. split; [done|]. by split; vm_compute.
  - destruct (m !! _ ≫= _) as [n|] eqn:Hn; [|done]. apply bind_Some in Hn as (v & _ & Hn).
    by apply parse_uint_range in Hn.
  - destruct rate; [|done]. by apply Hrate.
Qed.

(** Importing an s3cmd configuration loses nothing it translated: whatever the [.s3cfg]
    text, writing the translation to the dotfile and reading it back gives its
    connection settings, and never the secrets. *)
Theorem import_roundtrip `{ByteSizeLaws} text :
  let t := translate_s3cfg (parse_ini text) in
  (match t_endpoint_url t with Some e => trimmed e = true | None => True end) →
  from_rs5cmd (parse_ini (to_rs5cmd_ini t)) = connection t.
Proof.
  cbv zeta. intros He. pose proof (translate_dotfile_ok _ (parse_ini_ok text) He) as Hok.
  rewrite parse_ini_dotfile by done. by apply from_rs5cmd_dotfile.
Qed.

(** A byte-size parser that knows one suffix. *)
#[export] Instance simple_bytesize : ByteSizeLib := {
  parse_bytesize s :=
    match strip_suffix ($"MiB") s ≫= parse_uint (2 ^ 40) with
    | Some n => Ok (n * 1048576)
    | None => Err ($"unknown unit")
    end;
}.

#[export] Instance simple_bytesize_laws : ByteSizeLaws.
Proof.
  constructor. intros s n. cbn [parse_bytesize simple_bytesize].
  destruct (_ ≫= _) as [k|] eqn:Hk; [|done]. apply bind_Some in Hk as (r & _ & Hk%parse_uint_range).
  intros [= <-]. unfold in_u64, u64_max. lia.
Qed.

Definition sample_s3cfg : str :=
  $"[default]" ++ [LF] ++ $"access_key = AK" ++ [LF] ++ $"secret_key =SK " ++ [LF]
  ++ $"host_base = rgw.example.org/" ++ [LF] ++ $"use_https = False" ++ [CR; LF]
  ++ $"limitrate = 3MiB" ++ [LF] ++ $"max_retries = 4".

Lemma import_roundtrip_witness :
  t_endpoint_url (translate_s3cfg (parse_ini sample_s3cfg)) = Some ($"http://rgw.example.org") ∧
  t_limitrate (translate_s3cfg (parse_ini sample_s3cfg)) = Some 3145728 ∧
  from_rs5cmd (parse_ini (to_rs5cmd_ini (translate_s3cfg (parse_ini sample_s3cfg))))
  = connection (translate_s3cfg (parse_ini sample_s3cfg)).
Proof.
  split; [vm_compute; reflexivity|]. split; [vm_compute; reflexivity|].
  apply (import_roundtrip sample_s3cfg). vm_compute. reflexivity.
Defined.

(** ** The credentials file keeps its other profiles *)

Definition is_header (l : str) : bool := starts_with ($"[") (trim l) && ends_with ($"]") (trim l).
Definition unlines (ls : list str) : str := concat (map (λ l, l ++ [LF]) ls).

(** The lines of a file outside the sections headed [h]. *)
Fixpoint outside (h : str) (skipping : bool) (ls : list str) : list str :=
  match ls with
  | [] => []
  | l :: ls =>
      if is_header l then if decide (trim l = h) then outside h true ls else l :: outside h false ls
      else if skipping then outside h true ls else l :: outside h false ls
  end.

(** A line that [lines] gives back. *)
Definition stable (l : str) : Prop := no_lf l = true ∧ ∀ r, l ≠ r ++ [CR].

Lemma lines_unlines ls : Forall stable ls → lines (unlines ls) = ls.
Proof.
  induction 1 as [|l ls [Hl Hcr] Hls IH]; [done|]. unfold unlines. simpl. rewrite <-app_assoc. cbn [app].
  rewrite lines_cons by done. unfold unlines in IH. by rewrite IH.
Qed.

Lemma unlines_app a b : unlines (a ++ b) = unlines a ++ unlines b.
Proof. unfold unlines. by rewrite map_app, concat_app. Qed.

Lemma unlines_ends ls : unlines ls ≠ [] → ends_with [LF] (unlines ls) = true.
Proof.
  intros Hne. apply ends_with_true. destruct ls as [|l ls] using rev_ind; [done|].
  exists (unlines ls ++ l). rewrite unlines_app. unfold unlines. simpl.
  by rewrite app_nil_r, app_assoc.
Qed.

(** The loop of [replace_ini_section] on lines. *)
Fixpoint replace_lines (h : str) (rls : list str) (skipping : bool) (ls : list str) : list str * bool :=
  match ls with
  | [] => ([], false)
  | l :: ls =>
      if is_header l then
        if decide (trim l = h) then (rls ++ fst (replace_lines h rls true ls), true)
        else (l :: fst (replace_lines h rls false ls), snd (replace_lines h rls false ls))
      else if skipping then replace_lines h rls true ls
      else (l :: fst (replace_lines h rls false ls), snd (replace_lines h rls false ls))
  end.

Lemma push_line_end_unlines rls : rls ≠ [] → push_line_end (unlines rls) = unlines rls.
Proof.
  intros Hne. unfold push_line_end. rewrite unlines_ends; [done|].
  destruct rls as [|l rls]; [done|]. unfold unlines. simpl. by destruct l.
Qed.

Lemma section_fold h rls ls out sk rp :
  rls ≠ [] →
  ∃ sk', foldl (section_line h (unlines rls)) (out, sk, rp) ls
  = (out ++ unlines (fst (replace_lines h rls sk ls)), sk', rp || snd (replace_lines h rls sk ls)).
Proof.
  intros Hne. revert out sk rp. induction ls as [|l ls IH]; intros out sk rp.
  { exists sk. simpl. unfold unlines. simpl. by rewrite app_nil_r, orb_false_r. }
  cbn [foldl replace_lines]. unfold section_line at 2. fold (is_header l).
  destruct (is_header l).
  - case_decide.
    + destruct (IH (out ++ push_line_end (unlines rls)) true true) as [sk' ->]. exists sk'.
      rewrite push_line_end_unlines by done. cbn [fst snd]. rewrite unlines_app, app_assoc.
      by rewrite orb_true_r.
    + destruct (IH (out ++ l ++ [LF]) false rp) as [sk' ->]. exists sk'. cbn [fst snd].
      change (l :: ?x) with ([l] ++ x). rewrite unlines_app. unfold unlines at 2. simpl.
      by rewrite app_nil_r, !app_assoc.
  - destruct sk; cbn [negb].
    + apply IH.
    + destruct (IH (out ++ l ++ [LF]) false rp) as [sk' ->]. exists sk'. cbn [fst snd].
      change (l :: ?x) with ([l] ++ x). rewrite unlines_app. unfold unlines at 2. simpl.
      by rewrite app_nil_r, !app_assoc.
Qed.

Lemma replace_ini_section_lines text name rls :
  rls ≠ [] →
  replace_ini_section text name (unlines rls) =
    let '(ls, replaced) := replace_lines ($"[" ++ name ++ $"]") rls false (lines text) in
    unlines (ls ++ if replaced then [] else rls).
Proof.
  intros Hne. unfold replace_ini_section. cbv zeta.
  destruct (section_fold ($"[" ++ name ++ $"]") rls (lines text) [] false false Hne) as [sk' ->].
  destruct (replace_lines _ _ _ _) as [ls replaced]. cbn [fst snd app orb].
  destruct replaced; cbn [negb]; [by rewrite app_nil_r|].
  rewrite push_line_end_unlines, unlines_app by done.
  destruct (decide (unlines ls = [])) as [->|Hls]; [done|].
  by rewrite unlines_ends, andb_false_r.
Qed.

Section Preserve.
Context (h : str) (hd : str) (body : list str).
Context (Hhd : trim hd = h) (His : is_header hd = true) (Hbody : Forall (λ l, is_header l = false) body).

Lemma outside_body sk ls : outside h sk (hd :: body ++ ls) = outside h true ls.
Proof.
  cbn [outside]. rewrite His. rewrite decide_True by done. clear sk.
  induction Hbody as [|l b Hl Hb IH]; [done|]. cbn [app outside]. rewrite Hl. by apply IH.
Qed.

Lemma outside_snoc sk ls : outside h sk (ls ++ hd :: body) = outside h sk ls.
Proof.
  revert sk. induction ls as [|l ls IH]; intros sk; cbn [app].
  - rewrite <-(app_nil_r body). by rewrite outside_body.
  - cbn [outside]. destruct (is_header l); [case_decide|destruct sk]; by rewrite IH.
Qed.

Lemma outside_replace sk ls :
  outside h sk (fst (replace_lines h (hd :: body) sk ls)) = outside h sk ls.
Proof.
  revert sk. induction ls as [|l ls IH]; intros sk; [done|]. cbn [replace_lines outside].
  destruct (is_header l) eqn:Hl; [case_decide as Hd|destruct sk].
  - cbn [fst]. change ((hd :: body) ++ ?x) with (hd :: body ++ x). by rewrite outside_body.
  - cbn [fst outside]. by rewrite Hl, decide_False, IH.
  - apply IH.
  - cbn [fst outside]. by rewrite Hl, IH.
Qed.

Lemma replaced_inside sk ls :
  snd (replace_lines h (hd :: body) sk ls) = true →
  ∃ pre post, fst (replace_lines h (hd :: body) sk ls) = pre ++ (hd :: body) ++ post.
Proof.
  revert sk. induction ls as [|l ls IH]; intros sk; [done|]. cbn [replace_lines].
  destruct (is_header l); [case_decide|destruct sk]; cbn [fst snd].
  - intros _. by eexists [], _.
  - intros (pre & post & ->)%IH. by exists (l :: pre), post.
  - apply IH.
  - intros (pre & post & ->)%IH. by exists (l :: pre), post.
Qed.

Lemma replace_stable sk ls :
  Forall stable (hd :: body) → Forall stable ls →
  Forall stable (fst (replace_lines h (hd :: body) sk ls)).
Proof.
  intros Hs Hls. revert sk. induction Hls as [|l ls Hl Hls IH]; intros sk; [constructor|].
  cbn [replace_lines]. destruct (is_header l); [case_decide|destruct sk]; cbn [fst].
  - apply Forall_app. by split.
  - by constructor.
  - done.
  - by constructor.
Qed.
End Preserve.

(** Writing a profile keeps the others: after [replace_ini_section] the lines of the
    credentials file outside the profile's section are exactly those it had, in
    order, and the new section stands in the file. (The lines must not end in a carriage return
    of their own, which reading by lines would drop.) *)
Theorem replace_ini_section_preserves text name body :
  let h := $"[" ++ name ++ $"]" in
  trim h = h → Forall stable (h :: body) → Forall (λ l, is_header l = false) body →
  Forall stable (lines text) →
  let result := lines (replace_ini_section text name (unlines (h :: body))) in
  outside h false result = outside h false (lines text) ∧
  ∃ pre post, result = pre ++ (h :: body) ++ post.
Proof.
  cbv zeta. intros Htr Hst Hb Htext. set (h := $"[" ++ name ++ $"]") in *.
  assert (His : is_header h = true).
  { unfold is_header. rewrite Htr. apply andb_true_iff. unfold h. split.
    - apply starts_with_true. eauto.
    - apply ends_with_true. exists ($"[" ++ name). by rewrite <-app_assoc. }
  rewrite replace_ini_section_lines by done. fold h.
  pose proof (outside_replace h h body Htr His Hb false (lines text)) as Hout.
  pose proof (replaced_inside h h body false (lines text)) as Hin.
  pose proof (replace_stable h h body false (lines text) Hst Htext) as Hs.
  destruct (replace_lines h (h :: body) false (lines text)) as [ls rp]. cbn [fst snd] in *.
  rewrite lines_unlines by (apply Forall_app; split; [done|]; destruct rp; [constructor|done]).
  destruct rp.
  - rewrite app_nil_r. split; [done|]. by apply Hin.
  - split; [by rewrite outside_snoc|]. exists ls, []. by rewrite app_nil_r.
Qed.

Definition sample_credentials : str :=
  $"[other]" ++ [LF] ++ $"aws_access_key_id = X" ++ [LF] ++ [LF] ++ $"[default]" ++ [LF]
  ++ $"aws_access_key_id = OLD" ++ [LF] ++ $"[last]" ++ [LF] ++ $"k = v".

Lemma stable_dec l : no_lf l && negb (ends_with [CR] l) = true → stable l.
Proof.
  rewrite andb_true_iff, negb_true_iff. intros [Hl Hc]. split; [done|]. intros r ->.
  apply not_true_iff_false in Hc. apply Hc, ends_with_true. eauto.
Qed.

Lemma replace_ini_section_preserves_witness :
  outside ($"[default]") false
    (lines (credentials_text sample_credentials ($"default") ($"AK") ($"SK") None))
  = [$"[other]"; $"aws_access_key_id = X"; []; $"[last]"; $"k = v"].
Proof.
  refine (eq_trans (proj1 (replace_ini_section_preserves sample_credentials ($"default")
    [$"aws_access_key_id = AK"; $"aws_secret_access_key = SK"] _ _ _ _)) _).
  - reflexivity.
  - repeat (constructor; [apply stable_dec; reflexivity|]). constructor.
  - repeat (constructor; [vm_compute; reflexivity|]). constructor.
  - vm_compute lines. repeat (constructor; [apply stable_dec; reflexivity|]). constructor.
  - vm_compute. reflexivity.
Defined.
