(* ===== verification/Global.v ===== *)
(** * Global options and configuration files (src/src/command/mod.rs) *)

From S2P Require Import Prelude RustStr Strutil Fs RateLimit Storage S3cfg.

Local Open Scope Z_scope.

Inductive ColorMode := Auto | Always | Never.

Record GlobalOpts := {
  g_endpoint_url : option str;
  g_no_sign_request : bool;
  g_use_list_objects_v1 : bool;
  g_no_verify_ssl : bool;
  g_dry_run : bool;
  g_json : bool;
  g_region : option str;
  g_source_region : option str;
  g_destination_region : option str;
  g_source_endpoint_url : option str;
  g_destination_endpoint_url : option str;
  g_profile : option str;
  g_addressing_style : option str;
  g_use_dualstack_endpoint : bool;
  g_use_fips_endpoint : bool;
  g_proxy : option str;
  g_numworkers : Z;
  g_retry_count : Z;
  g_color : ColorMode;
  g_limit_upload : option str;
  g_limit_download : option str;
  g_limitrate : option str;
  g_ca_certs_file : option str;
  g_request_payer : option str;
  g_credentials_file : option str;
  g_s3cfg : option str;
  g_install_completion : bool;
}.

(** [a.or(b)] on options. *)
Definition opt_or {A} (a b : option A) : option A := match a with Some _ => a | None => b end.

(** ** The process environment *)

Abbreviation Env := (gmap str str).

Definition set_env_if_unset (key : str) (val : option str) (env : Env) : Env :=
  match val with
  | Some v => match env !! key with None => <[key := v]> env | Some _ => env end
  | None => env
  end.

Section Global.
Context `{ByteSizeLib}.

(** [parse_limiter], at the instant [now]. *)
Definition parse_limiter (now : Z) (s : str) : result RateLimiter Error :=
  match parse_bytesize (trim s) with
  | Err e => Err (anyhow ($"invalid bandwidth limit '" ++ s ++ $"': " ++ e))
  | Ok bytes =>
      if bytes =? 0 then Err (anyhow ($"bandwidth limit must be greater than zero: '" ++ s ++ $"'"))
      else Ok (RateLimiter_new bytes now)
  end.

Definition opt_limiter (now : Z) (o : option str) : result (option RateLimiter) Error :=
  match o with
  | Some s => let? rl := parse_limiter now s in Ok (Some rl)
  | None => Ok None
  end.

Definition bandwidth_limiters (now : Z) (g : GlobalOpts)
  : result (option RateLimiter * option RateLimiter) Error :=
  let up_src := opt_or (g_limit_upload g) (g_limitrate g) in
  let down_src := opt_or (g_limit_download g) (g_limitrate g) in
  let? up := opt_limiter now up_src in
  let? down := opt_limiter now down_src in
  Ok (up, down).

Definition validate_bandwidth_limits (now : Z) (g : GlobalOpts) : result unit Error :=
  let? _ := bandwidth_limiters now g in Ok tt.

Definition storage_options (now : Z) (g : GlobalOpts) : Options :=
  let '(up, down) := match bandwidth_limiters now g with Ok p => p | Err _ => (None, None) end in
  {| max_retries := g_retry_count g; endpoint := g_endpoint_url g; no_verify_ssl := g_no_verify_ssl g;
     dry_run := g_dry_run g; no_sign_request := g_no_sign_request g;
     use_list_objects_v1 := g_use_list_objects_v1 g; request_payer := g_request_payer g;
     profile := g_profile g; region := g_region g; source_region := g_source_region g;
     destination_region := g_destination_region g; source_endpoint := g_source_endpoint_url g;
     destination_endpoint := g_destination_endpoint_url g; proxy := g_proxy g;
     addressing_style := g_addressing_style g; ca_certs_file := g_ca_certs_file g;
     use_dualstack_endpoint := g_use_dualstack_endpoint g; use_fips_endpoint := g_use_fips_endpoint g;
     part_size := DEFAULT_PART_SIZE; concurrency := DEFAULT_CONCURRENCY; preserve_timestamps := false;
     client_copy := false; remove_empty_dirs := false; upload_limiter := up; download_limiter := down |}.

(** [apply_translated]: the options and the environment after. *)
Definition apply_translated (t : Translated) (g : GlobalOpts) (env : Env) : GlobalOpts * Env :=
  let env := set_env_if_unset ($"AWS_ACCESS_KEY_ID") (access_key t) env in
  let env := set_env_if_unset ($"AWS_SECRET_ACCESS_KEY") (secret_key t) env in
  let env := set_env_if_unset ($"AWS_SESSION_TOKEN") (session_token t) env in
  ({| g_endpoint_url := opt_or (g_endpoint_url g) (t_endpoint_url t);
      g_no_sign_request := g_no_sign_request g;
      g_use_list_objects_v1 := g_use_list_objects_v1 g;
      g_no_verify_ssl := if t_no_verify_ssl t then true else g_no_verify_ssl g;
      g_dry_run := g_dry_run g; g_json := g_json g;
      g_region := opt_or (g_region g) (t_region t);
      g_source_region := g_source_region g; g_destination_region := g_destination_region g;
      g_source_endpoint_url := g_source_endpoint_url g;
      g_destination_endpoint_url := g_destination_endpoint_url g; g_profile := g_profile g;
      g_addressing_style := opt_or (g_addressing_style g) (t_addressing_style t);
      g_use_dualstack_endpoint := g_use_dualstack_endpoint g;
      g_use_fips_endpoint := g_use_fips_endpoint g;
      g_proxy := opt_or (g_proxy g) (t_proxy t); g_numworkers := g_numworkers g;
      g_retry_count := if g_retry_count g =? 10 then default (g_retry_count g) (t_retry_count t)
                       else g_retry_count g;
      g_color := g_color g; g_limit_upload := g_limit_upload g; g_limit_download := g_limit_download g;
      g_limitrate := opt_or (g_limitrate g) (to_string <$> t_limitrate t);
      g_ca_certs_file := opt_or (g_ca_certs_file g) (t_ca_certs_file t);
      g_request_payer := opt_or (g_request_payer g) (t_request_payer t);
      g_credentials_file := g_credentials_file g; g_s3cfg := g_s3cfg g;
      g_install_completion := g_install_completion g |}, env).

(** The configuration part of [run]: [--s3cfg] first, then the dotfile; [s3cfg] and [dotfile]
    are the texts of the files, if there are any. *)
Definition configure (s3cfg dotfile : option str) (g : GlobalOpts) (env : Env) : GlobalOpts * Env :=
  let '(g, env) := match s3cfg with
                   | Some text => apply_translated (translate_s3cfg (parse_ini text)) g env
                   | None => (g, env)
                   end in
  match dotfile with
  | Some text => apply_translated (from_rs5cmd (parse_ini text)) g env
  | None => (g, env)
  end.

(** What a file says of a setting. *)
Definition said {A : Type} (file : option str) (read : gmap str str → Translated) (f : Translated → option A)
  : option A := match file with Some text => f (read (parse_ini text)) | None => None end.

Lemma opt_or_None_r {A} (o : option A) : opt_or o None = o.
Proof. by destruct o. Qed.

Lemma opt_or_assoc {A} (a b c : option A) : opt_or (opt_or a b) c = opt_or a (opt_or b c).
Proof. by destruct a. Qed.

Lemma set_env_keep (k : str) (o : option str) (e : Env) (k' v : str) : e !! k' = Some v → set_env_if_unset k o e !! k' = Some v.
Proof.
  intros He. unfold set_env_if_unset. destruct o; [|done].
  destruct (e !! k) eqn:Hk; [done|]. rewrite lookup_insert_ne; congruence.
Qed.

Lemma set_env_ne (k : str) (o : option str) (e : Env) (k' : str) : k ≠ k' → set_env_if_unset k o e !! k' = e !! k'.
Proof.
  intros Hk. unfold set_env_if_unset. destruct o; [|done]. destruct (e !! k); [done|].
  by rewrite lookup_insert_ne.
Qed.

Lemma set_env_eq (k : str) (o : option str) (e : Env) : set_env_if_unset k o e !! k = opt_or (e !! k) o.
Proof.
  unfold set_env_if_unset. destruct o; destruct (e !! k) eqn:Hk; try done.
  by rewrite lookup_insert_eq.
Qed.

Lemma apply_env_keep (t : Translated) (g : GlobalOpts) (e : Env) (k v : str) :
  e !! k = Some v → snd (apply_translated t g e) !! k = Some v.
Proof. intros He. cbn [apply_translated snd]. by repeat apply set_env_keep. Qed.

Lemma apply_env_access (t : Translated) (g : GlobalOpts) (e : Env) :
  snd (apply_translated t g e) !! ($"AWS_ACCESS_KEY_ID")
  = opt_or (e !! ($"AWS_ACCESS_KEY_ID")) (access_key t).
Proof.
  cbn [apply_translated snd]. rewrite set_env_ne by (intros [=]). rewrite set_env_ne by (intros [=]).
  apply set_env_eq.
Qed.

(** One configuration file on top of the options. *)
Definition layer (t : option Translated) (ge : GlobalOpts * Env) : GlobalOpts * Env :=
  match t with Some t => apply_translated t (fst ge) (snd ge) | None => ge end.

Lemma configure_layers (s3cfg dotfile : option str) (g : GlobalOpts) (env : Env) :
  configure s3cfg dotfile g env =
    layer (option_map (λ t, from_rs5cmd (parse_ini t)) dotfile)
      (layer (option_map (λ t, translate_s3cfg (parse_ini t)) s3cfg) (g, env)).
Proof. by destruct s3cfg, dotfile. Qed.


(** Once the bandwidth flags validate, no limit is dropped: [storage_options] has a limiter
    for a direction exactly when a flag limits it, the specific flag over [--limitrate],
    with the parsed and positive rate. *)
Theorem bandwidth_limits_applied now g :
  validate_bandwidth_limits now g = Ok tt →
  ∀ lim src, (lim, src) ∈ [(upload_limiter, opt_or (g_limit_upload g) (g_limitrate g));
                           (download_limiter, opt_or (g_limit_download g) (g_limitrate g))] →
  match lim (storage_options now g), src with
  | None, None => True
  | Some rl, Some s => parse_bytesize (trim s) = Ok (rate rl) ∧ rate rl ≠ 0
  | _, _ => False
  end.
Proof.
  unfold validate_bandwidth_limits. intros ([up down] & Hb & _)%result_bind_Ok lim src Hin.
  unfold storage_options. rewrite Hb.
  unfold bandwidth_limiters in Hb. cbv zeta in Hb.
  apply result_bind_Ok in Hb as (up' & Hup & (down' & Hdown & [= -> ->])%result_bind_Ok).
  assert (Hl : ∀ o r, opt_limiter now o = Ok r →
            match r, o with
            | None, None => True
            | Some rl, Some s => parse_bytesize (trim s) = Ok (rate rl) ∧ rate rl ≠ 0
            | _, _ => False
            end).
  { intros [s|] r; simpl; [|by intros [= <-]]. intros (rl & Hrl & [= <-])%result_bind_Ok.
    unfold parse_limiter in Hrl. destruct (parse_bytesize (trim s)) as [b|] eqn:Hp; [|done].
    destruct (Z.eqb_spec b 0); [done|]. by injection Hrl as <-. }
  rewrite !elem_of_cons in Hin. destruct Hin as [[= -> ->]|[[= -> ->]|Hin]]; simpl; [by apply Hl..|].
  by apply elem_of_nil in Hin.
Qed.
End Global.

Definition GlobalOpts_default : GlobalOpts :=
  {| g_endpoint_url := None; g_no_sign_request := false; g_use_list_objects_v1 := false;
     g_no_verify_ssl := false; g_dry_run := false; g_json := false; g_region := None;
     g_source_region := None; g_destination_region := None; g_source_endpoint_url := None;
     g_destination_endpoint_url := None; g_profile := None; g_addressing_style := None;
     g_use_dualstack_endpoint := false; g_use_fips_endpoint := false; g_proxy := None;
     g_numworkers := 256; g_retry_count := 10; g_color := Auto; g_limit_upload := None;
     g_limit_download := None; g_limitrate := None; g_ca_certs_file := None; g_request_payer := None;
     g_credentials_file := None; g_s3cfg := None; g_install_completion := false |}.

(** An explicit [--retry-count 10] does not win over a configuration file. *)
Lemma retry_count_10_overridden `{ByteSizeLib} t env :
  t_retry_count t = Some 3 →
  g_retry_count (fst (apply_translated t GlobalOpts_default env)) = 3.
Proof. intros Ht. simpl. by rewrite Ht. Qed.

Definition limited : GlobalOpts :=
  {| g_endpoint_url := None; g_no_sign_request := false; g_use_list_objects_v1 := false;
     g_no_verify_ssl := false; g_dry_run := false; g_json := false; g_region := None;
     g_source_region := None; g_destination_region := None; g_source_endpoint_url := None;
     g_destination_endpoint_url := None; g_profile := None; g_addressing_style := None;
     g_use_dualstack_endpoint := false; g_use_fips_endpoint := false; g_proxy := None;
     g_numworkers := 256; g_retry_count := 10; g_color := Auto; g_limit_upload := Some ($"2MiB");
     g_limit_download := None; g_limitrate := Some ($" 1MiB"); g_ca_certs_file := None;
     g_request_payer := None; g_credentials_file := None; g_s3cfg := None; g_install_completion := false |}.

Lemma bandwidth_limits_applied_witness :
  (∃ rl, upload_limiter (storage_options 0 limited) = Some rl ∧ rate rl = 2097152) ∧
  match download_limiter (storage_options 0 limited), g_limitrate limited with
  | Some rl, Some s => parse_bytesize (trim s) = Ok (rate rl) ∧ rate rl ≠ 0
  | _, _ => False
  end.
Proof.
  split; [eexists; split; vm_compute; reflexivity|].
  refine (bandwidth_limits_applied 0 limited _ download_limiter (Some ($" 1MiB")) _).
  - vm_compute. reflexivity.
  - right. left.
Defined.

