(* ===== verification/Sync.v ===== *)
(** * [sync] (src/src/command/sync.rs, src/src/command/sync_strategy.rs)

    The plan (what to copy and what to delete), the two worker-pool phases, and
    the command's result.  [HashMap] iterates in an unspecified order, a parameter
    that permutes the map's entries; the schedules of the two pools are inputs. *)

From S2P Require Import Prelude RustStr Strutil Url Storage Pool Fs S3cfg Global.

Local Open Scope Z_scope.

(** The lowercase hex MD5 of some bytes ([md5] crate). *)
Class Md5 := { md5_hex : str → str }.

(** The MD5 of a local file, [None] on any I/O error. *)
Definition local_md5_hex {W} `{!Os W, !Md5} (path : str) (w : W) : option str :=
  match read_bytes path w with Ok d => Some (md5_hex d) | Err _ => None end.

(** ** The comparison strategies *)

Inductive SyncStrategy := SizeOnly | SizeAndModification | Checksum.

Definition SyncStrategy_new (size_only checksum : bool) : SyncStrategy :=
  if checksum then Checksum else if size_only then SizeOnly else SizeAndModification.

Definition is_after (a b : option Z) : bool := default 0 a >? default 0 b.

Definition QUOTE : ascii := "034"%char.

Section Strategy.
Context `{RegexLib}.

Definition should_sync (st : SyncStrategy) (src dst : Object) : bool :=
  match st with
  | SizeOnly => negb (size src =? size dst)
  | SizeAndModification =>
      if is_after (mod_time src) (mod_time dst) then true
      else if negb (size src =? size dst) then true
      else false
  | Checksum =>
      let s := trim_matches (is_chr QUOTE) (etag src) in
      let d := trim_matches (is_chr QUOTE) (etag dst) in
      if bool_decide (s = []) || bool_decide (d = []) || contains_chr (is_chr "-"%char) s
         || contains_chr (is_chr "-"%char) d
      then true
      else negb (bool_decide (s = d))
  end.
End Strategy.

(** ** Arguments *)

Record SyncArgs := {
  a_src : str;
  a_dst : str;
  a_delete : bool;
  a_size_only : bool;
  a_checksum : bool;
  a_follow_symlinks : bool;
  a_exclude : list str;
  a_include : list str;
  a_exclude_from : list str;
  a_include_from : list str;
  a_storage_class : option str;
  a_acl : option str;
  a_content_type : option str;
  a_exit_on_error : bool;
  a_force_glacier_transfer : bool;
  a_max_delete : option Z;
  a_preserve_timestamps : bool;
}.

Definition sync_metadata (a : SyncArgs) : Metadata :=
  {| acl := a_acl a; cache_control := None; expires := None; md_storage_class := a_storage_class a;
     content_type := a_content_type a; content_encoding := None; content_disposition := None;
     encryption_method := None; encryption_key_id := None; user_defined := ∅; directive := None;
     if_none_match := false |}.

Definition is_fatal_msg (msg : str) : bool :=
  contains ($"accessdenied") msg || contains ($"nosuchbucket") msg.

Definition is_fatal (e : Error) : bool := is_fatal_msg (to_ascii_lowercase (show_error_alt e)).

Definition skip_glacier (sc : StorageClass) (force_glacier_transfer : bool) : bool :=
  negb force_glacier_transfer && is_glacier sc.

Definition set_preserve (b : bool) (o : Options) : Options :=
  {| max_retries := max_retries o; endpoint := endpoint o; no_verify_ssl := no_verify_ssl o;
     dry_run := dry_run o; no_sign_request := no_sign_request o;
     use_list_objects_v1 := use_list_objects_v1 o; request_payer := request_payer o;
     profile := profile o; region := region o; source_region := source_region o;
     destination_region := destination_region o; source_endpoint := source_endpoint o;
     destination_endpoint := destination_endpoint o; proxy := proxy o;
     addressing_style := addressing_style o; ca_certs_file := ca_certs_file o;
     use_dualstack_endpoint := use_dualstack_endpoint o; use_fips_endpoint := use_fips_endpoint o;
     part_size := part_size o; concurrency := concurrency o; preserve_timestamps := b;
     client_copy := client_copy o; remove_empty_dirs := remove_empty_dirs o;
     upload_limiter := upload_limiter o; download_limiter := download_limiter o |}.

Section Sync.
Context `{RegexLib} `{ByteSizeLib} {W : Type} `{!Os W, !S3Ops W, !Md5, !MapOrder}.

(** ** Collecting the two sides *)

Definition is_source_batch (src : Url) (opts : Options) : M W bool :=
  if is_wildcard src then mret true
  else if is_remote src then mret (is_bucket src || is_prefix src)
  else
    let! client := new_client src opts in
    λ w, match storage_stat client src w with
         | (Ok obj, w) => (Ok (is_dir (typ obj)), w)
         | (Err _, w) => (Ok false, w)
         end.

Definition with_etag (o : Object) (h : str) : Object :=
  {| url := url o; etag := h; mod_time := mod_time o; typ := typ o; size := size o;
     storage_class := storage_class o; is_delete_marker := is_delete_marker o; obj_err := obj_err o |}.
Definition with_url (o : Object) (u : Url) : Object :=
  {| url := Some u; etag := etag o; mod_time := mod_time o; typ := typ o; size := size o;
     storage_class := storage_class o; is_delete_marker := is_delete_marker o; obj_err := obj_err o |}.

Definition fill_etag (checksum remote : bool) (path : str) (w : W) (o : Object) : Object :=
  if checksum && negb remote then
    match local_md5_hex path w with Some h => with_etag o h | None => o end
  else o.

(** The loop over the listed source objects. *)
Fixpoint source_map (src : Url) (filters : Filters) (checksum force : bool) (w : W)
    (objs : list Object) (m : gmap str Object) : result (gmap str Object) Error :=
  match objs with
  | [] => Ok m
  | obj :: objs =>
      match obj_err obj with
      | Some e =>
          if is_fatal e
          then Err (anyhow ($"cannot list source " ++ show_url src ++ $": " ++ show_error_alt e))
          else Err e
      | None =>
          if is_dir (typ obj) then source_map src filters checksum force w objs m
          else if skip_glacier (storage_class obj) force then source_map src filters checksum force w objs m
          else match url obj with
               | None => source_map src filters checksum force w objs m
               | Some u =>
                   let key := to_slash (relative u) in
                   if should_skip filters key then source_map src filters checksum force w objs m
                   else
                     let obj := fill_etag checksum (is_remote u) (absolute u) w obj in
                     source_map src filters checksum force w objs (<[key := obj]> m)
               end
      end
  end.

Definition collect_source_objects (src : Url) (opts : Options) (follow is_batch : bool)
    (filters : Filters) (checksum force : bool) : M W (gmap str Object) :=
  let! client := new_client src opts in
  if negb is_batch then
    let! obj := storage_stat client src in
    λ w,
      if negb (is_dir (typ obj)) then
        let key := base src in
        if negb (should_skip filters key) then
          let obj := match url obj with None => with_url obj src | Some _ => obj end in
          let obj := fill_etag checksum (is_remote src) (absolute src) w obj in
          (Ok (<[key := obj]> ∅), w)
        else (Ok ∅, w)
      else (Ok ∅, w)
  else λ w,
    let '(objs, w) := storage_list client src follow w in
    (source_map src filters checksum force w objs ∅, w).

Fixpoint dest_map (dst : Url) (filters : Filters) (objs : list Object) (m : gmap str Object)
  : result (gmap str Object) Error :=
  match objs with
  | [] => Ok m
  | obj :: objs =>
      match obj_err obj with
      | Some e =>
          let msg := show_error e in
          if contains ($"no object found") msg || contains ($"not found") msg
          then dest_map dst filters objs m
          else if is_fatal_msg (to_ascii_lowercase msg)
          then Err (anyhow ($"cannot list destination " ++ show_url dst ++ $": " ++ msg))
          else Err (anyhow msg)
      | None =>
          if is_dir (typ obj) then dest_map dst filters objs m
          else match url obj with
               | None => dest_map dst filters objs m
               | Some u =>
                   let key := to_slash (relative u) in
                   if should_skip filters key then dest_map dst filters objs m
                   else dest_map dst filters objs (<[key := obj]> m)
               end
      end
  end.

Definition dest_listing (dst : Url) : str :=
  let dst_abs := absolute dst in
  if ends_with ($"/") dst_abs then dst_abs ++ $"*" else dst_abs ++ $"/*".

Definition collect_dest_objects (dst : Url) (opts : Options) (filters : Filters)
  : M W (gmap str Object) := λ w,
  match parse (dest_listing dst) with
  | Err _ => (Ok ∅, w)
  | Ok listing_url =>
      match new_client listing_url opts w with
      | (Err _, w) => (Ok ∅, w)
      | (Ok client, w) =>
          let '(objs, w) := storage_list client listing_url false w in
          (dest_map dst filters objs ∅, w)
      end
  end.

Definition generate_destination_url (src_url dst : Url) (is_batch : bool) : Url :=
  let objname := if is_batch then relative src_url else base src_url in
  if is_remote dst then
    if is_prefix dst || is_bucket dst then url_join dst objname else dst
  else url_join dst objname.

(** ** The plan *)

Definition plan_step (strategy : SyncStrategy) (dst : Url) (is_batch : bool)
    (st : list (Url * Url) * gmap str Object) (ko : str * Object)
  : list (Url * Url) * gmap str Object :=
  let '(to_copy, dest_objects) := st in
  let '(key, src_obj) := ko in
  match url src_obj with
  | None => st
  | Some src_url =>
      match dest_objects !! key with
      | Some dst_obj =>
          (if should_sync strategy src_obj dst_obj
           then to_copy ++ [(src_url, generate_destination_url src_url dst is_batch)] else to_copy,
           delete key dest_objects)
      | None => (to_copy ++ [(src_url, generate_destination_url src_url dst is_batch)], dest_objects)
      end
  end.

(** What to copy, and what to delete. *)
Definition plan (strategy : SyncStrategy) (dst : Url) (is_batch delete_flag : bool)
    (source_objects dest_objects : gmap str Object) : list (Url * Url) * list Url :=
  let '(to_copy, remaining) :=
    foldl (plan_step strategy dst is_batch) ([], dest_objects) (map_iter source_objects) in
  (to_copy, if delete_flag then omap (λ ko, url (snd ko)) (map_iter remaining) else []).

Definition max_delete_error (n max : Z) : Error :=
  anyhow ($"aborting sync: --delete would remove " ++ to_string n
          ++ $" objects, exceeding --max-delete " ++ to_string max
          ++ $" (nothing was copied or deleted)").

(** ** One operation *)

Definition copy_one (s3 s3_dst : option S3) (opts : Options) (metadata : Metadata) (job : Url * Url)
  : option (M W unit) :=
  let '(src, dst) := job in
  match is_remote src, is_remote dst with
  | true, true =>
      match s3 with
      | None => None
      | Some s3 => Some (match s3_dst with
                         | Some dst_s3 => s3_client_copy_to s3 dst_s3 src dst metadata
                         | None => s3_copy s3 src dst metadata
                         end)
      end
  | true, false =>
      match s3 with
      | None => None
      | Some s3 => Some (s3_download s3 src (absolute dst))
      end
  | false, true =>
      match opt_or s3_dst s3 with
      | None => None
      | Some s3 => Some (s3_upload s3 (absolute src) dst metadata)
      end
  | false, false =>
      Some (let! fs := new_client src opts in storage_copy fs src dst metadata)
  end.

Definition delete_one (s3 : option S3) (opts : Options) (u : Url) : option (M W unit) :=
  if is_remote u then match s3 with None => None | Some s3 => Some (s3_delete s3 u) end
  else Some (let! c := new_client u opts in storage_delete c u).

(** A task that panics ([expect] on a missing client) takes the run down. *)
Definition panic : Error := anyhow ($"sync copy task panicked").
Definition run_task (t : option (M W unit)) : M W unit :=
  match t with Some m => m | None => mfail panic end.

(** The counters of a phase: [had_error], successes, [fatal_seen]. *)
Record SyncAcc := { had_error : bool; ok_count : Z; fatal_seen : bool }.

Definition report {Job} (_ : Job) (r : result unit Error) (a : SyncAcc) : SyncAcc :=
  match r with
  | Ok _ => {| had_error := had_error a; ok_count := ok_count a + 1; fatal_seen := fatal_seen a |}
  | Err e => {| had_error := true; ok_count := ok_count a; fatal_seen := fatal_seen a || is_fatal e |}
  end.

Definition sync_stop (exit_on_error : bool) (a : SyncAcc) : bool :=
  exit_on_error && had_error a || fatal_seen a.

(** ** The two phases *)

Record SyncRun := {
  sr_copies : list ((Url * Url) * result unit Error);
  sr_deletes : list (Url * result unit Error);
  sr_copied : Z;
  sr_deleted : Z;
  sr_result : result unit Error;
}.

Definition fatal_error : Error :=
  anyhow ($"aborting sync: fatal error (access denied or missing bucket); see errors above").
Definition failed_error : Error := anyhow ($"one or more sync operations failed").

Definition copy_phase (workers : nat) (s3 s3_dst : option S3) (opts : Options) (md : Metadata)
    (exit_on_error : bool) (sched : list choice) (to_copy : list (Url * Url)) (w : W) :=
  pool_run (λ j, run_task (copy_one s3 s3_dst opts md j)) report (sync_stop exit_on_error) workers sched
    (pool_init to_copy {| had_error := false; ok_count := 0; fatal_seen := false |} w).

Definition delete_phase (workers : nat) (s3 : option S3) (opts : Options)
    (exit_on_error : bool) (sched : list choice) (a : SyncAcc) (to_delete : list Url) (w : W) :=
  pool_run (λ u, run_task (delete_one s3 opts u)) report (sync_stop exit_on_error) workers sched
    (pool_init to_delete {| had_error := had_error a; ok_count := 0; fatal_seen := fatal_seen a |} w).

Definition pool_done {Job Res A} (p : @pool Job Res A W) : bool :=
  bool_decide (length (todo p) = 0%nat) && bool_decide (length (running p) = 0%nat).

(** From the plan to the result; [None] when a schedule is not a complete schedule. *)
Definition execute (workers : nat) (s3 s3_dst : option S3) (opts : Options) (md : Metadata)
    (exit_on_error : bool) (sched1 sched2 : list choice)
    (to_copy : list (Url * Url)) (to_delete : list Url) (w : W) : option (SyncRun * W) :=
  match copy_phase workers s3 s3_dst opts md exit_on_error sched1 to_copy w with
  | None => None
  | Some p =>
      if negb (pool_done p) then None
      else
        let a := acc p in
        if fatal_seen a then
          Some ({| sr_copies := reported p; sr_deletes := []; sr_copied := ok_count a; sr_deleted := 0;
                   sr_result := Err fatal_error |}, world p)
        else if exit_on_error && had_error a then
          Some ({| sr_copies := reported p; sr_deletes := []; sr_copied := ok_count a; sr_deleted := 0;
                   sr_result := Err failed_error |}, world p)
        else
          match delete_phase workers (opt_or s3_dst s3) opts exit_on_error sched2 a to_delete (world p) with
          | None => None
          | Some q =>
              if negb (pool_done q) then None
              else
                let b := acc q in
                Some ({| sr_copies := reported p; sr_deletes := reported q;
                         sr_copied := ok_count a; sr_deleted := ok_count b;
                         sr_result := if fatal_seen b then Err fatal_error
                                      else if had_error b then Err failed_error else Ok tt |}, world q)
          end
  end.

(** ** The command *)

(** Everything before the transfers: the plan, the clients and the options. *)
Definition prepare (now : Z) (global : GlobalOpts) (args : SyncArgs)
  : M W (list (Url * Url) * list Url * (option S3 * option S3) * Options) :=
  let opts := set_preserve (a_preserve_timestamps args) (storage_options now global) in
  let! src := mlift (result_map_err anyhow (parse (a_src args))) in
  let! dst := mlift (result_map_err anyhow (parse (a_dst args))) in
  let strategy := SyncStrategy_new (a_size_only args) (a_checksum args) in
  let! includes := λ w, (result_map_err anyhow
      (patterns_with_files (λ f, read_to_string f w) (a_include args) (a_include_from args)), w) in
  let! excludes := λ w, (result_map_err anyhow
      (patterns_with_files (λ f, read_to_string f w) (a_exclude args) (a_exclude_from args)), w) in
  let! filters := mlift (result_map_err anyhow (Filters_new includes excludes)) in
  let src_side_opts := for_side opts Source in
  let dst_side_opts := for_side opts Destination in
  let! is_batch := is_source_batch src src_side_opts in
  let! source_objects := collect_source_objects src src_side_opts (a_follow_symlinks args) is_batch
                           filters (a_checksum args) (a_force_glacier_transfer args) in
  let! dest_objects := collect_dest_objects dst dst_side_opts filters in
  let '(to_copy, to_delete) := plan strategy dst is_batch (a_delete args) source_objects dest_objects in
  let! _ := match a_max_delete args with
            | Some max => if Z.of_nat (length to_delete) >? max
                          then mfail (max_delete_error (Z.of_nat (length to_delete)) max) else mret tt
            | None => mret tt
            end in
  let! clients :=
    (if is_remote src || is_remote dst then
       if sides_differ opts then
         let src_anchor := if is_remote src then src else dst in
         let! src_client := S3_new src_anchor (for_side opts Source) in
         let! dst_client := S3_new dst (for_side opts Destination) in
         mret (Some src_client, Some dst_client)
       else
         let anchor := if is_remote src then src else dst in
         let! c := S3_new anchor opts in
         mret (Some c, None)
     else mret (None, None)) in
  mret (to_copy, to_delete, clients, opts).

(** [run]; the outer [None] is an incomplete schedule, a planning error leaves no run. *)
Definition run (now : Z) (global : GlobalOpts) (args : SyncArgs) (sched1 sched2 : list choice) (w : W)
  : option (result unit Error * option SyncRun * W) :=
  match prepare now global args w with
  | (Err e, w) => Some (Err e, None, w)
  | (Ok (to_copy, to_delete, (s3, s3_dst), opts), w) =>
      let workers := Z.to_nat (Z.max (g_numworkers global) 1) in
      match execute workers s3 s3_dst opts (sync_metadata args) (a_exit_on_error args)
              sched1 sched2 to_copy to_delete w with
      | None => None
      | Some (r, w) => Some (sr_result r, Some r, w)
      end
  end.
End Sync.
