(* ===== verification/SyncSpec.v ===== *)
(** * What [sync] promises *)

From S2P Require Import Prelude RustStr Strutil Url Storage Pool Fs MemWorld S3cfg Global Sync.

Local Open Scope Z_scope.

(** ** The plan *)

Section Plan.
Context `{RegexLib} `{!MapOrder} (st : SyncStrategy) (dst : Url) (batch : bool).

(** The copy of one source entry, against the whole destination. *)
Definition plan_entry (dest : gmap str Object) (ko : str * Object) : option (Url * Url) :=
  match url (snd ko) with
  | None => None
  | Some s =>
      let t := generate_destination_url s dst batch in
      match dest !! fst ko with
      | Some o => if should_sync st (snd ko) o then Some (s, t) else None
      | None => Some (s, t)
      end
  end.

Definition unlisted (dest : gmap str Object) (ko : str * Object) : gmap str Object :=
  match url (snd ko) with Some _ => delete (fst ko) dest | None => dest end.

Lemma plan_step_entry c dest ko :
  plan_step st dst batch (c, dest) ko =
    (c ++ match plan_entry dest ko with Some p => [p] | None => [] end, unlisted dest ko).
Proof.
  destruct ko as [k o]. unfold plan_step, plan_entry, unlisted. cbn [fst snd].
  destruct (url o) as [s|]; [|by rewrite app_nil_r].
  destruct (dest !! k) as [o'|] eqn:Hk.
  - destruct (should_sync st o o'); [done|by rewrite app_nil_r].
  - by rewrite delete_id.
Qed.

Lemma plan_entry_unlisted dest ko ko' :
  fst ko ≠ fst ko' → plan_entry (unlisted dest ko) ko' = plan_entry dest ko'.
Proof.
  intros Hne. unfold plan_entry, unlisted. destruct (url (snd ko)); [|done].
  by rewrite lookup_delete_ne.
Qed.

Lemma plan_fold c dest l :
  NoDup (map fst l) →
  foldl (plan_step st dst batch) (c, dest) l
  = (c ++ omap (plan_entry dest) l, foldl unlisted dest l).
Proof.
  revert c dest. induction l as [|ko l IH]; intros c dest Hnd; cbn [foldl].
  { simpl. by rewrite app_nil_r. }
  apply NoDup_cons in Hnd as [Hni Hnd]. rewrite plan_step_entry, IH by done. f_equal.
  assert (Heq : omap (plan_entry (unlisted dest ko)) l = omap (plan_entry dest) l).
  { clear IH Hnd. induction l as [|ko' l IH]; [done|]. cbn [map] in Hni.
    apply not_elem_of_cons in Hni as [Hne Hni]. cbn. rewrite plan_entry_unlisted by done.
    by rewrite IH. }
  rewrite Heq, <-app_assoc. cbn. by destruct (plan_entry dest ko).
Qed.

Lemma unlisted_lookup l dest k o :
  foldl unlisted dest l !! k = Some o ↔
  dest !! k = Some o ∧ ∀ o', (k, o') ∈ l → url o' = None.
Proof.
  revert dest. induction l as [|[k' o1] l IH]; intros dest; cbn [foldl].
  { split; [intros; split; [done|]|by intros []]. by intros ? ?%elem_of_nil. }
  rewrite IH. unfold unlisted. cbn [fst snd]. split.
  - intros [Hd Hl]. destruct (url o1) as [u|] eqn:Hu.
    + apply lookup_delete_Some in Hd as [Hne Hd]. split; [done|].
      intros o' [[= -> ->]|Hin]%elem_of_cons; [done|by apply Hl].
    + split; [done|]. intros o' [[= -> ->]|Hin]%elem_of_cons; [done|by apply Hl].
  - intros [Hd Hl]. split; [|intros o' Ho'; apply Hl; by right].
    destruct (url o1) as [u|] eqn:Hu; [|done]. apply lookup_delete_Some. split; [|done].
    intros ->. specialize (Hl o1 ltac:(by left)). congruence.
Qed.

Lemma map_iter_elem {A} (m : gmap str A) k (a : A) : (k, a) ∈ map_iter m ↔ m !! k = Some a.
Proof. rewrite map_iter_perm. apply elem_of_map_to_list. Qed.

Lemma map_iter_nodup {A} (m : gmap str A) : NoDup (map fst (map_iter m)).
Proof.
  change (map fst (map_iter m)) with ((map_iter m).*1). rewrite map_iter_perm.
  apply NoDup_fst_map_to_list.
Qed.

Lemma plan_copies del srcs dests s t :
  (s, t) ∈ fst (plan st dst batch del srcs dests) ↔
  ∃ k o, srcs !! k = Some o ∧ url o = Some s ∧ t = generate_destination_url s dst batch ∧
         ∀ o', dests !! k = Some o' → should_sync st o o' = true.
Proof.
  unfold plan. rewrite plan_fold by apply map_iter_nodup. cbn [fst app].
  rewrite list_elem_of_omap. split.
  - intros ([k o] & Hin%map_iter_elem & He). exists k, o. revert He. unfold plan_entry. cbn [fst snd].
    destruct (url o) as [u|]; [|done].
    destruct (dests !! k) as [o1|] eqn:Hd; [destruct (should_sync st o o1) eqn:Hs; [|done]|];
      intros [= -> <-]; split_and!; try done; intros o' [= <-]; done.
  - intros (k & o & Hk & Hu & -> & Hs). exists (k, o). split; [by apply map_iter_elem|].
    unfold plan_entry. cbn [fst snd]. rewrite Hu.
    destruct (dests !! k) as [o'|] eqn:Hd; [|done]. by rewrite Hs.
Qed.

Lemma plan_deletes del srcs dests u :
  u ∈ snd (plan st dst batch del srcs dests) ↔
  del = true ∧ ∃ k o, dests !! k = Some o ∧ url o = Some u ∧
               ∀ so, srcs !! k = Some so → url so = None.
Proof.
  unfold plan. rewrite plan_fold by apply map_iter_nodup. cbn [snd].
  destruct del; [|split; [by intros ?%elem_of_nil|by intros [? _]]].
  rewrite list_elem_of_omap. split.
  - intros ([k o] & Hin%map_iter_elem & Hu). apply unlisted_lookup in Hin as [Hd Hs].
    split; [done|]. exists k, o. split_and!; [done..|]. intros so Hso. apply Hs. by apply map_iter_elem.
  - intros (_ & k & o & Hd & Hu & Hs). exists (k, o). split; [|done].
    apply map_iter_elem, unlisted_lookup. split; [done|]. intros o' Ho'%map_iter_elem. by apply Hs.
Qed.

(** C4. The plan is the partition sync documents, whatever order the maps iterate
    in: a source object is copied exactly when the destination has nothing under its key
    or the strategy finds that they differ, to the destination of its relative
    name; and, with [--delete] only, the destination objects under no key of
    the source are deleted, and no others. *)
Theorem plan_partition del srcs dests :
  (∀ s t, (s, t) ∈ fst (plan st dst batch del srcs dests) ↔
     ∃ k o, srcs !! k = Some o ∧ url o = Some s ∧ t = generate_destination_url s dst batch ∧
            ∀ o', dests !! k = Some o' → should_sync st o o' = true) ∧
  (∀ u, u ∈ snd (plan st dst batch del srcs dests) ↔
     del = true ∧ ∃ k o, dests !! k = Some o ∧ url o = Some u ∧
                  ∀ so, srcs !! k = Some so → url so = None) ∧
  (length (fst (plan st dst batch del srcs dests)) <= map_size srcs)%nat.
Proof.
  split; [apply plan_copies|]. split; [apply plan_deletes|].
  unfold plan. rewrite plan_fold by apply map_iter_nodup. cbn [fst app].
  assert (Hlen : ∀ l, (length (omap (plan_entry dests) l) <= length l)%nat).
  { induction l as [|ko l IH]; [done|]. cbn. destruct (plan_entry dests ko); simpl; lia. }
  etrans; [apply Hlen|]. rewrite map_iter_perm. by rewrite length_map_to_list.
Qed.

(** Sync is idempotent: once the destination holds, under every source key, an
    object of the same size that is not older, and nothing else, a second sync
    plans nothing, with or without [--delete]. *)
Theorem plan_converged del srcs dests :
  st = SizeAndModification ∨ st = SizeOnly →
  (∀ k o, srcs !! k = Some o →
     is_Some (url o) ∧ ∃ o', dests !! k = Some o' ∧ size o' = size o ∧ is_after (mod_time o) (mod_time o') = false) →
  dom dests ⊆ dom srcs →
  plan st dst batch del srcs dests = ([], []).
Proof.
  intros Hst Hsrc Hdom.
  destruct (plan st dst batch del srcs dests) as [c d] eqn:Hplan. f_equal.
  - destruct c as [|[s t] c]; [done|]. exfalso.
    destruct (proj1 (plan_copies del srcs dests s t)) as (k & o & Hk & Hu & _ & Hs).
    { rewrite Hplan. by left. }
    destruct (Hsrc k o Hk) as (_ & o' & Hd & Hsz & Ha). specialize (Hs o' Hd).
    destruct Hst as [-> | ->]; cbn [should_sync] in Hs; rewrite Hsz, Z.eqb_refl in Hs; cbn in Hs;
      [by rewrite Ha in Hs|done].
  - destruct d as [|u d]; [done|]. exfalso.
    destruct (proj1 (plan_deletes del srcs dests u)) as (_ & k & o & Hd & Hu & Hs).
    { rewrite Hplan. by left. }
    assert (k ∈ dom srcs) as [so Hso]%elem_of_dom by (apply Hdom, elem_of_dom; eauto).
    destruct (Hsrc k so Hso) as [[v Hv] _]. rewrite (Hs so Hso) in Hv. done.
Qed.
End Plan.

(** ** The two phases *)

Definition is_err {A E} (r : result A E) : bool := negb (is_ok r).
Definition is_fatal_result (r : result unit Error) : bool :=
  match r with Ok _ => false | Err e => is_fatal e end.

Lemma report_all_acc {Job} (l : list (Job * result unit Error)) a :
  report_all report l a =
    {| had_error := had_error a || existsb (is_err ∘ snd) l;
       ok_count := ok_count a + Z.of_nat (length (List.filter (is_ok ∘ snd) l));
       fatal_seen := fatal_seen a || existsb (is_fatal_result ∘ snd) l |}.
Proof.
  revert a. induction l as [|[j r] l IH]; intros a; unfold report_all in *; cbn [foldl fst snd].
  - simpl. rewrite !orb_false_r, Z.add_0_r. by destruct a.
  - rewrite IH. destruct r as [[]|e]; cbn; f_equal; try lia.
    by rewrite orb_assoc.
Qed.

Lemma is_fatal_is_err r : is_fatal_result r = true → is_err r = true.
Proof. by destruct r. Qed.

Lemma no_err_all_ok {Job} (l : list (Job * result unit Error)) :
  existsb (is_err ∘ snd) l = false → Forall (λ jr, snd jr = Ok tt) l.
Proof.
  rewrite existsb_false_Forall. intros Hl. eapply Forall_impl; [exact Hl|].
  intros [j [[]|e]]; [done|]. simpl. done.
Qed.

Lemma all_ok_filter {Job} (l : list (Job * result unit Error)) :
  Forall (λ jr, snd jr = Ok tt) l → List.filter (is_ok ∘ snd) l = l.
Proof.
  induction 1 as [|[j r] l Hr Hl IH]; [done|]. simpl in *. subst. cbn. by rewrite IH.
Qed.

Lemma all_ok_no_err {Job} (l : list (Job * result unit Error)) :
  Forall (λ jr, snd jr = Ok tt) l →
  existsb (is_err ∘ snd) l = false ∧ existsb (is_fatal_result ∘ snd) l = false.
Proof.
  induction 1 as [|[j r] l Hr Hl [IH1 IH2]]; [done|]. simpl in *. subst. by rewrite IH1, IH2.
Qed.

Lemma existsb_prefix {A} (f : A → bool) k l : k `prefix_of` l → existsb f k = true → existsb f l = true.
Proof. intros [x ->]. rewrite existsb_app. by intros ->. Qed.

Section Execute.
Context `{RegexLib} `{ByteSizeLib} {W : Type} `{!Os W, !S3Ops W, !Md5, !MapOrder}.
Context (workers : nat) (Hworkers : (0 < workers)%nat).

Lemma pool_done_final {Job Res A} (p : @pool Job Res A W) : pool_done p = true ↔ pool_final p.
Proof.
  unfold pool_done, pool_final. rewrite andb_true_iff, !bool_decide_eq_true.
  split; intros [Ht Hr]; [split; by apply length_zero_iff_nil|by rewrite Ht, Hr].
Qed.

(** A phase that ended: its results, and that it is complete unless it stopped. *)
Lemma phase_done {Job} (exec : Job → W → result unit Error * W) eoe sched (jobs : list Job) h f w p :
  pool_run exec report (sync_stop eoe) workers sched
    (pool_init jobs {| had_error := h; ok_count := 0; fatal_seen := f |} w) = Some p →
  pool_done p = true →
  (∃ rest, jobs ≡ₚ map fst (reported p) ++ rest ∧
     (h = false → f = false → existsb (is_err ∘ snd) (reported p) = false → rest = [])) ∧
  had_error (acc p) = h || existsb (is_err ∘ snd) (reported p) ∧
  ok_count (acc p) = Z.of_nat (length (List.filter (is_ok ∘ snd) (reported p))) ∧
  fatal_seen (acc p) = f || existsb (is_fatal_result ∘ snd) (reported p).
Proof.
  intros Hrun Hdone%pool_done_final.
  destruct (pool_final_reported _ _ _ _ _ _ _ _ _ Hrun Hdone) as (He & Hj & Ha & Hw & Hd).
  rewrite Ha, report_all_acc. cbn [had_error ok_count fatal_seen]. split; [|by split_and!].
  exists (dropped p). split; [done|]. intros -> -> Hne.
  destruct (dropped p) as [|j d]; [done|]. exfalso.
  destruct (Hd ltac:(done)) as (pre & Hpre & Hst). unfold sync_stop in Hst.
  rewrite report_all_acc in Hst. cbn [had_error fatal_seen orb] in Hst.
  apply not_true_iff_false in Hne. apply Hne.
  apply orb_true_iff in Hst as [[_ Hst]%andb_true_iff|Hst].
  - by eapply existsb_prefix.
  - apply (existsb_prefix _ _ _ Hpre). apply existsb_exists in Hst as ([j' r] & Hin & Hr).
    apply existsb_exists. exists (j', r). split; [done|]. by apply is_fatal_is_err.
Qed.

(** C3. What a finished sync means: no operation ran twice and none that was not
    planned; nothing was deleted if some copy failed fatally, or failed at all under
    [--exit-on-error]; and the command succeeded exactly when every operation ran
    and succeeded, with the counts it reports. *)
Theorem execute_correct s3 s3_dst opts md eoe sched1 sched2 to_copy to_delete w r w' :
  execute workers s3 s3_dst opts md eoe sched1 sched2 to_copy to_delete w = Some (r, w') →
  (∃ rest, to_copy ≡ₚ map fst (sr_copies r) ++ rest) ∧
  (∃ rest, to_delete ≡ₚ map fst (sr_deletes r) ++ rest) ∧
  (sr_deletes r ≠ [] →
     existsb (is_fatal_result ∘ snd) (sr_copies r) = false ∧
     (eoe = true → existsb (is_err ∘ snd) (sr_copies r) = false)) ∧
  (sr_result r = Ok tt ↔
     to_copy ≡ₚ map fst (sr_copies r) ∧ to_delete ≡ₚ map fst (sr_deletes r) ∧
     Forall (λ jr, snd jr = Ok tt) (sr_copies r) ∧ Forall (λ jr, snd jr = Ok tt) (sr_deletes r)) ∧
  sr_copied r = Z.of_nat (length (List.filter (is_ok ∘ snd) (sr_copies r))) ∧
  sr_deleted r = Z.of_nat (length (List.filter (is_ok ∘ snd) (sr_deletes r))).
Proof.
  clear Hworkers. unfold execute. destruct (copy_phase _ _ _ _ _ _ _ _ _) as [p|] eqn:Hcp; [|done].
  destruct (pool_done p) eqn:Hpd; [|done]. cbn [negb].
  destruct (phase_done _ _ _ _ _ _ _ _ Hcp Hpd) as ((rest & Hjobs & Hrest) & Hherr & Hok & Hfat).
  cbn [orb] in *. destruct (fatal_seen (acc p)) eqn:Hf; [|destruct (eoe && had_error (acc p)) eqn:Hee].
  - intros [= <- <-]. cbn. split; [by exists rest|]. split; [by exists to_delete|].
    split; [done|]. split; [|done]. split; [done|]. intros (_ & _ & Hall & _). exfalso.
    apply all_ok_no_err in Hall as [_ Hall]. congruence.
  - intros [= <- <-]. cbn. split; [by exists rest|]. split; [by exists to_delete|].
    split; [done|]. split; [|done]. split; [done|]. intros (_ & _ & Hall & _). exfalso.
    apply all_ok_no_err in Hall as [Hall _]. apply andb_true_iff in Hee as [_ Hee]. congruence.
  - destruct (delete_phase _ _ _ _ _ _ _ _) as [q|] eqn:Hdp; [|done].
    destruct (pool_done q) eqn:Hqd; [|done]. cbn [negb]. intros [= <- <-]. cbn [sr_copies sr_deletes sr_result sr_copied sr_deleted].
    unfold delete_phase in Hdp. rewrite Hf in Hdp.
    destruct (phase_done _ _ _ _ _ _ _ _ Hdp Hqd) as ((rest2 & Hjobs2 & Hrest2) & Hherr2 & Hok2 & Hfat2).
    cbn [orb] in *. split; [by exists rest|]. split; [by exists rest2|]. split; [|split; [|done]].
    + intros _. split; [congruence|]. intros ->. cbn in Hee. congruence.
    + rewrite Hfat2, Hherr2, Hherr. split.
      * destruct (existsb (is_fatal_result ∘ snd) (reported q)) eqn:E1; [done|].
        destruct (existsb (is_err ∘ snd) (reported p)) eqn:E2; [done|].
        destruct (existsb (is_err ∘ snd) (reported q)) eqn:E3; [done|]. intros _.
        rewrite Hrest, app_nil_r in Hjobs by done. rewrite Hrest2, app_nil_r in Hjobs2 by done.
        split_and!; [done|done|by apply no_err_all_ok..].
      * intros (_ & _ & [Hc _]%all_ok_no_err & [Hd1 Hd2]%all_ok_no_err). by rewrite Hc, Hd1, Hd2.
Qed.

(** Sync always finishes: whatever the operations return, there are schedules of the two
    phases that complete, and no schedule of a phase is longer than three steps
    per job. *)
Theorem execute_terminates s3 s3_dst opts md eoe to_copy to_delete w :
  (∃ sched1 sched2 r w',
     execute workers s3 s3_dst opts md eoe sched1 sched2 to_copy to_delete w = Some (r, w')) ∧
  (∀ sched p, copy_phase workers s3 s3_dst opts md eoe sched to_copy w = Some p →
     (length sched <= 3 * length to_copy)%nat).
Proof.
  split.
  - destruct (pool_completes (λ j, run_task (copy_one s3 s3_dst opts md j)) report (sync_stop eoe) workers
      (pool_init to_copy {| had_error := false; ok_count := 0; fatal_seen := false |} w) Hworkers)
      as (sched1 & p & Hp & Hpf%pool_done_final).
    destruct (pool_completes (λ u, run_task (delete_one (opt_or s3_dst s3) opts u)) report (sync_stop eoe) workers
      (pool_init to_delete {| had_error := had_error (acc p); ok_count := 0; fatal_seen := fatal_seen (acc p) |} (world p))
      Hworkers) as (sched2 & q & Hq & Hqf%pool_done_final).
    exists sched1, sched2. unfold execute, copy_phase, delete_phase. rewrite Hp, Hpf. cbn [negb].
    destruct (fatal_seen (acc p)) eqn:Hf; [by eauto|].
    destruct (eoe && had_error (acc p)); [by eauto|].
    rewrite Hq, Hqf. cbn [negb]. by eauto.
  - intros sched p Hrun%pool_run_length. unfold pool_measure, pool_init in Hrun. cbn in Hrun. lia.
Qed.

End Execute.

(** ** Keys survive the trip through the destination *)

Section Keys.
Context `{RegexLaws}.

Lemma dest_listing_shape dst :
  url_wf dst → is_remote dst = true → path dst = [] ∨ ends_with ($"/") (path dst) = true →
  dest_listing dst = $"s3://" ++ bucket dst ++ $"/" ++ path dst ++ $"*".
Proof.
  intros Hwf Hrem Hp. destruct (wf_bucket dst Hwf Hrem) as (Hb & Hsl & _).
  pose proof (wf_scheme dst Hwf) as Hsc. rewrite Hrem in Hsc.
  unfold dest_listing, absolute. rewrite Hrem. cbn [negb]. unfold remote_url. rewrite Hsc.
  rewrite decide_False by done. destruct Hp as [Hp|Hp].
  - rewrite Hp, decide_True, app_nil_r by done.
    replace (ends_with ($"/") ($"s3" ++ $"://" ++ bucket dst)) with false.
    + by rewrite <-!app_assoc.
    + symmetry. apply not_true_iff_false. intros [r Hr]%ends_with_true.
      destruct (bucket dst) as [|c b] using rev_ind; [done|].
      rewrite !app_assoc in Hr. apply app_inj_tail in Hr as [_ ->].
      rewrite existsb_app in Hsl. simpl in Hsl. apply orb_false_iff in Hsl as [_ Hsl]. done.
  - apply ends_with_true in Hp as [r Hr]. rewrite decide_False by (rewrite Hr; by destruct r).
    replace (ends_with ($"/") ($"s3" ++ $"://" ++ bucket dst ++ $"/" ++ path dst)) with true.
    + change ($"s3" ++ $"://" ++ bucket dst ++ $"/" ++ path dst)
        with ($"s3://" ++ bucket dst ++ $"/" ++ path dst). by rewrite <-!app_assoc.
    + symmetry. apply ends_with_true. rewrite Hr.
      exists ($"s3" ++ $"://" ++ bucket dst ++ $"/" ++ r). by rewrite <-!app_assoc.
Qed.

Lemma dir_part_prefix p : p = [] ∨ ends_with ($"/") p = true → dir_part p = p.
Proof.
  intros [->|[r ->]%ends_with_true]; [done|]. unfold dir_part.
  assert (Hr : rfind is_slash (r ++ [SLASH]) = Some (length r)).
  { induction r as [|c r IH]; [done|]. cbn [app rfind]. by rewrite IH. }
  change ($"/") with [SLASH]. rewrite Hr. rewrite take_ge; [done|]. rewrite length_app. simpl. lia.
Qed.

(** The listing of a destination: everything below it, under what follows it. *)
Lemma dest_listing_url arg dst l :
  parse arg = Ok dst → is_prefix dst || is_bucket dst = true → is_wildcard dst = false → parse (dest_listing dst) = Ok l →
  url_wf l ∧ raw l = false ∧ is_remote l = true ∧ bucket l = bucket dst ∧ url_prefix l = path dst ∧ url_filter l = $"*" ∧
  dir_part (path dst) = path dst ∧ is_wildcard l = true.
Proof.
  intros Hdst Hpre Hwild Hl. pose proof (Url_new_wf _ _ _ Hdst) as Hwf.
  assert (Hraw : raw dst = false).
  { apply Url_new_inv in Hdst as [[_ Hset]|(b & k & _ & _ & _ & _ & Hset)];
      apply set_prefix_and_filter_keeps in Hset as (_ & _ & _ & _ & -> & _); done. }
  assert (Hrem : is_remote dst = true).
  { apply orb_true_iff in Hpre as [[? _]%andb_true_iff|[? _]%andb_true_iff]; done. }
  assert (Hp : path dst = [] ∨ ends_with ($"/") (path dst) = true).
  { apply orb_true_iff in Hpre as [[_ ?]%andb_true_iff|[_ Hb]%andb_true_iff]; [by right|].
    left. by apply bool_decide_eq_true in Hb. }
  unfold is_wildcard in Hwild. rewrite Hraw in Hwild. cbn in Hwild.
  destruct (wf_bucket dst Hwf Hrem) as (Hb & Hsl & Hgl). rewrite dest_listing_shape in Hl by done.
  pose proof (Url_new_wf _ _ _ Hl) as Hlwf. unfold parse in Hl. rewrite Url_new_remote in Hl by done.
  set (u0 := fresh_url Remote ($"s3") (bucket dst) (path dst ++ $"*") UrlOptions_default) in *.
  pose proof (set_prefix_and_filter_keeps _ _ Hl) as (Hk & _ & Hlb & Hlp & Hlraw & _).
  assert (Hfind : find is_glob (path dst ++ $"*") = Some (length (path dst))).
  { apply find_app_r; [|done]. by apply existsb_forallb_negb. }
  unfold set_prefix_and_filter in Hl. cbn [raw u0 fresh_url UrlOptions_default opt_raw path] in Hl.
  rewrite Hfind in Hl. rewrite take_app_length, drop_app_length in Hl.
  apply result_bind_Ok in Hl as (r & Hr & [= Heq]). split_and!; try done; try (by rewrite <-Heq).
  - by apply dir_part_prefix.
  - unfold is_wildcard. rewrite Hlraw. cbn [negb andb]. unfold has_glob_character, contains_chr. cbn [path u0 fresh_url] in Hlp.
    rewrite Hlp, existsb_app. apply orb_true_r.
Qed.

(** The keys such a listing matches. *)
Lemma dest_listing_matches l p k :
  url_wf l → raw l = false → url_prefix l = p → url_filter l = $"*" →
  ((matches l k).1 = true ↔ ∃ rest, k = p ++ rest ∧ utf8 rest).
Proof.
  intros Hwf Hraw Hp Hf. rewrite (matches_wf l k Hwf Hraw), Hp, Hf.
  split; intros (rest & -> & Hr); exists rest; (split; [done|]); by apply tok_match_seq.
Qed.

Lemma dest_listing_relative l p rest :
  url_wf l → raw l = false → url_prefix l = p → url_filter l = $"*" → dir_part p = p → utf8 rest →
  relative_path (matches l (p ++ rest)).2 = rest.
Proof.
  intros Hwf Hraw Hp Hf Hd Hu. apply (app_inv_head p). rewrite <-Hd at 1. rewrite <-Hp at 1.
  apply matches_dir; [done|done|by rewrite Hf|]. apply (dest_listing_matches l p); [done..|]. by exists rest.
Qed.

(** Sync finds again what it copied: the object a batch sync writes to a remote prefix or
    bucket is matched by the recursive listing it compares against, under the same key
    the source object had, so the next run compares the two. *)
Theorem dest_key_roundtrip arg dst l src :
  parse arg = Ok dst → is_prefix dst || is_bucket dst = true → is_wildcard dst = false →
  parse (dest_listing dst) = Ok l → utf8 (relative src) → relative src ≠ [] →
  let d := generate_destination_url src dst true in
  bucket l = bucket d ∧ (matches l (path d)).1 = true ∧
  to_slash (relative (matches l (path d)).2) = relative src.
Proof.
  intros Hdst Hpre Hwild Hl Hutf Hne. cbv zeta.
  destruct (dest_listing_url _ _ _ Hdst Hpre Hwild Hl) as (Hwf & Hraw & Hrem & Hb & Hp & Hf & Hd & _).
  assert (Hd2 : path (generate_destination_url src dst true) = path dst ++ relative src ∧
               bucket (generate_destination_url src dst true) = bucket dst).
  { assert (Hrd : is_remote dst = true) by (apply orb_true_iff in Hpre as [[? _]%andb_true_iff|[? _]%andb_true_iff]; done).
    unfold generate_destination_url. rewrite Hrd, Hpre. unfold url_join. by rewrite Hrd. }
  destruct Hd2 as [-> ->]. split; [done|]. split; [apply (dest_listing_matches l (path dst)); [done..|]; by exists (relative src)|].
  unfold to_slash, relative at 1. rewrite (dest_listing_relative l (path dst)) by done. by rewrite bool_decide_false.
Qed.
End Keys.

(** Every object of a batch source goes to the one key a non-prefix remote
    destination names: the last copy wins. *)
Lemma batch_to_named_key_collides `{RegexLib} src1 src2 dst :
  is_remote dst = true → is_prefix dst = false → is_bucket dst = false →
  generate_destination_url src1 dst true = generate_destination_url src2 dst true.
Proof. intros Hr Hp Hb. unfold generate_destination_url. by rewrite Hr, Hp, Hb. Qed.

(** ** Witnesses *)

#[export] Instance sorted_order : MapOrder := {
  map_iter A m := map_to_list m;
  map_iter_perm A m := reflexivity (map_to_list m);
}.
#[export] Instance no_md5 : Md5 := { md5_hex _ := [] }.

Definition remote_file (b k rel : str) : Url :=
  {| kind := Remote; scheme := $"s3"; bucket := b; path := k; delimiter := $"/"; url_prefix := k;
     version_id := []; all_versions := false; start_after := []; relative_path := rel; url_filter := [];
     filter_regex := None; raw := false |}.

Definition file_obj (u : Url) (sz t : Z) : Object :=
  {| url := Some u; etag := []; mod_time := Some t; typ := File; size := sz;
     storage_class := {| class_name := [] |}; is_delete_marker := false; obj_err := None |}.

Definition dst_prefix : Url :=
  {| kind := Remote; scheme := $"s3"; bucket := $"d"; path := $"p/"; delimiter := $"/"; url_prefix := $"p/";
     version_id := []; all_versions := false; start_after := []; relative_path := []; url_filter := [];
     filter_regex := Some (map Lit ($"p/") ++ [AnySeq]); raw := false |}.

Definition src_objects : gmap str Object :=
  <[$"a" := file_obj (remote_file ($"b") ($"a") ($"a")) 3 10]>
  (<[$"c" := file_obj (remote_file ($"b") ($"c") ($"c")) 4 20]> ∅).
Definition dst_objects : gmap str Object :=
  <[$"a" := file_obj (remote_file ($"d") ($"p/a") ($"a")) 3 11]>
  (<[$"x" := file_obj (remote_file ($"d") ($"p/x") ($"x")) 1 1]> ∅).
Definition dst_after : gmap str Object :=
  <[$"a" := file_obj (remote_file ($"d") ($"p/a") ($"a")) 3 11]>
  (<[$"c" := file_obj (remote_file ($"d") ($"p/c") ($"c")) 4 20]> ∅).

Lemma plan_partition_witness :
  plan SizeAndModification dst_prefix true true src_objects dst_objects
  = ([(remote_file ($"b") ($"c") ($"c"), with_path dst_prefix ($"p/c"))], [remote_file ($"d") ($"p/x") ($"x")])
  ∧ ∃ k o, dst_objects !! k = Some o ∧ url o = Some (remote_file ($"d") ($"p/x") ($"x")) ∧
           ∀ so, src_objects !! k = Some so → url so = None.
Proof.
  assert (Hplan : plan SizeAndModification dst_prefix true true src_objects dst_objects
    = ([(remote_file ($"b") ($"c") ($"c"), with_path dst_prefix ($"p/c"))],
       [remote_file ($"d") ($"p/x") ($"x")])) by vm_refl.
  split; [exact Hplan|].
  refine (proj2 (proj1 (proj1 (proj2 (plan_partition SizeAndModification dst_prefix true true
            src_objects dst_objects)) (remote_file ($"d") ($"p/x") ($"x"))) _)).
  rewrite Hplan. by left.
Defined.

Lemma plan_converged_witness :
  plan SizeAndModification dst_prefix true true src_objects dst_after = ([], []).
Proof.
  apply (plan_converged SizeAndModification dst_prefix true true src_objects dst_after).
  - by left.
  - intros k o. unfold src_objects. rewrite lookup_insert_Some. intros [[<- <-]|[_ Hk]].
    + split; [by eexists|]. exists (file_obj (remote_file ($"d") ($"p/a") ($"a")) 3 11).
      split; [vm_refl|]. by split.
    + apply lookup_insert_Some in Hk as [[<- <-]|[_ Hk]].
      * split; [by eexists|]. exists (file_obj (remote_file ($"d") ($"p/c") ($"c")) 4 20).
        split; [vm_refl|]. by split.
      * by rewrite lookup_empty in Hk.
  - unfold dst_after, src_objects. rewrite !dom_insert, !dom_empty. set_solver.
Defined.

Definition mem_client : S3 (W := MemWorld) := tt.

Definition two_buckets : MemWorld :=
  {| mem_fs := ∅;
     mem_s3 := <[($"b", $"c") := mkobj ($"body") 20]> (<[($"d", $"p/x") := mkobj ($"o") 1]> ∅);
     mem_denied := []; mem_log := [] |}.

Definition one_job : list choice := [Spawn; Exec 0; Join 0].

Definition sample_run : option (SyncRun * MemWorld) :=
  execute (W := MemWorld) 4 (Some mem_client) None Options_default Metadata_default false one_job one_job
    [(remote_file ($"b") ($"c") ($"c"), with_path dst_prefix ($"p/c"))]
    [remote_file ($"d") ($"p/x") ($"x")] two_buckets.

Lemma execute_correct_witness :
  match sample_run with
  | Some (r, w') =>
      mem_s3 w' !! ($"d", $"p/c") = Some (mkobj ($"body") 20) ∧ mem_s3 w' !! ($"d", $"p/x") = None ∧
      sr_copied r = Z.of_nat (length (List.filter (is_ok ∘ snd) (sr_copies r)))
  | None => False
  end.
Proof.
  assert (Hc : match sample_run with Some (_, w') => mem_s3 w' !! ($"d", $"p/c") | None => None end
               = Some (mkobj ($"body") 20)) by vm_refl.
  assert (Hx : match sample_run with Some (_, w') => mem_s3 w' !! ($"d", $"p/x") | None => None end
               = None) by vm_refl.
  destruct sample_run as [[r w']|] eqn:Hex; [|done]. split; [done|]. split; [done|].
  eapply (execute_correct (W := MemWorld) 4 (Some mem_client) None Options_default Metadata_default false
            one_job one_job
            [(remote_file ($"b") ($"c") ($"c"), with_path dst_prefix ($"p/c"))]
            [remote_file ($"d") ($"p/x") ($"x")] two_buckets).
  exact Hex.
Defined.

Lemma execute_terminates_witness :
  ∃ sched1 sched2 r w',
    execute (W := MemWorld) 4 (Some mem_client) None Options_default Metadata_default false sched1 sched2
      [(remote_file ($"b") ($"c") ($"c"), with_path dst_prefix ($"p/c"))]
      [remote_file ($"d") ($"p/x") ($"x")] two_buckets = Some (r, w').
Proof. apply (execute_terminates (W := MemWorld) 4 ltac:(lia)). Defined.

Definition sync_args : SyncArgs :=
  {| a_src := $"s3://b/*"; a_dst := $"s3://d/p/"; a_delete := true; a_size_only := false;
     a_checksum := false; a_follow_symlinks := true; a_exclude := []; a_include := [];
     a_exclude_from := []; a_include_from := []; a_storage_class := None; a_acl := None;
     a_content_type := None; a_exit_on_error := false; a_force_glacier_transfer := false;
     a_max_delete := Some 1; a_preserve_timestamps := false |}.

Definition sample_sync :=
  run (W := MemWorld) 0 GlobalOpts_default sync_args one_job one_job two_buckets.


Definition dst_listing : Url :=
  {| kind := Remote; scheme := $"s3"; bucket := $"d"; path := $"p/*"; delimiter := []; url_prefix := $"p/";
     version_id := []; all_versions := false; start_after := []; relative_path := []; url_filter := $"*";
     filter_regex := Some (map Lit ($"p/") ++ [AnySeq]); raw := false |}.

Lemma dest_key_roundtrip_witness :
  to_slash (relative (matches dst_listing (path (generate_destination_url
    (remote_file ($"b") ($"q/c") ($"q/c")) dst_prefix true))).2) = $"q/c".
Proof.
  refine (proj2 (proj2 (dest_key_roundtrip ($"s3://d/p/") dst_prefix dst_listing (remote_file ($"b") ($"q/c") ($"q/c"))
    _ _ _ _ _ _))).
  - vm_refl.
  - reflexivity.
  - reflexivity.
  - vm_refl.
  - repeat (apply (utf8_app [_]); [reflexivity|]). constructor.
  - done.
Defined.
