(* ===== verification/Cp.v ===== *)
(** * [cp] and [mv] (src/src/command/cp.rs), without the [--fast] engine *)

From S2P Require Import Prelude RustStr Strutil Url Storage Pool Fs S3cfg Global.

Local Open Scope Z_scope.

Record CpArgs := {
  paths : list str;
  cp_follow_symlinks : bool;
  cp_storage_class : option str;
  cp_acl : option str;
  cp_content_type : option str;
  cp_part_size : Z;
  cp_concurrency : Z;
  cp_version_id : option str;
  cp_all_versions : bool;
  cp_preserve_timestamps : bool;
  cp_client_copy : bool;
  cp_remove_empty_dirs : bool;
  cp_if_none_match : bool;
  cp_links : bool;
  cp_exclude : list str;
  cp_include : list str;
  cp_exclude_from : list str;
  cp_include_from : list str;
}.

Definition LINK_SUFFIX : str := $".s5cmdlink".

Definition cp_metadata (a : CpArgs) : Metadata :=
  {| acl := cp_acl a; cache_control := None; expires := None; md_storage_class := cp_storage_class a;
     content_type := cp_content_type a; content_encoding := None; content_disposition := None;
     encryption_method := None; encryption_key_id := None; user_defined := ∅; directive := None;
     if_none_match := cp_if_none_match a |}.

(** The options [run] derives from the global ones. *)
Definition cp_options (o : Options) (a : CpArgs) : Options :=
  {| max_retries := max_retries o; endpoint := endpoint o; no_verify_ssl := no_verify_ssl o;
     dry_run := dry_run o; no_sign_request := no_sign_request o;
     use_list_objects_v1 := use_list_objects_v1 o; request_payer := request_payer o;
     profile := profile o; region := region o; source_region := source_region o;
     destination_region := destination_region o; source_endpoint := source_endpoint o;
     destination_endpoint := destination_endpoint o; proxy := proxy o;
     addressing_style := addressing_style o; ca_certs_file := ca_certs_file o;
     use_dualstack_endpoint := use_dualstack_endpoint o; use_fips_endpoint := use_fips_endpoint o;
     part_size := sat_mul_u64 (Z.max (cp_part_size a) 5) (1024 * 1024);
     concurrency := Z.max (cp_concurrency a) 1;
     preserve_timestamps := cp_preserve_timestamps a; client_copy := cp_client_copy a;
     remove_empty_dirs := cp_remove_empty_dirs a;
     upload_limiter := upload_limiter o; download_limiter := download_limiter o |}.

(** ** [std::path] components, as far as [prune_empty_dirs] looks at them *)

(** [Path::components]: a root, a leading [.], and the segments that are neither
    empty nor [.]. *)
Definition components (p : str) : list str :=
  let segs := split_chr SLASH p in
  let rest := List.filter (λ s, negb (bool_decide (s = []) || bool_decide (s = $"."))) segs in
  if starts_with ($"/") p then $"/" :: rest
  else match segs with
       | s :: _ => if decide (s = $".") then s :: rest else rest
       | [] => rest
       end.

(** [Component::Normal] *)
Definition is_normal (c : str) : bool :=
  negb (bool_decide (c = $"/") || bool_decide (c = $".") || bool_decide (c = $"..")).

(** [Path] equality and [Path::starts_with] compare components. *)
Definition path_eq (a b : str) : bool := bool_decide (components a = components b).
Definition path_starts_with (p base : str) : bool :=
  bool_decide (take (length (components base)) (components p) = components base).

Section Cp.
Context `{RegexLib} `{ByteSizeLib} {W : Type} `{!Os W, !S3Ops W}.

Definition local_is_dir (path : str) (w : W) : bool :=
  match metadata path w with Ok m => ft_is_dir (ft m) | Err _ => false end.

Definition dest_is_dir_like (dst : Url) (w : W) : bool :=
  if is_remote dst then is_bucket dst || ends_with ($"/") (absolute dst)
  else ends_with ($"/") (absolute dst) || local_is_dir (absolute dst) w.

Definition resolve_single_dest (src dst : Url) (w : W) : Url :=
  if dest_is_dir_like dst w then url_join dst (base src) else dst.

Definition versioned_dest (src dst : Url) (dst_is_dir : bool) : Url :=
  let vid := version_id src in
  if dst_is_dir then url_join dst (base src ++ $"_" ++ vid)
  else with_path dst (path dst ++ $"_" ++ vid).

(** The loop of [expand_all_versions]; errors go to stderr. *)
Fixpoint version_pairs (dst : Url) (dst_is_dir : bool) (objs : list Object) : list (Url * Url) :=
  match objs with
  | [] => []
  | obj :: objs =>
      match obj_err obj with
      | Some _ => version_pairs dst dst_is_dir objs
      | None =>
          if is_delete_marker obj || is_dir (typ obj) then version_pairs dst dst_is_dir objs
          else match url obj with
               | None => version_pairs dst dst_is_dir objs
               | Some u =>
                   if decide (version_id u = []) then version_pairs dst dst_is_dir objs
                   else (u, versioned_dest u dst dst_is_dir) :: version_pairs dst dst_is_dir objs
               end
      end
  end.

Definition expand_all_versions (client : Client) (src dst : Url) (follow : bool)
  : M W (list (Url * Url)) := λ w,
  let dst_is_dir := dest_is_dir_like dst w in
  let '(objs, w) := storage_list client src follow w in
  (Ok (version_pairs dst dst_is_dir objs), w).

(** The listing loop of [expand_sources]. *)
Fixpoint listed_pairs (dst : Url) (filters : Filters) (objs : list Object) : list (Url * Url) :=
  match objs with
  | [] => []
  | obj :: objs =>
      match obj_err obj with
      | Some _ => listed_pairs dst filters objs
      | None =>
          match url obj with
          | None => listed_pairs dst filters objs
          | Some u =>
              if is_dir (typ obj) then listed_pairs dst filters objs
              else if should_skip filters (filter_key u) then listed_pairs dst filters objs
              else (u, url_join dst (relative u)) :: listed_pairs dst filters objs
          end
      end
  end.

Definition expand_sources (src dst : Url) (opts : Options) (follow : bool) (filters : Filters)
  : M W (list (Url * Url)) :=
  let! client := new_client src opts in
  if is_remote src && all_versions src && negb (is_wildcard src)
  then expand_all_versions client src dst follow
  else λ w,
    let is_multi :=
      if is_wildcard src then true
      else if is_remote src then is_bucket src || is_prefix src
      else local_is_dir (absolute src) w in
    if negb is_multi then (Ok [(src, resolve_single_dest src dst w)], w)
    else
      let '(objs, w) := storage_list client src follow w in
      (Ok (listed_pairs dst filters objs), w).

(** ** [--links] *)

Definition is_symlink_path (path : str) (w : W) : bool :=
  match symlink_metadata path w with Ok m => ft_is_symlink (ft m) | Err _ => false end.

Definition upload_symlink (s3 : S3) (src dst : Url) (opts : Options) : M W unit :=
  let! target := λ w, (result_map_err (λ e, anyhow ($"reading symlink " ++ absolute src ++ $": "
                                                    ++ show_error (io_error e)))
                         (read_link (absolute src) w), w) in
  let target_str := from_utf8_lossy target in
  let link_dst := with_path dst (path dst ++ LINK_SUFFIX) in
  if dry_run opts then mret tt else put_object_bytes s3 link_dst target_str.

(** An ignored result: [let _ = f().await]. *)
Definition ignore (m : M W unit) : M W unit := λ w, (Ok tt, snd (m w)).

Definition download_symlink (s3 : S3) (src dst : Url) (opts : Options) : M W unit :=
  let! body := get_object_bytes s3 src in
  let target := from_utf8_lossy body in
  let dst_abs := absolute dst in
  let link_path := default dst_abs (strip_suffix LINK_SUFFIX dst_abs) in
  if dry_run opts then mret tt
  else
    let! _ := match parent link_path with Some p => create_dir_all p | None => mret tt end in
    let! _ := ignore (remove_file link_path) in
    λ w, match symlink target link_path w with
         | (Ok _, w) => (Ok tt, w)
         | (Err e, w) => (Err (anyhow ($"creating symlink " ++ from_utf8_lossy link_path ++ $" -> "
                                       ++ target ++ $": " ++ show_error e)), w)
         end.

(** ** Pruning *)

(** The climb of [prune_empty_dirs]; each parent is shorter, so the length of the
    path is fuel enough. *)
Fixpoint prune_loop (fuel : nat) (anchor : str) (cur : option str) (w : W) : W :=
  match fuel, cur with
  | S fuel, Some dir =>
      if path_eq dir anchor || negb (path_starts_with dir anchor) then w
      else match remove_dir dir w with
           | (Err _, w) => w
           | (Ok _, w) => prune_loop fuel anchor (parent dir) w
           end
  | _, _ => w
  end.

(** [anchor.parent()] applied [n] times. *)
Fixpoint ancestors (n : nat) (p : str) : option str :=
  match n with
  | O => Some p
  | S n => match parent p with Some q => ancestors n q | None => None end
  end.

Definition prune_empty_dirs (src : Url) (w : W) : W :=
  let file_path := absolute src in
  let rel_components := length (List.filter is_normal (components (relative src))) in
  if (rel_components <=? 1)%nat then w
  else match ancestors rel_components file_path with
       | None => w
       | Some anchor => prune_loop (S (length file_path)) anchor (parent file_path) w
       end.

(** ** One transfer *)

Definition copy_missing_client : Error := anyhow ($"transfer task panicked").
Definition need (s3 : option S3) (k : S3 → M W unit) : M W unit :=
  match s3 with Some s => k s | None => mfail copy_missing_client end.

(** The transfer proper: the [match] on the two sides, without the removals of a
    move. *)
Definition transfer (s3 s3_dst : option S3) (opts : Options) (md : Metadata) (src dst : Url) : M W unit :=
  match is_remote src, is_remote dst with
  | true, true =>
      need s3 (λ s3, match s3_dst with
                     | Some dst_s3 => s3_client_copy_to s3 dst_s3 src dst md
                     | None => if client_copy opts then s3_client_copy s3 src dst md
                               else s3_copy s3 src dst md
                     end)
  | true, false => need s3 (λ s3, s3_download s3 src (absolute dst))
  | false, true => need (opt_or s3_dst s3) (λ s3, s3_upload s3 (absolute src) dst md)
  | false, false => let! fs := new_client src opts in storage_copy fs src dst md
  end.

(** What a move removes after the transfer. *)
Definition remove_source (s3 : option S3) (opts : Options) (src dst : Url) : M W unit :=
  match is_remote src, is_remote dst with
  | true, _ => need s3 (λ s3, s3_delete s3 src)
  | false, true =>
      if dry_run opts then mret tt
      else
        let! _ := remove_file (absolute src) in
        if remove_empty_dirs opts then λ w, (Ok tt, prune_empty_dirs src w) else mret tt
  | false, false => if dry_run opts then mret tt else remove_file (absolute src)
  end.

Definition copy_one (s3 s3_dst : option S3) (opts : Options) (md : Metadata) (is_move links : bool)
    (job : Url * Url) : M W unit := λ w,
  let '(src, dst) := job in
  if links && negb (is_remote src) && is_remote dst && is_symlink_path (absolute src) w then
    (need (opt_or s3_dst s3) (λ s3,
       let! _ := upload_symlink s3 src dst opts in
       if is_move && negb (dry_run opts) then remove_file (absolute src) else mret tt)) w
  else if links && is_remote src && negb (is_remote dst) && ends_with LINK_SUFFIX (path src) then
    (need s3 (λ s3,
       let! _ := download_symlink s3 src dst opts in
       if is_move then s3_delete s3 src else mret tt)) w
  else
    (let! _ := transfer s3 s3_dst opts md src dst in
     if is_move then remove_source s3 opts src dst else mret tt) w.

(** ** The command *)

(** A precondition failure is a skip. *)
Definition report (_ : Url * Url) (r : result unit Error) (had_error : bool) : bool :=
  match r with
  | Ok _ => had_error
  | Err e => if is_precondition_failed e then had_error else true
  end.

Fixpoint expand_all (dst : Url) (opts : Options) (a : CpArgs) (filters : Filters) (srcs : list str)
  : M W (list (Url * Url)) :=
  match srcs with
  | [] => mret []
  | raw :: srcs =>
      let! src := mlift (result_map_err anyhow
        (Url_new raw {| opt_version_id := cp_version_id a; opt_raw := false;
                        opt_all_versions := cp_all_versions a; opt_start_after := None |})) in
      let! pairs := expand_sources src dst opts (cp_follow_symlinks a) filters in
      let! rest := expand_all dst opts a filters srcs in
      mret (pairs ++ rest)
  end.

Definition op_name (is_move : bool) : str := if is_move then $"mv" else $"cp".

Definition prepare (now : Z) (global : GlobalOpts) (a : CpArgs) (is_move : bool)
  : M W (list (Url * Url) * (option S3 * option S3) * Options) :=
  let opts := cp_options (storage_options now global) a in
  let op := op_name is_move in
  match reverse (paths a) with
  | dst_raw :: ((_ :: _) as rsrcs) =>
      let src_raws := reverse rsrcs in
      let! dst := mlift (result_map_err anyhow (parse dst_raw)) in
      let multi_source := (1 <? length src_raws)%nat in
      let! dir_like := λ w, (Ok (dest_is_dir_like dst w), w) in
      if multi_source && negb dir_like then
        mfail (anyhow (op ++ $": destination " ++ dst_raw
          ++ $" must be a directory or s3 prefix when copying multiple sources"))
      else if multi_source && (match cp_version_id a with Some _ => true | None => false end
                               || cp_all_versions a) then
        mfail (anyhow ($"--version-id/--all-versions require exactly one source"))
      else
        let! includes := λ w, (result_map_err anyhow
          (patterns_with_files (λ f, read_to_string f w) (cp_include a) (cp_include_from a)), w) in
        let! excludes := λ w, (result_map_err anyhow
          (patterns_with_files (λ f, read_to_string f w) (cp_exclude a) (cp_exclude_from a)), w) in
        let! filters := mlift (result_map_err anyhow (Filters_new includes excludes)) in
        let! pairs := expand_all dst opts a filters src_raws in
        let first_remote := List.find (λ p, is_remote (fst p)) pairs in
        let anchor := match first_remote with Some p => fst p | None => dst end in
        let any_src_remote := existsb (λ p, is_remote (fst p)) pairs in
        let! clients :=
          (if any_src_remote || is_remote dst then
             if sides_differ opts then
               let! src_client := S3_new anchor (for_side opts Source) in
               let! dst_client := S3_new dst (for_side opts Destination) in
               mret (Some src_client, Some dst_client)
             else let! c := S3_new anchor opts in mret (Some c, None)
           else mret (None, None)) in
        mret (pairs, clients, opts)
  | _ => mfail (anyhow (op ++ $" requires at least one source and a destination"))
  end.

Record CpRun := {
  cr_reported : list ((Url * Url) * result unit Error);
  cr_result : result unit Error;
}.

(** The pool of transfers: no failure stops it. *)
Definition transfers (workers : nat) (s3 s3_dst : option S3) (opts : Options) (md : Metadata)
    (is_move links : bool) (sched : list choice) (pairs : list (Url * Url)) (w : W) :=
  pool_run (copy_one s3 s3_dst opts md is_move links) report (λ _, false) workers sched
    (pool_init pairs false w).

Definition run (now : Z) (global : GlobalOpts) (a : CpArgs) (is_move : bool) (sched : list choice) (w : W)
  : option (CpRun * W) :=
  match prepare now global a is_move w with
  | (Err e, w) => Some ({| cr_reported := []; cr_result := Err e |}, w)
  | (Ok (pairs, (s3, s3_dst), opts), w) =>
      let workers := Z.to_nat (Z.max (g_numworkers global) 1) in
      match transfers workers s3 s3_dst opts (cp_metadata a) is_move (cp_links a) sched pairs w with
      | Some p =>
          match todo p, running p with
          | [], [] =>
              Some ({| cr_reported := reported p;
                       cr_result := if acc p
                                    then Err (anyhow ($"one or more " ++ op_name is_move ++ $" operations failed"))
                                    else Ok tt |}, world p)
          | _, _ => None
          end
      | None => None
      end
  end.
End Cp.
