(* ===== verification/CpSpec.v ===== *)
(** * What [cp] and [mv] promise *)

From S2P Require Import Prelude RustStr Strutil Url UrlPath Storage Pool Fs MemWorld S3cfg Global Cp.

Local Open Scope Z_scope.

(** ** Moves *)

(** What the object store and the file system hold at a URL. *)
Class Contents `{RegexLib} (W : Type) := { content : W → Url → option str }.

Section Moves.
Context `{RegexLib} {W : Type} `{!Os W, !S3Ops W, !Contents W}.
(** Two spellings of one location. *)
Context (alias : Url → Url → Prop).

Definition only_touches (l : Url) (w w' : W) : Prop :=
  ∀ l', ¬ alias l' l → content w' l' = content w l'.

(** A copy: it writes nothing but its destination, and on success the destination
    has the source's content. *)
Definition copies (m : M W unit) (src dst : Url) : Prop :=
  ∀ w r w', m w = (r, w') → only_touches dst w w' ∧ (r = Ok tt → content w' dst = content w src).

Definition removes (m : M W unit) (l : Url) : Prop :=
  ∀ w r w', m w = (r, w') → only_touches l w w'.

(** What the backends promise of a run that is not a dry run. *)
Record backend_laws (opts : Options) (md : Metadata) : Prop := {
  law_copy : ∀ s src dst, is_remote src = true → is_remote dst = true → copies (s3_copy s src dst md) src dst;
  law_client_copy : ∀ s src dst, is_remote src = true → is_remote dst = true →
    copies (s3_client_copy s src dst md) src dst;
  law_client_copy_to : ∀ s t src dst, is_remote src = true → is_remote dst = true →
    copies (s3_client_copy_to s t src dst md) src dst;
  law_download : ∀ s src dst, is_remote src = true → is_remote dst = false →
    copies (s3_download s src (absolute dst)) src dst;
  law_upload : ∀ s src dst, is_remote src = false → is_remote dst = true →
    copies (s3_upload s (absolute src) dst md) src dst;
  law_copy_file : ∀ src dst, is_remote src = false → is_remote dst = false →
    copies (copy_file (absolute src) (absolute dst)) src dst;
  law_mkdir : ∀ p w r w', create_dir_all p w = (r, w') → ∀ l, content w' l = content w l;
  law_rmdir : ∀ p w r w', remove_dir p w = (r, w') → ∀ l, content w' l = content w l;
  law_delete : ∀ s u, is_remote u = true → removes (s3_delete s u) u;
  law_remove : ∀ u, is_remote u = false → removes (remove_file (absolute u)) u;
}.

Lemma transfer_copies s3 s3_dst opts md src dst :
  backend_laws opts md → dry_run opts = false →
  copies (transfer s3 s3_dst opts md src dst) src dst.
Proof.
  intros L Hdry. unfold transfer, need.
  assert (Hfail : ∀ e s d, copies (mfail e) s d) by (intros e s d w r w' [= <- <-]; done).
  destruct (is_remote src) eqn:Hs, (is_remote dst) eqn:Hd.
  - destruct s3 as [s|]; [|done]. destruct s3_dst as [t|]; [by apply L|].
    destruct (client_copy opts); by apply L.
  - destruct s3 as [s|]; [|done]. by apply L.
  - destruct (opt_or s3_dst s3) as [s|]; [|done]. by apply L.
  - intros w r w'. unfold new_client. rewrite Hs. cbn [mbind mret storage_copy]. rewrite Hdry.
    unfold fs_copy, mbind, mret. cbn zeta.
    destruct (if negb _ && _ then _ else _) as [[[]|e] w1] eqn:Hmk.
    + assert (Hmk' : ∀ l, content w1 l = content w l).
      { destruct (negb _ && _); [by eapply law_mkdir|by injection Hmk as <-]. }
      intros Hcp. destruct (law_copy_file _ _ L _ _ Hs Hd _ _ _ Hcp) as [Ht Hcont]. split.
      * intros l Hl. by rewrite (Ht l Hl), Hmk'.
      * intros Hr. by rewrite (Hcont Hr), Hmk'.
    + intros [= <- <-]. split; [|done]. intros l _.
      destruct (negb _ && _); [by eapply law_mkdir|done].
Qed.

Lemma prune_loop_content opts md fuel anchor cur w l :
  backend_laws opts md → content (prune_loop fuel anchor cur w) l = content w l.
Proof.
  intros L. revert cur w. induction fuel as [|fuel IH]; intros cur w; [done|]. cbn [prune_loop].
  destruct cur as [d|]; [|done]. destruct (_ || _); [done|].
  destruct (remove_dir d w) as [[[]|e] w1] eqn:Hr; rewrite ?IH; by eapply law_rmdir.
Qed.

Lemma prune_content opts md src w l :
  backend_laws opts md → content (prune_empty_dirs src w) l = content w l.
Proof.
  intros L. unfold prune_empty_dirs. cbv zeta. destruct (_ <=? 1)%nat; [done|].
  destruct (ancestors _ _); [|done]. by eapply prune_loop_content.
Qed.

Lemma remove_source_touches s3 opts md src dst :
  backend_laws opts md →
  ∀ w r w', remove_source s3 opts src dst w = (r, w') → only_touches src w w'.
Proof.
  intros L w r w'. unfold remove_source, need.
  destruct (is_remote src) eqn:Hs, (is_remote dst).
  1,2: destruct s3 as [s|]; [by apply (law_delete _ _ L s src Hs)|by intros [= _ <-]].
  - destruct (dry_run opts); [by intros [= _ <-]|]. unfold mbind.
    destruct (remove_file (absolute src) w) as [[[]|e] w1] eqn:Hr;
      pose proof (law_remove _ _ L src Hs _ _ _ Hr) as Ht; [|by intros [= _ <-]].
    destruct (remove_empty_dirs opts); intros [= _ <-]; [|done].
    intros l Hl. rewrite (prune_content opts md) by done. by apply Ht.
  - destruct (dry_run opts); [by intros [= _ <-]|]. by apply (law_remove _ _ L src Hs).
Qed.

End Moves.

#[export] Instance mem_contents : Contents MemWorld := {
  content w u :=
    if is_remote u then o_body <$> mem_s3 w !! (bucket u, path u)
    else n_body <$> mem_file (path u) w;
}.

Definition mem_alias (u v : Url) : Prop :=
  is_remote u = is_remote v ∧ path u = path v ∧ (is_remote u = true → bucket u = bucket v).

Lemma mem_set_touches u o w r w' :
  is_remote u = true → mem_set u o w = (r, w') →
  only_touches mem_alias u w w' ∧ (r = Ok tt → content w' u = Some (o_body o)).
Proof.
  intros Hu. unfold mem_set, guard_bucket. destruct (bool_decide _); intros [= <- <-]; [done|].
  unfold only_touches, content, mem_contents, mem_alias. cbn. rewrite Hu. split.
  - intros l Hl. destruct (is_remote l) eqn:Hr; [|done]. rewrite lookup_insert_ne; [done|].
    intros [= Hb Hp]. apply Hl. split_and!; congruence.
  - intros _. by rewrite lookup_insert_eq.
Qed.

Lemma mem_get_same u w r w' :
  is_remote u = true → mem_get u w = (r, w') →
  w' = w ∧ (∀ o, r = Ok o → content w u = Some (o_body o)).
Proof.
  intros Hu. unfold mem_get, guard_bucket. destruct (bool_decide _); [by intros [= <- <-]|].
  destruct (mem_s3 w !! (bucket u, path u)) eqn:Hl; intros [= <- <-]; [|done].
  split; [done|]. intros o [= <-]. unfold content, mem_contents. by rewrite Hu, Hl.
Qed.

Lemma mem_put_touches dst n w r w' :
  is_remote dst = false → mem_put (absolute dst) n w = (r, w') →
  only_touches mem_alias dst w w' ∧ (ft (n_meta n) = FtFile → content w' dst = Some (n_body n)).
Proof.
  intros Hd. unfold absolute. rewrite Hd. cbn [negb]. intros [= <- <-].
  unfold only_touches, content, mem_contents, mem_alias, mem_file. cbn. rewrite Hd. split.
  - intros l Hl. destruct (is_remote l) eqn:Hr; [done|]. rewrite lookup_insert_ne; [done|].
    intros Hp. apply Hl. split_and!; congruence.
  - intros Hf. rewrite lookup_insert_eq. by rewrite Hf.
Qed.

Lemma mem_s3_copy_copies src dst :
  is_remote src = true → is_remote dst = true →
  copies mem_alias (let! o := mem_get src in mem_set dst o) src dst.
Proof.
  intros Hs Hd w r w'. unfold mbind. destruct (mem_get src w) as [ro w1] eqn:Hg.
  destruct (mem_get_same _ _ _ _ Hs Hg) as [-> Ho]. destruct ro as [o|e].
  - intros Hset. destruct (mem_set_touches _ _ _ _ _ Hd Hset) as [Ht Hc]. split; [done|].
    intros Hr. by rewrite (Hc Hr), (Ho o).
  - by intros [= <- <-].
Qed.

Lemma mem_delete_touches p w w' :
  mem_fs w' = delete p (mem_fs w) → mem_s3 w' = mem_s3 w →
  ∀ u, is_remote u = true ∨ path u ≠ p → content w' u = content w u.
Proof.
  intros Hf Hs u Hu. unfold content, mem_contents, mem_file. rewrite Hf, Hs.
  destruct (is_remote u); [done|]. destruct Hu as [|Hu]; [done|]. by rewrite lookup_delete_ne.
Qed.

Lemma mem_laws opts md : backend_laws (W := MemWorld) mem_alias opts md.
Proof.
  constructor.
  - intros s src dst. apply mem_s3_copy_copies.
  - intros s src dst. apply mem_s3_copy_copies.
  - intros s t src dst. apply mem_s3_copy_copies.
  - intros s src dst Hs Hd w r w'. cbn [s3_download mem_s3ops]. unfold mbind.
    destruct (mem_get src w) as [ro w1] eqn:Hg.
    destruct (mem_get_same _ _ _ _ Hs Hg) as [-> Ho]. destruct ro as [o|e].
    + intros Hput. destruct (mem_put_touches _ _ _ _ _ Hd Hput) as [Ht Hc]. split; [done|].
      intros _. by rewrite Hc, (Ho o).
    + by intros [= <- <-].
  - intros s src dst Hs Hd w r w'. cbn [s3_upload mem_s3ops].
    destruct (mem_file (absolute src) w) as [n|] eqn:Hf; [|by intros [= <- <-]].
    intros Hset. destruct (mem_set_touches _ _ _ _ _ Hd Hset) as [Ht Hc]. split; [done|].
    intros Hr. rewrite (Hc Hr). unfold content, mem_contents. rewrite Hs.
    unfold absolute in Hf. rewrite Hs in Hf. cbn [negb] in Hf. by rewrite Hf.
  - intros src dst Hs Hd w r w'. cbn [copy_file mem_os].
    destruct (mem_file (absolute src) w) as [n|] eqn:Hf; [|by intros [= <- <-]].
    intros Hput. destruct (mem_put_touches _ _ _ _ _ Hd Hput) as [Ht Hc]. split; [done|].
    assert (Hfile : ft (n_meta n) = FtFile).
    { unfold mem_file in Hf. destruct (mem_fs w !! absolute src) as [n'|]; [|done].
      destruct (ft (n_meta n')) eqn:Hft; simpl in Hf; naive_solver. }
    intros _. rewrite (Hc Hfile). unfold content, mem_contents. rewrite Hs.
    unfold absolute in Hf. rewrite Hs in Hf. cbn [negb] in Hf. by rewrite Hf.
  - intros p w r w'. cbn [create_dir_all mem_os]. destruct (mem_fs w !! p) eqn:Hp; [by intros [= _ <-]|].
    intros [= _ <-] u. unfold content, mem_contents, mem_file. cbn.
    destruct (is_remote u); [done|]. destruct (decide (p = path u)) as [->|Hne].
    + by rewrite lookup_insert_eq, Hp.
    + by rewrite lookup_insert_ne.
  - intros p w r w'. cbn [remove_dir mem_os]. unfold mem_rmdir.
    destruct (mem_fs w !! p) as [n|] eqn:Hp; [|by intros [= _ <-]].
    destruct (_ && _) eqn:Hc; [|by intros [= _ <-]]. intros [= _ <-] u.
    apply andb_true_iff in Hc as [Hdir _]. unfold content, mem_contents, mem_file. cbn.
    destruct (is_remote u); [done|]. destruct (decide (p = path u)) as [->|Hne].
    + rewrite lookup_delete_eq, Hp. by destruct (ft (n_meta n)).
    + by rewrite lookup_delete_ne.
  - intros s u Hu w r w'. cbn [s3_delete mem_s3ops]. unfold mem_del, guard_bucket.
    destruct (bool_decide _); intros [= _ <-]; [done|]. intros l Hl.
    unfold content, mem_contents. cbn. destruct (is_remote l) eqn:Hr; [|done].
    rewrite lookup_delete_ne; [done|]. intros [= Hb Hp]. apply Hl. split_and!; congruence.
  - intros u Hu w r w'. cbn [remove_file mem_os]. unfold mem_remove, absolute. rewrite Hu. cbn [negb].
    destruct (mem_fs w !! path u); intros [= _ <-]; [|done]. intros l Hl.
    apply (mem_delete_touches (path u) w); [done|done|].
    destruct (is_remote l) eqn:Hr; [by left|right]. intros Hp. apply Hl.
    split_and!; [congruence|done|congruence].
Qed.

Definition mv_src : Url :=
  {| kind := Remote; scheme := $"s3"; bucket := $"b"; path := $"k"; delimiter := $"/"; url_prefix := $"k";
     version_id := []; all_versions := false; start_after := []; relative_path := []; url_filter := [];
     filter_regex := None; raw := false |}.
Definition mv_dst : Url :=
  {| kind := Local; scheme := []; bucket := []; path := $"/tmp/k"; delimiter := $"/"; url_prefix := $"/tmp/k";
     version_id := []; all_versions := false; start_after := []; relative_path := []; url_filter := [];
     filter_regex := None; raw := false |}.

Definition mv_world : MemWorld :=
  {| mem_fs := ∅; mem_s3 := <[($"b", $"k") := mkobj ($"data") 1]> ∅; mem_denied := []; mem_log := [] |}.

Definition mv_client : option (S3 (W := MemWorld)) := Some tt.


(** The two locations must differ: a remote object moved onto itself is copied and then deleted. *)
Lemma mv_onto_itself_loses :
  content mv_world mv_src = Some ($"data") ∧
  content (snd (copy_one (W := MemWorld) mv_client None Options_default Metadata_default true false
                  (mv_src, mv_src) mv_world)) mv_src = None.
Proof. split; vm_refl. Qed.

(** ** Pruning stays below the move's root *)

Section Prune.
Context {W : Type} `{!Os W}.

Lemma rtrim_path_length r : (length (rtrim_path r) <= length r)%nat.
Proof.
  induction r as [|c r IH]; [done|]. cbn [rtrim_path]. destruct (is_slash c).
  - destruct r; simpl in *; lia.
  - destruct (is_chr "."%char c); [|simpl; lia].
    destruct r as [|d r']; [simpl; lia|]. destruct (is_slash d); simpl in *; lia.
Qed.

Lemma span_comp_length r : (length (span_comp r).2 <= length r)%nat.
Proof.
  induction r as [|c r IH]; [done|]. cbn [span_comp]. destruct (is_slash c); [simpl; lia|].
  destruct (span_comp r) as [a b]. cbn in *. lia.
Qed.

Lemma rtrim_path_head r c r' :
  rtrim_path r = c :: r' → is_slash c = true → r' = [].
Proof.
  induction r as [|d r IH]; [done|]. cbn [rtrim_path].
  destruct (is_slash d) eqn:Hd.
  - destruct r as [|d' r0]; [by intros [= <- <-]|]. apply IH.
  - destruct (is_chr "."%char d).
    + destruct r as [|d' r0]; [by intros [= <- <-]|].
      destruct (is_slash d'); [apply IH|intros [= <- <-]; congruence].
    + intros [= <- <-]. congruence.
Qed.

Lemma parent_shorter p q : parent p = Some q → (length q < length p)%nat.
Proof.
  unfold parent. pose proof (rtrim_path_length (reverse p)) as Hl. rewrite length_reverse in Hl.
  destruct (rtrim_path (reverse p)) as [|c r] eqn:Hr; [done|]. case_decide as Hd; [done|].
  intros [= <-]. rewrite length_reverse.
  assert (Hs : is_slash c = false).
  { apply not_true_iff_false. intros Hc. pose proof (rtrim_path_head _ _ _ Hr Hc) as ->.
    apply Hd. right. apply is_chr_true in Hc as ->. done. }
  cbn [span_comp]. rewrite Hs. pose proof (span_comp_length r). destruct (span_comp r) as [a b].
  cbn in *. pose proof (rtrim_path_length b). lia.
Qed.

(** The fuel of the climb is enough: more of it changes nothing. *)
Lemma prune_loop_fuel fuel1 fuel2 anchor cur (w : W) :
  (default 0%nat (length <$> cur) < fuel1)%nat → (default 0%nat (length <$> cur) < fuel2)%nat →
  prune_loop fuel1 anchor cur w = prune_loop fuel2 anchor cur w.
Proof.
  revert fuel2 cur w. induction fuel1 as [|f1 IH]; intros [|f2] cur w; simpl; try lia.
  intros H1 H2. destruct cur as [d|]; [|done]. simpl in *.
  destruct (_ || _); [done|]. destruct (remove_dir d w) as [[[]|e] w1]; [|done].
  destruct (parent d) as [q|] eqn:Hq.
  - apply parent_shorter in Hq. apply IH; simpl; lia.
  - destruct f1, f2; done.
Qed.

Lemma ancestors_S n p d : ancestors n p = Some d → ancestors (S n) p = parent d.
Proof.
  revert p. induction n as [|n IH]; intros p.
  - intros [= ->]. cbn. by destruct (parent d).
  - cbn [ancestors]. destruct (parent p) as [q|]; [|done]. intros Hq. by apply IH in Hq.
Qed.

Context (R : W → W → Prop) `{!PreOrder R}.

Lemma prune_loop_rel file anchor fuel n cur w :
  (∀ d n w, ancestors (S n) file = Some d → path_starts_with d anchor = true → path_eq d anchor = false →
     R w (snd (remove_dir d w))) →
  cur = ancestors (S n) file →
  R w (prune_loop fuel anchor cur w).
Proof.
  intros Hrm. revert n cur w. induction fuel as [|fuel IH]; intros n cur w Hcur; cbn [prune_loop]; [done|].
  destruct cur as [d|]; [|done].
  destruct (path_eq d anchor) eqn:He; [done|]. destruct (path_starts_with d anchor) eqn:Hst; [|done].
  cbn [orb negb]. specialize (Hrm d n w (eq_sym Hcur) Hst He) as Hstep.
  destruct (remove_dir d w) as [[[]|e] w1] eqn:Hr; cbn [snd] in Hstep; [|done].
  etrans; [exact Hstep|]. apply (IH (S n)).
  symmetry. by apply ancestors_S.
Qed.
End Prune.

(** Pruning after a move touches only what the move emptied: the directories
    [prune_empty_dirs] asks the system to remove are ancestors of the moved file
    strictly below the move's root; the root and everything above or beside it is left
    alone, and a directory that is not empty stops the climb. (Every change to the
    world is a sequence of changes any such removal makes.) *)
Theorem prune_stays_below `{RegexLib} {W : Type} `{!Os W} (R : W → W → Prop) `{!PreOrder R} src anchor w :
  ancestors (length (List.filter is_normal (components (relative src)))) (absolute src) = Some anchor →
  (∀ d n w, ancestors (S n) (absolute src) = Some d →
     path_starts_with d anchor = true → path_eq d anchor = false → R w (snd (remove_dir d w))) →
  R w (prune_empty_dirs src w).
Proof.
  intros Ha Hrm. unfold prune_empty_dirs. cbv zeta.
  destruct (_ <=? 1)%nat; [done|]. rewrite Ha.
  apply (prune_loop_rel R (absolute src) anchor _ 0); [done|].
  cbn. by destruct (parent (absolute src)).
Qed.

Definition prune_src : Url :=
  {| kind := Local; scheme := []; bucket := []; path := $"/m/root/s/t/f"; delimiter := $"/"; url_prefix := $"/m/root/s/t/f";
     version_id := []; all_versions := false; start_after := []; relative_path := $"s/t/f"; url_filter := [];
     filter_regex := None; raw := false |}.

Definition prune_world : MemWorld :=
  {| mem_fs := <[$"/m/root" := mkdir_node]> (<[$"/m/root/s" := mkdir_node]>
                 (<[$"/m/root/s/t" := mkdir_node]> ∅)); mem_s3 := ∅; mem_denied := []; mem_log := [] |}.

(** The root is kept; here the two directories below it go. *)
Lemma prune_stays_below_witness :
  mem_fs (prune_empty_dirs prune_src prune_world) !! ($"/m/root/s/t") = None ∧
  mem_fs (prune_empty_dirs prune_src prune_world) !! ($"/m/root") = mem_fs prune_world !! ($"/m/root").
Proof.
  split; [vm_refl|].
  assert (PreOrder (λ w w' : MemWorld, mem_fs w' !! ($"/m/root") = mem_fs w !! ($"/m/root"))).
  { split; [by intros w|]. intros x y z Hxy Hyz. by rewrite Hyz, Hxy. }
  apply (prune_stays_below (λ w w', mem_fs w' !! ($"/m/root") = mem_fs w !! ($"/m/root")) prune_src ($"/m/root")).
  - vm_refl.
  - intros d n w _ _ Hne. cbn [remove_dir mem_os]. unfold mem_rmdir.
    destruct (mem_fs w !! d) as [nd|]; [|done]. destruct (_ && _); [|done]. cbn [snd mem_fs with_fs].
    rewrite lookup_delete_ne; [done|]. intros ->. vm_compute in Hne. discriminate Hne.
Defined.

(** ** Where the files of a directory or prefix go *)

(** No segment of a relative path climbs. *)
Definition no_climb (rel : str) : Prop := Forall (λ s, s ≠ $"..") (split_chr SLASH rel).

Definition kept (segs : list str) : list str :=
  List.filter (λ s, negb (bool_decide (s = []) || bool_decide (s = $"."))) segs.

Lemma clean_fold_no_climb rooted out segs :
  Forall (λ s, s ≠ $"..") segs → foldl (clean_seg rooted) out segs = reverse (kept segs) ++ out.
Proof.
  intros Hs. revert out. induction Hs as [|s segs Hs Hss IH]; intros out; [done|].
  cbn [foldl kept List.filter]. rewrite IH. unfold clean_seg. case_decide as Hd.
  - replace (bool_decide (s = []) || bool_decide (s = $".")) with true; [done|].
    symmetry. apply orb_true_iff. by rewrite !bool_decide_eq_true.
  - rewrite decide_False by done.
    replace (bool_decide (s = []) || bool_decide (s = $".")) with false.
    + cbn [negb]. unfold kept. by rewrite reverse_cons, <-app_assoc.
    + symmetry. apply orb_false_iff. rewrite !bool_decide_eq_false. tauto.
Qed.

Lemma path_join_segs dst rel :
  starts_with ($"/") dst = true → rel ≠ [] → no_climb rel →
  path_join dst rel = $"/" ++ join ($"/") (segs_of dst ++ kept (split_chr SLASH rel)).
Proof.
  intros Hd Hr Hn. rewrite (path_join_rooted dst rel (split_chr SLASH rel)) by done.
  rewrite clean_fold_no_climb by done. by rewrite reverse_app, !reverse_involutive.
Qed.

Section Layout.
Context `{RegexLib}.

(** The listed objects a transfer takes. *)
Definition transferred (filters : Filters) (o : Object) : option Url :=
  match obj_err o, url o with
  | None, Some u => if is_dir (typ o) || should_skip filters (filter_key u) then None else Some u
  | _, _ => None
  end.

(** Expansion: the pairs are exactly the listed objects that are no error, no directory
    and not filtered, in order (a bad entry loses only itself); under a remote
    prefix each keeps its relative path; and under an absolute local directory a
    relative path that does not climb stays below that directory. *)
Theorem expansion_layout dst filters objs :
  map fst (listed_pairs dst filters objs) = omap (transferred filters) objs ∧
  (∀ u d, (u, d) ∈ listed_pairs dst filters objs →
     (is_remote dst = true → path d = path dst ++ relative u) ∧
     (is_remote dst = false → starts_with ($"/") (path dst) = true → relative u ≠ [] → no_climb (relative u) →
        path d = $"/" ++ join ($"/") (segs_of (path dst) ++ kept (split_chr SLASH (relative u))))).
Proof.
  assert (Hd : ∀ u d, (u, d) ∈ listed_pairs dst filters objs → d = url_join dst (relative u)).
  { intros u d. induction objs as [|o objs IH]; cbn [listed_pairs]; [by intros ?%elem_of_nil|].
    destruct (obj_err o); [done|]. destruct (url o) as [v|]; [|done].
    destruct (is_dir (typ o)); [done|]. destruct (should_skip _ _); [done|].
    intros [[= -> ->]|?]%elem_of_cons; [done|by apply IH]. }
  split.
  - clear Hd. induction objs as [|o objs IH]; [done|]. cbn [listed_pairs]. cbn. unfold transferred at 1.
    destruct (obj_err o); [done|]. destruct (url o) as [v|]; [|done].
    destruct (is_dir (typ o)); [done|]. cbn [orb]. destruct (should_skip _ _); [done|].
    cbn [map fst]. by rewrite IH.
  - intros u d ->%Hd. unfold url_join. split; intros Hr; rewrite Hr; cbn [negb path with_path]; [done|].
    intros Ha Hne Hn. by apply path_join_segs.
Qed.

Lemma versioned_plain b v :
  forallb (negb ∘ is_slash) b = true → forallb (negb ∘ is_slash) v = true →
  split_chr SLASH (b ++ $"_" ++ v) = [b ++ $"_" ++ v] ∧ b ++ $"_" ++ v ≠ [] ∧
  no_climb (b ++ $"_" ++ v) ∧ kept [b ++ $"_" ++ v] = [b ++ $"_" ++ v].
Proof.
  intros Hb Hv.
  assert (Hs : split_chr SLASH (b ++ $"_" ++ v) = [b ++ $"_" ++ v]).
  { apply split_chr_none. change (negb ∘ is_chr SLASH) with (negb ∘ is_slash).
    by rewrite !forallb_app, Hb, Hv. }
  assert (Hne : ∀ s, existsb (is_chr "_"%char) s = false → b ++ $"_" ++ v ≠ s).
  { intros s Hno <-. rewrite !existsb_app in Hno. simpl in Hno. by rewrite orb_true_r in Hno. }
  split; [done|]. split; [by apply Hne|]. split.
  - unfold no_climb. rewrite Hs. constructor; [by apply Hne|constructor].
  - unfold kept. cbn [List.filter]. rewrite !bool_decide_false by by apply Hne. done.
Qed.

(** Copies of several versions of one object do not overwrite each other: versions with
    different ids get different destinations, in a directory, a prefix or next
    to a named target. *)
Theorem versions_do_not_collide src1 src2 dst dir_like :
  base src1 = base src2 → version_id src1 ≠ version_id src2 →
  forallb (negb ∘ is_slash) (base src1) = true →
  forallb (negb ∘ is_slash) (version_id src1) = true →
  forallb (negb ∘ is_slash) (version_id src2) = true →
  (is_remote dst = false → dir_like = true → starts_with ($"/") (path dst) = true) →
  path (versioned_dest src1 dst dir_like) ≠ path (versioned_dest src2 dst dir_like).
Proof.
  intros Hbase Hv Hb Hv1 Hv2 Hroot. unfold versioned_dest. rewrite <-Hbase.
  assert (Hinj : ∀ p, p ++ base src1 ++ $"_" ++ version_id src1 ≠ p ++ base src1 ++ $"_" ++ version_id src2).
  { intros p Heq. by repeat apply app_inv_head in Heq. }
  destruct dir_like; cbn [path with_path].
  - unfold url_join. destruct (is_remote dst) eqn:Hr; cbn [negb path with_path]; [apply Hinj|].
    specialize (Hroot eq_refl eq_refl).
    destruct (versioned_plain (base src1) (version_id src1) Hb Hv1) as (Hs1 & Hn1 & Hc1 & Hk1).
    destruct (versioned_plain (base src1) (version_id src2) Hb Hv2) as (Hs2 & Hn2 & Hc2 & Hk2).
    rewrite !path_join_segs by done. rewrite Hs1, Hs2, Hk1, Hk2. intros Heq%app_inv_head.
    assert (Hj : ∀ l (x y : str), join ($"/") (l ++ [x]) = join ($"/") (l ++ [y]) → x = y).
    { clear. induction l as [|s l IH]; intros x y; [done|]. cbn [app].
      rewrite !join_cons by (by destruct l). intros Hxy. do 2 apply app_inv_head in Hxy. by apply IH. }
    apply Hj in Heq. by apply (Hinj []).
  - intros Heq. by repeat apply app_inv_head in Heq.
Qed.
End Layout.

(** Without that condition: a key that climbs leaves the download directory. *)
Lemma climbing_key_escapes :
  path_join ($"/home/u/dl") ($"../../v/x") = $"/home/v/x".
Proof. vm_refl. Qed.

Section CpRun.
Context `{RegexLib} `{ByteSizeLib} {W : Type} `{!Os W, !S3Ops W}.

(** A result that does not fail the command. *)
Definition tolerated (r : result unit Error) : bool :=
  match r with Ok _ => true | Err e => is_precondition_failed e end.

Lemma cp_report_all l b :
  report_all Cp.report l b = b || negb (forallb (tolerated ∘ snd) l).
Proof.
  revert b. induction l as [|[j r] l IH]; intros b; unfold report_all in *; cbn [foldl fst snd].
  - by rewrite orb_false_r.
  - rewrite IH. change (forallb (tolerated ∘ snd) ((j, r) :: l))
      with (tolerated r && forallb (tolerated ∘ snd) l).
    destruct r as [[]|e]; [done|]. cbn [report tolerated].
    destruct (is_precondition_failed e); [done|]. by destruct b.
Qed.

(** C22. A finished [cp] or [mv] attempted every pair exactly once, whatever failed in between,
    and succeeded exactly when each one succeeded or was skipped because the destination
    existed under [--if-none-match]. *)
Theorem cp_run_complete now global a mv sched w r w' pairs clients opts w1 :
  prepare now global a mv w = (Ok (pairs, clients, opts), w1) →
  Cp.run now global a mv sched w = Some (r, w') →
  pairs ≡ₚ map fst (cr_reported r) ∧
  (cr_result r = Ok tt ↔ Forall (λ jr, tolerated (snd jr) = true) (cr_reported r)).
Proof.
  intros Hprep. unfold Cp.run. rewrite Hprep. destruct clients as [s3 s3_dst].
  destruct (transfers _ _ _ _ _ _ _ _ _ _) as [p|] eqn:Hrun; [|done].
  destruct (todo p) eqn:Ht; [|done]. destruct (running p) eqn:Hr; [|done].
  intros [= <- _]. cbn [cr_reported cr_result].
  destruct (pool_final_reported _ _ _ _ _ _ _ _ _ Hrun (conj Ht Hr)) as (_ & Hj & Ha & _ & Hd).
  destruct (dropped p) as [|j d]; [|exfalso; destruct Hd as (? & ? & Hst); [done|discriminate Hst]].
  rewrite app_nil_r in Hj. split; [done|].
  rewrite Ha, cp_report_all. cbn [orb]. rewrite <-forallb_Forall.
  change (λ jr : Url * Url * result () Error, tolerated (snd jr)) with
    ((tolerated ∘ snd) : Url * Url * result () Error → bool).
  destruct (forallb _ (reported p)); done.
Qed.
End CpRun.

Definition cp_args : CpArgs :=
  {| paths := [$"s3://b/k"; $"/tmp/out"]; cp_follow_symlinks := true; cp_storage_class := None;
     cp_acl := None; cp_content_type := None; cp_part_size := 8; cp_concurrency := 8;
     cp_version_id := None; cp_all_versions := false; cp_preserve_timestamps := false;
     cp_client_copy := false; cp_remove_empty_dirs := false; cp_if_none_match := false;
     cp_links := false; cp_exclude := []; cp_include := []; cp_exclude_from := []; cp_include_from := [] |}.

Lemma cp_run_complete_witness :
  match Cp.run (W := MemWorld) 0 GlobalOpts_default cp_args false [Spawn; Exec 0; Join 0] mv_world with
  | Some (r, w') =>
      n_body <$> mem_fs w' !! ($"/tmp/out") = Some ($"data") ∧
      (cr_result r = Ok tt ↔ Forall (λ jr, tolerated (snd jr) = true) (cr_reported r))
  | None => False
  end.
Proof.
  assert (Hf : match Cp.run (W := MemWorld) 0 GlobalOpts_default cp_args false [Spawn; Exec 0; Join 0] mv_world with
               | Some (_, w') => n_body <$> mem_fs w' !! ($"/tmp/out") | None => None end = Some ($"data")) by vm_refl.
  assert (Hok : is_ok (fst (prepare (W := MemWorld) 0 GlobalOpts_default cp_args false mv_world)) = true) by vm_refl.
  destruct (Cp.run (W := MemWorld) 0 GlobalOpts_default cp_args false [Spawn; Exec 0; Join 0] mv_world)
    as [[r w']|] eqn:Hrun; [|done]. split; [exact Hf|].
  destruct (prepare (W := MemWorld) 0 GlobalOpts_default cp_args false mv_world) as [[[[pairs cl] opts]|e] w1] eqn:Hp;
    [|done].
  exact (proj2 (cp_run_complete (W := MemWorld) 0 GlobalOpts_default cp_args false _ mv_world r w' pairs cl opts w1 Hp Hrun)).
Defined.

Definition version_src (v : str) : Url :=
  {| kind := Remote; scheme := $"s3"; bucket := $"b"; path := $"d/k.txt"; delimiter := $"/"; url_prefix := $"d/k.txt";
     version_id := v; all_versions := true; start_after := []; relative_path := $"k.txt"; url_filter := [];
     filter_regex := None; raw := false |}.

Lemma versions_do_not_collide_witness :
  path (versioned_dest (version_src ($"v1")) mv_dst true) = $"/tmp/k/k.txt_v1" ∧
  path (versioned_dest (version_src ($"v1")) mv_dst true) ≠ path (versioned_dest (version_src ($"v2")) mv_dst true).
Proof.
  split; [vm_refl|].
  apply (versions_do_not_collide (version_src ($"v1")) (version_src ($"v2")) mv_dst true); try reflexivity.
  discriminate.
Defined.

Definition listed : list Object :=
  [with_error (anyhow ($"broken"));
   {| url := Some (version_src []); etag := []; mod_time := None; typ := File; size := 1;
      storage_class := {| class_name := [] |}; is_delete_marker := false; obj_err := None |}].

Lemma expansion_layout_witness :
  map (path ∘ snd) (listed_pairs mv_dst {| includes := []; excludes := [] |} listed) = [$"/tmp/k/k.txt"] ∧
  path (url_join mv_dst ($"k.txt")) = $"/" ++ join ($"/") (segs_of (path mv_dst) ++ kept (split_chr SLASH ($"k.txt"))).
Proof.
  split; [vm_refl|].
  refine (proj2 (proj2 (expansion_layout mv_dst {| includes := []; excludes := [] |} listed)
                   (version_src []) (url_join mv_dst ($"k.txt")) _) _ _ _ _); try reflexivity.
  - by left.
  - discriminate.
  - repeat constructor; discriminate.
Defined.
