(* ===== verification/Inode.v ===== *)
(** * The mount's inode table (src/src/mount/inode.rs) *)

From S2P Require Import Prelude RustStr.

Local Open Scope Z_scope.

Definition ROOT_INODE : Z := 1.

Inductive NodeKind := KDir | KFile.

Definition kind_is_dir (k : NodeKind) : bool := match k with KDir => true | KFile => false end.

Record Node := { key : str; nkind : NodeKind; nparent : Z }.

Record InodeTable := {
  nodes : gmap Z Node;
  by_key : gmap str Z;
  next : Z;
}.

(** The order in which the [HashMap] of nodes is walked. *)
Class NodeOrder := {
  node_iter : gmap Z Node → list (Z * Node);
  node_iter_perm : ∀ m, node_iter m ≡ₚ map_to_list m;
}.

Definition InodeTable_new (root_key : str) : InodeTable :=
  {| nodes := <[ROOT_INODE := {| key := root_key; nkind := KDir; nparent := ROOT_INODE |}]> ∅;
     by_key := <[root_key := ROOT_INODE]> ∅;
     next := ROOT_INODE + 1 |}.

Definition get (t : InodeTable) (ino : Z) : option Node := nodes t !! ino.

Definition lookup_key (t : InodeTable) (k : str) : option Z := by_key t !! k.

Definition intern (t : InodeTable) (k : str) (kind : NodeKind) (parent : Z) : Z * InodeTable :=
  match by_key t !! k with
  | Some ino => (ino, t)
  | None =>
      let ino := next t in
      (ino, {| nodes := <[ino := {| key := k; nkind := kind; nparent := parent |}]> (nodes t);
               by_key := <[k := ino]> (by_key t); next := next t + 1 |})
  end.

Definition set_key (n : Node) (k : str) : Node :=
  {| key := k; nkind := nkind n; nparent := nparent n |}.

Definition rekey (t : InodeTable) (ino : Z) (new_key : str) : InodeTable :=
  match nodes t !! ino with
  | Some n =>
      {| nodes := <[ino := set_key n new_key]> (nodes t);
         by_key := <[new_key := ino]> (delete (key n) (by_key t)); next := next t |}
  | None => t
  end.

(** One turn of [rekey_prefix]'s second loop. *)
Definition rekey_step (old_prefix new_prefix : str) (t : InodeTable) (ik : Z * str) : InodeTable :=
  let '(ino, old_key) := ik in
  let new_key := new_prefix ++ drop (length old_prefix) old_key in
  {| nodes := match nodes t !! ino with
              | Some n => <[ino := set_key n new_key]> (nodes t)
              | None => nodes t
              end;
     by_key := <[new_key := ino]> (delete old_key (by_key t)); next := next t |}.

Section RekeyPrefix.
Context `{NodeOrder}.

Definition affected (t : InodeTable) (old_prefix : str) : list (Z * str) :=
  map (λ ik, (fst ik, key (snd ik)))
    (List.filter (λ ik, starts_with old_prefix (key (snd ik))) (node_iter (nodes t))).

Definition rekey_prefix (t : InodeTable) (old_prefix new_prefix : str) : list Z * InodeTable :=
  (map fst (affected t old_prefix),
   foldl (rekey_step old_prefix new_prefix) t (affected t old_prefix)).
End RekeyPrefix.

Definition forget (t : InodeTable) (ino : Z) : InodeTable :=
  match nodes t !! ino with
  | Some n => {| nodes := delete ino (nodes t); by_key := delete (key n) (by_key t); next := next t |}
  | None => t
  end.

(** ** The invariant: the two maps are inverse of each other *)

Record table_inv (t : InodeTable) : Prop := {
  inv_key : ∀ k ino, by_key t !! k = Some ino → ∃ n, nodes t !! ino = Some n ∧ key n = k;
  inv_node : ∀ ino n, nodes t !! ino = Some n → by_key t !! key n = Some ino;
  inv_next : ∀ ino n, nodes t !! ino = Some n → ROOT_INODE <= ino < next t;
}.

Lemma key_inj t i j n m :
  table_inv t → nodes t !! i = Some n → nodes t !! j = Some m → key n = key m → i = j.
Proof.
  intros Ht Hi Hj Hk. apply (inv_node t Ht) in Hi, Hj. congruence.
Qed.

Lemma InodeTable_new_inv k : table_inv (InodeTable_new k).
Proof.
  constructor; unfold InodeTable_new; cbn.
  - intros k' ino [[<- <-]|[_ Hl]]%lookup_insert_Some; [|by rewrite lookup_empty in Hl].
    eexists. by rewrite lookup_insert_eq.
  - intros ino n [[<- <-]|[_ Hl]]%lookup_insert_Some; [|by rewrite lookup_empty in Hl].
    cbn. by rewrite lookup_insert_eq.
  - intros ino n [[<- _]|[_ Hl]]%lookup_insert_Some; [|by rewrite lookup_empty in Hl].
    unfold ROOT_INODE. lia.
Qed.

Lemma intern_inv t k kind parent :
  table_inv t → ROOT_INODE < next t → table_inv (snd (intern t k kind parent)).
Proof.
  intros [Hk Hn Hx] Hnext. unfold intern. destruct (by_key t !! k) as [ino|] eqn:Hb; [done|]. cbn.
  assert (Hfresh : nodes t !! next t = None).
  { destruct (nodes t !! next t) eqn:Hf; [|done]. apply Hx in Hf. lia. }
  constructor; cbn.
  - intros k' ino. rewrite lookup_insert_Some. intros [[<- <-]|[Hne Hl]].
    + eexists. by rewrite lookup_insert_eq.
    + apply Hk in Hl as (n & Hl & <-). exists n. rewrite lookup_insert_ne; [done|].
      intros <-. congruence.
  - intros ino n. rewrite lookup_insert_Some. intros [[<- <-]|[Hne Hl]].
    + cbn. by rewrite lookup_insert_eq.
    + apply Hn in Hl as Hl'. rewrite lookup_insert_ne; [done|]. congruence.
  - intros ino n. rewrite lookup_insert_Some. intros [[<- _]|[Hne Hl]]; [unfold ROOT_INODE in *; lia|].
    apply Hx in Hl. lia.
Qed.

Lemma rekey_inv t ino k :
  table_inv t → (by_key t !! k = None ∨ by_key t !! k = Some ino) → table_inv (rekey t ino k).
Proof.
  intros Ht Hfree. pose proof Ht as [Hk Hn Hx]. unfold rekey.
  destruct (nodes t !! ino) as [n|] eqn:Hi; [|done].
  assert (Hfree' : ∀ i, by_key t !! k = Some i → i = ino) by naive_solver.
  constructor; cbn.
  - intros k' i. rewrite lookup_insert_Some. intros [[<- <-]|[Hne [Hne2 Hl]%lookup_delete_Some]].
    + eexists. by rewrite lookup_insert_eq.
    + apply Hk in Hl as (m & Hl & <-). exists m. rewrite lookup_insert_ne; [done|].
      intros <-. congruence.
  - intros i m. rewrite lookup_insert_Some. intros [[<- <-]|[Hne Hl]].
    + cbn. by rewrite lookup_insert_eq.
    + pose proof (Hn _ _ Hl) as Hb. rewrite lookup_insert_ne.
      * rewrite lookup_delete_ne; [done|]. intros Heq. apply Hne. symmetry. by eapply key_inj.
      * intros ->. apply Hfree' in Hb. done.
  - intros i m. rewrite lookup_insert_Some. intros [[<- _]|[_ Hl]]; by eapply Hx.
Qed.

Lemma forget_inv t ino : table_inv t → table_inv (forget t ino).
Proof.
  intros Ht. pose proof Ht as [Hk Hn Hx]. unfold forget.
  destruct (nodes t !! ino) as [n|] eqn:Hi; [|done]. constructor; cbn.
  - intros k i [Hne Hl]%lookup_delete_Some. apply Hk in Hl as (m & Hl & <-). exists m.
    rewrite lookup_delete_ne; [done|]. intros <-. congruence.
  - intros i m [Hne Hl]%lookup_delete_Some. rewrite lookup_delete_ne; [by apply Hn|].
    intros Heq. apply Hne. by eapply key_inj.
  - intros i m [_ Hl]%lookup_delete_Some. by eapply Hx.
Qed.

(** ** Renaming a directory *)

Definition moved (old_prefix new_prefix k : str) : str := new_prefix ++ drop (length old_prefix) k.

Lemma moved_inj old new k1 k2 :
  starts_with old k1 = true → starts_with old k2 = true → moved old new k1 = moved old new k2 → k1 = k2.
Proof.
  intros [r1 ->]%starts_with_true [r2 ->]%starts_with_true. unfold moved.
  rewrite !drop_app_length. by intros ->%app_inv_head.
Qed.

Lemma rekey_step_rekey old new t ino n :
  nodes t !! ino = Some n → rekey_step old new t (ino, key n) = rekey t ino (moved old new (key n)).
Proof. intros Hi. unfold rekey_step, rekey. by rewrite Hi. Qed.

Lemma rekey_fold old new l t :
  table_inv t →
  NoDup (map snd l) →
  (∀ i k, (i, k) ∈ l → starts_with old k = true ∧ ∃ n, nodes t !! i = Some n ∧ key n = k) →
  (∀ i k, (i, k) ∈ l → by_key t !! moved old new k = None) →
  let t' := foldl (rekey_step old new) t l in
  table_inv t' ∧ next t' = next t ∧
  ∀ i, nodes t' !! i = (λ n, if bool_decide (i ∈ map fst l) then set_key n (moved old new (key n)) else n) <$> nodes t !! i.
Proof.
  revert t. induction l as [|[i k] l IH]; intros t Ht Hnd Hin Hfree; cbn [foldl].
  { split; [done|]. split; [done|]. intros i. simpl. by destruct (nodes t !! i). }
  apply NoDup_cons in Hnd as [Hni Hnd].
  destruct (Hin i k ltac:(by left)) as (Hst & n & Hn & <-).
  rewrite (rekey_step_rekey _ _ _ _ _ Hn).
  assert (Hfr : by_key t !! moved old new (key n) = None) by (apply (Hfree i); by left).
  pose proof (rekey_inv t i _ Ht (or_introl Hfr)) as Ht1.
  assert (Hneq : ∀ j k, (j, k) ∈ l → j ≠ i ∧ k ≠ key n).
  { intros j k Hj. assert (k ≠ key n).
    { intros ->. apply Hni. apply list_elem_of_In, in_map_iff. exists (j, key n).
      split; [done|]. by apply list_elem_of_In. }
    split; [|done]. intros ->. destruct (Hin i k ltac:(by right)) as (_ & m & Hm & <-). congruence. }
  specialize (IH (rekey t i (moved old new (key n))) Ht1 Hnd).
  destruct IH as (Hinv & Hnx & Hnodes).
  - intros j k Hj. destruct (Hneq _ _ Hj) as [Hji _].
    destruct (Hin j k ltac:(by right)) as (Hst' & m & Hm & <-). split; [done|]. exists m.
    unfold rekey. rewrite Hn. cbn. by rewrite lookup_insert_ne.
  - intros j k Hj. destruct (Hneq _ _ Hj) as [_ Hkn]. destruct (Hin j k ltac:(by right)) as (Hst' & _).
    unfold rekey. rewrite Hn. cbn. rewrite lookup_insert_ne.
    + destruct (decide (key n = moved old new k)) as [->|Hd]; [by rewrite lookup_delete_eq|].
      rewrite lookup_delete_ne by done. apply (Hfree j). by right.
    + intros Heq. apply Hkn. symmetry. by eapply moved_inj.
  - split; [done|]. split.
    + rewrite Hnx. unfold rekey. by rewrite Hn.
    + intros j. rewrite Hnodes. unfold rekey. rewrite Hn. cbn. destruct (decide (i = j)) as [<-|Hij].
      * rewrite lookup_insert_eq, Hn. cbn. rewrite (bool_decide_true (i ∈ i :: _)) by (by left).
        rewrite bool_decide_false; [done|]. intros ([j k] & Heq & Hj%list_elem_of_In)%list_elem_of_In%in_map_iff.
        simpl in Heq. subst j. by destruct (Hneq _ _ Hj).
      * rewrite lookup_insert_ne by done. destruct (nodes t !! j) as [m|]; [|done]. cbn.
        assert (Hiff : j ∈ i :: map fst l ↔ j ∈ map fst l) by (rewrite elem_of_cons; naive_solver).
        by rewrite (bool_decide_ext _ _ Hiff).
Qed.

Section RekeyPrefixSpec.
Context `{NodeOrder}.

Lemma affected_spec t old i k :
  (i, k) ∈ affected t old ↔ starts_with old k = true ∧ ∃ n, nodes t !! i = Some n ∧ key n = k.
Proof.
  unfold affected. rewrite list_elem_of_In, in_map_iff. split.
  - intros ([i' n] & [= <- <-] & [Hin Hst]%filter_In). split; [done|]. exists n. split; [|done].
    apply elem_of_map_to_list. rewrite <-node_iter_perm. by apply list_elem_of_In.
  - intros (Hst & n & Hn & <-). exists (i, n). split; [done|]. apply filter_In. split; [|done].
    apply list_elem_of_In. rewrite node_iter_perm. by apply elem_of_map_to_list.
Qed.

Lemma affected_nodup t old : table_inv t → NoDup (map snd (affected t old)).
Proof.
  intros Ht. unfold affected. rewrite map_map.
  assert (Hfst : NoDup (map fst (node_iter (nodes t)))).
  { change (map fst (node_iter (nodes t))) with ((node_iter (nodes t)).*1).
    rewrite node_iter_perm. apply NoDup_fst_map_to_list. }
  assert (Hall : ∀ x, x ∈ node_iter (nodes t) → nodes t !! x.1 = Some x.2).
  { intros [i n] Hin. rewrite node_iter_perm in Hin. by apply elem_of_map_to_list in Hin. }
  revert Hfst Hall. induction (node_iter (nodes t)) as [|[i n] l IH]; intros Hfst Hall; [constructor|].
  cbn [map] in Hfst. apply NoDup_cons in Hfst as [Hni Hfst].
  assert (IH' := IH Hfst ltac:(intros x Hx; apply Hall; by right)).
  cbn [List.filter]. destruct (starts_with old _); [|done]. cbn [map]. constructor; [|done].
  intros ([j m] & Heq & [Hin _]%filter_In)%list_elem_of_In%in_map_iff. cbn in Heq.
  apply Hni. apply list_elem_of_In, in_map_iff. exists (j, m). split; [|done]. cbn.
  eapply key_inj; [done| | |exact Heq].
  - apply (Hall (j, m)). right. by apply list_elem_of_In.
  - apply (Hall (i, n)). by left.
Qed.

(** No inode is in the way of the renamed ones. *)
Definition dest_free (t : InodeTable) (old new : str) : Prop :=
  ∀ k, starts_with old k = true → is_Some (lookup_key t k) → lookup_key t (moved old new k) = None.

Lemma rekey_prefix_ok t old new :
  table_inv t → dest_free t old new →
  let t' := snd (rekey_prefix t old new) in
  table_inv t' ∧ next t' = next t ∧
  ∀ ino, get t' ino = (λ n, if starts_with old (key n) then set_key n (moved old new (key n)) else n) <$> get t ino.
Proof.
  intros Ht Hfree.
  destruct (rekey_fold old new (affected t old) t Ht (affected_nodup t old Ht)) as (Hinv & Hnx & Hget).
  - intros i k. apply affected_spec.
  - intros i k (Hst & n & Hn & <-)%affected_spec. apply Hfree; [done|].
    exists i. by apply (inv_node t Ht).
  - split; [exact Hinv|]. split; [exact Hnx|]. intros ino. unfold get, rekey_prefix. cbn [snd]. rewrite Hget.
    destruct (nodes t !! ino) as [n|] eqn:Hn; [|done]. cbn. f_equal.
    assert (Hiff : ino ∈ map fst (affected t old) ↔ starts_with old (key n) = true).
    { rewrite list_elem_of_In, in_map_iff. split.
      - intros ([j k] & <- & Hin%list_elem_of_In). apply affected_spec in Hin as (Hst & m & Hm & <-).
        cbn in *. congruence.
      - intros Hst. exists (ino, key n). split; [done|]. apply list_elem_of_In, affected_spec. eauto. }
    destruct (starts_with old (key n)); [by rewrite bool_decide_true by (by apply Hiff)|].
    rewrite bool_decide_false; [done|]. by intros ?%Hiff.
Qed.
End RekeyPrefixSpec.


#[export] Instance node_order : NodeOrder := {
  node_iter m := map_to_list m;
  node_iter_perm m := reflexivity (map_to_list m);
}.

Definition sample_table : InodeTable :=
  snd (intern (snd (intern (InodeTable_new []) ($"d/") KDir 1)) ($"d/f") KFile 2).


(** Renaming to a key that is taken leaves two inodes with one key. *)
Lemma rekey_onto_taken_key :
  let t := snd (intern (snd (intern (InodeTable_new []) ($"a") KFile 1)) ($"b") KFile 1) in
  let t' := rekey t 2 ($"b") in
  key <$> get t' 2 = Some ($"b") ∧ key <$> get t' 3 = Some ($"b") ∧ lookup_key t' ($"b") = Some 2.
Proof. split_and!; reflexivity. Qed.
