(* ===== verification/Reader.v ===== *)
(** * The mount's chunked read-ahead reader (src/src/mount/reader.rs) *)

From S2P Require Import Prelude RustStr Strutil Url Storage Fs Tasks MemWorld.

Local Open Scope Z_scope.

Section Reader.
Context `{RegexLib} {W : Type} `{!S3Ops W, !Unordered}.

Record ChunkReader := {
  r_s3 : S3;
  r_url : Url;
  r_size : Z;
  chunk_size : Z;
  max_chunks : Z;
  r_concurrency : Z;
  chunks : gmap Z str;
  order : list Z;
  last_end : Z;
}.

Definition ChunkReader_new (s3 : S3) (url : Url) (size chunk_sz buffer_size concurrency : Z) : ChunkReader :=
  let chunk_sz := Z.max chunk_sz (64 * 1024) in
  let max_chunks := Z.max (buffer_size / chunk_sz) 2 in
  {| r_s3 := s3; r_url := url; r_size := size; chunk_size := chunk_sz; max_chunks := max_chunks;
     r_concurrency := Z.max concurrency 1; chunks := ∅; order := []; last_end := 0 |}.

Definition n_chunks (r : ChunkReader) : Z := div_ceil (r_size r) (chunk_size r).

Definition chunk_bounds (r : ChunkReader) (idx : Z) : Z * Z :=
  (idx * chunk_size r, Z.min ((idx + 1) * chunk_size r) (r_size r)).

Definition with_cache (r : ChunkReader) (c : gmap Z str) (o : list Z) (e : Z) : ChunkReader :=
  {| r_s3 := r_s3 r; r_url := r_url r; r_size := r_size r; chunk_size := chunk_size r;
     max_chunks := max_chunks r; r_concurrency := r_concurrency r; chunks := c; order := o; last_end := e |}.

Definition fetch_chunk (r : ChunkReader) (idx : Z) : M W (Z * str) :=
  let '(start, end_) := chunk_bounds r idx in
  let! data := s3_read_range (r_s3 r) (r_url r) start (end_ - start) in
  mret (idx, data).

Definition fetch_chunks (r : ChunkReader) (idxs : list Z) : M W (list (Z * str)) := λ w,
  let '(rs, w) := run_tasks (map (fetch_chunk r) (arrange idxs)) w in
  (collect_results rs, w).

Fixpoint remove_first (idx : Z) (l : list Z) : list Z :=
  match l with
  | [] => []
  | x :: l => if x =? idx then l else x :: remove_first idx l
  end.

Definition touch (idx : Z) (o : list Z) : list Z := remove_first idx o ++ [idx].

(** Caching the fetched chunks. *)
Definition store (st : gmap Z str * list Z) (cd : Z * str) : gmap Z str * list Z :=
  (<[cd.1 := cd.2]> st.1, touch cd.1 st.2).

(** The loop of [evict]; its guard starts at the length of the queue. *)
Fixpoint evict_loop (guard : nat) (max : Z) (keep : list Z) (c : gmap Z str) (o : list Z)
  : gmap Z str * list Z :=
  match guard with
  | O => (c, o)
  | S guard =>
      if Z.of_nat (map_size c) >? max then
        match o with
        | [] => (c, o)
        | idx :: rest =>
            if bool_decide (idx ∈ keep) then evict_loop guard max keep c (rest ++ [idx])
            else evict_loop guard max keep (delete idx c) rest
        end
      else (c, o)
  end.

Definition evict (r : ChunkReader) (keep : list Z) (c : gmap Z str) (o : list Z) : gmap Z str * list Z :=
  evict_loop (length o) (max_chunks r) keep c o.

Definition missing_error (idx : Z) : Error :=
  anyhow ($"chunk " ++ to_string idx ++ $" missing after fetch").

(** The loop that assembles the answer; each turn takes at least one byte. *)
Fixpoint assemble (fuel : nat) (cs : Z) (c : gmap Z str) (pos end_ : Z) : result str Error :=
  match fuel with
  | O => Ok []
  | S fuel =>
      if pos <? end_ then
        let idx := pos / cs in
        let cstart := idx * cs in
        match c !! idx with
        | None => Err (missing_error idx)
        | Some chunk =>
            let within := pos - cstart in
            if within >=? Z.of_nat (length chunk) then Ok []
            else
              let n := Z.min (end_ - pos) (Z.of_nat (length chunk) - within) in
              let? rest := assemble fuel cs c (pos + n) end_ in
              Ok (slice chunk within n ++ rest)
        end
      else Ok []
  end.

Definition z_range (a b : Z) : list Z := seqZ a (b - a).

Definition want_end (r : ChunkReader) (offset first last : Z) : Z :=
  let sequential := (last_end r =? 0) || (offset =? last_end r) in
  let want := last + 1 in
  let want := if sequential then Z.max want (first + max_chunks r) else want in
  Z.max (Z.min (Z.min want (first + max_chunks r)) (n_chunks r)) (last + 1).

(** [read]: the answer and the reader after. *)
Definition read (r : ChunkReader) (offset len : Z) (w : W) : result str Error * ChunkReader * W :=
  if (offset >=? r_size r) || (len =? 0) then (Ok [], r, w)
  else
    let len := Z.min len (r_size r - offset) in
    let first := offset / chunk_size r in
    let last := (offset + len - 1) / chunk_size r in
    let missing := List.filter (λ i, bool_decide (chunks r !! i = None))
                     (z_range first (want_end r offset first last)) in
    let '(fetched, w) := match missing with [] => (Ok [], w) | _ => fetch_chunks r missing w end in
    match fetched with
    | Err e => (Err e, r, w)
    | Ok fetched =>
        let '(c, o) := foldl store (chunks r, order r) fetched in
        let keep := z_range first (last + 1) in
        let o := foldl (λ o i, touch i o) o keep in
        let '(c, o) := evict r keep c o in
        let end_ := offset + len in
        match assemble (Z.to_nat len) (chunk_size r) c offset end_ with
        | Ok out => (Ok out, with_cache r c o end_, w)
        | Err e => (Err e, with_cache r c o (last_end r), w)
        end
    end.

(** ** The invariant, for the object's bytes [data] *)

Context (data : str).

Record reader_ok (r : ChunkReader) : Prop := {
  ok_size : r_size r = Z.of_nat (length data);
  ok_cs : 0 < chunk_size r;
  ok_chunks : ∀ i c, chunks r !! i = Some c → c = slice data (i * chunk_size r) (chunk_size r);
  ok_order : ∀ i, i ∈ order r ↔ is_Some (chunks r !! i);
  ok_nodup : NoDup (order r);
}.

(** The worlds in which the object holds [data]. *)
Context (holds : W → Prop).

(** What a faithful backend's ranged reads return, and that they change nothing of it. *)
Definition faithful_ranges (r : ChunkReader) : Prop :=
  ∀ start n w res w', holds w → s3_read_range (r_s3 r) (r_url r) start n w = (res, w') →
    holds w' ∧ ∀ d, res = Ok d → d = slice data start n.

Lemma remove_first_elem i x l : NoDup l → i ∈ remove_first x l ↔ i ∈ l ∧ i ≠ x.
Proof.
  induction 1 as [|y l Hy Hl IH]; cbn [remove_first].
  - rewrite elem_of_nil. naive_solver.
  - destruct (Z.eqb_spec y x); subst; rewrite !elem_of_cons; [|rewrite IH]; naive_solver.
Qed.

Lemma remove_first_nodup x l : NoDup l → NoDup (remove_first x l).
Proof.
  induction 1 as [|y l Hy Hl IH]; cbn [remove_first]; [constructor|].
  destruct (Z.eqb_spec y x); [done|]. constructor; [|done].
  intros Hin. by apply remove_first_elem in Hin as [? _].
Qed.

Lemma touch_elem i x l : NoDup l → i ∈ touch x l ↔ i ∈ l ∨ i = x.
Proof.
  intros Hl. unfold touch. rewrite elem_of_app, remove_first_elem, list_elem_of_singleton by done.
  destruct (decide (i = x)); naive_solver.
Qed.

Lemma touch_nodup x l : NoDup l → NoDup (touch x l).
Proof.
  intros Hl. unfold touch. apply NoDup_app. split; [by apply remove_first_nodup|]. split.
  - intros y Hy%remove_first_elem [= ->]%list_elem_of_singleton; [naive_solver|done].
  - apply NoDup_singleton.
Qed.

(** The fetched chunks, whatever order they complete in. *)
Lemma fetch_chunks_Ok r idxs w l w' :
  faithful_ranges r → holds w → fetch_chunks r idxs w = (Ok l, w') →
  map fst l ≡ₚ idxs ∧
  ∀ i c, (i, c) ∈ l → c = slice data (chunk_bounds r i).1 ((chunk_bounds r i).2 - (chunk_bounds r i).1).
Proof.
  intros Hf Hw Hfetch. cut (map fst l ≡ₚ arrange idxs ∧
    ∀ i c, (i, c) ∈ l → c = slice data (chunk_bounds r i).1 ((chunk_bounds r i).2 - (chunk_bounds r i).1)).
  { intros [Hp Hc]. split; [|exact Hc]. by rewrite <-(arrange_perm idxs). }
  revert Hfetch. unfold fetch_chunks. generalize (arrange idxs). clear idxs. intros idxs. destruct (run_tasks _ w) as [rs w1] eqn:Hrun. intros [= Hl _].
  apply collect_results_Ok in Hl as ->. revert l w w1 Hw Hrun.
  induction idxs as [|i idxs IH]; intros l w w1 Hw; cbn [map run_tasks].
  - intros [= Hl _]. destruct l; [|done]. split; [done|]. by intros ? ? ?%elem_of_nil.
  - destruct (fetch_chunk r i w) as [ri w2] eqn:Hi. destruct (run_tasks _ w2) as [rs w3] eqn:Hrs.
    intros [= Hl ->]. destruct l as [|[i' c'] l]; [done|]. injection Hl as -> ->.
    unfold fetch_chunk, chunk_bounds in Hi.
    apply mbind_Ok in Hi as (d & w4 & Hd & [= <- <- <-]). apply Hf in Hd as [Hw4 Hd]; [|done].
    specialize (Hd _ eq_refl).
    destruct (IH l w4 w1 Hw4 Hrs) as [Hp Hc]. cbn [map fst].
    split; [by rewrite Hp|]. intros j c [[= -> ->]|Hin]%elem_of_cons; [done|by apply Hc].
Qed.

Definition cache_ok (cs : Z) (st : gmap Z str * list Z) : Prop :=
  (∀ i c, st.1 !! i = Some c → c = slice data (i * cs) cs) ∧
  (∀ i, i ∈ st.2 ↔ is_Some (st.1 !! i)) ∧ NoDup st.2.

Lemma store_ok cs st cd :
  cache_ok cs st → cd.2 = slice data (cd.1 * cs) cs → cache_ok cs (store st cd).
Proof.
  intros (Hc & Ho & Hn) Hd. unfold store. split_and!; cbn.
  - intros i c [[<- <-]|[_ Hl]]%lookup_insert_Some; [done|by apply Hc].
  - intros i. rewrite touch_elem, lookup_insert_is_Some, Ho by done. destruct (decide (cd.1 = i)); naive_solver.
  - by apply touch_nodup.
Qed.

Lemma store_all_ok cs st l :
  cache_ok cs st → (∀ i c, (i, c) ∈ l → c = slice data (i * cs) cs) →
  cache_ok cs (foldl store st l) ∧
  (∀ i, is_Some ((foldl store st l).1 !! i) ↔ is_Some (st.1 !! i) ∨ i ∈ map fst l).
Proof.
  revert st. induction l as [|[i c] l IH]; intros st Hst Hl; cbn [foldl map fst].
  - split; [done|]. intros i. rewrite elem_of_nil. naive_solver.
  - destruct (IH (store st (i, c))) as [Hok Hdom].
    + apply store_ok; [done|]. apply Hl. by left.
    + intros j d Hj. apply Hl. by right.
    + split; [done|]. intros j. rewrite Hdom. cbn. rewrite lookup_insert_is_Some, elem_of_cons.
      destruct (decide (i = j)); naive_solver.
Qed.

Lemma touch_all_ok cs c o l :
  cache_ok cs (c, o) → (∀ i, i ∈ l → is_Some (c !! i)) →
  cache_ok cs (c, foldl (λ o i, touch i o) o l).
Proof.
  revert o. induction l as [|i l IH]; intros o Hst Hl; [done|]. cbn [foldl]. apply IH.
  - destruct Hst as (Hc & Ho & Hn). split_and!; cbn in *; [done| |by apply touch_nodup].
    intros j. rewrite touch_elem, Ho by done. split; [|naive_solver].
    intros [?| ->]; [done|]. apply Hl. by left.
  - intros j Hj. apply Hl. by right.
Qed.

(** Eviction drops no chunk to keep, and ends within the budget or with nothing but
    chunks to keep. *)
Lemma evict_loop_ok cs guard max keep c o done_ :
  cache_ok cs (c, o) →
  (∃ todo_, o = todo_ ++ done_ ∧ length todo_ = guard ∧ Forall (λ i, i ∈ keep) done_) →
  let st := evict_loop guard max keep c o in
  cache_ok cs st ∧ (∀ i, i ∈ keep → st.1 !! i = c !! i) ∧
  (Z.of_nat (map_size st.1) <= max ∨ ∀ i, is_Some (st.1 !! i) → i ∈ keep).
Proof.
  revert c o done_. induction guard as [|guard IH]; intros c o done_ Hst (t & -> & Hlen & Hd); cbn [evict_loop].
  - split; [done|]. split; [done|]. right. destruct t; [|done]. intros i Hi.
    destruct Hst as (_ & Ho & _). apply Ho in Hi. rewrite Forall_forall in Hd. by apply Hd.
  - destruct (Z.gtb_spec (Z.of_nat (map_size c)) max) as [Hgt|Hle]; [|split; [done|]; split; [done|]; left; exact Hle].
    destruct t as [|idx t]; [done|]. cbn [app]. injection Hlen as Hlen.
    destruct Hst as (Hc & Ho & Hn). cbn in Ho, Hn, Hc. case_bool_decide as Hk.
    + apply (IH c ((t ++ done_) ++ [idx]) (done_ ++ [idx])).
      * split_and!; cbn; [done| |].
        -- intros i. rewrite <-Ho. rewrite elem_of_app, list_elem_of_singleton, elem_of_cons. naive_solver.
        -- by rewrite <-Permutation_cons_append.
      * exists t. split; [by rewrite app_assoc|]. split; [done|]. apply Forall_app. split; [done|].
        by constructor.
    + apply NoDup_cons in Hn as [Hni Hn].
      destruct (IH (delete idx c) (t ++ done_) done_) as (Hok & Hkeep & Hend).
      * split_and!; cbn; [| |done].
        -- intros i d [_ Hl]%lookup_delete_Some. by apply Hc.
        -- intros i. rewrite lookup_delete_is_Some, <-Ho, elem_of_cons. split; [|naive_solver].
           intros Hin. split; [|by right]. intros ->. done.
      * by exists t.
      * split; [done|]. split; [|done]. intros i Hi. rewrite Hkeep by done.
        apply lookup_delete_ne. intros ->. done.
Qed.

Lemma assemble_ok fuel cs c pos end_ :
  0 < cs → 0 <= pos → pos <= end_ → end_ <= Z.of_nat (length data) → (Z.to_nat (end_ - pos) <= fuel)%nat →
  (∀ i, pos / cs <= i <= (end_ - 1) / cs → c !! i = Some (slice data (i * cs) cs)) →
  assemble fuel cs c pos end_ = Ok (slice data pos (end_ - pos)).
Proof.
  intros Hcs. revert pos. induction fuel as [|fuel IH]; intros pos Hpos Hle Hend Hfuel Hc; cbn [assemble].
  - replace (end_ - pos) with 0 by lia. done.
  - destruct (Z.ltb_spec pos end_) as [Hlt|Hge]; [|by replace (end_ - pos) with 0 by lia].
    rewrite Hc by (split; [lia|apply Z.div_le_mono; lia]).
    set (i := pos / cs).
    assert (Hi : i * cs <= pos < (i + 1) * cs).
    { unfold i. pose proof (Z.mul_div_le pos cs Hcs). pose proof (Z.mul_succ_div_gt pos cs Hcs). nia. }
    assert (Hi0 : 0 <= i) by (apply Z.div_pos; lia).
    rewrite slice_length by nia.
    set (clen := Z.max 0 (Z.min cs (Z.of_nat (length data) - i * cs))).
    assert (Hclen : pos - i * cs < clen <= cs) by (unfold clen; nia).
    destruct (Z.geb_spec (pos - i * cs) clen); [lia|].
    set (n := Z.min (end_ - pos) (clen - (pos - i * cs))).
    assert (Hn : 1 <= n <= end_ - pos /\ n <= clen - (pos - i * cs)) by (unfold n; lia).
    rewrite IH; [|lia|lia|done|lia|].
    + cbn. f_equal. rewrite slice_slice by nia.
      replace (i * cs + (pos - i * cs)) with pos by lia.
      rewrite slice_app by lia. f_equal. lia.
    + intros j Hj. apply Hc. split; [|lia]. etrans; [apply (Z.div_le_mono pos (pos + n)); lia|lia].
Qed.

(** A chunk's clamped bounds give the same bytes as the whole chunk size. *)
Lemma clamped_slice r i :
  r_size r = Z.of_nat (length data) → 0 < chunk_size r → 0 <= i →
  slice data (chunk_bounds r i).1 ((chunk_bounds r i).2 - (chunk_bounds r i).1)
  = slice data (i * chunk_size r) (chunk_size r).
Proof.
  intros Hs Hcs Hi. unfold chunk_bounds. cbn. rewrite Hs.
  destruct (Z.le_gt_cases ((i + 1) * chunk_size r) (Z.of_nat (length data))).
  - rewrite Z.min_l by done. f_equal. lia.
  - rewrite Z.min_r by lia. unfold slice.
    rewrite !take_ge; [done| |]; rewrite length_drop; nia.
Qed.

(** The core of the theorem: a read that ends without an error. *)
Lemma read_state r offset len w res r' w' :
  reader_ok r → faithful_ranges r → holds w → 0 <= offset → 0 <= len → read r offset len w = (res, r', w') →
  (∃ e idxs, res = Err e ∧ r' = r ∧ fetch_chunks r idxs w = (Err e, w')) ∨
  (res = Ok (slice data offset len) ∧ reader_ok r' ∧
   (r' = r ∨ Z.of_nat (map_size (chunks r')) <= max_chunks r ∨
    ∀ i, is_Some (chunks r' !! i) → offset / chunk_size r <= i <= (offset + len - 1) / chunk_size r)).
Proof.
  intros Hr Hf Hholds Hoff Hlen. pose proof Hr as [Hsz Hcs Hch Hor Hnd]. unfold read.
  destruct ((offset >=? r_size r) || (len =? 0)) eqn:Htriv.
  { intros [= <- <- _]. right. split_and!; [|done|by left].
    f_equal. unfold slice. rewrite Hsz, orb_true_iff, Z.geb_le, Z.eqb_eq in Htriv. destruct Htriv as [Ho| ->].
    - rewrite drop_ge by lia. by rewrite take_nil.
    - done. }
  apply orb_false_iff in Htriv as [Ho Hl]. rewrite Z.geb_leb, Z.leb_gt in Ho. rewrite Z.eqb_neq in Hl.
  set (len' := Z.min len (r_size r - offset)).
  set (cs := chunk_size r) in *. set (first := offset / cs). set (last := (offset + len' - 1) / cs).
  assert (Hlen' : 1 <= len' <= len) by (unfold len'; lia).
  assert (Hfl : 0 <= first <= last) by (unfold first, last; split; [apply Z.div_pos; lia|apply Z.div_le_mono; lia]).
  set (want := want_end r offset first last).
  assert (Hwant : last + 1 <= want) by (unfold want, want_end; lia).
  set (missing := List.filter _ _).
  assert (Hmiss : ∀ i, i ∈ missing ↔ first <= i < want ∧ chunks r !! i = None).
  { intros i. unfold missing. rewrite list_elem_of_In, filter_In, <-list_elem_of_In, bool_decide_eq_true.
    unfold z_range. rewrite elem_of_seqZ. intuition lia. }
  destruct (match missing with [] => (Ok [], w) | _ => fetch_chunks r missing w end) as [fetched w1] eqn:Hfetch.
  destruct fetched as [fetched|e].
  2: { intros [= <- <- <-]. left. exists e, missing. split_and!; [done|done|]. by destruct missing. }
  assert (Hfd : map fst fetched ≡ₚ missing ∧
            ∀ i c, (i, c) ∈ fetched → c = slice data (i * cs) cs).
  { destruct missing as [|m ms] eqn:Hm.
    - injection Hfetch as <- _. split; [done|]. by intros ? ? ?%elem_of_nil.
    - destruct (fetch_chunks_Ok r (m :: ms) w fetched w1 Hf Hholds Hfetch) as [Hp Hc]. split; [done|].
      intros i c Hin. rewrite (Hc i c Hin). apply clamped_slice; [done|done|].
      assert (Hi : i ∈ m :: ms).
      { rewrite <-Hp. apply list_elem_of_In, in_map_iff. exists (i, c). split; [done|]. by apply list_elem_of_In. }
      apply Hmiss in Hi. lia. }
  destruct Hfd as [Hperm Hslices].
  destruct (store_all_ok cs (chunks r, order r) fetched) as [Hst Hdom]; [by split_and!|done|].
  destruct (foldl store (chunks r, order r) fetched) as [c o] eqn:Hco. cbn [fst snd] in *.
  set (keep := z_range first (last + 1)).
  assert (Hkeep : ∀ i, i ∈ keep ↔ first <= i <= last).
  { intros i. unfold keep, z_range. rewrite elem_of_seqZ. lia. }
  assert (Hres : ∀ i, i ∈ keep → is_Some (c !! i)).
  { intros i Hi%Hkeep. apply Hdom. destruct (chunks r !! i) eqn:Hci; [left; by eexists|right].
    rewrite Hperm. apply Hmiss. split; [lia|done]. }
  pose proof (touch_all_ok cs c o keep Hst Hres) as Hst2.
  set (o2 := foldl (λ o i, touch i o) o keep) in *.
  destruct (evict_loop_ok cs (length o2) (max_chunks r) keep c o2 [] Hst2) as (Hst3 & Hk3 & Hb3).
  { exists o2. by rewrite app_nil_r. }
  unfold evict. destruct (evict_loop (length o2) (max_chunks r) keep c o2) as [c3 o3]. cbn [fst snd] in *.
  destruct Hst3 as (Hc3 & Ho3 & Hn3). cbn in Hc3, Ho3, Hn3.
  rewrite (assemble_ok (Z.to_nat len') cs c3 offset (offset + len')); [|done|done|lia|lia|lia|].
  - intros [= <- <- _]. right. split; [|split].
    + f_equal. replace (offset + len' - offset) with len' by lia. unfold slice.
      destruct (Z.le_gt_cases len (r_size r - offset)); [f_equal; unfold len'; lia|].
      rewrite !take_ge; [done| |]; rewrite length_drop; unfold len'; lia.
    + by constructor.
    + cbn [chunks with_cache]. right. destruct Hb3 as [Hb3|Hb3]; [left; lia|right].
      intros i Hi. apply Hb3, Hkeep in Hi. split; [lia|].
      etrans; [apply Hi|]. unfold last. apply Z.div_le_mono; lia.
  - intros i Hi. assert (Hik : i ∈ keep) by (by apply Hkeep).
    destruct (Hres i Hik) as [d Hd]. assert (Hd3 : c3 !! i = Some d) by (by rewrite Hk3).
    rewrite Hd3. by rewrite (Hc3 i d Hd3).
Qed.

(** C11. Cached reads are exact: over a backend whose ranged reads are faithful, every [read] either
    fails with a fetch's error and leaves the reader as it was, or returns precisely the
    object's bytes [offset, offset + len) cut at its end, whatever earlier reads cached,
    prefetched or evicted and in whatever order the fetches completed; and the cache
    afterwards is within its budget or holds only what this read needed. *)
Theorem read_exact r offset len w res r' w' :
  reader_ok r → faithful_ranges r → holds w → 0 <= offset → 0 <= len → read r offset len w = (res, r', w') →
  (∃ e idxs, res = Err e ∧ r' = r ∧ fetch_chunks r idxs w = (Err e, w')) ∨
  (res = Ok (slice data offset len) ∧ reader_ok r' ∧
   (r' = r ∨ Z.of_nat (map_size (chunks r')) <= max_chunks r ∨
    ∀ i, is_Some (chunks r' !! i) → offset / chunk_size r <= i <= (offset + len - 1) / chunk_size r)).
Proof. apply read_state. Qed.

Lemma ChunkReader_new_ok s3 u cs buf conc :
  reader_ok (ChunkReader_new s3 u (Z.of_nat (length data)) cs buf conc).
Proof.
  constructor; unfold ChunkReader_new; cbn [r_size chunk_size chunks order]; [done|lia| | |apply NoDup_nil_2].
  - intros i c Hc. by rewrite lookup_empty in Hc.
  - intros i. rewrite lookup_empty, elem_of_nil. split; [done|]. by intros [? ?].
Qed.
End Reader.

Definition read_url : Url :=
  {| kind := Remote; scheme := $"s3"; bucket := $"b"; path := $"k"; delimiter := $"/"; url_prefix := $"k";
     version_id := []; all_versions := false; start_after := []; relative_path := []; url_filter := [];
     filter_regex := None; raw := false |}.
Definition read_data : str := $"0123456789abcdef".
Definition read_world : MemWorld :=
  {| mem_fs := ∅; mem_s3 := <[($"b", $"k") := mkobj read_data 1]> ∅; mem_denied := []; mem_log := [] |}.

(** Chunks of four bytes, two of them cached. *)
Definition small_reader : ChunkReader (W := MemWorld) :=
  {| r_s3 := tt; r_url := read_url; r_size := 16; chunk_size := 4; max_chunks := 2; r_concurrency := 2;
     chunks := ∅; order := []; last_end := 0 |}.

Lemma small_reader_ok : reader_ok (W := MemWorld) read_data small_reader.
Proof.
  constructor; cbn [small_reader r_size chunk_size chunks order]; [done|done| | |apply NoDup_nil_2].
  - intros i c Hc. by rewrite lookup_empty in Hc.
  - intros i. rewrite lookup_empty, elem_of_nil. split; [done|]. by intros [? ?].
Qed.

Lemma small_reader_faithful :
  faithful_ranges (W := MemWorld) read_data
    (λ w, mem_s3 w !! ($"b", $"k") = Some (mkobj read_data 1) ∧ mem_denied w = []) small_reader.
Proof.
  intros start n w res w' [Hobj Hden]. cbn [s3_read_range mem_s3ops]. unfold mem_get, guard_bucket, mbind.
  rewrite Hden. rewrite bool_decide_false by (by intros ?%elem_of_nil).
  change (bucket (r_url small_reader), path (r_url small_reader)) with ($"b", $"k"). rewrite Hobj.
  intros [= <- <-]. split; [done|]. by intros d [= <-].
Qed.

Lemma read_exact_witness :
  (read (W := MemWorld) small_reader 3 6 read_world).1.1 = Ok ($"345678") ∧
  (read (W := MemWorld) small_reader 3 6 read_world).1.1 = Ok (slice read_data 3 6).
Proof.
  assert (Hok : (read (W := MemWorld) small_reader 3 6 read_world).1.1 = Ok ($"345678")) by vm_refl.
  split; [exact Hok|].
  destruct (read (W := MemWorld) small_reader 3 6 read_world) as [[res r'] w'] eqn:Hread. cbn [fst] in *.
  destruct (read_exact (W := MemWorld) read_data _ small_reader 3 6 read_world res r' w' small_reader_ok
    small_reader_faithful ltac:(split; vm_refl) ltac:(lia) ltac:(lia) Hread) as [(e & idxs & -> & _)|(Hres & _)].
  - discriminate Hok.
  - exact Hres.
Defined.
