(* ===== verification/Writer.v ===== *)
(** * The mount's write-back files (src/src/mount/writer.rs) *)

From S2P Require Import Prelude RustStr Strutil Url Storage Fs MemWorld.

Local Open Scope Z_scope.

Section Writer.
Context `{RegexLib} {W : Type} `{!Os W, !S3Ops W}.

(** The open [File] is named by [wr_path]. *)
Record Writer := {
  wr_s3 : S3;
  wr_path : str;
  wr_dst : Url;
  wr_size : Z;
  dirty : bool;
}.

Definition Writer_new (s3 : S3) (path : str) (dst : Url) (size : Z) (dirty : bool) : Writer :=
  {| wr_s3 := s3; wr_path := path; wr_dst := dst; wr_size := size; dirty := dirty |}.

Definition set_state (wr : Writer) (size : Z) (d : bool) : Writer :=
  {| wr_s3 := wr_s3 wr; wr_path := wr_path wr; wr_dst := wr_dst wr; wr_size := size; dirty := d |}.

Definition set_dst (wr : Writer) (dst : Url) : Writer :=
  {| wr_s3 := wr_s3 wr; wr_path := wr_path wr; wr_dst := dst; wr_size := wr_size wr; dirty := dirty wr |}.

(** Each operation returns its result and the writer after it. *)
Definition wr_write (wr : Writer) (offset : Z) (data : str) (w : W) : result Z Error * Writer * W :=
  match write_all_at (wr_path wr) data offset w with
  | (Err e, w) => (Err e, wr, w)
  | (Ok _, w) =>
      (Ok (Z.of_nat (length data) mod 2 ^ 32),
       set_state wr (Z.max (wr_size wr) (sat_add_u64 offset (Z.of_nat (length data)))) true, w)
  end.

Definition wr_read (wr : Writer) (offset size : Z) (w : W) : result str Error :=
  if offset >=? wr_size wr then Ok []
  else read_at (wr_path wr) offset (Z.min size (wr_size wr - offset)) w.

Definition wr_truncate (wr : Writer) (new_size : Z) (w : W) : result unit Error * Writer * W :=
  match set_len (wr_path wr) new_size w with
  | (Err e, w) => (Err e, wr, w)
  | (Ok _, w) => (Ok tt, set_state wr new_size true, w)
  end.

Definition flush (wr : Writer) (w : W) : result unit Error * Writer * W :=
  if negb (dirty wr) then (Ok tt, wr, w)
  else
    match (let! _ := sync_all (wr_path wr) in
           s3_upload (wr_s3 wr) (wr_path wr) (wr_dst wr) Metadata_default) w with
    | (Err e, w) => (Err e, wr, w)
    | (Ok _, w) => (Ok tt, set_state wr (wr_size wr) false, w)
    end.

(** [Drop]: the cache file goes once its bytes are safe. *)
Definition drop_writer (wr : Writer) (w : W) : W :=
  if dirty wr then w else snd (remove_file (wr_path wr) w).
End Writer.

(** ** What the system promises of open files and uploads *)

Class FileLaws `{RegexLib} (W : Type) `{!Os W, !S3Ops W} := {
  (** the bytes of a file, and of an object *)
  file_bytes : W → str → option str;
  object_bytes : W → Url → option str;
  write_all_at_Ok : ∀ p d off w w' f, write_all_at p d off w = (Ok tt, w') → file_bytes w p = Some f →
    file_bytes w' p = Some (write_at zero_byte f off d);
  read_at_Ok : ∀ p off n w f, file_bytes w p = Some f → read_at p off n w = Ok (slice f off n);
  set_len_Ok : ∀ p n w w' f, set_len p n w = (Ok tt, w') → file_bytes w p = Some f →
    file_bytes w' p = Some (resize zero_byte f n);
  sync_all_keeps : ∀ p w r w' q, sync_all p w = (r, w') → file_bytes w' q = file_bytes w q;
  upload_keeps : ∀ s p dst md w r w' q, s3_upload s p dst md w = (r, w') → file_bytes w' q = file_bytes w q;
  upload_Ok : ∀ s p dst md w w', is_remote dst = true → s3_upload s p dst md w = (Ok tt, w') →
    object_bytes w' dst = file_bytes w p;
}.

Section WriterSpec.
Context `{FileLaws}.

(** The specification a program on the mount sees: the bytes of the open file. *)
Inductive op := OpWrite (off : Z) (data : str) | OpTruncate (n : Z).

Definition apply_op (f : str) (o : op) : str :=
  match o with OpWrite off d => write_at zero_byte f off d | OpTruncate n => resize zero_byte f n end.

Definition op_ok (o : op) : Prop :=
  match o with
  | OpWrite off d => 0 <= off ∧ d ≠ [] ∧ off + Z.of_nat (length d) <= u64_max
  | OpTruncate n => in_u64 n
  end.

Definition run_op (wr : Writer) (o : op) (w : W) : result unit Error * Writer * W :=
  match o with
  | OpWrite off d =>
      let '(r, wr, w) := wr_write wr off d w in (match r with Ok _ => Ok tt | Err e => Err e end, wr, w)
  | OpTruncate n => wr_truncate wr n w
  end.

(** The operations in order, up to the first failure. *)
Fixpoint run_ops (wr : Writer) (os : list op) (w : W) : result unit Error * Writer * W :=
  match os with
  | [] => (Ok tt, wr, w)
  | o :: os => match run_op wr o w with
               | (Ok _, wr, w) => run_ops wr os w
               | r => r
               end
  end.

Definition writer_ok (wr : Writer) (w : W) (f : str) : Prop :=
  file_bytes w (wr_path wr) = Some f ∧ wr_size wr = Z.of_nat (length f).

Lemma run_op_ok wr o w wr' w' f :
  writer_ok wr w f → op_ok o → run_op wr o w = (Ok tt, wr', w') →
  writer_ok wr' w' (apply_op f o) ∧ dirty wr' = true ∧ wr_path wr' = wr_path wr ∧ wr_dst wr' = wr_dst wr.
Proof.
  intros [Hf Hs] Hok. destruct o as [off d|n]; cbn in *.
  - unfold wr_write. destruct (write_all_at (wr_path wr) d off w) as [[[]|e] w1] eqn:Hw; intros [= <- <-].
    split; [|done]. split; [by eapply write_all_at_Ok|]. cbn. unfold sat_add_u64.
    destruct Hok as (Hoff & Hd & Hmax).
    destruct (write_at_length zero_byte f off d Hoff) as [Hl|Hl]; [|done]. lia.
  - unfold wr_truncate. destruct (set_len (wr_path wr) n w) as [[[]|e] w1] eqn:Hw; intros [= <- <-].
    split; [|done]. split; [by eapply set_len_Ok|]. cbn. rewrite resize_length; [done|]. by destruct Hok.
Qed.

Lemma run_ops_ok wr os w wr' w' f :
  writer_ok wr w f → Forall op_ok os → run_ops wr os w = (Ok tt, wr', w') →
  writer_ok wr' w' (foldl apply_op f os) ∧ wr_path wr' = wr_path wr ∧ wr_dst wr' = wr_dst wr ∧
  (os ≠ [] → dirty wr' = true) ∧ (os = [] → wr' = wr ∧ w' = w).
Proof.
  revert wr w f. induction os as [|o os IH]; intros wr w f Hwr Hos; cbn [run_ops].
  - intros [= <- <-]. do 3 (split; [done|]). split; [intros Hn; by destruct Hn|done].
  - apply Forall_cons in Hos as [Ho Hos]. destruct (run_op wr o w) as [[[[]|e] wr1] w1] eqn:Hr; [|done].
    destruct (run_op_ok _ _ _ _ _ _ Hwr Ho Hr) as (Hwr1 & Hd1 & Hp1 & Hdst1). intros Hrun.
    destruct (IH _ _ _ Hwr1 Hos Hrun) as (Hok & Hp & Hdst & Hd & Hnil). split; [done|].
    split; [congruence|]. split; [congruence|]. split; [|done]. intros _.
    destruct os as [|o' os]; [|by apply Hd]. destruct (Hnil eq_refl) as [-> _]. done.
Qed.

Lemma wr_read_ok wr w f off n :
  writer_ok wr w f → 0 <= off → 0 <= n → wr_read wr off n w = Ok (slice f off n).
Proof.
  intros [Hf Hs] Hoff Hn. unfold wr_read. rewrite Hs. destruct (Z.geb_spec off (Z.of_nat (length f))).
  - f_equal. unfold slice. rewrite drop_ge by lia. by rewrite take_nil.
  - erewrite read_at_Ok by done. f_equal. unfold slice.
    destruct (Z.le_gt_cases n (Z.of_nat (length f) - off)).
    + f_equal. lia.
    + rewrite !take_ge; [done| |]; rewrite length_drop; lia.
Qed.

(** The bytes a clean writer stands for are in its object. *)
Definition synced (wr : Writer) (w : W) (f : str) : Prop :=
  dirty wr = false → object_bytes w (wr_dst wr) = Some f.

Lemma flush_ok wr w f r wr' w' :
  writer_ok wr w f → synced wr w f → is_remote (wr_dst wr) = true → flush wr w = (r, wr', w') →
  writer_ok wr' w' f ∧ synced wr' w' f ∧ wr_path wr' = wr_path wr ∧ wr_dst wr' = wr_dst wr ∧
  (dirty wr' = false ↔ r = Ok tt).
Proof.
  intros [Hf Hs] Hsy Hrem. unfold flush. destruct (dirty wr) eqn:Hd; cbn [negb].
  2:{ intros [= <- <- <-]. split_and!; [by split|done|done|done|by rewrite Hd]. }
  unfold mbind. destruct (sync_all (wr_path wr) w) as [[[]|e] w3] eqn:Hsync;
    pose proof (sync_all_keeps _ _ _ _ (wr_path wr) Hsync) as Hk.
  2:{ intros [= <- <- <-]. rewrite Hd.
      split_and!; [split; [by rewrite Hk|done]|by unfold synced; rewrite Hd|done|done|done]. }
  destruct (s3_upload (wr_s3 wr) (wr_path wr) (wr_dst wr) Metadata_default w3) as [[[]|e] w4] eqn:Hup;
    pose proof (upload_keeps _ _ _ _ _ _ _ (wr_path wr) Hup) as Hk2; intros [= <- <- <-]; cbn.
  - split_and!; [split; [cbn; by rewrite Hk2, Hk|done]|intros _; cbn|done|done|done].
    by rewrite (upload_Ok _ _ _ _ _ _ Hrem Hup), Hk.
  - rewrite Hd. split_and!; [split; [by rewrite Hk2, Hk|done]|by unfold synced; rewrite Hd|done|done|done].
Qed.

End WriterSpec.

(** ** In the concrete world *)

#[export] Program Instance mem_file_laws : FileLaws MemWorld := {
  file_bytes w p := n_body <$> mem_file p w;
  object_bytes w u := o_body <$> mem_s3 w !! (bucket u, path u);
}.
Next Obligation.
  intros p d off w w' f. cbn. destruct (mem_file p w) as [n|] eqn:Hn; [|done].
  intros [= <-] [= <-]. unfold mem_file in *. cbn. rewrite lookup_insert_eq. cbn.
  destruct (mem_fs w !! p); [|done]. destruct (ft_is_file _) eqn:Hft; [|done].
  injection Hn as ->. by rewrite Hft.
Qed.
Next Obligation. intros p off n w f. cbn. destruct (mem_file p w); [|done]. by intros [= <-]. Qed.
Next Obligation.
  intros p k w w' f. cbn. destruct (mem_file p w) as [n|] eqn:Hn; [|done].
  intros [= <-] [= <-]. unfold mem_file in *. cbn. rewrite lookup_insert_eq. cbn.
  destruct (mem_fs w !! p); [|done]. destruct (ft_is_file _) eqn:Hft; [|done].
  injection Hn as ->. by rewrite Hft.
Qed.
Next Obligation. by intros p w r w' q [= _ <-]. Qed.
Next Obligation.
  intros s p dst md w r w' q. cbn. destruct (mem_file p w); [|by intros [= _ <-]].
  unfold mem_set, guard_bucket. by destruct (bool_decide _); intros [= _ <-].
Qed.
Next Obligation.
  intros s p dst md w w' _. cbn. destruct (mem_file p w); [|done].
  unfold mem_set, guard_bucket. destruct (bool_decide _); [done|]. intros [= <-]. cbn.
  by rewrite lookup_insert_eq.
Qed.

Definition cache_world : MemWorld :=
  {| mem_fs := <[$"/c" := mkfile ($"abcdef") 0]> ∅; mem_s3 := ∅; mem_denied := []; mem_log := [] |}.

Definition write_dst : Url :=
  {| kind := Remote; scheme := $"s3"; bucket := $"b"; path := $"k"; delimiter := $"/"; url_prefix := $"k";
     version_id := []; all_versions := false; start_after := []; relative_path := []; url_filter := [];
     filter_regex := None; raw := false |}.

Definition cache_writer : Writer (W := MemWorld) := Writer_new (W := MemWorld) tt ($"/c") write_dst 6 false.
Definition cache_ops : list op := [OpTruncate 3; OpWrite 4 ($"XY"); OpWrite 0 ($"_")].

