(* ===== verification/Vfs.v ===== *)
(** * The mount's virtual filesystem (src/src/mount/vfs.rs)

    The handlers of the mount over its inode table, caches and open files. A handler
    runs in [V], the monad [M] over the filesystem's state and the world; handlers are
    sequential. An open file's reader or writer is shared by reference in the code and
    lives in [handles] only, so an update of that entry is an update of every alias. *)

From S2P Require Import Prelude RustStr Strutil Url Storage Fs Tasks Inode Reader Writer.

Local Open Scope Z_scope.

(** [Instant::now] and [SystemTime::now]. *)
Class Clocks (W : Type) := {
  instant : W → Z * W;
  system_time : W → Z * W;
}.

Record Attr := { a_ino : Z; a_kind : NodeKind; a_size : Z; a_mtime : Z }.
Record DirEntry := { de_ino : Z; de_name : str; de_kind : NodeKind }.

Record VfsConfig := {
  attr_ttl : Z;
  dir_ttl : Z;
  cfg_uid : Z;
  cfg_gid : Z;
  cfg_chunk_size : Z;
  cfg_buffer_size : Z;
  cfg_concurrency : Z;
}.

Definition DirNotEmpty : Error := typed_error TDirNotEmpty ($"directory not empty").
Definition AlreadyExists : Error := typed_error TAlreadyExists ($"already exists").

Definition O_RDONLY : Z := 0.
Definition O_ACCMODE : Z := 3.
Definition O_TRUNC : Z := 512.

Section Vfs.
Context `{RegexLib} {W : Type} `{!Os W, !S3Ops W, !Unordered, !Clocks W}.

Inductive HandleKind := HRead (r : ChunkReader (W := W)) | HWrite (w : Writer (W := W)).

Record OpenFile := { of_ino : Z; of_kind : HandleKind }.

Record Vfs := {
  v_s3 : S3;
  v_bucket : str;
  v_cfg : VfsConfig;
  cache_dir : str;
  start_time : Z;
  inodes : InodeTable;
  attr_cache : gmap Z (Attr * Z);
  dir_cache : gmap Z (list DirEntry * Z);
  handles : gmap Z OpenFile;
  dirty_sizes : gmap Z (Z * Z);
  next_fh : Z;
}.

(** The order in which the [HashMap] of handles is walked. *)
Class HandleOrder := {
  handle_iter : gmap Z OpenFile → list (Z * OpenFile);
  handle_iter_perm : ∀ m, handle_iter m ≡ₚ map_to_list m;
}.
Context `{!NodeOrder, !HandleOrder}.

Definition Vfs_new (s3 : S3) (bucket root_prefix cache_dir : str) (cfg : VfsConfig) (now : Z) : Vfs :=
  {| v_s3 := s3; v_bucket := bucket; v_cfg := cfg; cache_dir := cache_dir; start_time := now;
     inodes := InodeTable_new root_prefix; attr_cache := ∅; dir_cache := ∅; handles := ∅;
     dirty_sizes := ∅; next_fh := 0 |}.

(** ** The monad, and the fields *)

Definition V (A : Type) : Type := M (Vfs * W) A.

Definition reads {A} (f : Vfs → A) : V A := λ s, (Ok (f s.1), s).
Definition modify (f : Vfs → Vfs) : V unit := λ s, (Ok tt, (f s.1, s.2)).
Definition lift {A} (m : W → result A Error * W) : V A := λ s,
  let '(r, w) := m s.2 in (r, (s.1, w)).
Definition reading (m : W → Z * W) : V Z := λ s, let '(t, w) := m s.2 in (Ok t, (s.1, w)).
(** A result to match on. *)
Definition try {A} (m : V A) : V (result A Error) := λ s, let '(r, s) := m s in (Ok r, s).

Definition set_inodes (t : InodeTable) (v : Vfs) : Vfs :=
  {| v_s3 := v_s3 v; v_bucket := v_bucket v; v_cfg := v_cfg v; cache_dir := cache_dir v;
     start_time := start_time v; inodes := t; attr_cache := attr_cache v; dir_cache := dir_cache v;
     handles := handles v; dirty_sizes := dirty_sizes v; next_fh := next_fh v |}.
Definition set_attrs (c : gmap Z (Attr * Z)) (v : Vfs) : Vfs :=
  {| v_s3 := v_s3 v; v_bucket := v_bucket v; v_cfg := v_cfg v; cache_dir := cache_dir v;
     start_time := start_time v; inodes := inodes v; attr_cache := c; dir_cache := dir_cache v;
     handles := handles v; dirty_sizes := dirty_sizes v; next_fh := next_fh v |}.
Definition set_dirs (c : gmap Z (list DirEntry * Z)) (v : Vfs) : Vfs :=
  {| v_s3 := v_s3 v; v_bucket := v_bucket v; v_cfg := v_cfg v; cache_dir := cache_dir v;
     start_time := start_time v; inodes := inodes v; attr_cache := attr_cache v; dir_cache := c;
     handles := handles v; dirty_sizes := dirty_sizes v; next_fh := next_fh v |}.
Definition set_handles (h : gmap Z OpenFile) (v : Vfs) : Vfs :=
  {| v_s3 := v_s3 v; v_bucket := v_bucket v; v_cfg := v_cfg v; cache_dir := cache_dir v;
     start_time := start_time v; inodes := inodes v; attr_cache := attr_cache v; dir_cache := dir_cache v;
     handles := h; dirty_sizes := dirty_sizes v; next_fh := next_fh v |}.
Definition set_dirty (d : gmap Z (Z * Z)) (v : Vfs) : Vfs :=
  {| v_s3 := v_s3 v; v_bucket := v_bucket v; v_cfg := v_cfg v; cache_dir := cache_dir v;
     start_time := start_time v; inodes := inodes v; attr_cache := attr_cache v; dir_cache := dir_cache v;
     handles := handles v; dirty_sizes := d; next_fh := next_fh v |}.
Definition set_next_fh (n : Z) (v : Vfs) : Vfs :=
  {| v_s3 := v_s3 v; v_bucket := v_bucket v; v_cfg := v_cfg v; cache_dir := cache_dir v;
     start_time := start_time v; inodes := inodes v; attr_cache := attr_cache v; dir_cache := dir_cache v;
     handles := handles v; dirty_sizes := dirty_sizes v; next_fh := n |}.

(** ** Helpers *)

Definition node (ino : Z) : V Node :=
  let! n := reads (λ v, get (inodes v) ino) in
  match n with Some n => mret n | None => mfail (ObjectNotFound ($"inode " ++ to_string ino)) end.

Definition vfs_intern (k : str) (kind : NodeKind) (parent : Z) : V Z := λ s,
  let '(ino, t) := intern (inodes s.1) k kind parent in (Ok ino, (set_inodes t s.1, s.2)).

Definition vfs_forget (ino : Z) : V unit := modify (λ v, set_inodes (forget (inodes v) ino) v).
Definition vfs_rekey (ino : Z) (k : str) : V unit := modify (λ v, set_inodes (rekey (inodes v) ino k) v).

(** [fetch_add] wraps around. *)
Definition alloc_fh : V Z :=
  let! n := reads next_fh in
  let! _ := modify (set_next_fh ((n + 1) mod 2 ^ 64)) in
  mret ((n + 1) mod 2 ^ 64).

Definition parse_url (s : str) : result Url Error := result_map_err anyhow (parse s).

Definition list_url (prefix : str) : V Url :=
  let! b := reads v_bucket in mlift (parse_url ($"s3://" ++ b ++ $"/" ++ prefix)).

Definition list_url_recursive (prefix : str) : V Url :=
  let! u := list_url prefix in mret (with_delimiter u []).

Definition obj_url (k : str) : V Url :=
  let! b := reads v_bucket in mlift (parse_url ($"s3://" ++ b ++ $"/" ++ k)).

Definition dir_attr (ino : Z) : V Attr :=
  let! t := reads start_time in mret {| a_ino := ino; a_kind := KDir; a_size := 0; a_mtime := t |}.

Definition file_attr (ino size mtime : Z) : Attr :=
  {| a_ino := ino; a_kind := KFile; a_size := size; a_mtime := mtime |}.

(** [t.elapsed()] saturates at zero. *)
Definition fresh {A} (ttl : VfsConfig → Z) (e : option (A * Z)) : V (option A) :=
  match e with
  | None => mret None
  | Some (a, t) =>
      let! now := reading instant in
      let! cfg := reads v_cfg in
      mret (if Z.max 0 (now - t) <? ttl cfg then Some a else None)
  end.

Definition cached_attr (ino : Z) : V (option Attr) :=
  let! e := reads (λ v, attr_cache v !! ino) in fresh attr_ttl e.

Definition store_attr (a : Attr) : V unit :=
  let! now := reading instant in modify (λ v, set_attrs (<[a_ino a := (a, now)]> (attr_cache v)) v).

Definition invalidate_attr (ino : Z) : V unit := modify (λ v, set_attrs (delete ino (attr_cache v)) v).

Definition cached_dir (ino : Z) : V (option (list DirEntry)) :=
  let! e := reads (λ v, dir_cache v !! ino) in fresh dir_ttl e.

Definition store_dir (ino : Z) (es : list DirEntry) : V unit :=
  let! now := reading instant in modify (λ v, set_dirs (<[ino := (es, now)]> (dir_cache v)) v).

Definition invalidate_dir (ino : Z) : V unit := modify (λ v, set_dirs (delete ino (dir_cache v)) v).

Definition set_dirty_size (ino size : Z) : V unit :=
  let! now := reading system_time in modify (λ v, set_dirty (<[ino := (size, now)]> (dirty_sizes v)) v).

Definition dirty_entry (ino : Z) : V (option (Z * Z)) := reads (λ v, dirty_sizes v !! ino).

Definition clear_dirty_size (ino : Z) : V unit := modify (λ v, set_dirty (delete ino (dirty_sizes v)) v).

Definition insert_handle (fh : Z) (f : OpenFile) : V unit :=
  modify (λ v, set_handles (<[fh := f]> (handles v)) v).

Definition write_handle_of (fh : Z) : V (Z * Writer) :=
  let! f := reads (λ v, handles v !! fh) in
  match f with
  | Some {| of_ino := ino; of_kind := HWrite w |} => mret (ino, w)
  | Some _ => mfail (anyhow ($"handle " ++ to_string fh ++ $" is not open for writing"))
  | None => mfail (anyhow ($"unknown handle " ++ to_string fh))
  end.

Definition is_writer_of (ino : Z) (f : OpenFile) : option Writer :=
  match of_kind f with HWrite w => if of_ino f =? ino then Some w else None | HRead _ => None end.

(** The writer, and the handle under which it is shared. *)
Definition find_write_handle (ino : Z) (fh : option Z) : V (option (Z * Writer)) := reads (λ v,
  match (fh ≫= λ fh, handles v !! fh ≫= λ f, (fh,.) <$> is_writer_of ino f) with
  | Some hw => Some hw
  | None => head (omap (λ '(h, f), (h,.) <$> is_writer_of ino f) (handle_iter (handles v)))
  end).

(** An operation on the writer of a handle, which keeps what it leaves. *)
Definition on_writer {A} (fh ino : Z) (op : Writer → W → result A Error * Writer * W) (w : Writer)
  : V (A * Writer) := λ s,
  let '(r, w, world) := op w s.2 in
  let s := (set_handles (<[fh := {| of_ino := ino; of_kind := HWrite w |}]> (handles s.1)) s.1, world) in
  match r with Ok a => (Ok (a, w), s) | Err e => (Err e, s) end.

(** Open written children of a directory, with their names. *)
Definition dirty_children (ino : Z) : V (list (Z * str)) := reads (λ v,
  match get (inodes v) ino with
  | None => []
  | Some parent =>
      omap (λ '(_, f),
        match of_kind f with
        | HRead _ => None
        | HWrite _ =>
            match get (inodes v) (of_ino f) with
            | Some n =>
                if (nparent n =? ino) && negb (kind_is_dir (nkind n)) then
                  match strip_prefix (key parent) (key n) with
                  | Some name => if negb (bool_decide (name = [])) && negb (contains_chr is_slash name)
                                 then Some (of_ino f, name) else None
                  | None => None
                  end
                else None
            | None => None
            end
        end) (handle_iter (handles v))
  end).

(** Lists [dir_key] one level deep: the first object sent tells whether anything lives under it. *)
Definition prefix_exists (dir_key : str) : V bool :=
  let! u := list_url dir_key in
  let! s3 := reads v_s3 in
  let! objs := lift (λ w, let '(l, w) := s3_list s3 u w in (Ok l, w)) in
  match objs with
  | [] => mret false
  | obj :: _ =>
      match obj_err obj with
      | Some err => if is_no_object err then mret false else mfail err
      | None => mret true
      end
  end.

(** The loops over a listing's channel. *)
Fixpoint only_marker (dir_key : str) (objs : list Object) : result bool Error :=
  match objs with
  | [] => Ok true
  | obj :: objs =>
      match obj_err obj with
      | Some err => if is_no_object err then Ok true else Err err
      | None =>
          match url obj with
          | Some u => if bool_decide (path u = dir_key) then only_marker dir_key objs else Ok false
          | None => only_marker dir_key objs
          end
      end
  end.

Definition dir_is_empty (dir_key : str) : V bool :=
  let! u := list_url dir_key in
  let! s3 := reads v_s3 in
  let! objs := lift (λ w, let '(l, w) := s3_list s3 u w in (Ok l, w)) in
  mlift (only_marker dir_key objs).

Fixpoint listed_keys (objs : list Object) : result (list str) Error :=
  match objs with
  | [] => Ok []
  | obj :: objs =>
      match obj_err obj with
      | Some err => if is_no_object err then Ok [] else Err err
      | None =>
          let? ks := listed_keys objs in
          Ok (match url obj with Some u => path u :: ks | None => ks end)
      end
  end.

(** ** Attributes *)

Definition getattr (ino : Z) : V Attr :=
  let! n := node ino in
  match nkind n with
  | KDir => dir_attr ino
  | KFile =>
      let! d := dirty_entry ino in
      match d with
      | Some (size, mtime) => mret (file_attr ino size mtime)
      | None =>
          let! c := cached_attr ino in
          match c with
          | Some a => mret a
          | None =>
              let! u := obj_url (key n) in
              let! s3 := reads v_s3 in
              let! obj := lift (s3_stat s3 u) in
              let! t := reads start_time in
              let attr := file_attr ino (Z.max (size obj) 0) (default t (mod_time obj)) in
              let! _ := store_attr attr in
              mret attr
          end
      end
  end.

(** The slow path of [lookup]: a file, else a directory. *)
Definition probe (pnode : Node) (parent : Z) (name : str) : V Attr :=
  let file_key := key pnode ++ name in
  let! u := obj_url file_key in
  let! s3 := reads v_s3 in
  let! r := try (lift (s3_stat s3 u)) in
  match r with
  | Ok obj =>
      let! cino := vfs_intern file_key KFile parent in
      let! t := reads start_time in
      let attr := file_attr cino (Z.max (size obj) 0) (default t (mod_time obj)) in
      let! _ := store_attr attr in
      mret attr
  | Err e =>
      if is_not_found e then
        let dir_key := key pnode ++ name ++ $"/" in
        let! found := prefix_exists dir_key in
        if found then let! cino := vfs_intern dir_key KDir parent in dir_attr cino
        else mfail (ObjectNotFound name)
      else mfail e
  end.

Definition vfs_lookup (parent : Z) (name : str) : V Attr :=
  let! pnode := node parent in
  if negb (kind_is_dir (nkind pnode)) then mfail (ObjectNotFound name)
  else
    let! pending := reads (λ v, match lookup_key (inodes v) (key pnode ++ name) with
                                | Some ino => if bool_decide (is_Some (dirty_sizes v !! ino)) then Some ino else None
                                | None => None
                                end) in
    match pending with
    | Some ino => getattr ino
    | None =>
        let! entries := cached_dir parent in
        match entries ≫= List.find (λ e, bool_decide (de_name e = name)) with
        | Some e => getattr (de_ino e)
        | None => probe pnode parent name
        end
    end.

(** ** Listing a directory *)

Record DirScan := { ds_entries : list DirEntry; ds_attrs : list Attr; ds_seen : gset str }.

Definition entry (ino : Z) (name : str) (k : NodeKind) : DirEntry :=
  {| de_ino := ino; de_name := name; de_kind := k |}.

(** One object of the listing: interned and added, unless its name was seen. *)
Definition scan_object (n : Node) (ino : Z) (obj : Object) (u : Url) (d : DirScan) : V DirScan :=
  let rel := default (path u) (strip_prefix (key n) (path u)) in
  if bool_decide (rel = []) then mret d
  else match typ obj with
  | Dir =>
      let name := trim_end_matches is_slash rel in
      if bool_decide (name = []) || bool_decide (name ∈ ds_seen d) then mret d
      else
        let! cino := vfs_intern (key n ++ name ++ $"/") KDir ino in
        let! a := dir_attr cino in
        mret {| ds_entries := ds_entries d ++ [entry cino name KDir]; ds_attrs := ds_attrs d ++ [a];
                ds_seen := {[name]} ∪ ds_seen d |}
  | File =>
      if bool_decide (rel ∈ ds_seen d) then mret d
      else
        let! cino := vfs_intern (key n ++ rel) KFile ino in
        let! t := reads start_time in
        mret {| ds_entries := ds_entries d ++ [entry cino rel KFile];
                ds_attrs := ds_attrs d ++ [file_attr cino (Z.max (size obj) 0) (default t (mod_time obj))];
                ds_seen := {[rel]} ∪ ds_seen d |}
  | _ => mret d
  end.

Fixpoint scan (n : Node) (ino : Z) (objs : list Object) (d : DirScan) : V DirScan :=
  match objs with
  | [] => mret d
  | obj :: objs =>
      match obj_err obj with
      | Some err => if is_no_object err then mret d else mfail err
      | None =>
          match url obj with
          | None => scan n ino objs d
          | Some u => let! d := scan_object n ino obj u d in scan n ino objs d
          end
      end
  end.

(** Merging the open written files in. *)
Definition merge_dirty (d : DirScan) (c : Z * str) : DirScan :=
  if bool_decide (c.2 ∈ ds_seen d) then d
  else {| ds_entries := ds_entries d ++ [entry c.1 c.2 KFile]; ds_attrs := ds_attrs d;
          ds_seen := {[c.2]} ∪ ds_seen d |}.

Fixpoint store_attrs (l : list Attr) : V unit :=
  match l with [] => mret tt | a :: l => let! _ := store_attr a in store_attrs l end.

Definition vfs_readdir (ino : Z) : V (list DirEntry) :=
  let! n := node ino in
  if negb (kind_is_dir (nkind n)) then mfail (ObjectNotFound ($"inode " ++ to_string ino))
  else
    let! c := cached_dir ino in
    match c with
    | Some entries => mret entries
    | None =>
        let! u := list_url (key n) in
        let! s3 := reads v_s3 in
        let! objs := lift (λ w, let '(l, w) := s3_list s3 u w in (Ok l, w)) in
        let! d := scan n ino objs {| ds_entries := []; ds_attrs := []; ds_seen := ∅ |} in
        let! children := dirty_children ino in
        let d := foldl merge_dirty d children in
        let! _ := store_attrs (ds_attrs d) in
        let! _ := store_dir ino (ds_entries d) in
        mret (ds_entries d)
    end.

(** ** Reading *)

Definition vfs_read (ino offset size : Z) : V str :=
  let! n := node ino in
  if kind_is_dir (nkind n) then mfail (ObjectNotFound ($"inode " ++ to_string ino ++ $" is a directory"))
  else
    let! attr := getattr ino in
    if offset >=? a_size attr then mret []
    else
      let len := Z.min size (a_size attr - offset) in
      let! u := obj_url (key n) in
      let! s3 := reads v_s3 in
      lift (s3_read_range s3 u offset len).

(** A read of the reader of a handle, which keeps what it leaves. *)
Definition on_reader (fh ino offset size : Z) (r : ChunkReader) : V str := λ s,
  let '(res, r, w) := Reader.read r offset size s.2 in
  (res, (set_handles (<[fh := {| of_ino := ino; of_kind := HRead r |}]> (handles s.1)) s.1, w)).

Definition read_handle (ino fh offset size : Z) : V str :=
  let! f := reads (λ v, handles v !! fh) in
  match f with
  | Some {| of_ino := hino; of_kind := HRead r |} => on_reader fh hino offset size r
  | Some {| of_kind := HWrite w |} => λ s, (wr_read w offset size s.2, s)
  | None => vfs_read ino offset size
  end.

(** ** Opening and creating *)

Definition is_writing (flags : Z) : bool :=
  negb (Z.land flags O_ACCMODE =? O_RDONLY) || negb (Z.land flags O_TRUNC =? 0).

Definition open_cache_file (path : str) (truncate : bool) : V unit := lift (open_create path truncate).

(** [let _ =] an operation of the world. *)
Definition ignoring (m : M W unit) : V unit := λ s, (Ok tt, (s.1, (m s.2).2)).

Definition open_reader (n : Node) (ino fh : Z) : V Z :=
  let! attr := getattr ino in
  let! u := obj_url (key n) in
  let! s3 := reads v_s3 in
  let! cfg := reads v_cfg in
  let r := ChunkReader_new s3 u (a_size attr) (cfg_chunk_size cfg) (cfg_buffer_size cfg) (cfg_concurrency cfg) in
  let! _ := insert_handle fh {| of_ino := ino; of_kind := HRead r |} in
  mret fh.

(** The cache file of a writing open: its size, and whether it must be uploaded. *)
Definition fill_cache (dst : Url) (cache_path : str) (trunc : bool) : V (Z * bool) :=
  let empty := let! _ := open_cache_file cache_path true in mret (0, true) in
  if trunc then empty
  else
    let! s3 := reads v_s3 in
    let! st := try (lift (s3_stat s3 dst)) in
    match st with
    | Ok _ =>
        let! dl := try (lift (s3_download s3 dst cache_path)) in
        match dl with
        | Ok _ =>
            let! _ := open_cache_file cache_path false in
            λ s, (Ok (match metadata cache_path s.2 with Ok m => len m | Err _ => 0 end, false), s)
        | Err e =>
            let! _ := ignoring (remove_file cache_path) in
            if is_not_found e then empty else mfail e
        end
    | Err e => if is_not_found e then empty else mfail e
    end.

Definition store_size (ino size : Z) : V unit :=
  let! now := reading system_time in store_attr (file_attr ino size now).

Definition open_writer (n : Node) (ino fh flags : Z) : V Z :=
  let! dst := obj_url (key n) in
  let! dir := reads cache_dir in
  let cache_path := pathbuf_join dir ($"h" ++ to_string fh ++ $".tmp") in
  let! (size, dirty) := fill_cache dst cache_path (negb (Z.land flags O_TRUNC =? 0)) in
  let! s3 := reads v_s3 in
  let! _ := insert_handle fh {| of_ino := ino; of_kind := HWrite (Writer_new s3 cache_path dst size dirty) |} in
  let! _ := set_dirty_size ino size in
  let! _ := store_size ino size in
  mret fh.

Definition vfs_open (ino flags : Z) : V Z :=
  let! n := node ino in
  if kind_is_dir (nkind n) then mfail (ObjectNotFound ($"inode " ++ to_string ino ++ $" is a directory"))
  else
    let! fh := alloc_fh in
    if is_writing flags then open_writer n ino fh flags else open_reader n ino fh.

Definition vfs_create (parent : Z) (name : str) : V (Z * Z * Attr) :=
  let! pnode := node parent in
  if negb (kind_is_dir (nkind pnode)) then mfail (ObjectNotFound name)
  else
    let file_key := key pnode ++ name in
    let! ino := vfs_intern file_key KFile parent in
    let! fh := alloc_fh in
    let! dir := reads cache_dir in
    let cache_path := pathbuf_join dir ($"h" ++ to_string fh ++ $".tmp") in
    let! _ := open_cache_file cache_path true in
    let! s3 := reads v_s3 in
    let! dst := obj_url file_key in
    let! _ := insert_handle fh {| of_ino := ino; of_kind := HWrite (Writer_new s3 cache_path dst 0 true) |} in
    let! _ := set_dirty_size ino 0 in
    let! now := reading system_time in
    let attr := file_attr ino 0 now in
    let! _ := store_attr attr in
    let! _ := invalidate_dir parent in
    mret (ino, fh, attr).

(** ** Writing *)

Definition write_handle (fh offset : Z) (data : str) : V Z :=
  let! (ino, w) := write_handle_of fh in
  let! (_, w) := on_writer fh ino (λ w, wr_write w offset data) w in
  let! _ := set_dirty_size ino (wr_size w) in
  let! _ := store_size ino (wr_size w) in
  mret (Z.of_nat (length data) mod 2 ^ 32).

Definition flush_handle (fh : Z) : V unit :=
  let! h := try (write_handle_of fh) in
  match h with
  | Ok (ino, w) => let! _ := on_writer fh ino flush w in mret tt
  | Err _ => mret tt
  end.

Definition parent_of (ino : Z) : V Z := reads (λ v,
  match get (inodes v) ino with Some n => nparent n | None => ROOT_INODE end).

(** The writer is dropped when [release] returns. *)
Definition release_writer (ino : Z) (w : Writer) : V unit := λ s,
  let '(r, w, world) := flush w s.2 in
  let s := (s.1, world) in
  let '(r, s) :=
    match r with
    | Err e => (Err e, s)
    | Ok _ =>
        (let! _ := clear_dirty_size ino in
         let! _ := store_size ino (wr_size w) in
         let! p := parent_of ino in
         invalidate_dir p) s
    end in
  (r, (s.1, drop_writer w s.2)).

Definition release (fh : Z) : V unit :=
  let! f := reads (λ v, handles v !! fh) in
  let! _ := modify (λ v, set_handles (delete fh (handles v)) v) in
  match f with
  | Some {| of_ino := ino; of_kind := HWrite w |} => release_writer ino w
  | _ => mret tt
  end.

Definition truncate_object_inner (dst : Url) (cache_path : str) (new_size : Z) : V unit :=
  let! s3 := reads v_s3 in
  let! st := try (lift (s3_stat s3 dst)) in
  let! _ := match st with
            | Ok _ => lift (s3_download s3 dst cache_path)
            | Err e => if is_not_found e then lift (fs_write cache_path []) else mfail e
            end in
  let! _ := open_cache_file cache_path false in
  let! _ := lift (set_len cache_path new_size) in
  let! _ := lift (sync_all cache_path) in
  lift (s3_upload s3 cache_path dst Metadata_default).

Definition truncate_object (ino new_size : Z) : V unit :=
  let! n := node ino in
  let! dst := obj_url (key n) in
  let! id := alloc_fh in
  let! dir := reads cache_dir in
  let cache_path := pathbuf_join dir ($"t" ++ to_string id ++ $".tmp") in
  let! result := try (truncate_object_inner dst cache_path new_size) in
  let! _ := ignoring (remove_file cache_path) in
  let! _ := mlift result in
  store_size ino new_size.

Definition vfs_setattr (ino : Z) (size fh : option Z) : V Attr :=
  let! _ :=
    match size with
    | None => mret tt
    | Some new_size =>
        let! h := find_write_handle ino fh in
        match h with
        | Some (h, w) =>
            let! (_, w) := on_writer h ino (λ w, wr_truncate w new_size) w in
            let! _ := set_dirty_size ino (wr_size w) in
            store_size ino (wr_size w)
        | None => truncate_object ino new_size
        end
    end in
  getattr ino.

(** ** The namespace *)

Definition unlink (parent : Z) (name : str) : V unit :=
  let! pnode := node parent in
  let file_key := key pnode ++ name in
  let! u := obj_url file_key in
  let! s3 := reads v_s3 in
  let! _ := lift (s3_delete s3 u) in
  let! ino := reads (λ v, lookup_key (inodes v) file_key) in
  let! _ := match ino with
            | Some ino =>
                let! _ := invalidate_attr ino in
                let! _ := clear_dirty_size ino in
                vfs_forget ino
            | None => mret tt
            end in
  invalidate_dir parent.

Definition put_empty_object (k : str) : V unit :=
  let! u := obj_url k in
  let! id := alloc_fh in
  let! dir := reads cache_dir in
  let tmp := pathbuf_join dir ($"e" ++ to_string id ++ $".tmp") in
  let! _ := lift (fs_write tmp []) in
  let! s3 := reads v_s3 in
  let! res := try (lift (s3_upload s3 tmp u Metadata_default)) in
  let! _ := ignoring (remove_file tmp) in
  mlift res.

Definition mkdir (parent : Z) (name : str) : V Attr :=
  let! pnode := node parent in
  let file_key := key pnode ++ name in
  let dir_key := key pnode ++ name ++ $"/" in
  let! u := obj_url file_key in
  let! s3 := reads v_s3 in
  let! st := try (lift (s3_stat s3 u)) in
  match st with
  | Ok _ => mfail AlreadyExists
  | Err e =>
      if is_not_found e then
        let! found := prefix_exists dir_key in
        if found then mfail AlreadyExists
        else
          let! _ := put_empty_object dir_key in
          let! ino := vfs_intern dir_key KDir parent in
          let! _ := invalidate_dir parent in
          dir_attr ino
      else mfail e
  end.

Definition rmdir (parent : Z) (name : str) : V unit :=
  let! pnode := node parent in
  let dir_key := key pnode ++ name ++ $"/" in
  let! empty := dir_is_empty dir_key in
  if negb empty then mfail DirNotEmpty
  else
    let! u := obj_url dir_key in
    let! s3 := reads v_s3 in
    let! _ := lift (s3_delete s3 u) in
    let! ino := reads (λ v, lookup_key (inodes v) dir_key) in
    let! _ := match ino with
              | Some ino => let! _ := invalidate_dir ino in vfs_forget ino
              | None => mret tt
              end in
    invalidate_dir parent.

(** Re-points the open writer of a renamed file. *)
Definition repoint (ino : Z) (new_file : str) : V unit :=
  let! h := find_write_handle ino None in
  match h with
  | None => mret tt
  | Some (h, w) =>
      let! u := try (obj_url new_file) in
      match u with
      | Ok u => insert_handle h {| of_ino := ino; of_kind := HWrite (set_dst w u) |}
      | Err _ => mret tt
      end
  end.

Definition rename_file (parent newparent : Z) (old_file new_file : str) : V unit :=
  let! s3 := reads v_s3 in
  let! src := obj_url old_file in
  let! dst := obj_url new_file in
  let! _ := lift (s3_copy s3 src dst Metadata_default) in
  let! _ := lift (s3_delete s3 src) in
  let! stale_dest := reads (λ v, lookup_key (inodes v) new_file) in
  let! _ := match stale_dest with
            | Some d => let! _ := invalidate_attr d in vfs_forget d
            | None => mret tt
            end in
  let! src_ino := reads (λ v, lookup_key (inodes v) old_file) in
  let! _ := match src_ino with
            | Some ino =>
                let! _ := vfs_rekey ino new_file in
                let! _ := invalidate_attr ino in
                repoint ino new_file
            | None => mret tt
            end in
  let! _ := invalidate_dir parent in
  invalidate_dir newparent.

Definition copy_key (old_prefix new_prefix k : str) : V unit :=
  let suffix := default k (strip_prefix old_prefix k) in
  let! s3 := reads v_s3 in
  let! src := obj_url k in
  let! dst := obj_url (new_prefix ++ suffix) in
  lift (s3_copy s3 src dst Metadata_default).

Definition delete_key (k : str) : V unit :=
  let! s3 := reads v_s3 in
  let! u := obj_url k in
  lift (s3_delete s3 u).

Fixpoint for_each {A} (f : A → V unit) (l : list A) : V unit :=
  match l with [] => mret tt | a :: l => let! _ := f a in for_each f l end.

Definition rename_dir (parent newparent : Z) (name old_prefix new_prefix : str) : V unit :=
  let! found := prefix_exists old_prefix in
  if negb found then mfail (ObjectNotFound name)
  else
    let! u := list_url_recursive old_prefix in
    let! s3 := reads v_s3 in
    let! objs := lift (λ w, let '(l, w) := s3_list s3 u w in (Ok l, w)) in
    let! keys := mlift (listed_keys objs) in
    let! _ := for_each (copy_key old_prefix new_prefix) keys in
    let! _ := for_each delete_key keys in
    let! affected := reads (λ v, fst (rekey_prefix (inodes v) old_prefix new_prefix)) in
    let! _ := modify (λ v, set_inodes (snd (rekey_prefix (inodes v) old_prefix new_prefix)) v) in
    let! _ := for_each invalidate_attr affected in
    let! _ := invalidate_dir parent in
    invalidate_dir newparent.

Definition rename (parent : Z) (name : str) (newparent : Z) (newname : str) : V unit :=
  let! pnode := node parent in
  let! npnode := node newparent in
  let old_file := key pnode ++ name in
  let new_file := key npnode ++ newname in
  let! u := obj_url old_file in
  let! s3 := reads v_s3 in
  let! st := try (lift (s3_stat s3 u)) in
  match st with
  | Ok _ => rename_file parent newparent old_file new_file
  | Err e =>
      if is_not_found e
      then rename_dir parent newparent name (key pnode ++ name ++ $"/") (key npnode ++ newname ++ $"/")
      else mfail e
  end.

End Vfs.
