(* ===== verification/FuseFs.v ===== *)
(** * The FUSE adapter (src/src/mount/fs.rs)

    Each kernel request is translated to the filesystem's handlers, and errors to
    errnos. The fuse3 reply types are reduced to the fields the adapter fills in. *)

From S2P Require Import Prelude RustStr Strutil Url Storage Fs Tasks Inode Reader Writer Vfs.

Local Open Scope Z_scope.

Definition ENOENT : Z := 2.
Definition EIO : Z := 5.
Definition EEXIST : Z := 17.
Definition EINVAL : Z := 22.
Definition EROFS : Z := 30.
Definition ENOTEMPTY : Z := 39.

Definition errno (e : Error) : Z :=
  if is_type TObjectNotFound e || is_type TNoObjectFound e then ENOENT
  else if is_type TDirNotEmpty e then ENOTEMPTY
  else if is_type TAlreadyExists e then EEXIST
  else EIO.

Inductive FuseType := Directory | RegularFile.

Definition fuse_kind (k : NodeKind) : FuseType := match k with KDir => Directory | KFile => RegularFile end.

Record FileAttr := {
  fa_ino : Z;
  fa_size : Z;
  fa_blocks : Z;
  fa_time : Z;
  fa_kind : FuseType;
  fa_perm : Z;
  fa_nlink : Z;
  fa_uid : Z;
  fa_gid : Z;
}.

Record S3Fuse := { read_only : bool; f_ttl : Z; f_uid : Z; f_gid : Z }.

Definition S3Fuse_new (cfg : VfsConfig) (ttl : Z) (read_only : bool) : S3Fuse :=
  {| read_only := read_only; f_ttl := ttl; f_uid := cfg_uid cfg; f_gid := cfg_gid cfg |}.

Definition to_file_attr (f : S3Fuse) (a : Attr) : FileAttr :=
  let '(perm, nlink) := match a_kind a with KDir => (493, 2) | KFile => (420, 1) end in
  {| fa_ino := a_ino a; fa_size := a_size a; fa_blocks := div_ceil (a_size a) 512; fa_time := a_mtime a;
     fa_kind := fuse_kind (a_kind a); fa_perm := perm; fa_nlink := nlink; fa_uid := f_uid f; fa_gid := f_gid f |}.

(** The requests of the kernel. *)
Inductive request :=
  | RLookup (parent : Z) (name : str)
  | RGetattr (ino : Z)
  | ROpendir (ino : Z)
  | RReaddir (parent offset : Z)
  | RReaddirplus (parent offset : Z)
  | ROpen (ino flags : Z)
  | RRead (ino fh offset size : Z)
  | RRelease (fh : Z)
  | RReleasedir (fh : Z)
  | RFlush (fh : Z)
  | RFsync (fh : Z)
  | RCreate (parent : Z) (name : str)
  | RWrite (fh offset : Z) (data : str)
  | RSetattr (ino : Z) (fh size : option Z)
  | RUnlink (parent : Z) (name : str)
  | RMkdir (parent : Z) (name : str)
  | RRmdir (parent : Z) (name : str)
  | RRename (parent : Z) (name : str) (new_parent : Z) (new_name : str).

(** One entry of a directory reply; [readdirplus] adds the attributes. *)
Record DirectoryEntry := {
  en_inode : Z;
  en_kind : FuseType;
  en_name : str;
  en_offset : Z;
  en_attr : option FileAttr;
}.

Inductive reply :=
  | Entry (a : FileAttr)
  | AttrReply (a : FileAttr)
  | Opened (fh : Z)
  | Data (d : str)
  | Created (a : FileAttr) (fh : Z)
  | Written (n : Z)
  | Entries (l : list DirectoryEntry)
  | Done.

Section FuseFs.
Context `{RegexLib} {W : Type} `{!Os W, !S3Ops W, !Unordered, !Clocks W, !NodeOrder, !HandleOrder}.

(** [Ok] replies, or an errno. *)
Definition F (A : Type) : Type := (Vfs (W := W) * W) → result A Z * (Vfs (W := W) * W).

Definition errno_of {A} (m : V A) : F A := λ s,
  match m s with (Ok a, s) => (Ok a, s) | (Err e, s) => (Err (errno e), s) end.

Definition fmap_ok {A B} (f : A → B) (m : F A) : F B := λ s,
  match m s with (Ok a, s) => (Ok (f a), s) | (Err e, s) => (Err e, s) end.

Definition with_name (n : str) {A} (k : str → F A) : F A := λ s,
  if is_utf8 n then k n s else (Err EINVAL, s).

Definition writable (f : S3Fuse) {A} (m : F A) : F A := λ s,
  if read_only f then (Err EROFS, s) else m s.

Definition dir_entries (ino : Z) : V (list (Z * str * NodeKind)) :=
  let! children := vfs_readdir ino in
  let! parent := parent_of ino in
  mret ((ino, $".", KDir) :: (parent, $"..", KDir) :: map (λ c, (de_ino c, de_name c, de_kind c)) children).

(** The entries from an offset on, numbered from [i]. *)
Fixpoint number_from (i : Z) (all : list (Z * str * NodeKind)) : list (Z * (Z * str * NodeKind)) :=
  match all with [] => [] | e :: all => (i, e) :: number_from (i + 1) all end.

Definition from_offset (offset : Z) (all : list (Z * str * NodeKind)) : list (Z * (Z * str * NodeKind)) :=
  List.filter (λ ie, negb (ie.1 <? offset)) (number_from 0 all).

Definition plain_entry (ie : Z * (Z * str * NodeKind)) : DirectoryEntry :=
  let '(i, (ino, name, k)) := ie in
  {| en_inode := ino; en_kind := fuse_kind k; en_name := name; en_offset := i + 1; en_attr := None |}.

Fixpoint plus_entries (f : S3Fuse) (l : list (Z * (Z * str * NodeKind))) : V (list DirectoryEntry) :=
  match l with
  | [] => mret []
  | (i, (ino, name, _)) :: l =>
      let! attr := getattr ino in
      let! rest := plus_entries f l in
      mret ({| en_inode := ino; en_kind := fuse_kind (a_kind attr); en_name := name; en_offset := i + 1;
               en_attr := Some (to_file_attr f attr) |} :: rest)
  end.

(** ** The handlers *)

Section Handlers.
Context (f : S3Fuse).

Definition fuse_lookup (parent : Z) (name : str) : F reply :=
  with_name name (λ name, fmap_ok (λ a, Entry (to_file_attr f a)) (errno_of (vfs_lookup parent name))).

Definition fuse_getattr (ino : Z) : F reply := fmap_ok (λ a, AttrReply (to_file_attr f a)) (errno_of (getattr ino)).

Definition fuse_opendir (ino : Z) : F reply := errno_of (mret (Opened 0)).

Definition fuse_readdir (parent offset : Z) : F reply :=
  fmap_ok (λ all, Entries (map plain_entry (from_offset offset all))) (errno_of (dir_entries parent)).

Definition fuse_readdirplus (parent offset : Z) : F reply :=
  fmap_ok Entries (errno_of (let! all := dir_entries parent in plus_entries f (from_offset offset all))).

Definition fuse_open (ino flags : Z) : F reply :=
  if read_only f && negb (Z.land flags O_ACCMODE =? O_RDONLY) then λ s, (Err EROFS, s)
  else fmap_ok Opened (errno_of (vfs_open ino flags)).

Definition fuse_read (ino fh offset size : Z) : F reply := fmap_ok Data (errno_of (read_handle ino fh offset size)).

Definition fuse_release (fh : Z) : F reply := fmap_ok (λ _, Done) (errno_of (release fh)).

Definition fuse_releasedir (fh : Z) : F reply := errno_of (mret Done).

Definition fuse_flush (fh : Z) : F reply := fmap_ok (λ _, Done) (errno_of (flush_handle fh)).

Definition fuse_fsync (fh : Z) : F reply := fmap_ok (λ _, Done) (errno_of (flush_handle fh)).

Definition fuse_create (parent : Z) (name : str) : F reply :=
  writable f (with_name name (λ name,
    fmap_ok (λ '(_, fh, a), Created (to_file_attr f a) fh) (errno_of (vfs_create parent name)))).

Definition fuse_write (fh offset : Z) (data : str) : F reply :=
  writable f (fmap_ok Written (errno_of (write_handle fh offset data))).

Definition fuse_setattr (ino : Z) (fh size : option Z) : F reply :=
  if read_only f && bool_decide (is_Some size) then λ s, (Err EROFS, s)
  else fmap_ok (λ a, AttrReply (to_file_attr f a)) (errno_of (vfs_setattr ino size fh)).

Definition fuse_unlink (parent : Z) (name : str) : F reply :=
  writable f (with_name name (λ name, fmap_ok (λ _, Done) (errno_of (unlink parent name)))).

Definition fuse_mkdir (parent : Z) (name : str) : F reply :=
  writable f (with_name name (λ name, fmap_ok (λ a, Entry (to_file_attr f a)) (errno_of (mkdir parent name)))).

Definition fuse_rmdir (parent : Z) (name : str) : F reply :=
  writable f (with_name name (λ name, fmap_ok (λ _, Done) (errno_of (rmdir parent name)))).

Definition fuse_rename (parent : Z) (name : str) (new_parent : Z) (new_name : str) : F reply :=
  writable f (with_name name (λ name, with_name new_name (λ new_name,
    fmap_ok (λ _, Done) (errno_of (rename parent name new_parent new_name))))).

(** What the session of fuse3 calls for each request. *)
Definition dispatch (q : request) : F reply :=
  match q with
  | RLookup parent name => fuse_lookup parent name
  | RGetattr ino => fuse_getattr ino
  | ROpendir ino => fuse_opendir ino
  | RReaddir parent offset => fuse_readdir parent offset
  | RReaddirplus parent offset => fuse_readdirplus parent offset
  | ROpen ino flags => fuse_open ino flags
  | RRead ino fh offset size => fuse_read ino fh offset size
  | RRelease fh => fuse_release fh
  | RReleasedir fh => fuse_releasedir fh
  | RFlush fh => fuse_flush fh
  | RFsync fh => fuse_fsync fh
  | RCreate parent name => fuse_create parent name
  | RWrite fh offset data => fuse_write fh offset data
  | RSetattr ino fh size => fuse_setattr ino fh size
  | RUnlink parent name => fuse_unlink parent name
  | RMkdir parent name => fuse_mkdir parent name
  | RRmdir parent name => fuse_rmdir parent name
  | RRename parent name new_parent new_name => fuse_rename parent name new_parent new_name
  end.
End Handlers.

(** The requests one after the other. *)
Fixpoint serve (f : S3Fuse) (qs : list request) (s : Vfs (W := W) * W) : list (result reply Z) * (Vfs (W := W) * W) :=
  match qs with
  | [] => ([], s)
  | q :: qs => let '(r, s) := dispatch f q s in let '(rs, s) := serve f qs s in (r :: rs, s)
  end.
End FuseFs.

(** From a request to the handler's body. *)
Ltac open_handler :=
  cbn [dispatch]; unfold fuse_lookup, fuse_getattr, fuse_opendir, fuse_readdir, fuse_readdirplus, fuse_open, fuse_read, fuse_release, fuse_releasedir, fuse_flush, fuse_fsync, fuse_create, fuse_write, fuse_setattr, fuse_unlink, fuse_mkdir, fuse_rmdir, fuse_rename;
  unfold with_name, writable.
Ltac open_handler_in H :=
  cbn [dispatch] in H; unfold fuse_lookup, fuse_getattr, fuse_opendir, fuse_readdir, fuse_readdirplus, fuse_open, fuse_read, fuse_release, fuse_releasedir, fuse_flush, fuse_fsync, fuse_create, fuse_write, fuse_setattr, fuse_unlink, fuse_mkdir, fuse_rmdir, fuse_rename in H;
  unfold with_name, writable, fmap_ok, errno_of in H.
