(* ===== verification/VfsSpec.v ===== *)
(** * The invariant of the mounted filesystem (mount/vfs.rs, mount/fs.rs) *)

From S2P Require Import Prelude RustStr Strutil Url Storage Fs Hoare Tasks Inode Reader Writer Vfs FuseFs.

Local Open Scope Z_scope.

(** A proper key of the mount: below the root's, which is [rk]. *)
Definition below (rk k : str) : Prop := ∃ c r, k = rk ++ c :: r.

Lemma below_app rk k s : below rk k ∨ k = rk → s ≠ [] → below rk (k ++ s).
Proof.
  intros [(c & r & ->)| ->] Hs; unfold below.
  - exists c, (r ++ s). by rewrite <-app_assoc.
  - destruct s as [|c s]; [done|]. by exists c, s.
Qed.

Lemma below_ne rk k : below rk k → k ≠ rk.
Proof. intros (c & r & ->) Heq%(f_equal length). rewrite length_app in Heq. cbn in Heq. lia. Qed.

Section VfsSpec.
Context `{RegexLib} {W : Type} `{!Os W, !S3Ops W, !Unordered, !Clocks W, !NodeOrder, !HandleOrder}.

Definition cache_path (v : Vfs (W := W)) (fh : Z) : str :=
  pathbuf_join (cache_dir v) ($"h" ++ to_string fh ++ $".tmp").

(** [rk] is the key of the root. *)
Record vfs_inv (rk : str) (v : Vfs (W := W)) : Prop := {
  vi_table : table_inv (inodes v);
  vi_next : ROOT_INODE < next (inodes v);
  vi_root : ∃ n, get (inodes v) ROOT_INODE = Some n ∧ key n = rk ∧ nkind n = KDir;
  vi_keys : ∀ ino n, get (inodes v) ino = Some n → ino ≠ ROOT_INODE → below rk (key n);
  vi_attrs : ∀ ino a t, attr_cache v !! ino = Some (a, t) → a_ino a = ino;
  vi_handles : ∀ fh f, handles v !! fh = Some f →
    0 < fh <= next_fh v ∧ ∀ w, of_kind f = HWrite w → wr_path w = cache_path v fh;
  vi_next_fh : 0 <= next_fh v < 2 ^ 64;
}.

Lemma Vfs_new_inv s3 b rk dir cfg now : vfs_inv rk (Vfs_new s3 b rk dir cfg now).
Proof.
  constructor; cbn; try done.
  - apply InodeTable_new_inv.
  - unfold get, InodeTable_new. cbn. eexists. by rewrite lookup_insert_eq.
  - intros ino n. unfold get, InodeTable_new. cbn. rewrite lookup_insert_Some.
    intros [[<- _]|[_ Hl]]; [done|]. by rewrite lookup_empty in Hl.
Qed.

(** The inodes alone. *)
Record tree_inv (rk : str) (t : InodeTable) : Prop := {
  ti_table : table_inv t;
  ti_next : ROOT_INODE < next t;
  ti_root : ∃ n, get t ROOT_INODE = Some n ∧ key n = rk ∧ nkind n = KDir;
  ti_keys : ∀ ino n, get t ino = Some n → ino ≠ ROOT_INODE → below rk (key n);
}.

Lemma inv_tree rk v : vfs_inv rk v → tree_inv rk (inodes v).
Proof. intros []. by constructor. Qed.

Lemma inv_set_inodes rk v t : vfs_inv rk v → tree_inv rk t → vfs_inv rk (set_inodes t v).
Proof. intros [] []. by constructor. Qed.

Lemma tree_root_key rk t ino n : tree_inv rk t → get t ino = Some n → below rk (key n) ∨ key n = rk.
Proof.
  intros Ht Hn. destruct (decide (ino = ROOT_INODE)) as [->|Hne].
  - destruct (ti_root _ _ Ht) as (m & Hm & <- & _). right. congruence.
  - left. by apply (ti_keys _ _ Ht ino).
Qed.

Lemma tree_below_not_root rk t k ino :
  tree_inv rk t → below rk k → lookup_key t k = Some ino → ino ≠ ROOT_INODE.
Proof.
  intros Ht Hk Hl ->. destruct (inv_key _ (ti_table _ _ Ht) _ _ Hl) as (n & Hn & <-).
  destruct (ti_root _ _ Ht) as (m & Hm & Hkm & _). unfold get in Hm.
  apply below_ne in Hk. apply Hk. congruence.
Qed.

Lemma tree_intern rk t k kind parent :
  tree_inv rk t → below rk k → tree_inv rk (snd (intern t k kind parent)).
Proof.
  intros [Ht Hx Hr Hk] Hb. pose proof (intern_inv t k kind parent Ht Hx) as Ht'.
  unfold intern in *. destruct (by_key t !! k) as [i|]; [done|]. cbn [snd] in *. constructor; [done|cbn [next]; lia| |].
  - destruct Hr as (n & Hn & Hrk). exists n. unfold get in *. cbn [nodes]. rewrite lookup_insert_ne; [done|lia].
  - intros ino n. unfold get. cbn. rewrite lookup_insert_Some. intros [[<- <-]|[_ Hl]]; [done|]. by apply Hk.
Qed.

Lemma tree_forget rk t ino : tree_inv rk t → ino ≠ ROOT_INODE → tree_inv rk (forget t ino).
Proof.
  intros [Ht Hx Hr Hk] Hne. pose proof (forget_inv t ino Ht) as Ht'. unfold forget in *.
  destruct (nodes t !! ino) as [n|]; [|done]. constructor; cbn; [done|done| |].
  - destruct Hr as (m & Hm & Hrk). exists m. unfold get in *. cbn. by rewrite lookup_delete_ne.
  - intros i m. unfold get. cbn. rewrite lookup_delete_Some. intros [_ Hl]. by apply Hk.
Qed.

Lemma tree_rekey rk t ino k :
  tree_inv rk t → ino ≠ ROOT_INODE → below rk k → lookup_key t k = None → tree_inv rk (rekey t ino k).
Proof.
  intros [Ht Hx Hr Hk] Hne Hb Hfree. pose proof (rekey_inv t ino k Ht (or_introl Hfree)) as Ht'. unfold rekey in *.
  destruct (nodes t !! ino) as [n|]; [|done]. constructor; cbn; [done|done| |].
  - destruct Hr as (m & Hm & Hrk). exists m. unfold get in *. cbn. by rewrite lookup_insert_ne.
  - intros i m. unfold get. cbn. rewrite lookup_insert_Some. intros [[<- <-]|[_ Hl]]; [done|]. by apply Hk.
Qed.

Lemma tree_rekey_prefix rk t old new :
  tree_inv rk t → below rk old → below rk new → dest_free t old new →
  tree_inv rk (snd (rekey_prefix t old new)).
Proof.
  intros [Ht Hx Hr Hk] Hold Hnew Hfree. destruct (rekey_prefix_ok t old new Ht Hfree) as (Ht' & Hn & Hget).
  constructor; [done|by rewrite Hn| |].
  - destruct Hr as (m & Hm & <- & Hkind). exists m. rewrite Hget, Hm. cbn.
    destruct (starts_with old (key m)) eqn:Hst; [|done]. exfalso.
    apply starts_with_true in Hst as [r Hst]. destruct Hold as (c & r' & ->).
    apply (f_equal length) in Hst. rewrite !length_app in Hst. cbn in Hst. lia.
  - intros ino n'. rewrite Hget. destruct (get t ino) as [n|] eqn:Hn'; [|done]. cbn. intros [= <-] Hne.
    destruct (starts_with old (key n)); [|by apply (Hk ino)]. cbn. unfold moved.
    destruct Hnew as (c & r & ->). unfold below. exists c, (r ++ drop (length old) (key n)).
    by rewrite <-app_assoc.
Qed.

(** ** What keeps the invariant, and the number of the next handle *)

Context (rk dir : str).
Implicit Types (s : Vfs (W := W) * W).

Definition I (n : Z) s : Prop := vfs_inv rk s.1 ∧ next_fh s.1 = n ∧ cache_dir s.1 = dir.

Lemma keeps_reads {A} n (f : Vfs → A) : keeps (I n) (reads f).
Proof. apply keeps_intro. by intros s r s' HI [= _ <-]. Qed.

Lemma gives_reads {A} n (f : Vfs → A) (φ : A → Prop) :
  (∀ v, vfs_inv rk v → φ (f v)) → gives (I n) (reads f) φ.
Proof. intros Hf s r s' HI [= <- <-]. split; [done|]. by apply Hf, HI. Qed.

Lemma gives_reads_at {A} n (f : Vfs → A) (φ : A → Prop) :
  (∀ s, I n s → φ (f s.1)) → gives (I n) (reads f) φ.
Proof. intros Hf s r s' HI [= <- <-]. split; [done|]. by apply Hf. Qed.

Lemma keeps_reading n m : keeps (I n) (reading m).
Proof. apply keeps_intro. intros [v w] r s' HI. unfold reading. cbn. destruct (m w). by intros [= _ <-]. Qed.

Lemma keeps_lift {A} n (m : W → result A Error * W) : keeps (I n) (lift m).
Proof. apply keeps_intro. intros [v w] r s' HI. unfold lift. cbn. destruct (m w). by intros [= _ <-]. Qed.

Lemma keeps_ignoring n (m : M W unit) : keeps (I n) (ignoring m).
Proof. apply keeps_intro. by intros s r s' HI [= _ <-]. Qed.

Lemma keeps_try {A} n (m : V A) : keeps (I n) m → keeps (I n) (try m).
Proof.
  intros Hm. apply keeps_intro. intros s r s' HI. unfold try. destruct (m s) as [x s1] eqn:Hr. intros [= _ <-].
  by eapply keeps_run.
Qed.

Lemma keeps_modify n f :
  (∀ v, vfs_inv rk v → next_fh v = n → cache_dir v = dir →
     vfs_inv rk (f v) ∧ next_fh (f v) = n ∧ cache_dir (f v) = dir) → keeps (I n) (modify f).
Proof. intros Hf. apply keeps_intro. intros s r s' (HI & Hn & Hd) [= _ <-]. by apply Hf. Qed.

Lemma keeps_attrs n (f : Vfs → gmap Z (Attr * Z)) :
  (∀ v, vfs_inv rk v → ∀ i a t, f v !! i = Some (a, t) → a_ino a = i) → keeps (I n) (modify (λ v, set_attrs (f v) v)).
Proof. intros Hf. apply keeps_modify. intros v Hv Hn Hd. split; [|done]. pose proof (Hf v Hv). destruct Hv. by constructor. Qed.

Lemma keeps_dirs n (f : Vfs → gmap Z (list DirEntry * Z)) : keeps (I n) (modify (λ v, set_dirs (f v) v)).
Proof. apply keeps_modify. intros v Hv Hn Hd. split; [|done]. destruct Hv. by constructor. Qed.

Lemma keeps_dirty n (f : Vfs → gmap Z (Z * Z)) : keeps (I n) (modify (λ v, set_dirty (f v) v)).
Proof. apply keeps_modify. intros v Hv Hn Hd. split; [|done]. destruct Hv. by constructor. Qed.

Lemma keeps_inodes n (f : Vfs → InodeTable) :
  (∀ v, vfs_inv rk v → tree_inv rk (f v)) → keeps (I n) (modify (λ v, set_inodes (f v) v)).
Proof. intros Hf. apply keeps_modify. intros v Hv Hn Hd. split; [|done]. by apply inv_set_inodes, Hf. Qed.

#[local] Hint Resolve keeps_reads keeps_reading keeps_lift keeps_ignoring keeps_dirs keeps_dirty keeps_try : keeps.

Lemma keeps_node n ino : gives (I n) (node ino) (λ nd, below rk (key nd) ∨ key nd = rk).
Proof.
  eapply gives_bind.
  - apply (gives_reads n _ (λ o, ∀ nd, o = Some nd → below rk (key nd) ∨ key nd = rk)).
    intros v Hv nd Hnd. by eapply tree_root_key, Hnd; apply inv_tree.
  - intros [nd|] Hnd; [apply gives_ret; by apply Hnd|apply gives_fail].
Qed.

Lemma keeps_intern n k kind parent : below rk k → keeps (I n) (vfs_intern k kind parent).
Proof.
  intros Hb. apply keeps_intro. intros [v w] r s' (HI & Hn & Hd). unfold vfs_intern. cbn.
  pose proof (tree_intern rk (inodes v) k kind parent (inv_tree _ _ HI) Hb) as Ht.
  destruct (intern (inodes v) k kind parent) as [i t]. intros [= _ <-].
  split; [|done]. by apply inv_set_inodes.
Qed.

Lemma gives_lookup_key n k :
  below rk k → gives (I n) (reads (λ v, lookup_key (inodes v) k)) (λ o, ∀ ino, o = Some ino → ino ≠ ROOT_INODE).
Proof. intros Hb. apply gives_reads. intros v Hv ino Hl. by eapply tree_below_not_root; [apply inv_tree| |]. Qed.

Lemma keeps_forget n ino : ino ≠ ROOT_INODE → keeps (I n) (vfs_forget ino).
Proof. intros Hne. apply keeps_inodes. intros v Hv. by apply tree_forget; [apply inv_tree|]. Qed.

Lemma keeps_store_attr n a : keeps (I n) (store_attr a).
Proof.
  apply keeps_bind; [auto with keeps|]. intros now. apply keeps_attrs. intros v Hv i b t.
  rewrite lookup_insert_Some. intros [[<- [= <- _]]|[_ Hl]]; [done|]. by apply (vi_attrs _ _ Hv _ _ t).
Qed.

Lemma keeps_invalidate_attr n ino : keeps (I n) (invalidate_attr ino).
Proof.
  apply keeps_attrs. intros v Hv i b t. rewrite lookup_delete_Some. intros [_ Hl].
  by apply (vi_attrs _ _ Hv _ _ t).
Qed.

Lemma keeps_fresh {A} n ttl (e : option (A * Z)) : keeps (I n) (fresh ttl e).
Proof. unfold fresh. keep. Qed.

Lemma keeps_cached_attr n ino : keeps (I n) (cached_attr ino).
Proof. unfold cached_attr. keep. apply keeps_fresh. Qed.

Lemma keeps_cached_dir n ino : keeps (I n) (cached_dir ino).
Proof. unfold cached_dir. keep. apply keeps_fresh. Qed.

Lemma keeps_obj_url n k : keeps (I n) (obj_url k).
Proof. unfold obj_url. keep. Qed.

Lemma keeps_list_url n k : keeps (I n) (list_url k).
Proof. unfold list_url. keep. Qed.

#[local] Hint Resolve keeps_intern keeps_forget keeps_store_attr keeps_invalidate_attr keeps_cached_attr
  keeps_cached_dir keeps_obj_url keeps_list_url : keeps.

Lemma keeps_node_only n ino : keeps (I n) (node ino).
Proof. eapply triple_conseq; [apply keeps_node|done|by intros ? ? []|done]. Qed.
#[local] Hint Resolve keeps_node_only : keeps.

Lemma keeps_getattr n ino : keeps (I n) (getattr ino).
Proof. unfold getattr, dir_attr, dirty_entry. keep. Qed.

Lemma keeps_prefix_exists n k : keeps (I n) (prefix_exists k).
Proof. unfold prefix_exists. keep. Qed.

Lemma keeps_dir_is_empty n k : keeps (I n) (dir_is_empty k).
Proof. unfold dir_is_empty. keep. Qed.

#[local] Hint Resolve keeps_getattr keeps_prefix_exists keeps_dir_is_empty : keeps.

(** A handler that starts from a proper node. *)
Lemma keeps_from_node {B} n ino (f : Node → V B) :
  (∀ nd, below rk (key nd) ∨ key nd = rk → keeps (I n) (f nd)) → keeps (I n) (mbind (node ino) f).
Proof. intros Hf. eapply keeps_gives; [apply keeps_node|exact Hf]. Qed.

Lemma keeps_lookup n parent name : name ≠ [] → keeps (I n) (vfs_lookup parent name).
Proof.
  intros Hname. apply keeps_from_node. intros nd Hnd. unfold probe, dir_attr.
  assert (below rk (key nd ++ name)) by by apply below_app.
  assert (below rk (key nd ++ name ++ $"/")) by (apply below_app; [done|by destruct name]).
  keep.
Qed.

Lemma keeps_scan_object n nd ino obj u d :
  below rk (key nd) ∨ key nd = rk → keeps (I n) (scan_object nd ino obj u d).
Proof.
  intros Hnd. unfold scan_object. cbv zeta. set (rel := default _ _). case_bool_decide; [keep|].
  destruct (typ obj); [| |keep..].
  - assert (below rk (key nd ++ rel)) by by apply below_app. keep.
  - case_bool_decide; [cbn [orb]; keep|]. set (name := trim_end_matches _ _) in *.
    assert (below rk (key nd ++ name ++ $"/")) by (apply below_app; [done|by destruct name]).
    unfold dir_attr. keep.
Qed.

Lemma keeps_scan n nd ino objs d :
  below rk (key nd) ∨ key nd = rk → keeps (I n) (scan nd ino objs d).
Proof.
  intros Hnd. revert d. induction objs as [|obj objs IH]; intros d; cbn [scan]; [keep|].
  pose proof (keeps_scan_object n nd ino). keep.
Qed.

Lemma keeps_store_attrs n l : keeps (I n) (store_attrs l).
Proof. induction l; cbn [store_attrs]; keep. Qed.

Lemma keeps_readdir n ino : keeps (I n) (vfs_readdir ino).
Proof.
  apply keeps_from_node. intros nd Hnd. pose proof (keeps_scan n nd ino). pose proof keeps_store_attrs.
  unfold store_dir, dirty_children. keep.
Qed.

(** ** Open files *)

Definition path_of (fh : Z) : str := pathbuf_join dir ($"h" ++ to_string fh ++ $".tmp").

(** A handle in use, and a writer that belongs under it. *)
Definition fits (n : Z) (fh : Z) (w : Writer (W := W)) : Prop := 0 < fh <= n ∧ wr_path w = path_of fh.

Lemma inv_fits n s fh ino w :
  I n s → handles s.1 !! fh = Some {| of_ino := ino; of_kind := HWrite w |} → fits n fh w.
Proof.
  intros (HI & <- & Hdir) Hl. destruct (vi_handles _ _ HI _ _ Hl) as [Hr Hp]. split; [done|].
  rewrite (Hp w eq_refl). unfold cache_path, path_of. by rewrite Hdir.
Qed.

Lemma keeps_insert_handle n fh f :
  0 < fh <= n → (∀ w, of_kind f = HWrite w → wr_path w = path_of fh) → keeps (I n) (insert_handle fh f).
Proof.
  intros Hfh Hf. apply keeps_modify. intros v Hv Hn Hd. split; [|done]. destruct Hv. constructor; try done.
  cbn. intros fh' f'. rewrite lookup_insert_Some. intros [[<- <-]|[_ Hl]]; [|by apply vi_handles0].
  split; [lia|]. intros w Hw. rewrite (Hf w Hw). unfold path_of, cache_path. cbn. by rewrite Hd.
Qed.

Lemma keeps_write_handle_of n fh : gives (I n) (write_handle_of fh) (λ iw, fits n fh iw.2).
Proof.
  unfold write_handle_of. intros s r s' HI. cbn. destruct (handles s.1 !! fh) as [[ino [rd|w]]|] eqn:Hl;
    intros [= <- <-]; [done| |done]. split; [done|]. by eapply inv_fits.
Qed.

Lemma is_writer_of_Some ino f (w : Writer (W := W)) :
  is_writer_of ino f = Some w → f = {| of_ino := ino; of_kind := HWrite w |}.
Proof. unfold is_writer_of. destruct f as [i [r|w']]; cbn; [done|]. destruct (Z.eqb_spec i ino) as [->|]; [by intros [= ->]|done]. Qed.

Lemma find_write_handle_Some ino fh (v : Vfs (W := W)) (world : W) h w :
  find_write_handle ino fh (v, world) = (Ok (Some (h, w)), (v, world)) →
  handles v !! h = Some {| of_ino := ino; of_kind := HWrite w |}.
Proof.
  unfold find_write_handle, reads. cbn. intros [= Hl]. revert Hl.
  destruct (_ ≫= _) as [[h' w']|] eqn:Hfst.
  - intros [= -> ->]. destruct fh as [fh|]; [|done]. cbn in Hfst.
    destruct (handles v !! fh) as [f|] eqn:Hf; [|done]. cbn in Hfst.
    destruct (is_writer_of ino f) eqn:Hw; [|done]. injection Hfst as <- <-.
    by apply is_writer_of_Some in Hw as <-.
  - intros Hh. assert (Hin : (h, w) ∈ omap (λ '(h, f), (h,.) <$> is_writer_of ino f) (handle_iter (handles v))).
    { destruct (omap _ _); [done|]. injection Hh as ->. by left. }
    apply list_elem_of_omap in Hin as ([h' f] & Hin & Hw). rewrite handle_iter_perm in Hin.
    apply elem_of_map_to_list in Hin. destruct (is_writer_of ino f) eqn:Hf; [|done].
    injection Hw as <- <-. by apply is_writer_of_Some in Hf as <-.
Qed.

Lemma keeps_find_write_handle n ino fh :
  gives (I n) (find_write_handle ino fh) (λ o, ∀ h w, o = Some (h, w) → fits n h w).
Proof.
  intros [v world] r s' HI Hr. pose proof Hr as Hs. unfold find_write_handle, reads in Hs. injection Hs as _ <-.
  destruct r as [o|]; [|done]. split; [done|]. intros h w ->. apply find_write_handle_Some in Hr.
  by eapply inv_fits.
Qed.

Lemma keeps_on_writer {A} n h ino (op : Writer → W → result A Error * Writer * W) w :
  fits n h w → (∀ world r w' world', op w world = (r, w', world') → wr_path w' = wr_path w) →
  keeps (I n) (on_writer h ino op w).
Proof.
  intros [Hh Hp] Hop. apply keeps_intro. intros [v world] r s' HI. unfold on_writer. cbn.
  destruct (op w world) as [[x w'] world'] eqn:Hr. apply Hop in Hr.
  assert (HI' : I n (set_handles (<[h := {| of_ino := ino; of_kind := HWrite w' |}]> (handles v)) v, world')).
  { eapply (keeps_run (I n) (insert_handle h _) (v, world')); [|exact HI|reflexivity].
    apply keeps_insert_handle; [done|]. cbn. intros ? [= <-]. by rewrite Hr. }
  destruct x; intros [= _ <-]; exact HI'.
Qed.

Lemma wr_write_path w off data world r w' world' :
  wr_write (W := W) w off data world = (r, w', world') → wr_path w' = wr_path w.
Proof. unfold wr_write. destruct (write_all_at _ _ _ _) as [[]]; by intros [= _ <- _]. Qed.

Lemma wr_truncate_path w n world r w' world' :
  wr_truncate (W := W) w n world = (r, w', world') → wr_path w' = wr_path w.
Proof. unfold wr_truncate. destruct (set_len _ _ _) as [[]]; by intros [= _ <- _]. Qed.

Lemma flush_path w world r w' world' :
  flush (W := W) w world = (r, w', world') → wr_path w' = wr_path w.
Proof. unfold flush. destruct (negb _); [by intros [= _ <- _]|]. destruct (mbind _ _ _) as [[]]; by intros [= _ <- _]. Qed.

Lemma keeps_set_dirty_size n ino size : keeps (I n) (set_dirty_size ino size).
Proof. unfold set_dirty_size. keep. Qed.

Lemma keeps_store_size n ino size : keeps (I n) (store_size ino size).
Proof. unfold store_size. keep. Qed.

Lemma keeps_invalidate_dir n ino : keeps (I n) (invalidate_dir ino).
Proof. apply keeps_dirs. Qed.

Lemma keeps_clear_dirty_size n ino : keeps (I n) (clear_dirty_size ino).
Proof. apply keeps_dirty. Qed.

#[local] Hint Resolve keeps_set_dirty_size keeps_store_size keeps_invalidate_dir keeps_clear_dirty_size : keeps.

Lemma keeps_write_handle n fh off data : keeps (I n) (write_handle fh off data).
Proof.
  eapply keeps_gives; [apply keeps_write_handle_of|]. intros [ino w] Hw. cbn beta iota.
  apply keeps_bind; [apply keeps_on_writer; [done|intros *; apply wr_write_path]|]. intros []. keep.
Qed.

Lemma keeps_flush_handle n fh : keeps (I n) (flush_handle fh).
Proof.
  unfold flush_handle. eapply keeps_gives with (φ := λ h, ∀ iw, h = Ok iw → fits n fh iw.2).
  - intros s r s' HI. unfold try. destruct (write_handle_of fh s) as [x s1] eqn:Hr. intros [= <- <-].
    apply (keeps_write_handle_of n fh) in Hr; [|done]. destruct x as [iw|]; [|done].
    destruct Hr as [HI' Hf]. split; [done|]. by intros ? [= <-].
  - intros [[ino w]|] Hf; [|keep]. apply keeps_bind.
    + apply keeps_on_writer; [by apply (Hf (ino, w))|intros *; apply flush_path].
    + intros []. keep.
Qed.

Lemma keeps_read_handle n ino fh off size : keeps (I n) (read_handle ino fh off size).
Proof.
  unfold read_handle. eapply keeps_gives with (φ := λ f, is_Some f → 0 < fh <= n).
  - apply gives_reads_at. intros s HI [f Hf]. destruct HI as (HI & <- & _). by apply (vi_handles _ _ HI _ _ Hf).
  - intros [[hino [r|w]]|] Hf.
    + apply keeps_intro. intros [v world] x s' HI. unfold on_reader. cbn.
      destruct (Reader.read r off size world) as [[res r'] world']. intros [= _ <-].
      eapply (keeps_run (I n) (insert_handle fh _) (v, world')); [|exact HI|reflexivity].
      apply keeps_insert_handle; [by apply Hf|by intros ? [=]].
    + apply keeps_intro. by intros s x s' HI [= _ <-].
    + unfold vfs_read. keep.
Qed.

Lemma keeps_delete_handle n fh : keeps (I n) (modify (λ v, set_handles (delete fh (handles v)) v)).
Proof.
  apply keeps_modify. intros v Hv Hn Hd. split; [|done]. destruct Hv. constructor; try done.
  cbn. intros fh' f'. rewrite lookup_delete_Some. intros [_ Hl]. by apply vi_handles0.
Qed.

Lemma keeps_release n fh : keeps (I n) (release fh).
Proof.
  unfold release. apply keeps_bind; [auto with keeps|]. intros f.
  apply keeps_bind; [apply keeps_delete_handle|]. intros _. destruct f as [[ino [r|w]]|]; [keep| |keep].
  apply keeps_intro. intros [v world] x s' HI. unfold release_writer. cbn [fst snd].
  destruct (flush w world) as [[y w'] world']. destruct y as [[]|e].
  - destruct (mbind _ _ (v, world')) as [z s1] eqn:Hr. intros [= _ <-].
    assert (HI' : I n s1).
    { eapply (keeps_run (I n) _ (v, world')); [|exact HI|exact Hr]. unfold clear_dirty_size, parent_of. keep. }
    exact HI'.
  - intros [= _ <-]. exact HI.
Qed.

(** ** Handlers that take a handle's number *)

Definition J (n : Z) s : Prop := I n s ∨ I (n + 1) s.
Definition allocs {A} (n : Z) (m : V A) : Prop := triple (I n) m (λ _, J n) (J n).

Lemma allocs_keeps {A} n (m : V A) : keeps (I n) m → allocs n m.
Proof. intros Hm. eapply triple_conseq; [exact Hm|done|by left|by left]. Qed.

Lemma allocs_bind {A B} n (m : V A) (f : A → V B) :
  keeps (I n) m → (∀ a, allocs n (f a)) → allocs n (mbind m f).
Proof.
  intros Hm Hf. eapply triple_bind; [|exact Hf]. eapply triple_conseq; [exact Hm|done|done|by left].
Qed.

Lemma allocs_gives {A B} n (m : V A) (f : A → V B) φ :
  gives (I n) m φ → (∀ a, φ a → allocs n (f a)) → allocs n (mbind m f).
Proof.
  intros Hm Hf. eapply triple_bind.
  - eapply triple_conseq; [exact Hm|done|intros a s Ha; exact Ha|by left].
  - intros a s r s' [HI Ha]. by apply (Hf a Ha).
Qed.

Lemma allocs_then {A B} n (m : V A) (f : A → V B) :
  allocs n m → (∀ k a, keeps (I k) (f a)) → allocs n (mbind m f).
Proof.
  intros Hm Hf. eapply triple_bind; [exact Hm|]. intros a s r s' [HI|HI] Hr.
  - specialize (Hf n a s r s' HI Hr). destruct r; by left.
  - specialize (Hf (n + 1) a s r s' HI Hr). destruct r; by right.
Qed.

(** The handle is fresh. *)
Lemma allocs_fh {B} n (f : Z → V B) :
  n + 1 < 2 ^ 64 → (0 < n + 1 → keeps (I (n + 1)) (f (n + 1))) → allocs n (mbind alloc_fh f).
Proof.
  intros Hn Hf s r s' HI. unfold alloc_fh, mbind, reads, modify, mret. cbn.
  destruct HI as (HI & Heq & Hd). pose proof (vi_next_fh _ _ HI) as Hr. rewrite Heq in *.
  rewrite (Z.mod_small (n + 1)) by lia. intros Hrun.
  assert (HI' : I (n + 1) (set_next_fh (n + 1) s.1, s.2)).
  { split; [|done]. destruct HI. constructor; try done; cbn.
    - intros fh f' Hl. destruct (vi_handles0 _ _ Hl) as [Hfh Hp]. split; [lia|exact Hp].
    - lia. }
  specialize (Hf ltac:(lia) _ _ _ HI' Hrun). destruct r; by right.
Qed.

Context (n : Z) (Hn : n + 1 < 2 ^ 64).

Lemma allocs_from_node {B} ino (f : Node → V B) :
  (∀ nd, below rk (key nd) ∨ key nd = rk → allocs n (f nd)) → allocs n (mbind (node ino) f).
Proof. intros Hf. eapply allocs_gives; [apply keeps_node|exact Hf]. Qed.

Lemma keeps_fill_cache k dst p trunc : keeps (I k) (fill_cache dst p trunc).
Proof. unfold fill_cache, open_cache_file. keep. apply keeps_intro. by intros s r s' HI [= _ <-]. Qed.
#[local] Hint Resolve keeps_fill_cache : keeps.

Lemma gives_cache_dir k : gives (I k) (reads cache_dir) (λ d, d = dir).
Proof. apply gives_reads_at. by intros s (_ & _ & Hd). Qed.

Lemma allocs_open ino flags : allocs n (vfs_open ino flags).
Proof.
  apply allocs_from_node. intros nd Hnd. destruct (kind_is_dir _); [apply allocs_keeps; keep|].
  apply allocs_fh; [done|]. intros Hpos. destruct (is_writing flags).
  - unfold open_writer. apply keeps_bind; [keep|]. intros dst. eapply keeps_gives; [apply gives_cache_dir|].
    intros d ->. apply keeps_bind; [keep|]. intros [size dirty]. apply keeps_bind; [keep|]. intros s3.
    apply keeps_bind; [|keep]. apply keeps_insert_handle; [lia|]. by intros w [= <-].
  - unfold open_reader. do 4 (apply keeps_bind; [keep|intros ?]). apply keeps_bind; [|keep].
    apply keeps_insert_handle; [lia|]. by intros w [=].
Qed.

Lemma allocs_create parent name : name ≠ [] → allocs n (vfs_create parent name).
Proof.
  intros Hname. apply allocs_from_node. intros nd Hnd. destruct (negb _); [apply allocs_keeps; keep|].
  assert (below rk (key nd ++ name)) by by apply below_app. cbv zeta.
  apply allocs_bind; [keep|]. intros ino. apply allocs_fh; [done|]. intros Hpos.
  eapply keeps_gives; [apply gives_cache_dir|]. intros d ->. unfold open_cache_file.
  do 3 (apply keeps_bind; [keep|intros ?]). apply keeps_bind; [|keep].
  apply keeps_insert_handle; [lia|]. by intros w [= <-].
Qed.

Lemma keeps_truncate_inner k dst p size : keeps (I k) (truncate_object_inner dst p size).
Proof. unfold truncate_object_inner, open_cache_file. keep. Qed.

Lemma allocs_truncate ino size : allocs n (truncate_object ino size).
Proof.
  apply allocs_from_node. intros nd Hnd. apply allocs_bind; [keep|]. intros dst.
  apply allocs_fh; [done|]. intros Hpos. pose proof keeps_truncate_inner. keep.
Qed.

Lemma allocs_setattr ino size fh : allocs n (vfs_setattr ino size fh).
Proof.
  unfold vfs_setattr. apply allocs_then; [|intros; apply keeps_getattr]. destruct size as [size|]; [|apply allocs_keeps; keep].
  eapply allocs_gives; [apply keeps_find_write_handle|]. intros [[h w]|] Hw; [|apply allocs_truncate].
  apply allocs_keeps. apply keeps_bind.
  - apply keeps_on_writer; [by apply Hw|intros *; apply wr_truncate_path].
  - intros []. keep.
Qed.

Lemma allocs_put_empty k : allocs n (put_empty_object k).
Proof.
  apply allocs_bind; [keep|]. intros u. apply allocs_fh; [done|]. intros Hpos. keep.
Qed.

Lemma allocs_mkdir parent name : name ≠ [] → allocs n (mkdir parent name).
Proof.
  intros Hname. apply allocs_from_node. intros nd Hnd.
  assert (below rk (key nd ++ name ++ $"/")) by (apply below_app; [done|by destruct name]).
  unfold mkdir. cbv zeta. do 3 (apply allocs_bind; [keep|intros ?]).
  match goal with |- allocs _ (match ?x with _ => _ end) => destruct x as [?|e] end; [apply allocs_keeps; keep|].
  destruct (is_not_found e); [|apply allocs_keeps; keep].
  apply allocs_bind; [keep|]. intros [|]; [apply allocs_keeps; keep|].
  apply allocs_then; [apply allocs_put_empty|]. intros k []. unfold dir_attr. keep.
Qed.

(** ** The namespace *)

Lemma keeps_unlink parent name : name ≠ [] → keeps (I n) (unlink parent name).
Proof.
  intros Hname. apply keeps_from_node. intros nd Hnd. cbv zeta.
  assert (below rk (key nd ++ name)) by by apply below_app.
  do 3 (apply keeps_bind; [keep|intros ?]). eapply keeps_gives; [by apply gives_lookup_key|].
  intros [ino|] Hino; [|keep]. pose proof (Hino ino eq_refl). keep.
Qed.

Lemma keeps_rmdir parent name : name ≠ [] → keeps (I n) (rmdir parent name).
Proof.
  intros Hname. apply keeps_from_node. intros nd Hnd. cbv zeta.
  assert (below rk (key nd ++ name ++ $"/")) by (apply below_app; [done|by destruct name]).
  apply keeps_bind; [keep|]. intros [|]; [|keep]. cbn [negb].
  do 3 (apply keeps_bind; [keep|intros ?]). eapply keeps_gives; [by apply gives_lookup_key|].
  intros [ino|] Hino; [|keep]. pose proof (Hino ino eq_refl). keep.
Qed.

Lemma keeps_repoint k ino new_file : keeps (I k) (repoint ino new_file).
Proof.
  eapply keeps_gives; [apply keeps_find_write_handle|]. intros [[h w]|] Hw; [|keep].
  destruct (Hw h w eq_refl) as [Hh Hp]. apply keeps_bind; [keep|]. intros [u|e]; [|keep].
  apply keeps_insert_handle; [done|]. by intros w' [= <-].
Qed.

(** The destination's inode is forgotten, so its key is free. *)
Lemma gives_forget_dest new_file :
  below rk new_file →
  triple (I n) (let! stale := reads (λ v, lookup_key (inodes v) new_file) in
                match stale with
                | Some d => let! _ := invalidate_attr d in vfs_forget d
                | None => mret tt
                end)
    (λ _ s, I n s ∧ lookup_key (inodes s.1) new_file = None) (I n).
Proof.
  intros Hb s r s' HI. unfold mbind at 1, reads at 1. destruct (lookup_key _ _) as [d|] eqn:Hl; [|by intros [= <- <-]].
  intros Hr. assert (Hd : d ≠ ROOT_INODE).
  { destruct HI as (HI & _). eapply tree_below_not_root; [by apply inv_tree|done|exact Hl]. }
  assert (HI' : I n s') by (eapply (keeps_run (I n)); [|exact HI|exact Hr]; keep).
  unfold mbind, invalidate_attr, vfs_forget, modify in Hr. injection Hr as <- <-. split; [done|].
  destruct HI as (HI & _). pose proof (inv_key _ (vi_table _ _ HI) _ _ Hl) as (nd & Hnd & Hk).
  cbn [fst inodes set_inodes set_attrs]. unfold forget, lookup_key. rewrite Hnd. cbn. rewrite Hk. apply lookup_delete_eq.
Qed.

Lemma rekey_free ino new_file s r s' :
  ino ≠ ROOT_INODE → below rk new_file → I n s → lookup_key (inodes s.1) new_file = None →
  vfs_rekey ino new_file s = (r, s') → I n s'.
Proof.
  intros Hino Hb (HI & Hnx & Hd) Hfree [= _ <-]. split; [|done]. apply inv_set_inodes; [done|].
  by apply tree_rekey; [apply inv_tree| | |].
Qed.

Lemma keeps_rename_file parent newparent old_file new_file :
  below rk old_file → below rk new_file → keeps (I n) (rename_file parent newparent old_file new_file).
Proof.
  intros Hold Hnew. unfold rename_file. do 5 (apply keeps_bind; [keep|intros ?]).
  apply (keeps_assoc _ _ _ (λ _ : unit, _)).
  eapply triple_bind; [by apply gives_forget_dest|]. intros [].
  eapply triple_bind with (R := λ o s, I n s ∧ lookup_key (inodes s.1) new_file = None ∧ ∀ ino, o = Some ino → ino ≠ ROOT_INODE).
  { intros s r s' [HI Hfree] [= <- <-]. split_and!; [done..|]. intros ino Hl.
    destruct HI as (HI & _). exact (tree_below_not_root _ _ _ _ (inv_tree _ _ HI) Hold Hl). }
  intros src_ino. eapply triple_bind with (R := λ _ s, I n s);
    [|intros _; change (keeps (I n) (let! _ := invalidate_dir parent in invalidate_dir newparent)); keep].
  destruct src_ino as [ino|].
  - eapply triple_bind with (R := λ _ s, I n s).
    + intros s r s' (HI & Hfree & Hino) Hr. pose proof (rekey_free _ _ _ _ _ (Hino ino eq_refl) Hnew HI Hfree Hr).
      by destruct r.
    + intros []. apply keeps_bind; [keep|]. intros _. apply keeps_repoint.
  - by intros s r s' (HI & _) [= <- <-].
Qed.

(** Parts of a handler that leave the filesystem's state alone. *)
Definition At (v : Vfs (W := W)) s : Prop := s.1 = v.

Lemma At_reads {A} v (f : Vfs → A) : keeps (At v) (reads f).
Proof. apply keeps_intro. by intros s r s' Hs [= _ <-]. Qed.

Lemma At_lift {A} v (m : W → result A Error * W) : keeps (At v) (lift m).
Proof. apply keeps_intro. intros [v' w] r s' Hs. unfold lift. cbn. destruct (m w). by intros [= _ <-]. Qed.

#[local] Hint Resolve At_reads At_lift : keeps.

Lemma At_obj_url v k : keeps (At v) (obj_url k).
Proof. unfold obj_url. keep. Qed.

Lemma At_list_url v k : keeps (At v) (list_url k).
Proof. unfold list_url. keep. Qed.

#[local] Hint Resolve At_obj_url At_list_url : keeps.

Lemma At_prefix_exists v k : keeps (At v) (prefix_exists k).
Proof. unfold prefix_exists. keep. Qed.

Lemma At_for_each {A} v (f : A → V unit) l : (∀ a, keeps (At v) (f a)) → keeps (At v) (for_each f l).
Proof. intros Hf. induction l; cbn [for_each]; keep. Qed.

Lemma At_copy_key v old new k : keeps (At v) (copy_key old new k).
Proof. unfold copy_key. keep. Qed.

Lemma At_delete_key v k : keeps (At v) (delete_key k).
Proof. unfold delete_key. keep. Qed.

Lemma keeps_for_each {A} k (f : A → V unit) l : (∀ a, keeps (I k) (f a)) → keeps (I k) (for_each f l).
Proof. intros Hf. induction l; cbn [for_each]; keep. Qed.

Lemma At_bind {A B} v (m : V A) (f : A → V B) Q :
  (∀ w, I n (v, w)) → keeps (At v) m → (∀ a, triple (At v) (f a) Q (I n)) → triple (At v) (mbind m f) Q (I n).
Proof.
  intros Hv Hm Hf. eapply triple_bind; [|exact Hf].
  eapply triple_conseq; [exact Hm|done|done|]. intros [v' w] Hs. unfold At in Hs. cbn in Hs. by subst v'.
Qed.

Lemma keeps_rename_dir parent newparent name old new s r s' :
  below rk old → below rk new → dest_free (inodes s.1) old new → I n s →
  rename_dir parent newparent name old new s = (r, s') → I n s'.
Proof.
  intros Hold Hnew Hfree HI Hr.
  assert (Htriple : triple (At s.1) (rename_dir parent newparent name old new) (λ _, I n) (I n)).
  { assert (Hat : ∀ w, I n (s.1, w)) by (intros w; exact HI).
    assert (HatI : ∀ s1, At s.1 s1 → I n s1) by (intros [v w] Hs; unfold At in Hs; cbn in Hs; by subst v).
    unfold rename_dir. apply At_bind; [done|apply At_prefix_exists|]. intros [|]; cbn [negb].
    2:{ eapply triple_conseq; [apply (keeps_fail (At s.1))|done|by intros ? ? ?%HatI|exact HatI]. }
    do 4 (apply At_bind; [done|unfold list_url_recursive; keep|intros ?]).
    apply At_bind; [done|by apply At_for_each; intros; apply At_copy_key|intros _].
    apply At_bind; [done|by apply At_for_each; intros; apply At_delete_key|intros _].
    apply At_bind; [done|keep|intros affected].
    eapply triple_bind with (R := λ _, I n).
    - intros s1 r1 s1' Hs1 [= <- <-]. unfold At in Hs1. destruct HI as (HI & Hx & Hd). rewrite Hs1.
      split; [|done]. apply inv_set_inodes; [done|]. by apply tree_rekey_prefix; [apply inv_tree|..].
    - intros _. apply (keeps_bind (I n)); [apply keeps_for_each; intros; keep|]. keep. }
  specialize (Htriple s r s' eq_refl Hr). by destruct r.
Qed.

(** What a request needs: names as the kernel sends them, and for a rename, that no known
    inode is in the way at the destination directory. *)
Definition request_ok (q : request) (v : Vfs (W := W)) : Prop :=
  match q with
  | RLookup _ name | RCreate _ name | RUnlink _ name | RMkdir _ name | RRmdir _ name => name ≠ []
  | RRename p name np new_name =>
      name ≠ [] ∧ new_name ≠ [] ∧
      ∀ nd nnd, get (inodes v) p = Some nd → get (inodes v) np = Some nnd →
        dest_free (inodes v) (key nd ++ name ++ $"/") (key nnd ++ new_name ++ $"/")
  | _ => True
  end.

Lemma keeps_rename parent name newparent newname s r s' :
  request_ok (RRename parent name newparent newname) s.1 → I n s →
  rename parent name newparent newname s = (r, s') → I n s'.
Proof.
  intros (Hname & Hnew & Hfree) HI. unfold rename, node, mbind, reads, mret, mfail. cbn [fst snd].
  destruct (get (inodes s.1) parent) as [nd|] eqn:Hnd; [|by intros [= _ <-]].
  destruct (get (inodes s.1) newparent) as [nnd|] eqn:Hnnd; [|by intros [= _ <-]].
  specialize (Hfree nd nnd eq_refl eq_refl). destruct HI as (HI & Hx & Hd).
  pose proof (tree_root_key _ _ _ _ (inv_tree _ _ HI) Hnd) as Hk.
  pose proof (tree_root_key _ _ _ _ (inv_tree _ _ HI) Hnnd) as Hk'.
  destruct (obj_url (key nd ++ name) s) as [u s1] eqn:Hu. cbn [fst snd].
  pose proof (keeps_run (At s.1) _ _ _ _ (At_obj_url s.1 _) eq_refl Hu) as Hs1. unfold At in Hs1.
  destruct u as [u|]; [|intros [= _ <-]; unfold I; by rewrite Hs1].
  destruct (try _ s1) as [st s2] eqn:Hst.
  assert (Hs2 : s2.1 = s.1).
  { revert Hst. unfold try, lift. destruct (s3_stat _ _ _). intros [= _ <-]. exact Hs1. }
  assert (HI2 : I n s2) by (unfold I; by rewrite Hs2).
  destruct st as [[o|e]|e]; [| |by intros [= _ <-]].
  - intros Hr. eapply (keeps_run (I n)); [|exact HI2|exact Hr].
    apply keeps_rename_file; by apply below_app.
  - destruct (is_not_found e); [|by intros [= _ <-]]. intros Hr.
    refine (keeps_rename_dir _ _ _ _ _ _ _ _ _ _ _ HI2 Hr); [| |by rewrite Hs2]; apply below_app; try done.
    + by destruct name.
    + by destruct newname.
Qed.

Lemma keeps_dir_entries ino : keeps (I n) (dir_entries ino).
Proof. pose proof keeps_readdir. unfold dir_entries, parent_of. keep. Qed.

Lemma keeps_plus_entries f l : keeps (I n) (plus_entries f l).
Proof. induction l as [|[i [[ino name] k]] l IH]; cbn [plus_entries]; keep. Qed.

(** A request's run, as one of its handler. *)
Lemma run_handler {A} (g : A → reply) (m : V A) s r s' :
  allocs n m → I n s → fmap_ok g (errno_of m) s = (r, s') → J n s'.
Proof.
  intros Hm HI. unfold fmap_ok, errno_of. destruct (m s) as [[a|e] s1] eqn:Hr; intros [= _ <-];
    exact (Hm _ _ _ HI Hr).
Qed.

Lemma allocs_readdirplus f parent offset :
  allocs n (let! all := dir_entries parent in plus_entries f (from_offset offset all)).
Proof. apply allocs_keeps, keeps_bind; [apply keeps_dir_entries|intros; apply keeps_plus_entries]. Qed.

Lemma keeps_dispatch f q s r s' : request_ok q s.1 → I n s → dispatch f q s = (r, s') → J n s'.
Proof.
  intros Hq HI. assert (HJ : J n s) by by left.
  destruct q; open_handler;
    repeat match goal with |- context [if ?b then _ else _] => destruct b; [try by intros [= _ <-]|] end;
    try (by intros [= _ <-]);
    try (apply run_handler; [|exact HI]; eauto using allocs_keeps, keeps_lookup, keeps_getattr, keeps_dir_entries,
      keeps_read_handle, keeps_release, keeps_flush_handle, keeps_write_handle, keeps_unlink, keeps_rmdir, allocs_open,
      allocs_create, allocs_setattr, allocs_mkdir, allocs_readdirplus; fail).
  unfold fmap_ok, errno_of. destruct (rename _ _ _ _ s) as [x s1] eqn:Hr.
  pose proof (keeps_rename _ _ _ _ _ _ _ Hq HI Hr). destruct x; intros [= _ <-]; by left.
Qed.
End VfsSpec.

Lemma to_string_inj i j : 0 <= i → 0 <= j → to_string i = to_string j → i = j.
Proof. intros Hi Hj Heq%(f_equal (digits_val 0)). by rewrite !to_string_val in Heq. Qed.

Lemma path_of_inj dir i j : 0 <= i → 0 <= j → path_of dir i = path_of dir j → i = j.
Proof.
  intros Hi Hj. unfold path_of, pathbuf_join. destruct (_ || _); intros Heq;
    repeat apply app_inv_head in Heq; apply app_inv_tail in Heq; by apply to_string_inj.
Qed.

