(* ===== verification/MountSession.v ===== *)
(** * Close-to-open consistency of the mount (mount/vfs.rs, mount/writer.rs, mount/fs.rs)

    A program that opens a file of the mount for writing, writes, truncates, reads and
    flushes it through its handle and releases it sees an ordinary file: [replies] is
    the specification, a list of bytes. A release that succeeds left these bytes in the
    bucket; one that fails left them in the cache file. *)

From S2P Require Import Prelude RustStr Strutil Url Storage Fs Hoare Tasks MemWorld Inode Reader Writer Vfs FuseFs VfsSpec.

Local Open Scope Z_scope.

(** What opening a file needs besides [FileLaws]. *)
Class SessionLaws `{RegexLib} (W : Type) `{!Os W, !S3Ops W, !Clocks W, !FileLaws W} := {
  create_empty : ∀ p w w', open_create p true w = (Ok tt, w') → file_bytes w' p = Some [];
  create_keeps : ∀ p w w' f, open_create p false w = (Ok tt, w') → file_bytes w p = Some f →
    file_bytes w' p = Some f ∧ ∀ u, object_bytes w' u = object_bytes w u;
  metadata_len : ∀ p w f, file_bytes w p = Some f → ∃ m, metadata p w = Ok m ∧ len m = Z.of_nat (length f);
  stat_keeps : ∀ s u w r w', s3_stat s u w = (r, w') →
    (∀ u, object_bytes w' u = object_bytes w u) ∧
    ∀ e, r = Err e → is_not_found e = true → object_bytes w u = None;
  download_keeps : ∀ s u p w r w', is_remote u = true → s3_download s u p w = (r, w') →
    object_bytes w' u = object_bytes w u ∧
    match r with
    | Ok _ => ∃ f, object_bytes w u = Some f ∧ file_bytes w' p = Some f
    | Err e => is_not_found e = true → object_bytes w u = None
    end;
  clock_keeps : ∀ w t w', instant w = (t, w') ∨ system_time w = (t, w') →
    (∀ p, file_bytes w' p = file_bytes w p) ∧ ∀ u, object_bytes w' u = object_bytes w u;
  remove_keeps : ∀ p w r w', remove_file p w = (r, w') → ∀ u, object_bytes w' u = object_bytes w u;
}.

Section Session.
Context `{SessionLaws} `{!RegexLaws, !Unordered, !NodeOrder, !HandleOrder}.

(** ** The specification *)

(** What a program does with the handle. *)
Inductive file_op :=
  | SWrite (off : Z) (data : str)
  | STruncate (n : Z)
  | SRead (off n : Z)
  | SGetattr
  | SFlush.

Definition as_request (ino fh : Z) (o : file_op) : request :=
  match o with
  | SWrite off data => RWrite fh off data
  | STruncate n => RSetattr ino (Some fh) (Some n)
  | SRead off n => RRead ino fh off n
  | SGetattr => RGetattr ino
  | SFlush => RFlush fh
  end.

Definition file_op_ok (o : file_op) : Prop :=
  match o with
  | SWrite off data => op_ok (OpWrite off data)
  | STruncate n => op_ok (OpTruncate n)
  | SRead off n => 0 <= off ∧ 0 <= n
  | _ => True
  end.

Definition step (f : str) (o : file_op) : str :=
  match o with
  | SWrite off data => write_at zero_byte f off data
  | STruncate n => resize zero_byte f n
  | _ => f
  end.

(** The reply to an operation on a file of bytes [f]. *)
Definition reply_of (f : str) (o : file_op) (r : result reply Z) : Prop :=
  match o, r with
  | SWrite _ data, Ok (Written n) => n = Z.of_nat (length data) mod 2 ^ 32
  | STruncate _, Ok (AttrReply a) | SGetattr, Ok (AttrReply a) =>
      fa_size a = Z.of_nat (length (step f o)) ∧ fa_kind a = RegularFile
  | SRead off n, Ok (Data d) => d = slice f off n
  | SFlush, Ok Done => True
  | _, _ => False
  end.

Fixpoint replies (f : str) (os : list file_op) (rs : list (result reply Z)) : Prop :=
  match os, rs with
  | [], [] => True
  | o :: os, r :: rs => reply_of f o r ∧ replies (step f o) os rs
  | _, _ => False
  end.

(** ** The state of an open file *)

Record session (ino fh : Z) (p : str) (u : Url) (f : str) (s : Vfs (W := W) * W) : Prop := {
  ses_handle : ∃ wr, handles s.1 !! fh = Some {| of_ino := ino; of_kind := HWrite wr |} ∧
    wr_path wr = p ∧ wr_dst wr = u ∧ writer_ok wr s.2 f ∧ synced wr s.2 f;
  ses_dirty : ∃ t, dirty_sizes s.1 !! ino = Some (Z.of_nat (length f), t);
  ses_node : ∃ n, get (inodes s.1) ino = Some n ∧ nkind n = KFile;
}.

Context (ino fh : Z) (p : str) (u : Url) (Hu : is_remote u = true).
#[local] Abbreviation ses := (session ino fh p u).

(** The world only moved in time. *)
Definition later (w w' : W) : Prop :=
  (∀ q, file_bytes w' q = file_bytes w q) ∧ ∀ v, object_bytes w' v = object_bytes w v.

Lemma later_refl w : later w w.
Proof. by split. Qed.

Lemma later_trans w1 w2 w3 : later w1 w2 → later w2 w3 → later w1 w3.
Proof. intros [Hf Ho] [Hf' Ho']. split; intros; by rewrite ?Hf', ?Ho', ?Hf, ?Ho. Qed.

Lemma set_dirty_size_run i n (s : Vfs (W := W) * W) : ∃ t w',
  set_dirty_size i n s = (Ok tt, (set_dirty (<[i := (n, t)]> (dirty_sizes s.1)) s.1, w')) ∧ later s.2 w'.
Proof.
  unfold set_dirty_size, reading, mbind, modify. destruct (system_time s.2) as [t w'] eqn:Ht.
  exists t, w'. split; [done|]. apply (clock_keeps _ _ _ (or_intror Ht)).
Qed.

Lemma store_attr_run a (s : Vfs (W := W) * W) : ∃ t w',
  store_attr a s = (Ok tt, (set_attrs (<[a_ino a := (a, t)]> (attr_cache s.1)) s.1, w')) ∧ later s.2 w'.
Proof.
  unfold store_attr, reading, mbind, modify. destruct (instant s.2) as [t w'] eqn:Ht.
  exists t, w'. split; [done|]. apply (clock_keeps _ _ _ (or_introl Ht)).
Qed.

Lemma store_size_run i n (s : Vfs (W := W) * W) : ∃ c w',
  store_size i n s = (Ok tt, (set_attrs c s.1, w')) ∧ later s.2 w'.
Proof.
  unfold store_size, mbind, reading. destruct (system_time s.2) as [t w1] eqn:Ht.
  destruct (store_attr_run (file_attr i n t) (s.1, w1)) as (t' & w2 & Hs & Hl). cbn in Hs, Hl.
  eexists _, w2. split; [exact Hs|]. eapply later_trans; [|exact Hl]. apply (clock_keeps _ _ _ (or_intror Ht)).
Qed.

Lemma writer_ok_later wr w w' f : later w w' → writer_ok wr w f → writer_ok wr w' f.
Proof. intros [Hf _] [Hb Hs]. split; [by rewrite Hf|done]. Qed.

Lemma synced_later wr w w' f : later w w' → synced wr w f → synced wr w' f.
Proof. intros [_ Ho] Hs Hd. rewrite Ho. by apply Hs. Qed.

(** After a write or a truncation, the new size is recorded. *)
Lemma record_size_run wr w f (s : Vfs (W := W) * W) :
  (∃ n, get (inodes s.1) ino = Some n ∧ nkind n = KFile) →
  handles s.1 !! fh = Some {| of_ino := ino; of_kind := HWrite wr |} →
  wr_path wr = p → wr_dst wr = u → s.2 = w → writer_ok wr w f → synced wr w f →
  ∃ s', (let! _ := set_dirty_size ino (wr_size wr) in store_size ino (wr_size wr)) s = (Ok tt, s') ∧ ses f s'.
Proof.
  intros Hn Hh Hp Hd <- Hok Hsy.
  destruct (set_dirty_size_run ino (wr_size wr) s) as (t & w1 & Hr1 & Hl1). rewrite (mbind_step _ _ _ _ _ Hr1).
  destruct (store_size_run ino (wr_size wr) (set_dirty (<[ino := (wr_size wr, t)]> (dirty_sizes s.1)) s.1, w1))
    as (c & w2 & Hr2 & Hl2). eexists. split; [exact Hr2|]. pose proof (later_trans _ _ _ Hl1 Hl2) as Hl.
  constructor; cbn.
  - exists wr. split_and!; [done|done|done|by eapply writer_ok_later|by eapply synced_later].
  - exists t. rewrite lookup_insert_eq. by destruct Hok as [_ ->].
  - done.
Qed.

Lemma getattr_run f (s : Vfs (W := W) * W) : ses f s → ∃ t,
  getattr ino s = (Ok (file_attr ino (Z.of_nat (length f)) t), s).
Proof.
  intros [_ (t & Ht) (n & Hn & Hk)]. exists t. unfold getattr, node, dirty_entry, mbind, reads, mret. cbn.
  rewrite Hn. cbn. rewrite Hk, Ht. done.
Qed.

Lemma write_handle_of_run f (s : Vfs (W := W) * W) : ses f s →
  ∃ wr, write_handle_of fh s = (Ok (ino, wr), s) ∧
    handles s.1 !! fh = Some {| of_ino := ino; of_kind := HWrite wr |} ∧
    wr_path wr = p ∧ wr_dst wr = u ∧ writer_ok wr s.2 f ∧ synced wr s.2 f.
Proof.
  intros [(wr & Hh & Hwr) _ _]. exists wr. split_and!; try done; try apply Hwr.
  unfold write_handle_of, mbind, reads. cbn. by rewrite Hh.
Qed.

(** A handle's operation leaves the writer it returns. *)
Lemma on_writer_inv {A} (op : Writer → W → result A Error * Writer * W) wr (s : Vfs (W := W) * W) r s' :
  on_writer fh ino op wr s = (r, s') →
  ∃ x wr' w', op wr s.2 = (x, wr', w') ∧
    s' = (set_handles (<[fh := {| of_ino := ino; of_kind := HWrite wr' |}]> (handles s.1)) s.1, w') ∧
    r = match x with Ok a => Ok (a, wr') | Err e => Err e end.
Proof.
  unfold on_writer. destruct (op wr s.2) as [[x wr'] w'] eqn:Hop. intros Hr. exists x, wr', w'.
  destruct x; injection Hr as <- <-; done.
Qed.

Lemma write_handle_session f off data (s : Vfs (W := W) * W) n s' :
  op_ok (OpWrite off data) → ses f s → write_handle fh off data s = (Ok n, s') →
  ses (write_at zero_byte f off data) s' ∧ n = Z.of_nat (length data) mod 2 ^ 32.
Proof.
  intros Hok Hs. destruct (write_handle_of_run f s Hs) as (wr & Hr & Hh & Hp & Hd & Hwr & Hsy).
  unfold write_handle. rewrite (mbind_step _ _ _ _ _ Hr).
  intros [(e & _ & [=])|([m wr'] & s1 & Hw & Hrest)]%mbind_inv.
  apply on_writer_inv in Hw as (x & wr1 & w1 & Hop & -> & Hx). destruct x as [k|e]; [|done]. injection Hx as -> ->.
  assert (Hrun : run_op wr (OpWrite off data) s.2 = (Ok tt, wr1, w1)) by (cbn; by rewrite Hop).
  destruct (run_op_ok _ _ _ _ _ _ Hwr Hok Hrun) as (Hwr1 & Hdirty & Hp1 & Hd1).
  set (s1 := (set_handles _ s.1, w1)) in Hrest.
  destruct (record_size_run wr1 w1 (write_at zero_byte f off data) s1) as (s2 & Hrec & Hs2);
    [apply (ses_node _ _ _ _ _ _ Hs)|unfold s1; cbn; by rewrite lookup_insert_eq|congruence|congruence|done|done|by intros Hc; rewrite Hdirty in Hc|].
  rewrite <-mbind_assoc in Hrest. rewrite (mbind_step _ _ _ _ _ Hrec) in Hrest. by injection Hrest as <- <-.
Qed.

Lemma truncate_session f n (s : Vfs (W := W) * W) a s' :
  op_ok (OpTruncate n) → ses f s → vfs_setattr ino (Some n) (Some fh) s = (Ok a, s') →
  ses (resize zero_byte f n) s' ∧ ∃ t, a = file_attr ino (Z.of_nat (length (resize zero_byte f n))) t.
Proof.
  intros Hok Hs. destruct (ses_handle _ _ _ _ _ _ Hs) as (wr & Hh & Hp & Hd & Hwr & Hsy).
  assert (Hfind : find_write_handle ino (Some fh) s = (Ok (Some (fh, wr)), s)).
  { unfold find_write_handle, reads. cbn. rewrite Hh. cbn. unfold is_writer_of. cbn. by rewrite Z.eqb_refl. }
  unfold vfs_setattr. rewrite mbind_assoc, (mbind_step _ _ _ _ _ Hfind), mbind_assoc.
  intros [(e & _ & [=])|([m wr'] & s1 & Hw & Hrest)]%mbind_inv.
  apply on_writer_inv in Hw as (x & wr1 & w1 & Hop & -> & Hx). destruct x as [k|e]; [|done]. injection Hx as -> ->.
  destruct (run_op_ok _ (OpTruncate n) _ _ _ _ Hwr Hok ltac:(destruct k; exact Hop)) as (Hwr1 & Hdirty & Hp1 & Hd1).
  set (s1 := (set_handles _ s.1, w1)) in Hrest.
  destruct (record_size_run wr1 w1 (resize zero_byte f n) s1) as (s2 & Hrec & Hs2);
    [apply (ses_node _ _ _ _ _ _ Hs)|unfold s1; cbn; by rewrite lookup_insert_eq|congruence|congruence|done|done|by intros Hc; rewrite Hdirty in Hc|].
  rewrite (mbind_step _ _ _ _ _ Hrec) in Hrest. destruct (getattr_run _ _ Hs2) as [t Ht].
  rewrite Ht in Hrest. injection Hrest as <- <-. split; [done|by exists t].
Qed.

Lemma read_session f off n (s : Vfs (W := W) * W) :
  0 <= off → 0 <= n → ses f s → read_handle ino fh off n s = (Ok (slice f off n), s).
Proof.
  intros Hoff Hn Hs. destruct (ses_handle _ _ _ _ _ _ Hs) as (wr & Hh & _ & _ & Hwr & _).
  unfold read_handle, mbind, reads. cbn. rewrite Hh. by rewrite (wr_read_ok _ _ _ _ _ Hwr Hoff Hn).
Qed.

Lemma flush_session f (s : Vfs (W := W) * W) r s' :
  ses f s → flush_handle fh s = (r, s') → ses f s' ∧ (r = Ok tt → object_bytes s'.2 u = Some f).
Proof.
  intros Hs. destruct (write_handle_of_run f s Hs) as (wr & Hr & Hh & Hp & Hd & Hwr & Hsy).
  unfold flush_handle.
  assert (Htry : try (write_handle_of fh) s = (Ok (Ok (ino, wr)), s)) by (unfold try; by rewrite Hr).
  rewrite (mbind_step _ _ _ _ _ Htry). intros Hfl.
  assert (Hcase : ∃ x s1, on_writer fh ino flush wr s = (x, s1) ∧ s' = s1 ∧ (r = Ok tt → is_ok x = true)).
  { apply mbind_inv in Hfl as [(e & He & ->)|(a & s1 & Ha & Hret)]; [by eexists _, _|].
    injection Hret as <- <-. by eexists _, _. }
  destruct Hcase as (x & s1 & Hw & -> & Hx). apply on_writer_inv in Hw as (y & wr1 & w1 & Hop & -> & ->).
  rewrite <-Hd in Hu. destruct (flush_ok _ _ _ _ _ _ Hwr Hsy Hu Hop) as (Hwr1 & Hsy1 & Hp1 & Hd1 & Hiff). split.
  - constructor; cbn; [|apply Hs|apply Hs].
    exists wr1. rewrite lookup_insert_eq. split_and!; [done|congruence|congruence|done|done].
  - intros Hr'. specialize (Hx Hr'). cbn. rewrite <-Hd, <-Hd1. apply Hsy1, Hiff. by destruct y as [[]|].
Qed.

(** ** The requests on the handle *)

Lemma step_session g f o (s : Vfs (W := W) * W) r s' :
  read_only g = false → file_op_ok o → ses f s → dispatch g (as_request ino fh o) s = (Ok r, s') →
  ses (step f o) s' ∧ reply_of f o (Ok r).
Proof.
  intros Hg Hok Hs. destruct o as [off data|n|off n| |]; cbn [as_request step reply_of]; open_handler; rewrite ?Hg; cbn [andb]; unfold fmap_ok, errno_of.
  - destruct (write_handle fh off data s) as [[k|e] s1] eqn:Hr; [|done]. intros [= <- <-].
    by apply (write_handle_session f) in Hr.
  - destruct (vfs_setattr ino (Some n) (Some fh) s) as [[a|e] s1] eqn:Hr; [|done]. intros [= <- <-].
    apply (truncate_session f) in Hr as [Hs' [t ->]]; [|done..]. done.
  - destruct Hok as [Hoff Hn]. rewrite (read_session f off n s Hoff Hn Hs). by intros [= <- <-].
  - destruct (getattr_run f s Hs) as [t ->]. by intros [= <- <-].
  - destruct (flush_handle fh s) as [[[]|e] s1] eqn:Hr; [|done]. intros [= <- <-].
    by apply (flush_session f) in Hr as [Hs' _].
Qed.

Lemma steps_session g f os (s : Vfs (W := W) * W) rs s' :
  read_only g = false → Forall file_op_ok os → ses f s →
  serve g (map (as_request ino fh) os) s = (rs, s') → Forall (λ r, is_ok r = true) rs →
  ses (foldl step f os) s' ∧ replies f os rs.
Proof.
  intros Hg. revert f s rs. induction os as [|o os IH]; intros f s rs Hos Hs; cbn [map serve].
  - intros [= <- <-] _. done.
  - apply Forall_cons in Hos as [Ho Hos]. destruct (dispatch g (as_request ino fh o) s) as [r s1] eqn:Hd.
    destruct (serve g _ s1) as [rs1 s2] eqn:Hsv. intros [= <- <-] [Hr Hrs]%Forall_cons.
    destruct r as [r|e]; [|done]. destruct (step_session g f o s r s1 Hg Ho Hs Hd) as [Hs1 Hrep].
    destruct (IH _ _ _ Hos Hs1 Hsv Hrs) as [Hs2 Hreps]. done.
Qed.

Lemma release_session f (s : Vfs (W := W) * W) r s' :
  ses f s → release fh s = (r, s') →
  match r with
  | Ok _ => object_bytes s'.2 u = Some f
  | Err _ => file_bytes s'.2 p = Some f
  end.
Proof.
  intros Hs. destruct (ses_handle _ _ _ _ _ _ Hs) as (wr & Hh & Hp & Hd & Hwr & Hsy).
  unfold release, mbind, reads, modify. cbn [fst snd]. rewrite Hh. unfold release_writer. cbn [fst snd].
  destruct (flush wr s.2) as [[x wr1] w1] eqn:Hfl. rewrite <-Hd in Hu.
  destruct (flush_ok _ _ _ _ _ _ Hwr Hsy Hu Hfl) as ([Hb _] & Hsy1 & Hp1 & Hd1 & Hiff). unfold drop_writer.
  destruct x as [[]|e].
  - assert (Hclean : dirty wr1 = false) by by apply Hiff. rewrite Hclean. rewrite mbind_step with (a := tt) (s1 := (set_dirty (delete ino (dirty_sizes s.1)) (set_handles (delete fh (handles s.1)) s.1), w1)) by done.
    destruct (store_size_run ino (wr_size wr1)
      (set_dirty (delete ino (dirty_sizes s.1)) (set_handles (delete fh (handles s.1)) s.1), w1)) as (c & w2 & Hst & Hl).
    rewrite (mbind_step _ _ _ _ _ Hst). cbn. intros [= <- <-]. cbn.
    destruct (remove_file (wr_path wr1) w2) as [y w3] eqn:Hrm. cbn.
    rewrite (remove_keeps _ _ _ _ Hrm), (proj2 Hl). cbn. rewrite <-Hd, <-Hd1. by apply Hsy1.
  - destruct (dirty wr1) eqn:Hd1'; [|by destruct Hiff as [Hiff _]; specialize (Hiff eq_refl)].
    intros [= <- <-]. cbn. by rewrite <-Hp, <-Hp1.
Qed.
End Session.

(** ** Opening *)

Section Opening.
Context `{SessionLaws} `{!RegexLaws, !Unordered, !NodeOrder, !HandleOrder}.

(** [q] opens the file [ino], whose object is [u], for writing; its bytes are then [f]. *)
Definition opens (q : request) (ino : Z) (u : Url) (f : str) (s : Vfs (W := W) * W) : Prop :=
  match q with
  | ROpen i flags =>
      i = ino ∧ is_writing flags = true ∧
      f = (if negb (Z.land flags O_TRUNC =? 0) then [] else default [] (object_bytes s.2 u)) ∧
      ∃ n, get (inodes s.1) ino = Some n ∧ parse_url ($"s3://" ++ v_bucket s.1 ++ $"/" ++ key n) = Ok u
  | RCreate parent name =>
      f = [] ∧ ∃ n, get (inodes s.1) parent = Some n ∧
        parse_url ($"s3://" ++ v_bucket s.1 ++ $"/" ++ key n ++ name) = Ok u ∧
        ino = fst (intern (inodes s.1) (key n ++ name) KFile parent) ∧
        (** the name is no directory's *)
        ∀ i, lookup_key (inodes s.1) (key n ++ name) = Some i → ∃ m, get (inodes s.1) i = Some m ∧ nkind m = KFile
  | _ => False
  end.

(** The handle a reply gives. *)
Definition handle_of (r : reply) : option Z :=
  match r with Opened fh => Some fh | Created _ fh => Some fh | _ => None end.

Lemma obj_url_ok k (s : Vfs (W := W) * W) u :
  parse_url ($"s3://" ++ v_bucket s.1 ++ $"/" ++ k) = Ok u → obj_url k s = (Ok u, s).
Proof. intros Hu. unfold obj_url, mbind, reads, mlift. cbn [fst snd]. rewrite Hu. by destruct s. Qed.

Lemma open_cache_run p t (s : Vfs (W := W) * W) r s' :
  open_cache_file p t s = (r, s') → s'.1 = s.1 ∧ open_create p t s.2 = (r, s'.2).
Proof.
  unfold open_cache_file, lift. destruct (open_create p t s.2) as [x w] eqn:Hx. intros [= <- <-].
  by destruct s.
Qed.

(** The cache file is filled with the object's bytes, or with none. *)
Lemma fill_cache_run u p trunc (s : Vfs (W := W) * W) size d s' :
  is_remote u = true → fill_cache u p trunc s = (Ok (size, d), s') →
  let f := if trunc then [] else default [] (object_bytes s.2 u) in
  s'.1 = s.1 ∧ file_bytes s'.2 p = Some f ∧ size = Z.of_nat (length f) ∧
  (d = false → object_bytes s'.2 u = Some f).
Proof.
  intros Hu. cbv zeta. unfold fill_cache.
  assert (Hempty : ∀ s1, (let! _ := open_cache_file p true in mret (0, true)) s1 = (Ok (size, d), s') →
    s'.1 = s1.1 ∧ file_bytes s'.2 p = Some [] ∧ size = 0 ∧ d = true).
  { intros s1 [(e & _ & [=])|([] & s2 & [Hv Ho]%open_cache_run & Hret)]%mbind_inv.
    injection Hret as <- <- <-. split_and!; [done|by eapply create_empty|done|done]. }
  destruct trunc. { intros (-> & -> & -> & ->)%Hempty. done. }
  unfold mbind at 1, reads. cbn [fst snd].
  intros [(e & He & _)|(st & s1 & Hst & Hr)]%mbind_inv. { unfold try in He. by destruct (lift _ _). }
  unfold try, lift in Hst. destruct (s3_stat _ u s.2) as [x w1] eqn:Hx. injection Hst as -> <-.
  destruct (stat_keeps _ _ _ _ _ Hx) as [Hk1 Hnone].
  destruct st as [o|e].
  2:{ destruct (is_not_found e) eqn:He; [|done]. apply Hempty in Hr as (-> & Hf & -> & ->).
      rewrite (Hnone e eq_refl He). done. }
  apply mbind_inv in Hr as [(e & He & _)|(dl & s1 & Hdl & Hr)]. { unfold try in He. by destruct (lift _ _). }
  unfold try, lift in Hdl. cbn [fst snd] in Hdl. destruct (s3_download _ u p w1) as [x2 w2] eqn:Hx2. injection Hdl as -> <-.
  destruct (download_keeps _ _ _ _ _ _ Hu Hx2) as [Hk2 Hdl].
  destruct dl as [y|e].
  - destruct Hdl as (f & Hf & Hp). rewrite <-Hk1, Hf. cbn [default].
    apply mbind_inv in Hr as [(e & _ & [=])|([] & s1 & [Hv Ho]%open_cache_run & Hret)]. cbn [fst snd] in Hv, Ho.
    destruct (create_keeps _ _ _ f Ho Hp) as [Hp' Hk3]. destruct (metadata_len _ _ _ Hp') as (m & Hm & Hl).
    injection Hret as Hsz <- <-. rewrite Hm in Hsz. split_and!; [done|done|by rewrite <-Hsz|].
    intros _. by rewrite Hk3, Hk2.
  - apply mbind_inv in Hr as [(e' & _ & [=])|([] & s1 & Hi & Hr)]. injection Hi as <-.
    destruct (is_not_found e) eqn:He; [|done]. apply Hempty in Hr as (-> & Hf & -> & ->).
    rewrite <-Hk1, (Hdl eq_refl). done.
Qed.

Lemma open_session ino flags u (s : Vfs (W := W) * W) f fh s' :
  is_remote u = true → opens (ROpen ino flags) ino u f s → vfs_open ino flags s = (Ok fh, s') →
  session ino fh (cache_path s.1 fh) u f s'.
Proof.
  intros Hu (_ & Hw & Hf & n & Hn & Hp). unfold vfs_open.
  assert (Hnode : node ino s = (Ok n, s)) by (unfold node, mbind, reads; cbn; by rewrite Hn).
  rewrite (mbind_step _ _ _ _ _ Hnode). destruct (nkind n) eqn:Hk; [done|]. cbn [kind_is_dir].
  unfold alloc_fh. rewrite mbind_assoc. unfold mbind at 1, reads. cbn [fst snd].
  rewrite mbind_assoc. unfold mbind at 1, modify. cbn [fst snd]. unfold mbind at 1, mret at 1. rewrite Hw.
  set (fh' := (_ + 1) mod 2 ^ 64). set (s1 := (set_next_fh fh' s.1, s.2)).
  unfold open_writer. rewrite (mbind_step _ _ _ _ _ (obj_url_ok (key n) s1 u Hp)).
  unfold mbind at 1, reads at 1. cbn [fst snd].
  intros [(e & _ & [=])|([size d] & s2 & Hfill & Hr)]%mbind_inv.
  apply (fill_cache_run _ _ _ _ _ _ _ Hu) in Hfill as (Hv2 & Hb & -> & Hsync). cbn [fst snd] in *.
  replace (if negb _ then [] else _) with f in Hb, Hsync, Hr by done.
  unfold mbind at 1, reads, insert_handle, modify in Hr. cbn [fst snd] in Hr. unfold mbind at 1 in Hr.
  set (s3 := (set_handles _ s2.1, s2.2)) in Hr.
  set (wr := Writer_new _ _ u _ d) in s3.
  destruct (record_size_run ino fh' (cache_path s.1 fh') u wr s3.2 f s3) as (s4 & Hrec & Hs4);
    [exists n; unfold s3; cbn; by rewrite Hv2|unfold s3; cbn; by rewrite lookup_insert_eq|done..|].
  rewrite <-mbind_assoc in Hr. rewrite (mbind_step _ _ _ _ _ Hrec) in Hr. by injection Hr as <- <-.
Qed.

Lemma create_session parent name ino u f (s : Vfs (W := W) * W) ino' fh a s' :
  opens (RCreate parent name) ino u f s → vfs_create parent name s = (Ok (ino', fh, a), s') →
  session ino fh (cache_path s.1 fh) u f s'.
Proof.
  intros (-> & n & Hn & Hp & -> & Hfree). unfold vfs_create.
  assert (Hnode : node parent s = (Ok n, s)) by (unfold node, mbind, reads; cbn; by rewrite Hn).
  rewrite (mbind_step _ _ _ _ _ Hnode). destruct (kind_is_dir (nkind n)); [|done]. cbn [negb].
  set (k := key n ++ name) in *. set (i := fst (intern (inodes s.1) k KFile parent)).
  set (t := snd (intern (inodes s.1) k KFile parent)).
  assert (Hi : vfs_intern k KFile parent s = (Ok i, (set_inodes t s.1, s.2))).
  { unfold vfs_intern, i, t. destruct s as [v w]. cbn. by destruct (intern _ _ _ _). }
  assert (Hfile : ∃ m, get t i = Some m ∧ nkind m = KFile).
  { unfold t, i, intern, lookup_key in *. destruct (by_key (inodes s.1) !! k) as [j|] eqn:Hl; cbn.
    - by apply Hfree.
    - eexists. unfold get. cbn. by rewrite lookup_insert_eq. }
  rewrite (mbind_step _ _ _ _ _ Hi). unfold alloc_fh. rewrite mbind_assoc. unfold mbind at 1, reads. cbn [fst snd].
  rewrite mbind_assoc. unfold mbind at 1, modify. cbn [fst snd]. unfold mbind at 1, mret at 1.
  set (fh' := (_ + 1) mod 2 ^ 64). set (s1 := (set_next_fh fh' _, s.2)). unfold mbind at 1. cbn [fst snd].
  intros [(e & _ & [=])|([] & s2 & [Hv2 Ho]%open_cache_run & Hr)]%mbind_inv.
  apply create_empty in Ho. unfold mbind at 1 in Hr. cbn [fst snd] in Hr.
  rewrite (mbind_step _ _ _ _ _ (obj_url_ok k s2 u ltac:(by rewrite Hv2))) in Hr.
  unfold insert_handle, modify in Hr. unfold mbind at 1 in Hr. cbn [fst snd] in Hr.
  set (wr := Writer_new _ _ u 0 true) in Hr. set (s3 := (set_handles _ s2.1, s2.2)) in Hr.
  destruct (set_dirty_size_run i 0 s3) as (t1 & w1 & Hr1 & Hl1). rewrite (mbind_step _ _ _ _ _ Hr1) in Hr.
  unfold mbind at 1, reading in Hr. cbn [fst snd] in Hr. destruct (system_time w1) as [now w2] eqn:Hnow.
  pose proof (later_trans _ _ _ Hl1 (clock_keeps _ _ _ (or_intror Hnow))) as Hl2. cbn zeta in Hr.
  destruct (store_attr_run (file_attr i 0 now) (set_dirty (<[i := (0, t1)]> (dirty_sizes s3.1)) s3.1, w2))
    as (t3 & w3 & Hr3 & Hl3). rewrite (mbind_step _ _ _ _ _ Hr3) in Hr. injection Hr as <- <- _ <-.
  pose proof (later_trans _ _ _ Hl2 Hl3) as Hl. constructor; cbn.
  - exists wr. rewrite lookup_insert_eq. split_and!; [done|done|done| |done].
    eapply writer_ok_later; [exact Hl|]. by split.
  - exists t1. by rewrite lookup_insert_eq.
  - rewrite Hv2. done.
Qed.

End Opening.
