(* ===== verification/S3Laws.v ===== *)
(** * What the commands rely on from an S3 backend

    The content of every object of a world, what each operation of [S3Ops] may change of it,
    and what its answers mean. BackendSpec.v proves it of the backend of storage/s3.rs. *)

From S2P Require Import Prelude RustStr Strutil Url Storage Fs.

Local Open Scope Z_scope.

(** The bucket and key a URL names. *)
Definition loc `{RegexLib} (u : Url) : str * str := (bucket u, path u).

(** The URL a listing sends for the key [k]. *)
Definition listed_url `{RegexLib} (u : Url) (k : str) : Url := with_path (matches u k).2 k.

(** A listing of the current objects under a literal prefix, however deep. *)
Definition flat_listing `{RegexLib} (u : Url) : Prop :=
  delimiter u = [] ∧ is_versioned u = false ∧ start_after u = [] ∧
  ∀ k, (matches u k).1 = true → starts_with (url_prefix u) k = true.

(** The objects of a world, and the clients of runs that are not dry. *)
Class S3View `{RegexLib} (W : Type) `{!S3Ops W} := {
  obj : W → str * str → option str;
  live : S3 → Prop;
}.

Class S3Laws `{RegexLib} (W : Type) `{!S3Ops W, !S3View W} : Prop := {
  new_law : ∀ u o w r w', S3_new u o w = (r, w') →
    w' = w ∧ (dry_run o = false → ∀ s, r = Ok s → live s);
  stat_law : ∀ s u w r w', s3_stat s u w = (r, w') →
    (∀ l, obj w' l = obj w l) ∧
    (version_id u = [] →
     match r with
     | Ok o => ∃ c, obj w (loc u) = Some c ∧ size o = Z.of_nat (length c)
     | Err e => is_not_found e = true → obj w (loc u) = None
     end);
  list_law : ∀ s u w os w', s3_list s u w = (os, w') →
    (∀ l, obj w' l = obj w l) ∧
    ∀ o v, o ∈ os → url o = Some v →
      bucket v = bucket u ∧ (matches u (path v)).1 = true ∧ relative v = relative (listed_url u (path v));
  list_site : ∀ s u w os w', s3_list s u w = (os, w') →
    ∀ o v, o ∈ os → url o = Some v → kind v = kind u ∧ scheme v = scheme u;
  list_complete : ∀ s u w os w', s3_list s u w = (os, w') → flat_listing u →
    (∀ o e, o ∈ os → obj_err o = Some e → is_no_object e = true →
       ∀ k, (matches u k).1 = true → obj w (bucket u, k) = None) ∧
    ((∀ o, o ∈ os → obj_err o = None) →
       ∀ k c, (matches u k).1 = true → obj w (bucket u, k) = Some c →
         ∃ o v, o ∈ os ∧ url o = Some v ∧ path v = k ∧ is_dir (typ o) = false) ∧
    (∀ o v, o ∈ os → url o = Some v → version_id v = [] ∧ is_Some (obj w (bucket u, path v)));
  copy_law : ∀ s src dst md w r w', s3_copy s src dst md w = (r, w') →
    (∀ l, l ≠ loc dst → obj w' l = obj w l) ∧
    (live s → object_url src → version_id src = [] → r = Ok tt →
     obj w' (loc dst) = obj w (loc src) ∧ is_Some (obj w (loc src)));
  delete_law : ∀ s u w r w', s3_delete s u w = (r, w') →
    (∀ l, l ≠ loc u → obj w' l = obj w l) ∧
    (live s → version_id u = [] → r = Ok tt → obj w' (loc u) = None);
  (** of URLs of one bucket *)
  multi_delete_law : ∀ s us b w os w', s3_multi_delete s us w = (os, w') → Forall (λ u, bucket u = b) us →
    (∀ l, l ∉ map loc us → obj w' l = obj w l) ∧
    (live s → (∀ o, o ∈ os → obj_err o = None) → ∀ l, l ∈ map loc us → obj w' l = None);
  upload_law : ∀ s p dst md w r w', s3_upload s p dst md w = (r, w') → ∀ l, l ≠ loc dst → obj w' l = obj w l;
  range_law : ∀ s u o n w r w', s3_read_range s u o n w = (r, w') → ∀ l, obj w' l = obj w l;
}.

(** A wildcard lists everything below its literal prefix. *)
Lemma wildcard_flat `{RegexLaws} u :
  url_wf u → is_wildcard u = true → is_versioned u = false → start_after u = [] → flat_listing u.
Proof.
  intros Hwf Hw Hver Hsa. unfold is_wildcard in Hw. apply andb_true_iff in Hw as [Hraw Hg]. apply negb_true_iff in Hraw.
  split_and!; [|done|done|intros k; by apply matches_extends].
  destruct (wf_split u Hwf Hraw) as (Hp & Hpre & _ & Hd & _). rewrite Hd. destruct (decide _) as [He|]; [|done].
  exfalso. rewrite He, app_nil_r in Hp. by rewrite Hp, Hpre in Hg.
Qed.
