(* ===== verification/Listed.v ===== *)
(** * What a wildcard lists

    A remote wildcard is listed flat; each object it sends has a relative path, which is the
    rest of its key below the directory of the wildcard. *)

From S2P Require Import Prelude RustStr Strutil Url Storage Fs S3Laws.

Local Open Scope Z_scope.

Section Listed.
Context `{RegexLaws} {W : Type} `{!S3Ops W, !S3View W, !S3Laws W}.

(** The keys a wildcard and the filters choose. *)
Definition chosen (u : Url) (filters : Filters) (k : str) : Prop :=
  (matches u k).1 = true ∧ should_skip filters (filter_key (listed_url u k)) = false.

(** A remote wildcard: its listing is flat. *)
Record wild (u : Url) : Prop := {
  wi_wf : url_wf u;
  wi_raw : raw u = false;
  wi_remote : is_remote u = true;
  wi_filter : url_filter u ≠ [];
  wi_flat : flat_listing u;
}.

Lemma parse_wild a u : parse a = Ok u → is_remote u = true → is_wildcard u = true → wild u.
Proof.
  intros Hp Hrem Hw. pose proof (Url_new_wf _ _ _ Hp) as Hwf. pose proof Hw as Hw2. unfold is_wildcard in Hw2.
  apply andb_true_iff in Hw2 as [Hraw%negb_true_iff Hg]. destruct (Url_new_versions _ _ _ Hp) as [Ha Hv].
  split; [done|done|done| |].
  - intros Hf. destruct (wf_split u Hwf Hraw) as (Hpath & Hpre & _). by rewrite Hpath, Hf, app_nil_r, Hpre in Hg.
  - apply wildcard_flat; [done|done| |exact (Url_new_start _ _ _ Hp)]. unfold is_versioned. by rewrite Ha, Hv.
Qed.

(** The key of a name at the source, and its place at the destination. *)
Definition source_key (src : Url) (rel : str) : str := dir_part (url_prefix src) ++ rel.
Definition dest_at (dst : Url) (rel : str) : str * str := (bucket dst, path dst ++ rel).

Lemma dest_at_inj dst rel rel' : dest_at dst rel = dest_at dst rel' → rel = rel'.
Proof. by intros [= ?%app_inv_head]. Qed.

(** A name a source object can have: the code uses the absolute URL of an object
    whose relative path is empty. *)
Definition plain_name (rel : str) : Prop := rel ≠ [] ∧ starts_with ($"s3://") rel = false.

Lemma listed_url_absolute u k : url_wf u → is_remote u = true → starts_with ($"s3://") (absolute (listed_url u k)) = true.
Proof.
  intros Hwf Hrem. pose proof (wf_scheme u Hwf) as Hs. rewrite Hrem in Hs.
  assert (Hk : kind (listed_url u k) = kind u ∧ scheme (listed_url u k) = scheme u).
  { unfold listed_url, matches. destruct (filter_regex u); [|done]. by destruct (is_match _ _). }
  destruct Hk as [Hk Hsc]. unfold absolute, is_remote in *. rewrite Hk, Hrem. cbn [negb]. unfold remote_url. rewrite Hsc, Hs.
  apply starts_with_true. by eexists.
Qed.

Lemma listed_relative u k rel :
  wild u → (matches u k).1 = true → rel ≠ [] →
  (k = dir_part (url_prefix u) ++ rel → relative (listed_url u k) = rel) ∧
  (plain_name rel → relative (listed_url u k) = rel → k = dir_part (url_prefix u) ++ rel).
Proof.
  intros [Hwf Hraw Hrem Hf _] Hm Hne. pose proof (matches_dir u k Hwf Hraw Hf Hm) as Hk.
  pose proof (listed_url_absolute u k Hwf Hrem) as Habs.
  unfold relative. cbn [relative_path listed_url with_path]. case_bool_decide as He; cbn [negb].
  - rewrite He, app_nil_r in Hk. split.
    + rewrite <-Hk at 1. intros Hd. rewrite <-(app_nil_r (dir_part _)) in Hd at 1. apply app_inv_head in Hd. by subst rel.
    + intros [_ Hs3] <-. congruence.
  - split; [|by intros _ <-]. rewrite <-Hk at 1. by intros ?%app_inv_head.
Qed.

(** The source has an object of this name, with these bytes. *)
Definition in_source (src : Url) (w : W) (rel c : str) : Prop :=
  (matches src (source_key src rel)).1 = true ∧ obj w (bucket src, source_key src rel) = Some c.

(** An object a listing of [u] sent. *)
Record listed (u : Url) (w : W) (v : Url) : Prop := {
  li_site : bucket v = bucket u ∧ is_remote v = true ∧ scheme v = scheme u ∧ version_id v = [];
  li_match : (matches u (path v)).1 = true;
  li_rel : relative v = relative (listed_url u (path v));
  li_obj : is_Some (obj w (bucket u, path v));
}.

Lemma listing_elem s u w os w' o v :
  s3_list s u w = (os, w') → wild u → o ∈ os → url o = Some v → listed u w v.
Proof.
  intros Hl Hu Ho Hv. destruct (proj2 (list_law _ _ _ _ _ Hl) o v Ho Hv) as (Hb & Hm & Hr).
  destruct (list_site _ _ _ _ _ Hl o v Ho Hv) as [Hk Hs].
  destruct (list_complete _ _ _ _ _ Hl (wi_flat u Hu)) as (_ & _ & Hx). destruct (Hx o v Ho Hv) as [Hver Hex].
  split; [|done..]. split_and!; [done| |done|done]. pose proof (wi_remote u Hu) as Hrem. unfold is_remote in *. by rewrite Hk.
Qed.
End Listed.
