(* ===== verification/CpExact.v ===== *)
(** * What [cp] and [mv] of a wildcard do to the objects

    Between two prefixes, over one client: each name the source has gets its bytes at the
    destination, and a move leaves nothing of it at the source. *)

From S2P Require Import Prelude RustStr Strutil Url Storage Fs Hoare Pool S3cfg Global Cp CpSpec S3Laws Listed.

Local Open Scope Z_scope.

Section CpExact.
Context `{RegexLaws} `{ByteSizeLib} {W : Type} `{!Os W, !S3Ops W, !S3View W, !S3Laws W}.

(** ** The jobs *)

Section Jobs.
Context (c : S3) (opts : Options) (md : Metadata) (is_move links : bool) (w0 : W) (jobs : list (Url * Url)) (good : Url → Prop).
Hypothesis Hclient : client_copy opts = false.

(** Remote to remote, and no target is a source; [good] sources are objects, each with a
    target of its own. *)
Record apart_jobs : Prop := {
  aj_remote : ∀ s t, (s, t) ∈ jobs → is_remote s = true ∧ is_remote t = true ∧ version_id s = [];
  aj_object : ∀ s t, (s, t) ∈ jobs → good s → object_url s;
  aj_same : ∀ s t s' t', (s, t) ∈ jobs → (s', t') ∈ jobs → loc s = loc s' → good s → good s';
  aj_apart : ∀ s t, (s, t) ∈ jobs → loc s ∉ map (loc ∘ snd) jobs;
  aj_agree : ∀ s t s' t', (s, t) ∈ jobs → (s', t') ∈ jobs → loc t = loc t' → good s → loc s = loc s';
}.
Hypothesis Hjobs : apart_jobs.

Definition sources : list (str * str) := map (loc ∘ fst) jobs.
Definition targets : list (str * str) := map (loc ∘ snd) jobs.

Lemma job_step s t w r w' :
  (s, t) ∈ jobs → copy_one (Some c) None opts md is_move links (s, t) w = (r, w') →
  (∀ l, l ≠ loc t → (is_move = true → l ≠ loc s) → obj w' l = obj w l) ∧
  (live c → object_url s → r = Ok tt →
   obj w' (loc t) = obj w (loc s) ∧ is_Some (obj w (loc s)) ∧ (is_move = true → obj w' (loc s) = None)).
Proof.
  intros Hin. destruct (aj_remote Hjobs s t Hin) as (Hs & Ht & Hv). unfold copy_one. rewrite Hs, Ht. cbn [negb]. rewrite !andb_false_r, ?andb_false_l.
  unfold transfer, remove_source. rewrite Hs, Ht. cbn [need]. rewrite Hclient.
  assert (Hne : loc t ≠ loc s).
  { intros Heq. apply (aj_apart Hjobs s t Hin). rewrite <-Heq. apply list_elem_of_fmap. by exists (s, t). }
  intros [(e & [Hf _]%copy_law & ->)|([] & w1 & [Hf1 Hc]%copy_law & Hr)]%mbind_inv; [split; [by intros l Hl _; apply Hf|done]|].
  destruct is_move.
  - apply delete_law in Hr as [Hf2 Hd]. split.
    + intros l Hl1 Hl2. by rewrite Hf2, Hf1 by auto.
    + intros Hlive Hobj ->. destruct (Hc Hlive Hobj Hv eq_refl) as [Hval Hex]. rewrite Hf2 by done. split_and!; [done..|].
      intros _. by apply Hd.
  - injection Hr as <- <-. split; [intros l Hl _; by apply Hf1|]. intros Hlive Hobj _.
    destruct (Hc Hlive Hobj Hv eq_refl) as [Hval Hex]. by split_and!.
Qed.

Lemma not_target s t l : (s, t) ∈ jobs → l ∈ targets → loc s ≠ l.
Proof. intros Hin Hl <-. by apply (aj_apart Hjobs s t Hin). Qed.

Lemma target_in s t : (s, t) ∈ jobs → loc t ∈ targets.
Proof. intros Hin. apply list_elem_of_fmap. by exists (s, t). Qed.

Lemma source_in s t : (s, t) ∈ jobs → loc s ∈ sources.
Proof. intros Hin. apply list_elem_of_fmap. by exists (s, t). Qed.

(** Whatever happens, only targets change, and the sources of a move. *)
Lemma jobs_frame workers sched p :
  transfers workers (Some c) None opts md is_move links sched jobs w0 = Some p → pool_final p →
  ∀ l, l ∉ targets → (is_move = true → l ∉ sources) → obj (Pool.world p) l = obj w0 l.
Proof.
  intros Hrun Hfin l Ht Hs. refine (proj1 (pool_establishes _ report _ workers (λ _, True) jobs (λ w, obj w l = obj w0 l) (λ _ _, True)
    _ _ _ _ _ _ _ Hrun Hfin _ _)); try done; [|by apply Forall_forall].
  intros [s t] w r w' Hin Hw Hj _. rewrite (proj1 (job_step s t w r w' Hin Hj)); [done| |].
  - intros ->. by apply Ht, (target_in s).
  - intros Hmv ->. by apply (Hs Hmv), (source_in s t).
Qed.

(** A source that no transfer has moved yet is as it was. *)
Definition sources_kept (w : W) : Prop := ∀ s t, (s, t) ∈ jobs → good s →
  obj w (loc s) = obj w0 (loc s) ∨ (is_move = true ∧ obj w (loc s) = None).

Definition job_moved (j : Url * Url) (w : W) : Prop := good j.1 →
  obj w (loc j.2) = obj w0 (loc j.1) ∧ (is_move = true → obj w (loc j.1) = None).

Hypothesis Hlive : live c.

Lemma job_keeps j w r w' :
  j ∈ jobs → sources_kept w → copy_one (Some c) None opts md is_move links j w = (r, w') → r = Ok tt → sources_kept w'.
Proof.
  destruct j as [s t]. intros Hin Hw Hj -> s1 t1 Hin1 Hp. destruct (job_step s t w _ w' Hin Hj) as [Hf Hok].
  pose proof (not_target s1 t1 _ Hin1 (target_in s t Hin)) as Hne.
  destruct (decide (loc s1 = loc s)) as [Heq|Hns]; [|rewrite Hf by done; by apply (Hw s1 t1)].
  destruct is_move eqn:Hmv; [right|left].
  - assert (Hobj : object_url s) by (apply (aj_object Hjobs s t Hin), (aj_same Hjobs s1 t1 s t); done).
    destruct (Hok Hlive Hobj eq_refl) as (_ & _ & Hgone). rewrite Heq. by split; [|apply Hgone].
  - rewrite Hf by done. destruct (Hw s1 t1 Hin1 Hp) as [?|[Ht _]]; [done|congruence].
Qed.

Lemma job_establishes j w r w' :
  j ∈ jobs → sources_kept w → copy_one (Some c) None opts md is_move links j w = (r, w') → r = Ok tt → job_moved j w'.
Proof.
  destruct j as [s t]. intros Hin Hw Hj -> Hp. cbn [fst snd] in *. destruct (job_step s t w _ w' Hin Hj) as [_ Hok].
  destruct (Hok Hlive (aj_object Hjobs s t Hin Hp) eq_refl) as (Hv & [x Hx] & Hgone). split; [|done].
  destruct (Hw s t Hin Hp) as [<-|[_ Hn]]; [done|congruence].
Qed.

Lemma job_stable i j w r w' :
  i ∈ jobs → j ∈ jobs → sources_kept w → job_moved j w →
  copy_one (Some c) None opts md is_move links i w = (r, w') → r = Ok tt → job_moved j w'.
Proof.
  destruct i as [si ti], j as [s t]. intros Hi Hj Hw Hp Hx Hr Hne. cbn [fst snd] in *. destruct (Hp Hne) as [Hv Hgone]. cbn [fst snd] in *.
  pose proof (job_establishes (si, ti) w r w' Hi Hw Hx Hr) as Hest. destruct (job_step si ti w r w' Hi Hx) as [Hf _].
  unfold job_moved in Hest. cbn [fst snd] in Hest. split.
  - destruct (decide (loc t = loc ti)) as [Heq|Hnt].
    + pose proof (aj_agree Hjobs _ _ _ _ Hj Hi Heq Hne) as Hs. rewrite Heq, Hs. by apply Hest, (aj_same Hjobs s t si ti).
    + rewrite Hf; [done|done|]. intros _ Heq. by apply (not_target si ti (loc t) Hi (target_in s t Hj)).
  - intros Hmv. destruct (decide (loc s = loc si)) as [Heq|Hns].
    + rewrite Heq. apply Hest; [by apply (aj_same Hjobs s t si ti)|done].
    + rewrite Hf; [by apply Hgone|apply (not_target s t _ Hj), (target_in si ti Hi)|done].
Qed.

(** When every transfer succeeded, each has moved its bytes. *)
Lemma jobs_done workers sched p :
  transfers workers (Some c) None opts md is_move links sched jobs w0 = Some p → pool_final p →
  jobs ≡ₚ map fst (reported p) → Forall (λ jr, snd jr = Ok tt) (reported p) → ∀ j, j ∈ jobs → job_moved j (Pool.world p).
Proof.
  intros Hrun Hfin Hall Hok. refine (proj2 (pool_establishes _ report _ workers (λ r, r = Ok tt) jobs sources_kept job_moved
    job_keeps job_establishes job_stable _ _ _ _ Hrun Hfin _ Hok) Hall). by left.
Qed.
End Jobs.

(** ** The pairs *)

Lemma listed_pairs_elem dst filters os s t :
  (s, t) ∈ listed_pairs dst filters os ↔
  ∃ o, o ∈ os ∧ obj_err o = None ∧ url o = Some s ∧ is_dir (typ o) = false ∧ should_skip filters (filter_key s) = false ∧
       t = url_join dst (relative s).
Proof.
  induction os as [|o os IH]; cbn [listed_pairs].
  { split; [by intros ?%elem_of_nil|by intros (? & ?%elem_of_nil & _)]. }
  assert (Hskip : (∀ u, obj_err o = None → url o = Some u → is_dir (typ o) = false → should_skip filters (filter_key u) = true) →
    (s, t) ∈ listed_pairs dst filters os ↔ ∃ o', o' ∈ o :: os ∧ obj_err o' = None ∧ url o' = Some s ∧ is_dir (typ o') = false ∧
       should_skip filters (filter_key s) = false ∧ t = url_join dst (relative s)).
  { intros Hno. rewrite IH. split; intros (o' & Ho & Hrest); exists o'; (split; [|done]); [by right|].
    apply elem_of_cons in Ho as [->|?]; [|done]. destruct Hrest as (He & Hu & Hd & Hs & _). by rewrite (Hno s He Hu Hd) in Hs. }
  destruct (obj_err o) eqn:He; [by apply Hskip|]. destruct (url o) as [u|] eqn:Hu; [|by apply Hskip].
  destruct (is_dir (typ o)) eqn:Hd; [by apply Hskip|]. destruct (should_skip filters (filter_key u)) eqn:Hs.
  { apply Hskip. by intros u' _ [= <-]. }
  clear Hskip. rewrite elem_of_cons, IH. split.
  - intros [[= -> ->]|(o' & Ho & Hrest)]; [exists o|exists o']; (split; [by constructor|done]).
  - intros (o' & [->|Ho]%elem_of_cons & Hrest); [left|right; by exists o'].
    destruct Hrest as (_ & Hu' & _ & _ & ->). congruence.
Qed.

(** Neither of the source and the destination is within the other. *)
Definition separate (src dst : Url) : Prop := bucket src = bucket dst →
  starts_with (url_prefix src) (path dst) = false ∧ starts_with (path dst) (url_prefix src) = false.

Lemma separate_keys src dst k rel :
  separate src dst → bucket src = bucket dst → starts_with (url_prefix src) k = true → k ≠ path dst ++ rel.
Proof.
  intros Hsep Hb [x Hx]%starts_with_true Hk. destruct (Hsep Hb) as [Hsd Hds].
  destruct (prefix_weak_total (url_prefix src) (path dst) k) as [[y Hy]|[y Hy]]; [by exists x|by exists rel|..].
  - apply not_true_iff_false in Hsd. apply Hsd, starts_with_true. by exists y.
  - apply not_true_iff_false in Hds. apply Hds, starts_with_true. by exists y.
Qed.

Section Pairs.
Context (src dst : Url) (filters : Filters) (w w1 : W) (s3 : S3) (os : list Object).
Hypotheses (Hsrc : wild src) (Hdst : is_remote dst = true) (Hsep : separate src dst).
Hypothesis Hlist : s3_list s3 src w = (os, w1).

#[local] Abbreviation pairs := (listed_pairs dst filters os).

#[local] Abbreviation source_key := (Listed.source_key src).
#[local] Abbreviation dest_at := (Listed.dest_at dst).

Lemma pair_spec s t :
  (s, t) ∈ pairs → listed src w s ∧ chosen src filters (path s) ∧ loc t = dest_at (relative s) ∧ is_remote t = true.
Proof.
  intros (o & Ho & _ & Hu & _ & Hskip & ->)%listed_pairs_elem. pose proof (listing_elem _ _ _ _ _ _ _ Hlist Hsrc Ho Hu) as Hli.
  unfold url_join. rewrite Hdst. cbn [negb]. split_and!; [done| |done|done]. split; [apply Hli|].
  unfold filter_key in *. by rewrite <-(li_rel _ _ _ Hli).
Qed.

Lemma listed_name s rel :
  listed src w s → plain_name rel → relative s = rel → path s = source_key rel.
Proof.
  intros Hli Hrel Hr. apply (listed_relative src _ rel Hsrc (li_match _ _ _ Hli) (proj1 Hrel)); [done|]. by rewrite <-(li_rel _ _ _ Hli).
Qed.

Lemma listed_object s : listed src w s → path s ≠ [] → object_url s.
Proof.
  intros Hli Hp. destruct (li_site _ _ _ Hli) as (Hb & Hrem & Hsc & _).
  destruct (wf_bucket src (wi_wf _ Hsrc) (wi_remote _ Hsrc)) as (Hne & Hsl & _). pose proof (wf_scheme src (wi_wf _ Hsrc)) as Hss.
  rewrite (wi_remote _ Hsrc) in Hss. split_and!; [by apply is_remote_true|by rewrite Hsc|by rewrite Hb|by rewrite Hb|done].
Qed.

Lemma pairs_apart : apart_jobs pairs (λ s, plain_name (relative s)).
Proof.
  split.
  - intros s t (Hli & _ & _ & Ht)%pair_spec. destruct (li_site _ _ _ Hli) as (_ & Hr & _ & Hv). done.
  - intros s t (Hli & _)%pair_spec Hg. apply listed_object; [done|]. rewrite (listed_name s _ Hli Hg eq_refl).
    unfold Listed.source_key. intros [_ ?]%app_eq_nil. by destruct Hg.
  - intros s t s' t' (Hli & _)%pair_spec (Hli' & _)%pair_spec [= _ Hp]. by rewrite (li_rel _ _ _ Hli), (li_rel _ _ _ Hli'), Hp.
  - intros s t (Hli & _)%pair_spec ([s' t'] & Heq & (_ & _ & Ht & _)%pair_spec)%list_elem_of_fmap. cbn in Heq. rewrite Ht in Heq.
    injection Heq as Hb Hk. rewrite (proj1 (li_site _ _ _ Hli)) in Hb.
    apply (separate_keys src dst (path s) (relative s') Hsep Hb); [|done].
    apply (matches_extends src _ (wi_wf _ Hsrc) (wi_raw _ Hsrc)), Hli.
  - intros s t s' t' (Hli & _ & Ht & _)%pair_spec (Hli' & _ & Ht' & _)%pair_spec. rewrite Ht, Ht'. intros [= Hr%app_inv_head] Hg.
    pose proof (listed_name s _ Hli Hg eq_refl) as Hp. rewrite Hr in Hg, Hp. rewrite <-(listed_name s' _ Hli' Hg eq_refl) in Hp.
    unfold loc. by rewrite (proj1 (li_site _ _ _ Hli)), (proj1 (li_site _ _ _ Hli')), Hp.
Qed.

(** Every chosen name of the source has its pair. *)
Lemma pairs_cover rel c :
  Forall (λ o, obj_err o = None) os → plain_name rel → chosen src filters (source_key rel) →
  obj w (bucket src, source_key rel) = Some c →
  ∃ s t, (s, t) ∈ pairs ∧ loc s = (bucket src, source_key rel) ∧ loc t = dest_at rel ∧ relative s = rel.
Proof.
  intros Hclean Hrel [Hm Hskip] Hc. rewrite Forall_forall in Hclean.
  destruct (list_complete _ _ _ _ _ Hlist (wi_flat _ Hsrc)) as (_ & Hall & _).
  destruct (Hall Hclean _ c Hm Hc) as (o & v & Ho & Hv & Hp & Hd). pose proof (listing_elem _ _ _ _ _ _ _ Hlist Hsrc Ho Hv) as Hli.
  assert (Hr : relative v = rel).
  { rewrite (li_rel _ _ _ Hli), Hp. by apply (listed_relative src _ rel Hsrc Hm (proj1 Hrel)). }
  assert (Hin : (v, url_join dst (relative v)) ∈ pairs).
  { apply listed_pairs_elem. exists o. split_and!; try done; [by apply Hclean|]. rewrite <-Hskip. unfold filter_key. by rewrite (li_rel _ _ _ Hli), Hp. }
  exists v, (url_join dst (relative v)). destruct (pair_spec _ _ Hin) as (_ & _ & Ht & _). rewrite Hr in Ht at 2.
  split_and!; [done|unfold loc; by rewrite (proj1 (li_site _ _ _ Hli)), Hp|done|done].
Qed.
End Pairs.

(** ** The command *)

Section Command.
Context (now : Z) (global : GlobalOpts) (a : CpArgs) (is_move : bool).

Definition copy_options : Options := cp_options (storage_options now global) a.

Definition copy_filters (w : W) : result Filters Error :=
  let patterns given from := result_map_err anyhow (patterns_with_files (λ f, read_to_string f w) given from) in
  let? includes := patterns (cp_include a) (cp_include_from a) in
  let? excludes := patterns (cp_exclude a) (cp_exclude_from a) in
  result_map_err anyhow (Filters_new includes excludes).

(** One remote wildcard to a remote destination apart from it, over one client. *)
Record wildcard_copy (src dst : Url) (filters : Filters) (w : W) : Prop := {
  wc_paths : ∃ raw draw, paths a = [raw; draw] ∧ parse raw = Ok src ∧ parse draw = Ok dst;
  wc_plain : cp_version_id a = None ∧ cp_all_versions a = false;
  wc_wild : is_remote src = true ∧ is_wildcard src = true;
  wc_dst : is_remote dst = true;
  wc_separate : separate src dst;
  wc_filters : copy_filters w = Ok filters;
  wc_client : client_copy copy_options = false;
  wc_sides : sides_differ copy_options = false;
}.

Context (src dst : Url) (filters : Filters) (w : W).
Hypothesis Hwc : wildcard_copy src dst filters w.

Lemma copy_wild : wild src.
Proof.
  destruct (wc_paths _ _ _ _ Hwc) as (raw & draw & _ & Hp & _). apply (parse_wild raw); [done|apply (wc_wild _ _ _ _ Hwc)..].
Qed.

(** The listing of the source. *)
Definition copy_listing (s3 : S3) (os : list Object) (w1 : W) : Prop :=
  S3_new src copy_options w = (Ok s3, w) ∧ s3_list s3 src w = (os, w1).

Lemma expand_sources_inv r w' :
  expand_sources src dst copy_options (cp_follow_symlinks a) filters w = (r, w') →
  (∀ x, obj w' x = obj w x) ∧ ∀ ps, r = Ok ps → ∃ s3 os, copy_listing s3 os w' ∧ ps = listed_pairs dst filters os.
Proof.
  destruct (wc_wild _ _ _ _ Hwc) as [Hrem Hw]. unfold expand_sources, new_client. rewrite Hrem, Hw. cbn [negb]. rewrite !andb_false_r, mbind_assoc.
  intros [(e & [-> _]%new_law & ->)|(s3 & w1 & Hn & Hr)]%mbind_inv; [done|]. pose proof (new_law _ _ _ _ _ Hn) as [-> _].
  unfold mbind, mret in Hr. cbn [storage_list] in Hr. destruct (s3_list s3 src w) as [os w1] eqn:Hl. injection Hr as <- <-.
  split; [exact (proj1 (list_law _ _ _ _ _ Hl))|]. intros ps [= <-]. by exists s3, os.
Qed.

Lemma cp_prepare_inv r w' :
  prepare now global a is_move w = (r, w') →
  (∀ x, obj w' x = obj w x) ∧
  ∀ ps clients opts, r = Ok (ps, clients, opts) →
    ∃ s3 os w1 cl, copy_listing s3 os w1 ∧ ps = listed_pairs dst filters os ∧ clients = (Some cl, None) ∧ opts = copy_options ∧
      (dry_run copy_options = false → live cl).
Proof.
  destruct (wc_paths _ _ _ _ Hwc) as (raw & draw & Hpaths & Hsrc & Hdst). destruct (wc_plain _ _ _ _ Hwc) as [Hvid Hall].
  pose proof (wc_filters _ _ _ _ Hwc) as (inc & Hinc & (exc & Hexc & Hf)%result_bind_Ok)%result_bind_Ok.
  unfold prepare. fold copy_options. rewrite Hpaths. cbn [reverse rev_append]. cbv zeta.
  rewrite (mbind_step (mlift _) _ w dst w) by (unfold mlift; by rewrite Hdst).
  rewrite (mbind_step _ _ w (dest_is_dir_like dst w) w) by done. cbn [length Nat.ltb Nat.leb andb].
  rewrite (mbind_step _ _ w inc w) by by rewrite Hinc. rewrite (mbind_step _ _ w exc w) by by rewrite Hexc.
  rewrite (mbind_step (mlift _) _ w filters w) by (unfold mlift; by rewrite Hf).
  cbn [reverse rev_append expand_all]. rewrite Hvid, Hall.
  rewrite mbind_assoc. rewrite (mbind_step (mlift _) _ w src w) by (unfold mlift; unfold parse, UrlOptions_default in Hsrc; by rewrite Hsrc).
  rewrite mbind_assoc. intros [(e & [Hs _]%expand_sources_inv & ->)|(ps & w1 & [Hs Hps]%expand_sources_inv & Hr)]%mbind_inv; [done|].
  destruct (Hps ps eq_refl) as (s3 & os & Hlist & ->).
  rewrite mbind_assoc in Hr. unfold mbind at 1, mret at 1 in Hr. unfold mbind at 1, mret at 1 in Hr. rewrite app_nil_r in Hr.
  rewrite (wc_dst _ _ _ _ Hwc), (wc_sides _ _ _ _ Hwc), orb_true_r in Hr. rewrite mbind_assoc in Hr.
  apply mbind_inv in Hr as [(e & [-> _]%new_law & ->)|(cl & w2 & Hn & Hr)]; [done|].
  pose proof (new_law _ _ _ _ _ Hn) as [-> Hlive]. injection Hr as <- <-. split; [done|].
  intros ps clients opts [= <- <- <-]. exists s3, os, w1, cl. split_and!; try done. intros Hdry. by apply Hlive.
Qed.

(** No listing error was passed over. *)
Definition listing_clean : Prop := ∀ s3 os w1, copy_listing s3 os w1 → Forall (λ o, obj_err o = None) os.

(** No transfer was skipped under [--if-none-match]. *)
Definition none_skipped (r : CpRun) : Prop :=
  Forall (λ jr : (Url * Url) * result unit Error, ∀ e, snd jr = Err e → is_precondition_failed e = false) (cr_reported r).

(** The pool over the pairs of a listing. *)
Section Transfers.
Context (s3 cl : S3) (os : list Object) (w1 w0 : W) (md : Metadata) (links : bool) (workers : nat) (sched : list choice).
Context (p : @pool (Url * Url) (result unit Error) bool W).
Hypotheses (Hlist : copy_listing s3 os w1) (Hw0 : ∀ x, obj w0 x = obj w x).
Hypothesis Hrun : transfers workers (Some cl) None copy_options md is_move links sched (listed_pairs dst filters os) w0 = Some p.
Hypothesis Hfin : pool_final p.

#[local] Abbreviation pairs := (listed_pairs dst filters os).

Lemma listed_pair s t :
  (s, t) ∈ pairs → listed src w s ∧ chosen src filters (path s) ∧ loc t = dest_at dst (relative s) ∧ is_remote t = true.
Proof. exact (pair_spec src dst filters w w1 s3 os copy_wild (wc_dst _ _ _ _ Hwc) (proj2 Hlist) s t). Qed.

Lemma listed_apart : apart_jobs pairs (λ s, plain_name (relative s)).
Proof. exact (pairs_apart src dst filters w w1 s3 os copy_wild (wc_dst _ _ _ _ Hwc) (wc_separate _ _ _ _ Hwc) (proj2 Hlist)). Qed.

Lemma unchanged x : x ∉ targets pairs → (is_move = true → x ∉ sources pairs) → obj (Pool.world p) x = obj w x.
Proof.
  intros Ht Hs. rewrite <-Hw0. exact (jobs_frame cl copy_options md is_move links w0 pairs _ (wc_client _ _ _ _ Hwc) listed_apart _ _ _ Hrun Hfin x Ht Hs).
Qed.

Lemma target_name x : x ∈ targets pairs → ∃ s, listed src w s ∧ x = dest_at dst (relative s) ∧ should_skip filters (relative s) = false.
Proof.
  intros ([s t] & -> & (Hli & [_ Hskip] & Ht & _)%listed_pair)%list_elem_of_fmap. exists s. split_and!; [done|done|].
  unfold filter_key in Hskip. by rewrite (li_rel _ _ _ Hli).
Qed.

Lemma source_chosen x : x ∈ sources pairs → ∃ k, x = (bucket src, k) ∧ chosen src filters k.
Proof.
  intros ([s t] & -> & (Hli & Hc & _)%listed_pair)%list_elem_of_fmap. exists (path s). split; [|done].
  unfold loc. cbn. by rewrite (proj1 (li_site _ _ _ Hli)).
Qed.

Lemma outside_unchanged x :
  (∀ rel, x = dest_at dst rel → rel ≠ [] → should_skip filters rel = true) →
  (is_move = true → ∀ k, x = (bucket src, k) → ¬ chosen src filters k) → obj (Pool.world p) x = obj w x.
Proof.
  intros Hd Hs. apply unchanged.
  - intros (s & Hli & -> & Hskip)%target_name. destruct (decide (relative s = [])) as [Hn|Hn].
    + pose proof (listed_url_absolute src (path s) (wi_wf _ copy_wild) (wi_remote _ copy_wild)) as Habs.
      rewrite (li_rel _ _ _ Hli) in Hn. unfold relative in Hn. case_bool_decide as He; cbn [negb] in Hn; [by rewrite Hn in Habs|done].
    + by rewrite (Hd _ eq_refl Hn) in Hskip.
  - intros Hmv (k & -> & Hc)%source_chosen. by apply (Hs Hmv k).
Qed.

Lemma sourceless_unchanged rel :
  plain_name rel → (∀ c, ¬ in_source src w rel c) → obj (Pool.world p) (dest_at dst rel) = obj w (dest_at dst rel).
Proof.
  intros Hrel Hno. apply unchanged.
  - intros (s & Hli & Hr%dest_at_inj & _)%target_name. subst rel. pose proof (listed_name _ _ copy_wild _ _ Hli Hrel eq_refl) as Hp.
    destruct (li_obj _ _ _ Hli) as [c Hc]. apply (Hno c). unfold in_source. rewrite <-Hp. by split; [apply Hli|].
  - intros _ (k & [= Hb Hk] & [Hm _])%source_chosen.
    apply (separate_keys src dst k rel (wc_separate _ _ _ _ Hwc)); [done| |done].
    by apply (matches_extends src _ (wi_wf _ copy_wild) (wi_raw _ copy_wild)).
Qed.

Lemma chosen_moved rel c :
  live cl → Forall (λ o, obj_err o = None) os → acc p = false →
  Forall (λ jr : (Url * Url) * result unit Error, ∀ e, snd jr = Err e → is_precondition_failed e = false) (reported p) →
  plain_name rel → chosen src filters (source_key src rel) → obj w (bucket src, source_key src rel) = Some c →
  obj (Pool.world p) (dest_at dst rel) = Some c ∧
  obj (Pool.world p) (bucket src, source_key src rel) = if is_move then None else Some c.
Proof.
  intros Hlive Hclean Hacc Hskip Hrel Hch Hc.
  destruct (pairs_cover src dst filters w w1 s3 os copy_wild (wc_dst _ _ _ _ Hwc) (proj2 Hlist) rel c Hclean Hrel Hch Hc)
    as (s & t & Hin & Hs & Ht & Hr).
  destruct (pool_final_reported _ _ _ _ _ _ _ _ _ Hrun Hfin) as (_ & Hj & Ha & _ & Hd).
  destruct (dropped p) as [|j d]; [|exfalso; destruct Hd as (? & ? & Hst); [done|discriminate Hst]]. rewrite app_nil_r in Hj.
  rewrite Hacc, cp_report_all in Ha. cbn [orb] in Ha. symmetry in Ha. apply negb_false_iff in Ha. rewrite forallb_Forall in Ha.
  assert (Hok : Forall (λ jr, snd jr = Ok tt) (reported p)).
  { apply Forall_forall. intros [j [[]|e]] Hjr; [done|]. rewrite Forall_forall in Ha, Hskip. specialize (Ha _ Hjr). specialize (Hskip _ Hjr e eq_refl).
    cbn in *. congruence. }
  assert (Hkeep : is_move = false → obj (Pool.world p) (loc s) = obj w (loc s)).
  { intros Hmv. apply unchanged; [exact (aj_apart _ _ listed_apart s t Hin)|by rewrite Hmv]. }
  destruct (jobs_done cl copy_options md is_move links w0 pairs _ (wc_client _ _ _ _ Hwc) listed_apart Hlive _ _ _ Hrun Hfin Hj Hok (s, t) Hin)
    as [Hv Hgone]; [cbn; by rewrite Hr|]. cbn [fst snd] in Hv, Hgone. rewrite Hs, Ht in *. rewrite Hw0, Hc in Hv. split; [done|].
  destruct is_move; [by apply Hgone|by rewrite Hkeep].
Qed.
End Transfers.

End Command.
End CpExact.
