(* ===== verification/SyncMirror.v ===== *)
(** * What a successful [sync] leaves behind

    Between two buckets: under every key the source lists and the filters let through, the
    destination holds the bytes of the source; with [--delete] it holds nothing else. *)

From S2P Require Import Prelude RustStr Strutil Url Storage Fs Hoare Pool S3cfg Global S3Laws Listed Sync SyncSpec.

Local Open Scope Z_scope.

(** ** The world after a pool *)

Section Values.
Context `{RegexLib} {W : Type} `{!S3Ops W, !S3View W}.
Context {Job : Type} (exec : Job → W → result unit Error * W) (tgt : Job → str * str).
Context (good : Job → Prop) (val : Job → option str) (jobs : list Job) (w0 : W).

(** Only the targets of the jobs have changed. *)
Definition untouched (w : W) : Prop := ∀ l, l ∉ map tgt jobs → obj w l = obj w0 l.

Hypothesis step_frame : ∀ j w r w', j ∈ jobs → exec j w = (r, w') → ∀ l, l ≠ tgt j → obj w' l = obj w l.
Hypothesis step_value : ∀ j w w', j ∈ jobs → good j → untouched w → exec j w = (Ok tt, w') → obj w' (tgt j) = val j.
Hypothesis targets_agree : ∀ i j, i ∈ jobs → j ∈ jobs → tgt i = tgt j → good i → good j ∧ val j = val i.

(** A finished pool: what it wrote, and that it wrote everything unless it stopped. *)
Lemma pool_values {A} (rep : Job → result unit Error → A → A) stop workers sched a p :
  pool_run exec rep stop workers sched (pool_init jobs a w0) = Some p → pool_final p →
  untouched (Pool.world p) ∧
  (jobs ≡ₚ map fst (reported p) → Forall (λ jr, snd jr = Ok tt) (reported p) →
   ∀ j, j ∈ jobs → good j → obj (Pool.world p) (tgt j) = val j).
Proof.
  intros Hrun Hfin. split.
  - refine (proj1 (pool_establishes exec rep stop workers (λ _, True) jobs untouched (λ _ _, True) _ _ _ _ _ _ _ Hrun Hfin _ _)); try done.
    + intros j w r w' Hin Hw Hj _ l Hl. rewrite (step_frame j w r w' Hin Hj); [by apply Hw|]. intros ->. by apply Hl, list_elem_of_fmap_2.
    + by apply Forall_forall.
  - intros Hd Hall j Hin. revert j Hin. refine (proj2 (pool_establishes exec rep stop workers (λ r, r = Ok tt) jobs untouched
      (λ j w, good j → obj w (tgt j) = val j) _ _ _ _ _ _ _ Hrun Hfin _ Hall) Hd); [..|done].
    + intros j w r w' Hin Hw Hj _ l Hl. rewrite (step_frame j w r w' Hin Hj); [by apply Hw|]. intros ->. by apply Hl, list_elem_of_fmap_2.
    + intros j w r w' Hin Hw Hj -> Hg. by apply (step_value j w w').
    + intros i j w r w' Hi Hj Hw Hp Hx -> Hg. destruct (decide (tgt i = tgt j)) as [Heq|Hne].
      * destruct (targets_agree j i Hj Hi (eq_sym Heq) Hg) as [Hg' <-]. rewrite <-Heq. by apply (step_value i w w').
      * rewrite (step_frame i w _ w' Hi Hx); [by apply Hp|congruence].
Qed.
End Values.

(** ** The two phases *)

Section Execute.
Context `{RegexLaws} `{ByteSizeLib} {W : Type} `{!Os W, !S3Ops W, !S3View W, !S3Laws W, !Md5, !MapOrder}.

(** What makes the operations of a plan independent of one another. *)
Record independent (to_copy : list (Url * Url)) (to_delete : list Url) : Prop := {
  in_remote : ∀ s t, (s, t) ∈ to_copy → is_remote s = true ∧ is_remote t = true ∧ version_id s = [];
  in_apart : ∀ s t, (s, t) ∈ to_copy → loc s ∉ map (loc ∘ snd) to_copy;
  in_agree : ∀ s t s' t', (s, t) ∈ to_copy → (s', t') ∈ to_copy → loc t = loc t' → s = s';
  in_deletes : ∀ u, u ∈ to_delete → is_remote u = true ∧ version_id u = [] ∧ loc u ∉ map (loc ∘ snd) to_copy;
}.

Section Client.
Context (c : S3) (opts : Options) (md : Metadata) (eoe : bool) (workers : nat) (to_copy : list (Url * Url)) (to_delete : list Url).
Hypothesis Hind : independent to_copy to_delete.

Lemma copy_step j w r w' :
  j ∈ to_copy → run_task (copy_one (Some c) None opts md j) w = (r, w') →
  (∀ l, l ≠ loc j.2 → obj w' l = obj w l) ∧
  (live c → object_url j.1 → r = Ok tt → obj w' (loc j.2) = obj w (loc j.1)).
Proof.
  destruct j as [s t]. intros Hj. destruct (in_remote _ _ Hind s t Hj) as (Hs & Ht & Hv). unfold copy_one. rewrite Hs, Ht.
  cbn [run_task fst snd]. intros [Hf Hc]%copy_law. split; [done|]. intros Hl Ho Hr. by destruct (Hc Hl Ho Hv Hr).
Qed.

Lemma delete_step u w r w' :
  u ∈ to_delete → run_task (delete_one (Some c) opts u) w = (r, w') →
  (∀ l, l ≠ loc u → obj w' l = obj w l) ∧ (live c → r = Ok tt → obj w' (loc u) = None).
Proof.
  intros Hj. destruct (in_deletes _ _ Hind u Hj) as (Hs & Hv & _). unfold delete_one. rewrite Hs.
  cbn [run_task]. intros [Hf Hd]%delete_law. split; [done|]. intros Hl. by apply Hd.
Qed.

Lemma copy_phase_values sched w p :
  copy_phase workers (Some c) None opts md eoe sched to_copy w = Some p → pool_done p = true →
  (∀ l, l ∉ map (loc ∘ snd) to_copy → obj (Pool.world p) l = obj w l) ∧
  (live c → to_copy ≡ₚ map fst (reported p) → Forall (λ jr, snd jr = Ok tt) (reported p) →
   ∀ s t, (s, t) ∈ to_copy → object_url s → obj (Pool.world p) (loc t) = obj w (loc s)).
Proof.
  intros Hrun Hdone%pool_done_final.
  edestruct (pool_values (λ j, run_task (copy_one (Some c) None opts md j)) (loc ∘ snd) (λ j, live c ∧ object_url (fst j))
    (λ j, obj w (loc (fst j))) to_copy w) as [Hu Hv]; [| | |exact Hrun|exact Hdone|].
  - intros j w1 r w' Hj Hc. exact (proj1 (copy_step j w1 r w' Hj Hc)).
  - intros [s t] w1 w' Hj [Hlive Hobj] Hw Hc. rewrite (proj2 (copy_step (s, t) w1 _ w' Hj Hc) Hlive Hobj eq_refl : obj w' ((loc ∘ snd) (s, t)) = _).
    apply Hw. exact (in_apart _ _ Hind s t Hj).
  - intros [s t] [s' t'] Hi Hj Heq Hg. cbn in *. by rewrite (in_agree _ _ Hind s t s' t' Hi Hj Heq) in *.
  - split; [exact Hu|]. intros Hlive Hd Hall s t Hj Hobj. by apply (Hv Hd Hall (s, t) Hj).
Qed.

Lemma delete_phase_values sched a w p :
  delete_phase workers (Some c) opts eoe sched a to_delete w = Some p → pool_done p = true →
  (∀ l, l ∉ map loc to_delete → obj (Pool.world p) l = obj w l) ∧
  (live c → to_delete ≡ₚ map fst (reported p) → Forall (λ jr, snd jr = Ok tt) (reported p) →
   ∀ u, u ∈ to_delete → obj (Pool.world p) (loc u) = None).
Proof.
  intros Hrun Hdone%pool_done_final.
  edestruct (pool_values (λ u, run_task (delete_one (Some c) opts u)) loc (λ _, live c) (λ _, None) to_delete w)
    as [Hu Hv]; [| | |exact Hrun|exact Hdone|].
  - intros u w1 r w' Hj Hc. exact (proj1 (delete_step u w1 r w' Hj Hc)).
  - intros u w1 w' Hj Hlive _ Hc. exact (proj2 (delete_step u w1 _ w' Hj Hc) Hlive eq_refl).
  - done.
  - split; [exact Hu|]. intros Hlive Hd Hall u Hj. by apply (Hv Hd Hall u Hj).
Qed.

(** A run of the plan: what it leaves alone whatever happens, and what success means. *)
Lemma execute_mirrors sched1 sched2 w r w' :
  execute workers (Some c) None opts md eoe sched1 sched2 to_copy to_delete w = Some (r, w') →
  (∀ l, l ∉ map (loc ∘ snd) to_copy → l ∉ map loc to_delete → obj w' l = obj w l) ∧
  (live c → sr_result r = Ok tt →
   (∀ s t, (s, t) ∈ to_copy → object_url s → obj w' (loc t) = obj w (loc s)) ∧ ∀ u, u ∈ to_delete → obj w' (loc u) = None).
Proof.
  unfold execute. destruct (copy_phase _ _ _ _ _ _ _ _ _) as [p|] eqn:Hcp; [|done].
  destruct (pool_done p) eqn:Hpd; [|done]. cbn [negb]. destruct (copy_phase_values _ _ _ Hcp Hpd) as [Hu1 Hv1].
  pose proof (phase_done _ _ _ _ _ _ _ _ _ Hcp Hpd) as (Hall1 & Herr1 & _). cbn [orb] in Herr1.
  destruct (fatal_seen (acc p)) eqn:Hf; [|destruct (eoe && had_error (acc p)) eqn:Hee].
  1,2: intros [= <- <-]; split; [by intros l Hl _; apply Hu1|done].
  destruct (delete_phase _ _ _ _ _ _ _ _) as [q|] eqn:Hdp; [|done]. cbn [opt_or] in Hdp.
  destruct (pool_done q) eqn:Hqd; [|done]. cbn [negb]. intros [= <- <-]. cbn [sr_result].
  destruct (delete_phase_values _ _ _ _ Hdp Hqd) as [Hu2 Hv2].
  split; [intros l Hl1 Hl2; by rewrite Hu2, Hu1|]. intros Hlive.
  unfold delete_phase in Hdp. pose proof (phase_done _ _ _ _ _ _ _ _ _ Hdp Hqd) as (Hall2 & Herr2 & _).
  destruct (fatal_seen (acc q)) eqn:Hf2; [done|]. destruct (had_error (acc q)) eqn:He2; [done|]. intros _.
  symmetry in Herr2. apply orb_false_iff in Herr2 as [Hp Hq]. rewrite Hp in Herr1. symmetry in Herr1.
  rewrite Hp, Hf in Hall2. destruct Hall1 as (r1 & Hj1 & Hr1), Hall2 as (r2 & Hj2 & Hr2).
  rewrite Hr1, app_nil_r in Hj1 by done. rewrite Hr2, app_nil_r in Hj2 by done. split.
  - intros s t Hin Hobj. rewrite Hu2; [by apply (Hv1 Hlive Hj1); [apply no_err_all_ok|..]|].
    intros (u & Heq & Hu)%list_elem_of_fmap. destruct (in_deletes _ _ Hind u Hu) as (_ & _ & Hni). apply Hni. rewrite <-Heq.
    apply list_elem_of_fmap. by exists (s, t).
  - apply (Hv2 Hlive Hj2). by apply no_err_all_ok.
Qed.
End Client.
End Execute.

(** ** The two maps *)

Section Maps.
Context `{RegexLaws} `{ByteSizeLib}.

Definition put_entry (m : gmap str Object) (ko : str * Object) : gmap str Object := <[ko.1 := ko.2]> m.

Lemma put_entries_lookup l m k o :
  foldl put_entry m l !! k = Some o → m !! k = Some o ∨ (k, o) ∈ l.
Proof.
  revert m. induction l as [|[k' o'] l IH]; intros m; cbn [foldl]; [by left|]. intros [Hm|Hl]%IH; [|by right; right].
  unfold put_entry in Hm. cbn in Hm. apply lookup_insert_Some in Hm as [[-> ->]|[_ Hm]]; [by right; left|by left].
Qed.

Lemma put_entries_some l m k : is_Some (m !! k) ∨ (∃ o, (k, o) ∈ l) → is_Some (foldl put_entry m l !! k).
Proof.
  revert m. induction l as [|[k' o'] l IH]; intros m; cbn [foldl]; [by intros [?|[? ?%elem_of_nil]]|]. intros Hk. apply IH.
  unfold put_entry. cbn. destruct (decide (k' = k)) as [->|Hne]; [left; rewrite lookup_insert_eq; by eexists|].
  rewrite lookup_insert_ne by done. destruct Hk as [?|[o [[= -> ->]|Ho]%elem_of_cons]]; [by left|done|right; by exists o].
Qed.

(** The entry a listed object has in a map. *)
Definition kept (filters : Filters) (pass : Object → bool) (fill : Url → Object → Object) (o : Object) : option (str * Object) :=
  match obj_err o, url o with
  | None, Some u =>
      if is_dir (typ o) || negb (pass o) || should_skip filters (to_slash (relative u)) then None
      else Some (to_slash (relative u), fill u o)
  | _, _ => None
  end.

Lemma source_map_fold {W} `{!Os W, !Md5} src filters checksum force (w : W) objs m m' :
  source_map src filters checksum force w objs m = Ok m' →
  Forall (λ o, obj_err o = None) objs ∧
  m' = foldl put_entry m (omap (kept filters (λ o, negb (skip_glacier (storage_class o) force))
                                  (λ u, fill_etag checksum (is_remote u) (absolute u) w)) objs).
Proof.
  revert m. induction objs as [|o objs IH]; intros m; cbn [source_map omap list_omap]; [by intros [= <-]|].
  unfold kept at 1. destruct (obj_err o) as [e|] eqn:He; [by destruct (is_fatal e)|].
  destruct (is_dir (typ o)) eqn:Hd; [|destruct (skip_glacier _ _) eqn:Hg; [|destruct (url o) as [u|] eqn:Hu;
    [destruct (should_skip _ _) eqn:Hs|]]]; cbn [orb negb];
    intros [Hall ->]%IH; split; try (by constructor); try done; by destruct (url o).
Qed.

(** Errors [dest_map] passes over. *)
Definition ignored (e : Error) : bool := contains ($"no object found") (show_error e) || contains ($"not found") (show_error e).

Lemma dest_map_fold dst filters objs m m' :
  dest_map dst filters objs m = Ok m' →
  Forall (λ o, ∀ e, obj_err o = Some e → ignored e = true) objs ∧
  m' = foldl put_entry m (omap (kept filters (λ _, true) (λ _ o, o)) objs).
Proof.
  revert m. induction objs as [|o objs IH]; intros m; cbn [dest_map omap list_omap]; [by intros [= <-]|].
  unfold kept at 1. destruct (obj_err o) as [e|] eqn:He.
  - cbv zeta. destruct (_ || _) eqn:Hi; [|by destruct (is_fatal_msg _)]. intros [Hall ->]%IH.
    split; [|done]. constructor; [|done]. intros e'. rewrite He. by intros [= <-].
  - destruct (is_dir (typ o)) eqn:Hd; [|destruct (url o) as [u|] eqn:Hu; [destruct (should_skip _ _) eqn:Hs|]]; cbn [orb negb];
      intros [Hall ->]%IH; split; try (constructor; [by rewrite He|done]); try done; by destruct (url o).
Qed.
End Maps.

(** ** The two sides *)

Section Sides.
Context `{RegexLaws} {W : Type} `{!S3Ops W, !S3View W, !S3Laws W}.

(** The map of one side: its entries are listed objects, and every object of the world has one. *)
Lemma side_spec s u w os w' filters pass fill :
  s3_list s u w = (os, w') → wild u → (∀ v o, is_remote v = true → fill v o = o) →
  let m := foldl put_entry ∅ (omap (kept filters pass fill) os) in
  (∀ k o, m !! k = Some o → ∃ v, o ∈ os ∧ url o = Some v ∧ listed u w v ∧ relative v = k ∧ should_skip filters k = false) ∧
  (Forall (λ o, pass o = true) os → Forall (λ o, ∀ e, obj_err o = Some e → is_no_object e = true) os →
   ∀ k c, (matches u k).1 = true → obj w (bucket u, k) = Some c →
     should_skip filters (relative (listed_url u k)) = false → is_Some (m !! relative (listed_url u k))).
Proof.
  intros Hl Hu Hfill m. split.
  - intros k o [Hm|Hin]%put_entries_lookup; [by rewrite lookup_empty in Hm|].
    apply list_elem_of_omap in Hin as (o' & Ho & Hk). unfold kept in Hk.
    destruct (obj_err o'); [done|]. destruct (url o') as [v|] eqn:Hv; [|done].
    destruct (is_dir _ || _); [done|]. cbn [orb] in Hk. destruct (should_skip _ _) eqn:Hs; [done|].
    pose proof (listing_elem _ _ _ _ _ _ _ Hl Hu Ho Hv) as Hli. destruct (li_site _ _ _ Hli) as (_ & Hrem & _).
    rewrite Hfill in Hk by done. injection Hk as <- <-. by exists v.
  - intros Hpass Herr k c Hm Hc Hs. destruct (list_complete _ _ _ _ _ Hl (wi_flat u Hu)) as (Hno & Hall & _).
    rewrite Forall_forall in Hpass, Herr.
    assert (Hclean : ∀ o, o ∈ os → obj_err o = None).
    { intros o Ho. destruct (obj_err o) as [e|] eqn:He; [|done]. by rewrite (Hno o e Ho He (Herr o Ho e He) k Hm) in Hc. }
    destruct (Hall Hclean k c Hm Hc) as (o & v & Ho & Hv & <- & Hd).
    destruct (proj2 (list_law _ _ _ _ _ Hl) o v Ho Hv) as (_ & _ & Hr).
    apply put_entries_some. right. exists (fill v o). apply list_elem_of_omap. exists o. split; [done|].
    unfold kept. rewrite (Hclean o Ho), Hv, Hd, (Hpass o Ho). unfold to_slash. by rewrite Hr, Hs.
Qed.
End Sides.

(** ** The plan of a mirror *)

Section Plan.
Context `{RegexLaws} `{ByteSizeLib} {W : Type} `{!Os W, !S3Ops W, !S3View W, !S3Laws W, !MapOrder}.
Context (src dst l : Url) (filters : Filters) (st : SyncStrategy) (del : bool) (w : W) (srcs dests : gmap str Object).
Hypotheses (Hsrc : wild src) (Hl : wild l).
Hypothesis Hdst : is_remote dst = true ∧ is_prefix dst || is_bucket dst = true.
Hypothesis Hdir : bucket l = bucket dst ∧ url_prefix l = path dst ∧ dir_part (path dst) = path dst.
Hypothesis Happart : bucket src ≠ bucket dst.

(** A map of listed objects, by their relative paths. *)
Definition side_of (u : Url) (m : gmap str Object) : Prop :=
  ∀ k o, m !! k = Some o → ∃ v, url o = Some v ∧ listed u w v ∧ relative v = k ∧ should_skip filters k = false.

Hypotheses (Hs : side_of src srcs) (Hd : side_of l dests).

Lemma dest_loc s : loc (generate_destination_url s dst true) = (bucket dst, path dst ++ relative s).
Proof. destruct Hdst as [Hr Hp]. unfold generate_destination_url. rewrite Hr, Hp. unfold url_join. by rewrite Hr. Qed.

Lemma planned_copy s t :
  (s, t) ∈ (plan st dst true del srcs dests).1 →
  ∃ o, srcs !! relative s = Some o ∧ url o = Some s ∧ listed src w s ∧ relative s ≠ [] ∧ t = generate_destination_url s dst true ∧
       should_skip filters (relative s) = false.
Proof.
  intros (k & o & Hk & Hu & -> & _)%plan_copies. destruct (Hs k o Hk) as (v & Hv & Hli & Hr & Hskip).
  assert (v = s) as -> by congruence. subst k. exists o. split_and!; try done.
  rewrite (li_rel _ _ _ Hli). unfold relative at 1. case_bool_decide as He; [|done]. cbn [negb]. intros Habs.
  pose proof (listed_url_absolute src (path s) (wi_wf _ Hsrc) (wi_remote _ Hsrc)) as Hx. by rewrite Habs in Hx.
Qed.

Lemma planned_delete u :
  u ∈ (plan st dst true del srcs dests).2 →
  del = true ∧ listed l w u ∧ srcs !! relative u = None ∧ should_skip filters (relative u) = false.
Proof.
  intros (Hdel & k & o & Hk & Hu & Hno)%plan_deletes. destruct (Hd k o Hk) as (v & Hv & Hli & Hr & Hskip).
  assert (v = u) as -> by congruence. subst k. split_and!; try done.
  destruct (srcs !! relative u) as [so|] eqn:Hso; [|done]. destruct (Hs _ _ Hso) as (v & Hv' & _). by rewrite (Hno so eq_refl) in Hv'.
Qed.

(** Where a deletion goes. *)
Lemma delete_loc u : listed l w u → ∃ rest, loc u = (bucket dst, path dst ++ rest) ∧ (rest ≠ [] → relative u = rest).
Proof.
  intros Hli. destruct (li_site _ _ _ Hli) as (Hb & _). destruct Hdir as (Hbl & Hpl & Hdp).
  pose proof (matches_extends l _ (wi_wf _ Hl) (wi_raw _ Hl) (li_match _ _ _ Hli)) as [rest Hp]%starts_with_true.
  rewrite Hpl in Hp. exists rest. split; [unfold loc; by rewrite Hb, Hbl, Hp|]. intros Hne.
  rewrite (li_rel _ _ _ Hli). apply (listed_relative l _ rest Hl (li_match _ _ _ Hli) Hne). by rewrite Hpl, Hdp.
Qed.

Lemma plan_independent : independent (plan st dst true del srcs dests).1 (plan st dst true del srcs dests).2.
Proof.
  split.
  - intros s t (o & _ & _ & Hli & _ & -> & _)%planned_copy. destruct (li_site _ _ _ Hli) as (_ & Hr & _ & Hv).
    split_and!; [done| |done]. destruct Hdst as [Hrd Hp]. unfold generate_destination_url, url_join. by rewrite Hrd, Hp.
  - intros s t (o & _ & _ & Hli & _)%planned_copy ([s' t'] & Heq & (o' & _ & _ & _ & _ & -> & _)%planned_copy)%list_elem_of_fmap.
    cbn in Heq. rewrite dest_loc in Heq. injection Heq as Hb _. apply Happart. by rewrite <-(proj1 (li_site _ _ _ Hli)).
  - intros s t s' t' (o & Ho & Hu & _ & _ & -> & _)%planned_copy (o' & Ho' & Hu' & _ & _ & -> & _)%planned_copy.
    rewrite !dest_loc. intros [= Hr%app_inv_head]. rewrite Hr in Ho. congruence.
  - intros u (_ & Hli & Hno & _)%planned_delete. destruct (li_site _ _ _ Hli) as (_ & Hr & _ & Hv). split_and!; [done|done|].
    intros ([s t] & Heq & (o & Ho & _ & _ & Hne & -> & _)%planned_copy)%list_elem_of_fmap. cbn in Heq. rewrite dest_loc in Heq.
    destruct (delete_loc u Hli) as (rest & Hloc & Hrel). rewrite Hloc in Heq. injection Heq as ->%app_inv_head.
    rewrite (Hrel Hne) in Hno. congruence.
Qed.

(** ** What is at a name *)

#[local] Abbreviation source_key := (Listed.source_key src).
#[local] Abbreviation dest_at := (Listed.dest_at dst).

Lemma copies_at rel :
  dest_at rel ∈ map (loc ∘ snd) (plan st dst true del srcs dests).1 →
  ∃ o, srcs !! rel = Some o ∧ should_skip filters rel = false ∧ ∀ o', dests !! rel = Some o' → should_sync st o o' = true.
Proof.
  intros ([s t] & Heq & Hin)%list_elem_of_fmap. destruct (planned_copy s t Hin) as (o & Ho & _ & _ & _ & -> & Hskip).
  cbn in Heq. rewrite dest_loc in Heq. apply dest_at_inj in Heq as ->. exists o. split_and!; [done..|].
  apply plan_copies in Hin as (k & o1 & Hk & Hu & _ & Hsync). destruct (Hs k o1 Hk) as (v & Hv & _ & Hr & _).
  assert (v = s) as -> by congruence. subst k. rewrite Ho in Hk. by injection Hk as <-.
Qed.

Lemma deletes_at rel :
  rel ≠ [] → dest_at rel ∈ map loc (plan st dst true del srcs dests).2 →
  del = true ∧ srcs !! rel = None ∧ should_skip filters rel = false.
Proof.
  intros Hne (u & Heq & (Hdel & Hli & Hno & Hskip)%planned_delete)%list_elem_of_fmap.
  destruct (delete_loc u Hli) as (rest & Hloc & Hrel). rewrite Hloc in Heq. apply dest_at_inj in Heq as <-.
  rewrite (Hrel Hne) in *. done.
Qed.

(** Names the filters skip and everything outside the destination stay as they are. *)
Lemma plan_frame x :
  (∀ rel, x = dest_at rel → rel ≠ [] ∧ should_skip filters rel = true) →
  (x ∉ map (loc ∘ snd) (plan st dst true del srcs dests).1) ∧ (x ∉ map loc (plan st dst true del srcs dests).2).
Proof.
  intros Hx. split; intros Hin.
  - pose proof Hin as ([s t] & -> & (o & _ & _ & _ & _ & -> & _)%planned_copy)%list_elem_of_fmap.
    cbn in *. rewrite dest_loc in *. destruct (Hx _ eq_refl) as [_ Hskip]. apply copies_at in Hin as (? & _ & Hno & _). congruence.
  - pose proof Hin as (u & -> & (_ & Hli & _)%planned_delete)%list_elem_of_fmap.
    destruct (delete_loc u Hli) as (rest & Hloc & _). rewrite Hloc in *. destruct (Hx _ eq_refl) as [Hne Hskip].
    apply (deletes_at _ Hne) in Hin as (_ & _ & Hno). congruence.
Qed.

Lemma source_entry rel o :
  plain_name rel → srcs !! rel = Some o →
  ∃ u, url o = Some u ∧ loc u = (bucket src, source_key rel) ∧ object_url u ∧
       (matches src (source_key rel)).1 = true ∧ is_Some (obj w (bucket src, source_key rel)).
Proof.
  intros Hrel Ho. destruct (Hs rel o Ho) as (u & Hu & Hli & Hr & _). destruct (li_site _ _ _ Hli) as (Hb & Hrem & Hsc & _).
  assert (Hp : path u = source_key rel).
  { apply (listed_relative src _ rel Hsrc (li_match _ _ _ Hli) (proj1 Hrel)); [done|]. by rewrite <-(li_rel _ _ _ Hli). }
  exists u. rewrite <-Hp. split_and!; [done|unfold loc; by rewrite Hb| |apply Hli..].
  destruct (wf_bucket src (wi_wf _ Hsrc) (wi_remote _ Hsrc)) as (Hne & Hsl & _). pose proof (wf_scheme src (wi_wf _ Hsrc)) as Hss.
  rewrite (wi_remote _ Hsrc) in Hss. split_and!; [by apply is_remote_true|by rewrite Hsc|by rewrite Hb|by rewrite Hb|].
  rewrite Hp. unfold Listed.source_key. intros [_ ?]%app_eq_nil. by destruct Hrel.
Qed.

Lemma dest_entry rel o :
  plain_name rel → dests !! rel = Some o → ∃ v, url o = Some v ∧ loc v = dest_at rel.
Proof.
  intros Hrel Ho. destruct (Hd rel o Ho) as (v & Hv & Hli & Hr & _). exists v. split; [done|].
  destruct (li_site _ _ _ Hli) as (Hb & _). destruct Hdir as (Hbl & Hpl & Hdp). unfold loc, Listed.dest_at. rewrite Hb, Hbl. f_equal.
  rewrite <-Hdp, <-Hpl. apply (listed_relative l _ rel Hl (li_match _ _ _ Hli) (proj1 Hrel)); [done|]. by rewrite <-(li_rel _ _ _ Hli).
Qed.

(** What the operations of the plan leave at each name. *)
Lemma plan_mirrors (after : str * str → option str) rel :
  (∀ x, x ∉ map (loc ∘ snd) (plan st dst true del srcs dests).1 → x ∉ map loc (plan st dst true del srcs dests).2 →
     after x = obj w x) →
  (∀ s t, (s, t) ∈ (plan st dst true del srcs dests).1 → object_url s → after (loc t) = obj w (loc s)) →
  (∀ u, u ∈ (plan st dst true del srcs dests).2 → after (loc u) = None) →
  plain_name rel →
  match srcs !! rel with
  | Some so => after (dest_at rel) = obj w (bucket src, source_key rel) ∨
               (after (dest_at rel) = obj w (dest_at rel) ∧ ∃ do, dests !! rel = Some do ∧ should_sync st so do = false)
  | None => after (dest_at rel) = if del && bool_decide (is_Some (dests !! rel)) then None else obj w (dest_at rel)
  end.
Proof.
  intros Hframe Hcopy Hdelete Hrel. destruct (srcs !! rel) as [so|] eqn:Hso.
  - destruct (source_entry rel so Hrel Hso) as (u & Hu & Hloc & Hobj & _).
    assert (Hr : relative u = rel) by (destruct (Hs rel so Hso) as (v & Hv & _ & Hr & _); congruence).
    assert (Hsync : (∀ o', dests !! rel = Some o' → should_sync st so o' = true) → after (dest_at rel) = obj w (bucket src, source_key rel)).
    { intros Hsync. rewrite <-Hloc, <-Hr. unfold Listed.dest_at. rewrite <-dest_loc. apply (Hcopy u); [|done]. apply plan_copies. by exists rel, so. }
    destruct (dests !! rel) as [o'|] eqn:Hdo; [|by left; apply Hsync].
    destruct (should_sync st so o') eqn:Hno; [by left; apply Hsync; intros ? [= <-]|right].
    split; [|by exists o']. apply Hframe.
    + intros (o1 & Ho1 & _ & Hall)%copies_at. rewrite Hso in Ho1. injection Ho1 as <-. by rewrite (Hall o' Hdo) in Hno.
    + intros (_ & Hnone & _)%deletes_at; [congruence|by destruct Hrel].
  - assert (Hnc : dest_at rel ∉ map (loc ∘ snd) (plan st dst true del srcs dests).1) by (intros (o & Ho & _)%copies_at; congruence).
    destruct (del && _) eqn:Hdel.
    + apply andb_true_iff in Hdel as [Hdel [o Ho]%bool_decide_eq_true]. destruct (dest_entry rel o Hrel Ho) as (v & Hv & <-).
      apply Hdelete, plan_deletes. split; [done|]. exists rel, o. split_and!; [done..|]. intros so. by rewrite Hso.
    + apply Hframe; [done|]. intros Hin. pose proof Hin as (u & Heq & Hu)%list_elem_of_fmap.
      destruct (planned_delete u Hu) as (Hd1 & Hli & _). destruct (delete_loc u Hli) as (rest & Hloc & Hrest). rewrite Hloc in Heq.
      apply dest_at_inj in Heq as <-. specialize (Hrest (proj1 Hrel)). rewrite Hd1 in Hdel. apply bool_decide_eq_false in Hdel.
      apply Hdel. apply plan_deletes in Hu as (_ & k & o & Ho & Hou & _). destruct (Hd k o Ho) as (v & Hv & _ & Hk & _).
      assert (v = u) as -> by congruence. rewrite <-Hrest, Hk. by exists o.
Qed.
End Plan.

(** ** The command *)

Section Command.
Context `{RegexLaws} `{ByteSizeLib} {W : Type} `{!Os W, !S3Ops W, !S3View W, !S3Laws W, !Md5, !MapOrder}.
Context (now : Z) (global : GlobalOpts) (args : SyncArgs).

Definition sync_options : Options := set_preserve (a_preserve_timestamps args) (storage_options now global).

Definition sync_filters (w : W) : result Filters Error :=
  let patterns given from := result_map_err anyhow (patterns_with_files (λ f, read_to_string f w) given from) in
  let? includes := patterns (a_include args) (a_include_from args) in
  let? excludes := patterns (a_exclude args) (a_exclude_from args) in
  result_map_err anyhow (Filters_new includes excludes).

(** A wildcard of one bucket synchronised to a prefix of another, over one client. *)
Record mirroring (src dst l : Url) (filters : Filters) (w : W) : Prop := {
  mi_src : parse (a_src args) = Ok src;
  mi_wild : is_remote src = true ∧ is_wildcard src = true;
  mi_dst : parse (a_dst args) = Ok dst;
  mi_dir : is_prefix dst || is_bucket dst = true ∧ is_wildcard dst = false;
  mi_listing : parse (dest_listing dst) = Ok l;
  mi_apart : bucket src ≠ bucket dst;
  mi_filters : sync_filters w = Ok filters;
  mi_sides : sides_differ sync_options = false;
}.

Context (src dst l : Url) (filters : Filters) (w : W).
Hypothesis Hm : mirroring src dst l filters w.

(** The listing of the source, and the world after it. *)
Definition source_listing (os : list Object) (w1 : W) : Prop :=
  ∃ s, S3_new src (for_side sync_options Source) w = (Ok s, w) ∧ s3_list s src w = (os, w1).

(** The listing of the destination: empty when its client cannot be made. *)
Definition dest_listed (w1 : W) (os : list Object) (w2 : W) : Prop :=
  (∃ e, S3_new l (for_side sync_options Destination) w1 = (Err e, w1) ∧ os = [] ∧ w2 = w1) ∨
  ∃ d, S3_new l (for_side sync_options Destination) w1 = (Ok d, w1) ∧ s3_list d l w1 = (os, w2).

Lemma mirror_wild : wild src ∧ wild l.
Proof.
  split; [apply (parse_wild (a_src args)); [apply Hm|apply (mi_wild _ _ _ _ _ Hm)..]|].
  destruct (dest_listing_url _ _ _ (mi_dst _ _ _ _ _ Hm) (proj1 (mi_dir _ _ _ _ _ Hm)) (proj2 (mi_dir _ _ _ _ _ Hm)) (mi_listing _ _ _ _ _ Hm))
    as (_ & _ & Hr & _ & _ & _ & _ & Hw). by apply (parse_wild (dest_listing dst)); [apply Hm|..].
Qed.

Lemma collect_source_inv w' r :
  collect_source_objects src (for_side sync_options Source) (a_follow_symlinks args) true filters (a_checksum args)
    (a_force_glacier_transfer args) w = (r, w') →
  (∀ x, obj w' x = obj w x) ∧
  ∀ m, r = Ok m → ∃ os, source_listing os w' ∧ source_map src filters (a_checksum args) (a_force_glacier_transfer args) w' os ∅ = Ok m.
Proof.
  unfold collect_source_objects, new_client. rewrite (proj1 (mi_wild _ _ _ _ _ Hm)). cbn [negb]. rewrite mbind_assoc.
  intros [(e & [-> _]%new_law & ->)|(s & w1 & Hn & Hr)]%mbind_inv; [done|]. pose proof (new_law _ _ _ _ _ Hn) as [-> _].
  unfold mbind, mret in Hr. cbn [storage_list] in Hr. destruct (s3_list s src w) as [os w1] eqn:Hl. injection Hr as <- <-.
  split; [exact (proj1 (list_law _ _ _ _ _ Hl))|]. intros m Hmap. exists os. split; [by exists s|done].
Qed.

Lemma collect_dest_inv w1 r w2 :
  collect_dest_objects dst (for_side sync_options Destination) filters w1 = (r, w2) →
  (∀ x, obj w2 x = obj w1 x) ∧ ∀ m, r = Ok m → ∃ os, dest_listed w1 os w2 ∧ dest_map dst filters os ∅ = Ok m.
Proof.
  unfold collect_dest_objects, new_client. rewrite (mi_listing _ _ _ _ _ Hm), (wi_remote _ (proj2 mirror_wild)).
  unfold mbind at 1. destruct (S3_new l _ w1) as [[d|e] w0] eqn:Hn; pose proof (new_law _ _ _ _ _ Hn) as [-> _].
  - cbn [mret storage_list]. unfold mret. cbn [storage_list]. destruct (s3_list d l w1) as [os w3] eqn:Hl. intros [= <- <-].
    split; [exact (proj1 (list_law _ _ _ _ _ Hl))|]. intros m Hmap. exists os. split; [right; by exists d|done].
  - intros [= <- <-]. split; [done|]. intros m [= <-]. exists []. split; [left; by exists e|done].
Qed.

(** What [prepare] returns: the plan of the two listings, and a client. *)
Lemma prepare_inv r w' :
  prepare now global args w = (r, w') →
  (∀ x, obj w' x = obj w x) ∧
  ∀ c d clients opts, r = Ok (c, d, clients, opts) →
    ∃ os w1 srcs ds w2 dests cl,
      source_listing os w1 ∧ source_map src filters (a_checksum args) (a_force_glacier_transfer args) w1 os ∅ = Ok srcs ∧
      (∀ x, obj w1 x = obj w x) ∧
      dest_listed w1 ds w2 ∧ dest_map dst filters ds ∅ = Ok dests ∧
      plan (SyncStrategy_new (a_size_only args) (a_checksum args)) dst true (a_delete args) srcs dests = (c, d) ∧
      clients = (Some cl, None) ∧ (dry_run sync_options = false → live cl).
Proof.
  pose proof (mi_filters _ _ _ _ _ Hm) as (inc & Hinc & (exc & Hexc & Hf)%result_bind_Ok)%result_bind_Ok.
  unfold prepare. fold sync_options. cbv zeta.
  rewrite (mbind_step (mlift _) _ w src w) by (unfold mlift; by rewrite (mi_src _ _ _ _ _ Hm)).
  rewrite (mbind_step (mlift _) _ w dst w) by (unfold mlift; by rewrite (mi_dst _ _ _ _ _ Hm)).
  rewrite (mbind_step _ _ w inc w) by by rewrite Hinc. rewrite (mbind_step _ _ w exc w) by by rewrite Hexc.
  rewrite (mbind_step (mlift _) _ w filters w) by (unfold mlift; by rewrite Hf).
  rewrite (mbind_step _ _ w true w) by (unfold is_source_batch; by rewrite (proj2 (mi_wild _ _ _ _ _ Hm))).
  intros [(e & [Hs _]%collect_source_inv & ->)|(srcs & w1 & [Hs1 Hsrc]%collect_source_inv & Hr)]%mbind_inv; [done|].
  destruct (Hsrc srcs eq_refl) as (os & Hos & Hmap).
  apply mbind_inv in Hr as [(e & [Hs _]%collect_dest_inv & ->)|(dests & w2 & [Hs2 Hdst]%collect_dest_inv & Hr)].
  { split; [|done]. intros x. by rewrite Hs, Hs1. }
  destruct (Hdst dests eq_refl) as (ds & Hds & Hdmap).
  assert (Hs : ∀ x, obj w2 x = obj w x) by (intros x; by rewrite Hs2, Hs1).
  destruct (plan _ _ _ _ _ _) as [c d] eqn:Hplan.
  apply mbind_inv in Hr as [(e & He & ->)|([] & w3 & Hcap & Hr)].
  { unfold mfail, mret in He. by repeat case_match; simplify_eq. }
  assert (w3 = w2) as -> by (unfold mfail, mret in Hcap; by repeat case_match; simplify_eq).
  rewrite (proj1 (mi_wild _ _ _ _ _ Hm)), (mi_sides _ _ _ _ _ Hm) in Hr. cbn [orb] in Hr. rewrite mbind_assoc in Hr.
  apply mbind_inv in Hr as [(e & [-> _]%new_law & ->)|(cl & w3 & Hn & Hr)]; [done|].
  pose proof (new_law _ _ _ _ _ Hn) as [-> Hlive]. injection Hr as <- <-. split; [done|].
  intros c' d' clients opts [= <- <- <- _]. exists os, w1, srcs, ds, w2, dests, cl. split_and!; try done. intros Hdry. by apply Hlive.
Qed.

(** The listings name what there is: no object the glacier rule passes over, and no error that
    the code takes for an empty destination when it is something else. *)
Definition listings_told : Prop :=
  ∀ os w1 ds w2, source_listing os w1 → dest_listed w1 ds w2 →
    Forall (λ o, negb (skip_glacier (storage_class o) (a_force_glacier_transfer args)) = true) os ∧
    (∃ d, S3_new l (for_side sync_options Destination) w1 = (Ok d, w1)) ∧
    Forall (λ o, ∀ e, obj_err o = Some e → ignored e = true → is_no_object e = true) ds.

#[local] Abbreviation in_source := (Listed.in_source src w).

(** The strategy compared the two listed objects of a name and found no difference. *)
Definition judged_equal (rel : str) : Prop :=
  ∃ os w1 ds w2 so do u v, source_listing os w1 ∧ dest_listed w1 ds w2 ∧ so ∈ os ∧ do ∈ ds ∧
    url so = Some u ∧ loc u = (bucket src, source_key src rel) ∧ url do = Some v ∧ loc v = dest_at dst rel ∧
    should_sync (SyncStrategy_new (a_size_only args) (a_checksum args)) so do = false.

Lemma source_side os w1 srcs :
  source_listing os w1 → source_map src filters (a_checksum args) (a_force_glacier_transfer args) w1 os ∅ = Ok srcs →
  (∀ k o, srcs !! k = Some o → o ∈ os) ∧ side_of filters w src srcs ∧
  (Forall (λ o, negb (skip_glacier (storage_class o) (a_force_glacier_transfer args)) = true) os →
   ∀ rel c, plain_name rel → in_source rel c → should_skip filters rel = false → is_Some (srcs !! rel)).
Proof.
  intros (s & _ & Hl) [Herr ->]%source_map_fold. destruct mirror_wild as [Hsrc _].
  destruct (side_spec s src w os w1 filters (λ o, negb (skip_glacier (storage_class o) (a_force_glacier_transfer args)))
    (λ u, fill_etag (a_checksum args) (is_remote u) (absolute u) w1) Hl Hsrc) as [Hin Hcov].
  { intros v o Hv. unfold fill_etag. by rewrite Hv, andb_false_r. }
  split_and!.
  - intros k o Ho. by destruct (Hin k o Ho) as (v & ? & _).
  - intros k o Ho. destruct (Hin k o Ho) as (v & _ & ?). by exists v.
  - intros Hglacier rel c Hrel [Hmat Hc] Hskip. pose proof (proj1 (listed_relative src _ rel Hsrc Hmat (proj1 Hrel)) eq_refl) as Hr.
    rewrite <-Hr at 1. apply (Hcov Hglacier) with (c := c); [|done|done|by rewrite Hr].
    eapply Forall_impl; [exact Herr|]. intros o Ho e He. cbn in Ho. congruence.
Qed.

Lemma dest_side w1 ds w2 dests :
  (∀ x, obj w1 x = obj w x) → dest_listed w1 ds w2 → dest_map dst filters ds ∅ = Ok dests →
  (∀ k o, dests !! k = Some o → o ∈ ds) ∧ side_of filters w l dests ∧
  ((∃ d, S3_new l (for_side sync_options Destination) w1 = (Ok d, w1)) →
   Forall (λ o, ∀ e, obj_err o = Some e → ignored e = true → is_no_object e = true) ds →
   ∀ rel c, rel ≠ [] → utf8 rel → obj w (dest_at dst rel) = Some c → should_skip filters rel = false → is_Some (dests !! rel)).
Proof.
  intros Hw1 Hds [Herr ->]%dest_map_fold. destruct mirror_wild as [_ Hl].
  destruct (dest_listing_url _ _ _ (mi_dst _ _ _ _ _ Hm) (proj1 (mi_dir _ _ _ _ _ Hm)) (proj2 (mi_dir _ _ _ _ _ Hm)) (mi_listing _ _ _ _ _ Hm))
    as (Hwf & Hraw & _ & Hb & Hp & Hf & Hdp & _).
  destruct Hds as [(e & Hn & -> & ->)|(d & Hn & Hlist)].
  { split_and!; [done..|]. intros [d Hd]. congruence. }
  destruct (side_spec d l w1 ds w2 filters (λ _, true) (λ _ o, o) Hlist Hl (λ _ _ _, eq_refl)) as [Hin Hcov].
  split_and!.
  - intros k o Ho. by destruct (Hin k o Ho) as (v & ? & _).
  - intros k o Ho. destruct (Hin k o Ho) as (v & _ & Hv & [? ? ? Hex] & ?). exists v. split; [done|]. split; [|done]. split; [done..|by rewrite <-Hw1].
  - intros _ Hno rel c Hne Hutf Hc Hskip.
    assert (Hmat : (matches l (path dst ++ rel)).1 = true) by (apply (dest_listing_matches l (path dst)); [done..|by exists rel]).
    assert (Hr : relative (listed_url l (path dst ++ rel)) = rel).
    { apply (listed_relative l _ rel Hl Hmat Hne). by rewrite Hp, Hdp. }
    rewrite <-Hr at 1. apply Hcov with (c := c); [| |done|by rewrite Hw1, Hb|by rewrite Hr].
    + by apply Forall_forall.
    + apply Forall_forall. intros o Ho e He. rewrite Forall_forall in Herr, Hno. by apply (Hno o Ho e He), (Herr o Ho e He).
Qed.

(** C1. Sync mirrors. When a wildcard of one bucket is synchronised to a prefix of another,
    then whatever happens, nothing changes but objects below the destination that the filters
    let through. And when a run that is not dry succeeds, with listings that told what there
    is, every such name that the source has ends up at the destination with the bytes it had
    at the source, unless the strategy judged the two equal and left the destination as it
    was; and every such name the source does not have is gone with [--delete], and as it was
    without. *)
Theorem sync_mirrors sched1 sched2 res ro w' :
  run now global args sched1 sched2 w = Some (res, ro, w') →
  (∀ x, (∀ rel, x = dest_at dst rel → rel ≠ [] ∧ should_skip filters rel = true) → obj w' x = obj w x) ∧
  (dry_run sync_options = false → listings_told → res = Ok tt →
   ∀ rel, plain_name rel → utf8 rel → should_skip filters rel = false →
     (∀ c, in_source rel c →
        obj w' (dest_at dst rel) = Some c ∨ (obj w' (dest_at dst rel) = obj w (dest_at dst rel) ∧ judged_equal rel)) ∧
     ((∀ c, ¬ in_source rel c) →
        obj w' (dest_at dst rel) = if a_delete args then None else obj w (dest_at dst rel))).
Proof.
  unfold run. destruct (prepare now global args w) as [[[[[c d] clients] opts]|e] w0] eqn:Hprep; apply prepare_inv in Hprep as [Hw0 Hplan].
  2:{ intros [= <- _ <-]. split; [intros x _; apply Hw0|done]. }
  destruct (Hplan c d clients opts eq_refl) as (os & w1 & srcs & ds & w2 & dests & cl & Hos & Hsmap & Hw1 & Hds & Hdmap & Hpl & -> & Hlive).
  destruct (execute _ _ _ _ _ _ _ _ _ _ _) as [[r w3]|] eqn:Hex; [|done]. intros [= <- _ <-].
  destruct mirror_wild as [Hsrc Hl]. pose proof (mi_dir _ _ _ _ _ Hm) as [Hpre Hplain].
  destruct (dest_listing_url _ _ _ (mi_dst _ _ _ _ _ Hm) Hpre Hplain (mi_listing _ _ _ _ _ Hm)) as (_ & _ & _ & Hb & Hp & _ & Hdp & _).
  assert (Hdst : is_remote dst = true ∧ is_prefix dst || is_bucket dst = true).
  { split; [|done]. by apply orb_true_iff in Hpre as [[? _]%andb_true_iff|[? _]%andb_true_iff]. }
  destruct (source_side _ _ _ Hos Hsmap) as (Hsin & Hss & Hscov). destruct (dest_side _ _ _ _ Hw1 Hds Hdmap) as (Hdin & Hsd & Hdcov).
  pose proof (mi_apart _ _ _ _ _ Hm) as Happart. set (st := SyncStrategy_new _ _) in *. set (del := a_delete args) in *.
  pose proof (plan_independent src dst l filters st del w srcs dests Hsrc Hl Hdst (conj Hb (conj Hp Hdp)) Happart Hss Hsd) as Hind.
  pose proof (plan_frame src dst l filters st del w srcs dests Hsrc Hl Hdst (conj Hb (conj Hp Hdp)) Hss Hsd) as Hpf.
  pose proof (plan_mirrors src dst l filters st del w srcs dests Hsrc Hl Hdst (conj Hb (conj Hp Hdp)) Hss Hsd) as Hpm.
  rewrite Hpl in Hind, Hpf, Hpm. cbn [fst snd] in Hind, Hpf, Hpm.
  destruct (execute_mirrors cl opts _ _ _ c d Hind _ _ _ _ _ Hex) as [Hframe Hval]. split.
  { intros x Hx. destruct (Hpf x Hx). by rewrite Hframe. }
  intros Hdry Htold Hok rel Hrel Hutf Hskip. destruct (Htold os w1 ds w2 Hos Hds) as (Hglacier & Hclient & Hno).
  destruct (Hval (Hlive Hdry) Hok) as [Hcopies Hdeletes].
  specialize (Hpm (obj w3) rel (λ x Hc Hd, eq_trans (Hframe x Hc Hd) (Hw0 x))
                (λ s t Hin Hobj, eq_trans (Hcopies s t Hin Hobj) (Hw0 (loc s))) Hdeletes Hrel).
  destruct (srcs !! rel) as [so|] eqn:Hso.
  - destruct (source_entry src filters w srcs Hsrc Hss rel so Hrel Hso) as (u & Hu & Hloc & _ & Hmat & [c0 Hc0]).
    split; [|intros Hnone; by destruct (Hnone c0)]. intros c1 [_ Hc1].
    destruct Hpm as [Hv|(Hv & o' & Ho' & Hsync)]; [left; by rewrite Hv|right; split; [done|]].
    destruct (dest_entry dst l filters w dests Hl (conj Hb (conj Hp Hdp)) Hsd rel o' Hrel Ho') as (v & Hv' & Hvloc).
    exists os, w1, ds, w2, so, o', u, v. split_and!; try done; [by apply (Hsin rel)|by apply (Hdin rel)].
  - split; [intros c1 Hin; by destruct (Hscov Hglacier rel c1 Hrel Hin Hskip); congruence|]. intros _. rewrite Hpm.
    destruct del; [|done]. cbn [andb]. case_bool_decide as Hex'; [done|].
    destruct (obj w (dest_at dst rel)) as [c1|] eqn:Hc1; [|done]. destruct Hex'. by apply (Hdcov Hclient Hno rel c1 (proj1 Hrel)).
Qed.
End Command.
