(* ===== verification/MountSpec.v ===== *)
(** * What the mount does to the bucket (mount/vfs.rs, mount/fs.rs)

    [BucketLaws] adds to [S3Laws] that clocks and local files are apart from the objects. From them: a
    rename loses nothing, whatever fails; [rmdir] and [mkdir] spare what is there; and a
    read-only mount changes nothing. *)

From S2P Require Import Prelude RustStr Strutil Url Storage Fs Hoare Tasks Inode Reader Writer Vfs FuseFs VfsSpec.
From S2P Require Import S3Laws.

Local Open Scope Z_scope.

Class BucketLaws `{RegexLib} (W : Type) `{!Os W, !S3Ops W, !S3View W, !Clocks W} : Prop := {
  bucket_s3 :: S3Laws W;
  clock_law : ∀ w t w', instant w = (t, w') ∨ system_time w = (t, w') → ∀ l, obj w' l = obj w l;
  fs_write_law : ∀ p d w r w', fs_write p d w = (r, w') → ∀ l, obj w' l = obj w l;
  remove_law : ∀ p w r w', remove_file p w = (r, w') → ∀ l, obj w' l = obj w l;
}.

(** A key with a prefix, and text after it. *)
Definition under (old k : str) : Prop := ∃ rest, k = old ++ rest ∧ utf8 rest.

Lemma under_starts_with old k : under old k → starts_with old k = true.
Proof. intros (rest & -> & _). apply starts_with_true. by exists rest. Qed.

(** A bucket's name as S3 allows it. *)
Definition bucket_ok (b : str) : Prop :=
  b ≠ [] ∧ existsb (is_chr SLASH) b = false ∧ has_glob_character b = false.

Section MountSpec.
Context `{BucketLaws} `{!RegexLaws, !Unordered, !NodeOrder, !HandleOrder}.

Lemma parse_url_loc b k u :
  bucket_ok b → parse_url ($"s3://" ++ b ++ $"/" ++ k) = Ok u →
  loc u = (b, k) ∧ (is_remote u = true ∧ version_id u = [] ∧ start_after u = [] ∧ (k ≠ [] → object_url u)) ∧
  (has_glob_character k = false → url_prefix u = k ∧ url_filter u = [] ∧ is_versioned u = false ∧
    ∀ j, (matches u j).1 = true ↔ under k j).
Proof.
  intros (Hb1 & Hb2 & Hb3). unfold parse_url, parse.
  destruct (Url_new _ _) as [v|e] eqn:Hnew; [|done]. cbn [result_map_err]. intros [= <-].
  pose proof (Url_new_wf _ _ _ Hnew) as Hwf. rewrite Url_new_remote in Hnew by done. rename Hnew into Hset.
  pose proof Hset as (Hk & Hsc & Hbk & Hp & _ & Hvid & _)%set_prefix_and_filter_keeps.
  pose proof (set_prefix_and_filter_start _ _ Hset) as Hsa. cbn in Hk, Hsc, Hbk, Hp, Hvid, Hsa.
  split; [unfold loc; by rewrite Hbk, Hp|]. split.
  { split_and!; [unfold is_remote; by rewrite Hk|done|done|]. intros Hne. unfold object_url. by rewrite Hk, Hsc, Hbk, Hp. }
  intros Hg. unfold set_prefix_and_filter in Hset. cbn [fresh_url raw path UrlOptions_default] in Hset.
  unfold has_glob_character, contains_chr in Hg. destruct (find is_glob k) eqn:Hf.
  - apply find_Some in Hf as (c & r & Hkc & Hc & _ & _). rewrite Hkc in Hg.
    rewrite existsb_app in Hg. apply orb_false_iff in Hg as [_ Hg].
    cbn [existsb] in Hg. rewrite Hc in Hg. discriminate Hg.
  - cbn in Hset. apply result_bind_Ok in Hset as (r & _ & Hu). injection Hu as Hu.
    assert (Hp1 : url_prefix v = k) by by subst v. assert (Hp2 : url_filter v = []) by by subst v.
    assert (Hver : is_versioned v = false) by by subst v.
    split_and!; [done|done|done|]. intros j.
    assert (Hraw : raw v = false) by by subst v.
    rewrite (matches_wf v j Hwf Hraw), Hp1. destruct (decide _) as [_|Hn]; [done|by destruct Hn].
Qed.

(** ** The parts of a handler that change nothing in the bucket *)

(** The bucket is as in [w0]. *)
Definition Same (w0 : W) (s : Vfs (W := W) * W) : Prop := ∀ l, obj s.2 l = obj w0 l.

Section Keeps.
Context (w0 : W).

Lemma Same_reads {A} (f : Vfs → A) : keeps (Same w0) (reads f).
Proof. apply keeps_intro. by intros s r s' Hs [= _ <-]. Qed.

Lemma Same_modify f : keeps (Same w0) (modify f).
Proof. apply keeps_intro. by intros s r s' Hs [= _ <-]. Qed.

Lemma Same_lift {A} (m : W → result A Error * W) :
  (∀ w r w', m w = (r, w') → ∀ l, obj w' l = obj w l) → keeps (Same w0) (lift m).
Proof.
  intros Hm. apply keeps_intro. intros [v w] r s' Hs. unfold lift. cbn. destruct (m w) as [x w'] eqn:Hr.
  intros [= _ <-] l. cbn. rewrite (Hm _ _ _ Hr). apply Hs.
Qed.

Lemma Same_stat s3 u : keeps (Same w0) (lift (s3_stat s3 u)).
Proof. apply Same_lift. intros w r w' Hr. by apply stat_law in Hr as [? _]. Qed.

Lemma Same_list s3 u : keeps (Same w0) (lift (λ w, let '(l, w) := s3_list s3 u w in (Ok l, w))).
Proof.
  apply Same_lift. intros w r w'. destruct (s3_list s3 u w) as [os w1] eqn:Hl. intros [= _ <-].
  by apply list_law in Hl as [? _].
Qed.

Lemma Same_range s3 u o n : keeps (Same w0) (lift (s3_read_range s3 u o n)).
Proof. apply Same_lift. intros w r w' Hr. by eapply range_law. Qed.

Lemma Same_fs_write p d : keeps (Same w0) (lift (fs_write p d)).
Proof. apply Same_lift. intros w r w' Hr. by eapply fs_write_law. Qed.

Lemma Same_remove p : keeps (Same w0) (ignoring (remove_file p)).
Proof.
  apply keeps_intro. intros [v w] r s' Hs [= _ <-] l. cbn. destruct (remove_file p w) as [x w'] eqn:Hr. cbn.
  rewrite (remove_law _ _ _ _ Hr). apply Hs.
Qed.

Lemma Same_instant : keeps (Same w0) (reading instant).
Proof.
  apply keeps_intro. intros [v w] r s' Hs. unfold reading. cbn. destruct (instant w) as [t w'] eqn:Hr.
  intros [= _ <-] l. cbn. rewrite (clock_law _ _ _ (or_introl Hr)). apply Hs.
Qed.

Lemma Same_system_time : keeps (Same w0) (reading system_time).
Proof.
  apply keeps_intro. intros [v w] r s' Hs. unfold reading. cbn. destruct (system_time w) as [t w'] eqn:Hr.
  intros [= _ <-] l. cbn. rewrite (clock_law _ _ _ (or_intror Hr)). apply Hs.
Qed.

Lemma Same_try {A} (m : V A) : keeps (Same w0) m → keeps (Same w0) (try m).
Proof.
  intros Hm. apply keeps_intro. intros s r s' HI. unfold try. destruct (m s) as [x s1] eqn:Hr. intros [= _ <-].
  by eapply keeps_run.
Qed.

Lemma Same_intern k kind parent : keeps (Same w0) (vfs_intern k kind parent).
Proof.
  apply keeps_intro. intros [v w] r s' HI. unfold vfs_intern. cbn. destruct (intern _ _ _ _). by intros [= _ <-].
Qed.

#[local] Hint Resolve Same_reads Same_modify Same_stat Same_list Same_range Same_fs_write Same_remove Same_instant
  Same_system_time Same_try Same_intern : keeps.

Lemma Same_obj_url k : keeps (Same w0) (obj_url k).
Proof. unfold obj_url. keep. Qed.

Lemma Same_list_url k : keeps (Same w0) (list_url k).
Proof. unfold list_url. keep. Qed.

#[local] Hint Resolve Same_obj_url Same_list_url : keeps.

(** [unfold] the small helpers, then walk. *)
Ltac same := unfold node, dir_attr, dirty_entry, cached_attr, cached_dir, fresh,
  store_attr, store_dir, invalidate_attr, invalidate_dir, set_dirty_size, clear_dirty_size, store_size, insert_handle,
  alloc_fh, vfs_forget, vfs_rekey, find_write_handle, dirty_children, parent_of, write_handle_of; keep.

Lemma Same_getattr ino : keeps (Same w0) (getattr ino).
Proof. unfold getattr. same. Qed.

Lemma Same_prefix_exists k : keeps (Same w0) (prefix_exists k).
Proof. unfold prefix_exists. same. Qed.

Lemma Same_dir_is_empty k : keeps (Same w0) (dir_is_empty k).
Proof. unfold dir_is_empty. same. Qed.

Lemma Same_repoint ino k : keeps (Same w0) (repoint ino k).
Proof. unfold repoint. same. Qed.

Lemma Same_for_each {A} (f : A → V unit) l : (∀ a, keeps (Same w0) (f a)) → keeps (Same w0) (for_each f l).
Proof. intros Hf. induction l; cbn [for_each]; keep. Qed.
End Keeps.

Lemma obj_url_run k (s : Vfs (W := W) * W) r s' :
  bucket_ok (v_bucket s.1) → obj_url k s = (r, s') →
  s' = s ∧ ∀ u, r = Ok u → loc u = (v_bucket s.1, k) ∧ version_id u = [] ∧ (k ≠ [] → object_url u).
Proof.
  intros Hb. unfold obj_url, mbind, reads, mlift. cbn. intros [= <- <-]. split; [by destruct s|].
  intros u Hu. by apply (parse_url_loc _ _ _ Hb) in Hu as (? & (_ & ? & _ & ?) & _).
Qed.

(** A mount of a bucket with a legal name, whose client is not that of a dry run. *)
Definition mount_ok (v : Vfs (W := W)) : Prop := bucket_ok (v_bucket v) ∧ live (v_s3 v).

(** ** Renaming *)

#[local] Hint Resolve Same_reads Same_modify Same_instant Same_system_time Same_obj_url Same_list_url Same_repoint : keeps.

Lemma mbind_reads {A B} (f : Vfs (W := W) → A) (g : A → V B) s : mbind (reads f) g s = g (f s.1) s.
Proof. done. Qed.

Lemma lift_inv {A} (m : W → result A Error * W) (s : Vfs (W := W) * W) r s' :
  lift m s = (r, s') → s'.1 = s.1 ∧ m s.2 = (r, s'.2).
Proof. unfold lift. destruct (m s.2) as [x w] eqn:Hm. by intros [= <- <-]. Qed.

(** The copy and the deletion of one key. *)
Lemma copy_run s3 src dst (s : Vfs (W := W) * W) r s' :
  live s3 → object_url src → version_id src = [] → lift (s3_copy s3 src dst Metadata_default) s = (r, s') →
  s'.1 = s.1 ∧ (∀ l, l ≠ loc dst → obj s'.2 l = obj s.2 l) ∧ (r = Ok tt → obj s'.2 (loc dst) = obj s.2 (loc src)).
Proof. intros Hs Hu Hv [? Hm]%lift_inv. apply copy_law in Hm as [? Hc]. split_and!; [done..|]. intros Hr. by destruct (Hc Hs Hu Hv Hr). Qed.

Lemma delete_run s3 u (s : Vfs (W := W) * W) r s' :
  live s3 → version_id u = [] → lift (s3_delete s3 u) s = (r, s') →
  s'.1 = s.1 ∧ (∀ l, l ≠ loc u → obj s'.2 l = obj s.2 l) ∧ (r = Ok tt → obj s'.2 (loc u) = None).
Proof. intros Hs Hv [? Hm]%lift_inv. apply delete_law in Hm as [? Hd]. by split_and!; [..|intros; apply Hd]. Qed.

Definition moved_file (w w' : W) (b old new : str) : Prop :=
  (∀ l, l ≠ (b, old) → l ≠ (b, new) → obj w' l = obj w l) ∧
  (obj w' (b, old) = obj w (b, old) ∨ obj w' (b, new) = obj w (b, old)).

Lemma rename_file_spec parent newparent old new (s : Vfs (W := W) * W) r s' :
  let b := v_bucket s.1 in
  mount_ok s.1 → old ≠ [] → old ≠ new → rename_file parent newparent old new s = (r, s') →
  moved_file s.2 s'.2 b old new ∧
  (r = Ok tt → obj s'.2 (b, old) = None ∧ obj s'.2 (b, new) = obj s.2 (b, old)).
Proof.
  cbv zeta. intros [Hb Hlive] Hold Hne. unfold rename_file. rewrite mbind_reads.
  intros [(e & He & ->)|(src & s1 & Hsrc & Hr)]%mbind_inv.
  { apply obj_url_run in He as [-> _]; [|done]. split; [split; [done|by left]|done]. }
  apply obj_url_run in Hsrc as [-> Hsrc]; [|done]. destruct (Hsrc src eq_refl) as (Hls & Hvs & Hus).
  apply mbind_inv in Hr as [(e & He & ->)|(dst & s1 & Hdst & Hr)].
  { apply obj_url_run in He as [-> _]; [|done]. split; [split; [done|by left]|done]. }
  apply obj_url_run in Hdst as [-> Hdst]; [|done]. destruct (Hdst dst eq_refl) as [Hld _].
  apply mbind_inv in Hr as [(e & He & ->)|([] & s1 & Hcp & Hr)].
  { apply copy_run in He as (_ & Hk & _); [|auto..]. rewrite Hld in Hk. split; [|done]. split; [by intros; apply Hk|].
    left. apply Hk. congruence. }
  apply copy_run in Hcp as (Hv1 & Hk1 & Hc1); [|auto..]. specialize (Hc1 eq_refl). rewrite Hld, ?Hls in *.
  apply mbind_inv in Hr as [(e & He & ->)|([] & s2 & Hdel & Hr)].
  { apply delete_run in He as (_ & Hk & _); [|done..]. rewrite Hls in Hk. split; [|done]. split.
    - intros l H1' H2'. by rewrite Hk, Hk1.
    - right. rewrite Hk by congruence. exact Hc1. }
  apply delete_run in Hdel as (Hv2 & Hk2 & Hd2); [|done..]. specialize (Hd2 eq_refl). rewrite Hls in *.
  assert (Hrest : Same s2.2 s').
  { eapply (keeps_run (Same s2.2)); [|intros l; reflexivity|exact Hr].
    unfold invalidate_attr, invalidate_dir, vfs_forget, vfs_rekey. keep. }
  assert (Hnew : obj s'.2 (v_bucket s.1, new) = obj s.2 (v_bucket s.1, old)).
  { rewrite Hrest, Hk2 by congruence. exact Hc1. }
  split; [split; [|by right]|].
  - intros l H1' H2'. by rewrite Hrest, Hk2, Hk1.
  - intros _. split; [|done]. by rewrite Hrest.
Qed.

(** Two prefixes no key shares. *)
Definition disjoint (old new : str) : Prop := starts_with old new = false ∧ starts_with new old = false.

Lemma prefixes_of k p q :
  starts_with p k = true → starts_with q k = true → starts_with p q = true ∨ starts_with q p = true.
Proof.
  intros [r1 ->]%starts_with_true [r2 Heq]%starts_with_true.
  rewrite !starts_with_true. destruct (app_eq_inv _ _ _ _ Heq) as [(z & -> & _)|(z & -> & _)]; eauto.
Qed.

Lemma moved_under old new k : starts_with new (moved old new k) = true.
Proof. apply starts_with_true. by eexists. Qed.

Lemma moved_not_old old new k k' : disjoint old new → starts_with old k' = true → moved old new k ≠ k'.
Proof.
  intros [Hd1 Hd2] Hk' Heq. pose proof (moved_under old new k) as Hm. rewrite Heq in Hm.
  destruct (prefixes_of k' old new Hk' Hm); congruence.
Qed.

Lemma copy_key_run old new k (s : Vfs (W := W) * W) r s' :
  let b := v_bucket s.1 in
  mount_ok s.1 → old ≠ [] → starts_with old k = true → copy_key old new k s = (r, s') →
  s'.1 = s.1 ∧ (∀ l, l ≠ (b, moved old new k) → obj s'.2 l = obj s.2 l) ∧
  (r = Ok tt → obj s'.2 (b, moved old new k) = obj s.2 (b, k)).
Proof.
  cbv zeta. intros [Hb Hlive] Hold [x ->]%starts_with_true. unfold copy_key. rewrite mbind_reads.
  unfold moved. rewrite drop_app_length, strip_prefix_app. cbn [default].
  intros [(e & He & ->)|(src & s1 & Hsrc & Hr)]%mbind_inv.
  { by apply obj_url_run in He as [-> _]. }
  apply obj_url_run in Hsrc as [-> Hsrc]; [|done]. destruct (Hsrc src eq_refl) as (Hls & Hvs & Hus).
  apply mbind_inv in Hr as [(e & He & ->)|(dst & s1 & Hdst & Hr)].
  { by apply obj_url_run in He as [-> _]. }
  apply obj_url_run in Hdst as [-> Hdst]; [|done]. destruct (Hdst dst eq_refl) as [Hld _].
  assert (Hne : old ++ x ≠ []) by by destruct old. apply copy_run in Hr; [|auto..]. by rewrite Hld, Hls in Hr.
Qed.

Lemma copy_loop_run old new ks (s : Vfs (W := W) * W) r s' :
  let b := v_bucket s.1 in
  mount_ok s.1 → old ≠ [] → disjoint old new → Forall (λ k, starts_with old k = true) ks →
  for_each (copy_key old new) ks s = (r, s') →
  s'.1 = s.1 ∧ (∀ l, (∀ k, k ∈ ks → l ≠ (b, moved old new k)) → obj s'.2 l = obj s.2 l) ∧
  (r = Ok tt → ∀ k, k ∈ ks → obj s'.2 (b, moved old new k) = obj s.2 (b, k)).
Proof.
  cbv zeta. intros Hb Hne Hdis Hks. revert s Hb. induction Hks as [|k ks Hk Hks IH]; intros s Hb; cbn [for_each].
  { intros [= <- <-]. split_and!; [done..|]. intros _ k Hin. by apply elem_of_nil in Hin. }
  intros [(e & He & ->)|([] & s1 & Hcp & Hr)]%mbind_inv.
  { apply copy_key_run in He as (Hv & Hf & _); [|done..]. split_and!; [done| |done].
    intros l Hl. apply Hf, Hl. by left. }
  apply copy_key_run in Hcp as (Hv & Hf & Hok); [|done..]. specialize (Hok eq_refl).
  apply IH in Hr as (Hv' & Hf' & Hok'); [|by rewrite Hv]. rewrite Hv in *. split_and!; [done| |].
  - intros l Hl. rewrite Hf', Hf; [done| |]; intros; apply Hl; by (left || right).
  - intros Hr j Hj. destruct (decide (j ∈ ks)) as [Hin|Hnin].
    + rewrite (Hok' Hr j Hin). apply Hf. intros [= Heq]. symmetry in Heq. revert Heq.
      apply moved_not_old; [done|]. rewrite Forall_forall in Hks. by apply Hks.
    + apply elem_of_cons in Hj as [->|]; [|done]. rewrite Hf'; [done|]. intros i Hi [= Heq].
      apply Hnin. rewrite Forall_forall in Hks. by rewrite (moved_inj old new k i Hk (Hks i Hi) Heq).
Qed.

Lemma delete_loop_run ks (s : Vfs (W := W) * W) r s' :
  let b := v_bucket s.1 in
  mount_ok s.1 → for_each delete_key ks s = (r, s') →
  s'.1 = s.1 ∧ (∀ l, (∀ k, k ∈ ks → l ≠ (b, k)) → obj s'.2 l = obj s.2 l) ∧
  (r = Ok tt → ∀ k, k ∈ ks → obj s'.2 (b, k) = None).
Proof.
  cbv zeta. revert s. induction ks as [|k ks IH]; intros s Hb; cbn [for_each].
  { intros [= <- <-]. split_and!; [done..|]. intros _ k Hin. by apply elem_of_nil in Hin. }
  assert (Hdel : ∀ r s1, delete_key k s = (r, s1) → s1.1 = s.1 ∧
    (∀ l, l ≠ (v_bucket s.1, k) → obj s1.2 l = obj s.2 l) ∧ (r = Ok tt → obj s1.2 (v_bucket s.1, k) = None)).
  { intros x s1. unfold delete_key. rewrite mbind_reads.
    destruct Hb as [Hb Hlive].
    intros [(e & He & ->)|(u & s2 & Hu & Hd)]%mbind_inv; [by apply obj_url_run in He as [-> _]|].
    apply obj_url_run in Hu as [-> Hu]; [|done]. destruct (Hu u eq_refl) as (Hl & Hvu & _).
    apply delete_run in Hd; [|done..]. by rewrite Hl in Hd. }
  intros [(e & He & ->)|([] & s1 & Hd & Hr)]%mbind_inv.
  { apply Hdel in He as (Hv & Hf & _). split_and!; [done| |done]. intros l Hl. apply Hf, Hl. by left. }
  apply Hdel in Hd as (Hv & Hf & Hok). specialize (Hok eq_refl).
  apply IH in Hr as (Hv' & Hf' & Hok'); [|by rewrite Hv]. rewrite Hv in *. split_and!; [done| |].
  - intros l Hl. rewrite Hf', Hf; [done| |]; intros; apply Hl; by (left || right).
  - intros Hr j Hj. destruct (decide (j ∈ ks)) as [Hin|Hnin]; [by apply Hok'|].
    apply elem_of_cons in Hj as [->|]; [|done]. rewrite Hf'; [done|]. by intros i Hi [= ->].
Qed.

Lemma listed_keys_spec objs ks :
  listed_keys objs = Ok ks →
  (∀ k, k ∈ ks → ∃ o v, o ∈ objs ∧ url o = Some v ∧ path v = k) ∧
  ((∃ o e, o ∈ objs ∧ obj_err o = Some e ∧ is_no_object e = true) ∨
   (∀ o, o ∈ objs → obj_err o = None ∧ ∀ v, url o = Some v → path v ∈ ks)).
Proof.
  revert ks. induction objs as [|o objs IH]; intros ks; cbn [listed_keys].
  { intros [= <-]. split; [|right]; intros ? Hin; by apply elem_of_nil in Hin. }
  destruct (obj_err o) as [e|] eqn:He.
  { destruct (is_no_object e) eqn:Hno; [|done]. intros [= <-]. split.
    - intros k Hin. by apply elem_of_nil in Hin.
    - left. exists o, e. split; [by left|done]. }
  intros (ks' & Hks & [= <-])%result_bind_Ok. destruct (IH _ Hks) as [Hin Hall]. split.
  - intros k Hk. assert (Hk' : k ∈ ks' ∨ ∃ v, url o = Some v ∧ path v = k).
    { destruct (url o) as [v|]; [|by left]. apply elem_of_cons in Hk as [->|]; [right|left]; eauto. }
    destruct Hk' as [Hk'|(v & Hv & <-)].
    + destruct (Hin k Hk') as (o' & v & Ho & Hv & Hp). exists o', v. split; [by right|done].
    + exists o, v. split; [by left|done].
  - destruct Hall as [(o' & e & Ho & Hoe)|Hall].
    + left. exists o', e. split; [by right|done].
    + right. intros o' [->|Ho]%elem_of_cons.
      * split; [done|]. intros v Hv. rewrite Hv. by left.
      * destruct (Hall o' Ho) as [H1' H2']. split; [done|]. intros v Hv. apply H2' in Hv.
        destruct (url o); [by right|done].
Qed.

(** The recursive listing of a directory whose name is no wildcard. *)
Lemma list_recursive_run old s u s1 :
  bucket_ok (v_bucket s.1) → has_glob_character old = false →
  list_url_recursive (W := W) old s = (Ok u, s1) →
  s1 = s ∧ bucket u = v_bucket s.1 ∧ flat_listing u ∧
  ∀ k, (matches u k).1 = true ↔ under old k.
Proof.
  intros Hb Hg. unfold list_url_recursive, list_url, mbind, reads, mlift, mret. cbn.
  destruct (parse_url _) as [v|] eqn:Hu; [|done]. intros [= <- <-].
  apply (parse_url_loc _ _ _ Hb) in Hu as ([= Hbk _] & (_ & _ & Hsa & _) & Hp). destruct (Hp Hg) as (Hp1 & Hp2 & Hv & Hm).
  assert (Hsame : ∀ k, (matches (with_delimiter v []) k).1 = (matches v k).1).
  { intros k. unfold matches. cbn. destruct (filter_regex v); [|done]. by destruct (is_match _ _). }
  split_and!; [done|done| |intros k; by rewrite Hsame]. split_and!; [done..|].
  intros k. rewrite Hsame, Hm. cbn. rewrite Hp1. apply under_starts_with.
Qed.

Lemma At_Same_prefix_exists k s r s' :
  prefix_exists (W := W) k s = (r, s') → s'.1 = s.1 ∧ ∀ l, obj s'.2 l = obj s.2 l.
Proof.
  intros Hr. split; [by apply (keeps_run (At s.1) _ _ _ _ (At_prefix_exists s.1 k) eq_refl Hr)|].
  by apply (keeps_run (Same s.2) _ _ _ _ (Same_prefix_exists s.2 k) (λ l, eq_refl) Hr).
Qed.

(** What a directory rename did to the bucket: every object is where it was or where it
    goes, and nothing else is touched. *)
Definition moved_dir (w w' : W) (b old new : str) : Prop :=
  (∀ l, (l.1 = b → starts_with old l.2 = false ∧ starts_with new l.2 = false) → obj w' l = obj w l) ∧
  (∀ k, starts_with old k = true →
     obj w' (b, k) = obj w (b, k) ∨ obj w' (b, moved old new k) = obj w (b, k)).

Lemma moved_dir_same w w' b old new : (∀ l, obj w' l = obj w l) → moved_dir w w' b old new.
Proof. intros Hs. split; intros; [done|by left]. Qed.

(** The keys of a directory. *)
Definition keys_of (w : W) (b old : str) (ks : list str) : Prop :=
  Forall (λ k, starts_with old k = true) ks ∧
  ∀ k, under old k → k ∈ ks ∨ obj w (b, k) = None.

Lemma listing_run old (f : list str → V unit) (s : Vfs (W := W) * W) r s' :
  bucket_ok (v_bucket s.1) → has_glob_character old = false →
  (let! u := list_url_recursive old in
   let! s3 := reads v_s3 in
   let! objs := lift (λ w, let '(l, w) := s3_list s3 u w in (Ok l, w)) in
   let! keys := mlift (listed_keys objs) in f keys) s = (r, s') →
  (r ≠ Ok tt ∧ ∀ l, obj s'.2 l = obj s.2 l) ∨
  ∃ ks s1, s1.1 = s.1 ∧ (∀ l, obj s1.2 l = obj s.2 l) ∧ keys_of s.2 (v_bucket s.1) old ks ∧ f ks s1 = (r, s').
Proof.
  intros Hb Hg [(e & He & ->)|(u & s1 & Hu & Hr)]%mbind_inv.
  { left. split; [done|]. unfold list_url_recursive, list_url, mbind, reads, mlift, mret in He. cbn in He.
    destruct (parse_url _); [done|]. by injection He as _ <-. }
  apply list_recursive_run in Hu as (-> & Hub & Hflat & Hm); [|done..]. rewrite mbind_reads in Hr.
  apply mbind_inv in Hr as [(e & He & ->)|(objs & s1 & Hls & Hr)].
  { unfold lift in He. by destruct (s3_list _ _ _). }
  unfold lift in Hls. destruct (s3_list _ _ _) as [os w1] eqn:Hlist. injection Hls as -> <-.
  pose proof (list_law _ _ _ _ _ Hlist) as [Hs1 Hin]. pose proof (list_complete _ _ _ _ _ Hlist Hflat) as (Hnone & Hcomp & _).
  rewrite Hub in *.
  apply mbind_inv in Hr as [(e & He & ->)|(ks & s1 & Hks & Hr)].
  { left. split; [done|]. unfold mlift in He. by injection He as _ <-. }
  unfold mlift in Hks. injection Hks as Hks <-. apply listed_keys_spec in Hks as [Hkin Hkall].
  right. exists ks, (s.1, w1). split_and!; [done|done| |exact Hr]. split.
  - apply Forall_forall. intros k (o & v & Ho & Hv & <-)%Hkin. apply under_starts_with, Hm. by destruct (Hin o v Ho Hv) as (_ & ? & _).
  - intros k Hk%Hm. destruct (obj s.2 (v_bucket s.1, k)) as [c|] eqn:Hc; [left|by right].
    destruct Hkall as [(o & e & Ho & Hoe & Hno)|Hkall].
    + by rewrite (Hnone o e Ho Hoe Hno k Hk) in Hc.
    + destruct (Hcomp ltac:(intros o Ho; by apply Hkall) k c Hk Hc) as (o & v & Ho & Hv & <- & _).
      by apply (Hkall o Ho).
Qed.

Lemma move_keys_run old new ks (rest : V unit) (s : Vfs (W := W) * W) r s' :
  let b := v_bucket s.1 in
  mount_ok s.1 → old ≠ [] → disjoint old new → keys_of s.2 b old ks → (∀ w0, keeps (Same w0) rest) →
  (let! _ := for_each (copy_key old new) ks in let! _ := for_each delete_key ks in rest) s = (r, s') →
  moved_dir s.2 s'.2 b old new ∧
  (r = Ok tt → ∀ k, under old k →
     obj s'.2 (b, k) = None ∧ ∀ c, obj s.2 (b, k) = Some c → obj s'.2 (b, moved old new k) = Some c).
Proof.
  cbv zeta. intros Hb Hne Hdis [Hold Hall] Hrest. set (b := v_bucket s.1) in *.
  assert (Hnm : ∀ l k, (l.1 = b → starts_with old l.2 = false ∧ starts_with new l.2 = false) → l ≠ (b, moved old new k)).
  { intros l k Hl ->. destruct (Hl eq_refl) as [_ Hn]. cbn in Hn. by rewrite moved_under in Hn. }
  assert (Hom : ∀ k j, starts_with old k = true → (b, k) ≠ (b, moved old new j)).
  { intros k j Hk [= Heq]. symmetry in Heq. by apply moved_not_old in Heq. }
  intros [(e & He & ->)|([] & s1 & Hcp & Hr)]%mbind_inv.
  { apply copy_loop_run in He as (_ & Hf & _); [|done..]. split; [|done]. split.
    - intros l Hl. apply Hf. intros k _. by apply Hnm.
    - intros k Hk. left. apply Hf. intros j _. by apply Hom. }
  apply copy_loop_run in Hcp as (Hv & Hf & Hok); [|done..]. specialize (Hok eq_refl). fold b in Hf, Hok.
  assert (Hb1 : v_bucket s1.1 = b) by by rewrite Hv. assert (Hok1 : mount_ok s1.1) by by rewrite Hv.
  assert (Hdel : ∀ x s2, for_each delete_key ks s1 = (x, s2) →
    (∀ l, (l.1 = b → starts_with old l.2 = false) → obj s2.2 l = obj s1.2 l) ∧
    (x = Ok tt → ∀ k, k ∈ ks → obj s2.2 (b, k) = None) ∧
    ∀ k, k ∉ ks → obj s2.2 (b, k) = obj s1.2 (b, k)).
  { intros x s2 Hd. apply delete_loop_run in Hd as (_ & Hf2 & Hok2); [|done]. rewrite Hb1 in *.
    split_and!; [|done|].
    - intros l Hl. apply Hf2. intros k Hk ->. rewrite Forall_forall in Hold. specialize (Hl eq_refl). cbn in Hl.
      by rewrite (Hold k Hk) in Hl.
    - intros k Hk. apply Hf2. by intros j Hj [= ->]. }
  assert (Hmoved : ∀ x s2, for_each delete_key ks s1 = (x, s2) → moved_dir s.2 s2.2 b old new ∧
    ∀ k, k ∈ ks → obj s2.2 (b, moved old new k) = obj s.2 (b, k)).
  { intros x s2 Hd. apply Hdel in Hd as (Hf2 & _ & Hn2).
    assert (Hmv : ∀ k, k ∈ ks → obj s2.2 (b, moved old new k) = obj s.2 (b, k)).
    { intros k Hk. rewrite Hf2; [by apply Hok|]. intros _. cbn.
      destruct (starts_with old (moved old new k)) eqn:Hst; [|done]. by apply (Hom _ k) in Hst. }
    split; [split|done].
    - intros l Hl. rewrite Hf2, Hf; [done| |naive_solver]. intros k _. by apply Hnm.
    - intros k Hk. destruct (decide (k ∈ ks)) as [Hin|Hnin]; [right; by apply Hmv|left].
      rewrite Hn2 by done. apply Hf. intros j _. by apply Hom. }
  apply mbind_inv in Hr as [(e & He & ->)|([] & s2 & Hd & Hr)].
  { by apply Hmoved in He as [? _]. }
  destruct (Hmoved _ _ Hd) as [[Hm1 Hm2] Hmv]. destruct (Hdel _ _ Hd) as (_ & Hgone & Hn2). specialize (Hgone eq_refl).
  assert (Hs : Same s2.2 s') by (by apply (keeps_run (Same s2.2) _ _ _ _ (Hrest s2.2) (λ l, eq_refl) Hr)).
  split; [split|].
  - intros l Hl. rewrite Hs. by apply Hm1.
  - intros k Hk. rewrite !Hs. by apply Hm2.
  - intros _ k Hk. rewrite !Hs. destruct (Hall k Hk) as [Hin|Hnone].
    + split; [by apply Hgone|]. intros c <-. by apply Hmv.
    + destruct (decide (k ∈ ks)) as [Hin|Hnin]; [split; [by apply Hgone|by intros c; rewrite Hnone]|].
      rewrite Hn2, Hf by (done || (intros j _; by apply Hom, under_starts_with)). split; [done|by intros c; rewrite Hnone].
Qed.

Lemma rename_dir_spec parent newparent name old new (s : Vfs (W := W) * W) r s' :
  let b := v_bucket s.1 in
  mount_ok s.1 → old ≠ [] → has_glob_character old = false → disjoint old new →
  rename_dir parent newparent name old new s = (r, s') →
  moved_dir s.2 s'.2 b old new ∧
  (r = Ok tt → ∀ k, under old k →
     obj s'.2 (b, k) = None ∧ ∀ c, obj s.2 (b, k) = Some c → obj s'.2 (b, moved old new k) = Some c).
Proof.
  cbv zeta. intros Hb Hne Hg Hdis. unfold rename_dir.
  intros [(e & He & ->)|([|] & s1 & Hex & Hr)]%mbind_inv.
  { apply At_Same_prefix_exists in He as [_ Hs]. split; [by apply moved_dir_same|done]. }
  2:{ apply At_Same_prefix_exists in Hex as [_ Hs]. cbn [negb] in Hr. injection Hr as <- <-.
      split; [by apply moved_dir_same|done]. }
  apply At_Same_prefix_exists in Hex as [Hv1 Hs1]. cbn [negb] in Hr.
  apply listing_run in Hr as [[Hn Hs]|(ks & s2 & Hv2 & Hs2 & Hks & Hr)]; [| |rewrite Hv1; apply Hb|done].
  { split; [apply moved_dir_same; intros l; by rewrite Hs, Hs1|by intros ?%Hn]. }
  assert (Hall : ∀ l, obj s2.2 l = obj s.2 l) by (intros l; by rewrite Hs2, Hs1).
  assert (Hvb : v_bucket s2.1 = v_bucket s.1) by by rewrite Hv2, Hv1.
  apply move_keys_run in Hr as [[Hf Hl] Hok].
  - rewrite Hvb in *. split; [split|].
    + intros l Hlk. rewrite Hf, Hall; [done|exact Hlk].
    + intros k Hk. rewrite <-!Hall. by apply Hl.
    + intros Hr' k Hk. destruct (Hok Hr' k Hk) as [Hn Hc]. split; [done|]. intros c. rewrite <-Hall. apply Hc.
  - by rewrite Hv2, Hv1.
  - done.
  - done.
  - rewrite Hvb. destruct Hks as [Hold Hin]. split; [done|]. intros k Hk. rewrite Hv1 in Hin.
    destruct (Hin k Hk) as [?|Hnone]; [by left|right]. by rewrite Hall, <-Hs1.
  - intros w0. unfold invalidate_attr, invalidate_dir. repeat (apply keeps_bind; [|intros ?]);
      auto using Same_reads, Same_modify. apply Same_for_each. intros ?. apply Same_modify.
Qed.

Lemma node_run ino nd (s : Vfs (W := W) * W) : get (inodes s.1) ino = Some nd → node ino s = (Ok nd, s).
Proof. intros Hn. unfold node, mbind, reads, mret. cbn. by rewrite Hn. Qed.

(** C13. A rename in the mount loses nothing: whatever fails, every object that was not in the
    way at the destination is still under its key or under the key it is renamed to; and one
    that succeeds moved the file, or every file of the directory, with its content. (The
    names differ, neither directory lies in the other, and the old name is no wildcard.) *)
Theorem rename_no_loss parent name newparent newname nd nnd (s : Vfs (W := W) * W) r s' :
  let b := v_bucket s.1 in
  let old := key nd ++ name in
  let new := key nnd ++ newname in
  mount_ok s.1 → get (inodes s.1) parent = Some nd → get (inodes s.1) newparent = Some nnd →
  old ≠ [] → old ≠ new → has_glob_character old = false → disjoint (old ++ $"/") (new ++ $"/") →
  rename parent name newparent newname s = (r, s') →
  (∀ k c, obj s.2 (b, k) = Some c → k ≠ new → starts_with (new ++ $"/") k = false →
     obj s'.2 (b, k) = Some c ∨ (k = old ∧ obj s'.2 (b, new) = Some c) ∨
     (starts_with (old ++ $"/") k = true ∧ obj s'.2 (b, moved (old ++ $"/") (new ++ $"/") k) = Some c)) ∧
  (r = Ok tt → ∀ k c, obj s.2 (b, k) = Some c →
     (k = old → obj s'.2 (b, old) = None ∧ obj s'.2 (b, new) = Some c) ∧
     (obj s.2 (b, old) = None → under (old ++ $"/") k →
        obj s'.2 (b, k) = None ∧ obj s'.2 (b, moved (old ++ $"/") (new ++ $"/") k) = Some c)).
Proof.
  cbv zeta. set (old := key nd ++ name). set (new := key nnd ++ newname).
  intros Hb Hnd Hnnd Hold Hne Hg Hdis. pose proof (proj1 Hb) as Hbk. unfold rename.
  rewrite (mbind_step _ _ _ _ _ (node_run _ _ _ Hnd)), (mbind_step _ _ _ _ _ (node_run _ _ _ Hnnd)).
  cbv zeta. rewrite !app_assoc. fold old new.
  assert (Hsame : ∀ s1 : Vfs (W := W) * W, (∀ l, obj s1.2 l = obj s.2 l) → ∀ k c, obj s.2 (v_bucket s.1, k) = Some c →
    obj s1.2 (v_bucket s.1, k) = Some c) by (intros s1 Hs k c Hc; by rewrite Hs).
  intros [(e & He & ->)|(u & s1 & Hu & Hr)]%mbind_inv.
  { apply obj_url_run in He as [-> _]; [|done]. split; [by left|done]. }
  apply obj_url_run in Hu as [-> Hu]; [|done]. destruct (Hu u eq_refl) as (Hlu & Hvu & _). rewrite mbind_reads in Hr.
  apply mbind_inv in Hr as [(e & He & ->)|(st & s1 & Hst & Hr)].
  { unfold try in He. by destruct (lift _ _). }
  unfold try in Hst. destruct (lift _ s) as [st' s1'] eqn:Hl. injection Hst as -> ->.
  apply lift_inv in Hl as [Hv1 Hl]. apply stat_law in Hl as [Hs1 Hst]. specialize (Hst Hvu).
  assert (Hb1 : v_bucket s1.1 = v_bucket s.1) by by rewrite Hv1.
  destruct st as [o|e].
  - apply rename_file_spec in Hr as [[Hf Hl] Hok]; [|by rewrite Hv1|done..]. rewrite Hb1 in *. split.
    + intros k c Hc Hkn _. destruct (decide (k = old)) as [->|Hko].
      * destruct Hl as [Hl|Hl]; [left|right; left; split; [done|]]; by rewrite Hl, Hs1.
      * left. rewrite Hf, Hs1 by congruence. done.
    + intros Hr' k c Hc. destruct (Hok Hr') as [Hgone Hnew]. split.
      * intros ->. split; [done|]. by rewrite Hnew, Hs1.
      * intros Hnone. destruct Hst as (c' & Hc' & _). rewrite Hlu in Hc'. congruence.
  - destruct (is_not_found e) eqn:Hnf; [|injection Hr as <- <-; split; [intros k c Hc _ _; left; by apply Hsame|done]].
    specialize (Hst eq_refl). rewrite Hlu in Hst.
    apply rename_dir_spec in Hr as [[Hf Hl] Hok]; [|by rewrite Hv1|by destruct old| |done].
    2:{ unfold has_glob_character, contains_chr in *. rewrite existsb_app, Hg. done. }
    rewrite Hb1 in *. split.
    + intros k c Hc Hkn Hkp. destruct (starts_with (old ++ $"/") k) eqn:Hst'.
      * destruct (Hl k Hst') as [Hl'|Hl']; [left|right; right; split; [done|]]; by rewrite Hl', Hs1.
      * left. rewrite Hf, Hs1 by done. done.
    + intros Hr' k c Hc. split; [intros ->; congruence|]. intros _ Hst'.
      destruct (Hok Hr' k Hst') as [Hgone Hmv]. split; [done|]. apply Hmv. by rewrite Hs1.
Qed.

(** ** Read-only mounts *)

Definition no_writer (s : Vfs (W := W) * W) : Prop :=
  ∀ fh f, handles s.1 !! fh = Some f → ∃ r, of_kind f = HRead r.

Section ReadOnly.
Context (w0 : W).

(** The bucket is as in [w0] and no file is open for writing. *)
Definition RO s : Prop := Same w0 s ∧ no_writer s.

Lemma RO_intro {A} (m : V A) :
  keeps (Same w0) m → (∀ s r s', m s = (r, s') → handles s'.1 = handles s.1) → keeps RO m.
Proof.
  intros Hm Hh. apply keeps_intro. intros s r s' [Hs Hn] Hr. split; [by eapply keeps_run|].
  intros fh f. rewrite (Hh _ _ _ Hr). apply Hn.
Qed.

Lemma lift_handles {A} (m : W → result A Error * W) s r s' : lift m s = (r, s') → handles s'.1 = handles s.1.
Proof. by intros [-> _]%lift_inv. Qed.

Lemma RO_reads {A} (f : Vfs → A) : keeps RO (reads f).
Proof. apply RO_intro; [apply Same_reads|]. by intros s r s' [= _ <-]. Qed.

Lemma RO_modify f : (∀ v, handles (f v) = handles v) → keeps RO (modify f).
Proof. intros Hf. apply RO_intro; [apply Same_modify|]. intros s r s' [= _ <-]. apply Hf. Qed.

Lemma RO_stat s3 u : keeps RO (lift (s3_stat s3 u)).
Proof. apply RO_intro; [apply Same_stat|apply lift_handles]. Qed.

Lemma RO_list s3 u : keeps RO (lift (λ w, let '(l, w) := s3_list s3 u w in (Ok l, w))).
Proof. apply RO_intro; [apply Same_list|apply lift_handles]. Qed.

Lemma RO_range s3 u o n : keeps RO (lift (s3_read_range s3 u o n)).
Proof. apply RO_intro; [apply Same_range|apply lift_handles]. Qed.

Lemma RO_instant : keeps RO (reading instant).
Proof. apply RO_intro; [apply Same_instant|]. intros s r s'. unfold reading. destruct (instant s.2). by intros [= _ <-]. Qed.

Lemma RO_try {A} (m : V A) : keeps RO m → keeps RO (try m).
Proof.
  intros Hm. apply keeps_intro. intros s r s' HI. unfold try. destruct (m s) as [x s1] eqn:Hr. intros [= _ <-].
  by eapply keeps_run.
Qed.

Lemma RO_intern k kind parent : keeps RO (vfs_intern k kind parent).
Proof.
  apply RO_intro; [apply Same_intern|]. intros [v w] r s'. unfold vfs_intern. cbn. destruct (intern _ _ _ _).
  by intros [= _ <-].
Qed.

#[local] Hint Resolve RO_reads RO_stat RO_list RO_range RO_instant RO_try RO_intern : keeps.
#[local] Hint Extern 1 (keeps RO (modify _)) => apply RO_modify; done : keeps.

Lemma RO_obj_url k : keeps RO (obj_url k).
Proof. unfold obj_url. keep. Qed.
Lemma RO_list_url k : keeps RO (list_url k).
Proof. unfold list_url. keep. Qed.
#[local] Hint Resolve RO_obj_url RO_list_url : keeps.

Lemma RO_store_attr a : keeps RO (store_attr a).
Proof. unfold store_attr. keep. Qed.
#[local] Hint Resolve RO_store_attr : keeps.

Lemma RO_getattr ino : keeps RO (getattr ino).
Proof. unfold getattr, node, dir_attr, dirty_entry, cached_attr, fresh. keep. Qed.
#[local] Hint Resolve RO_getattr : keeps.

Lemma RO_prefix_exists k : keeps RO (prefix_exists k).
Proof. unfold prefix_exists. keep. Qed.
#[local] Hint Resolve RO_prefix_exists : keeps.

Lemma RO_lookup parent name : keeps RO (vfs_lookup parent name).
Proof. unfold vfs_lookup, probe, node, cached_dir, fresh, dir_attr. keep. Qed.

Lemma RO_scan n ino objs d : keeps RO (scan n ino objs d).
Proof.
  revert d. induction objs as [|obj objs IH]; intros d; cbn [scan]; [keep|]. unfold scan_object, dir_attr. keep.
Qed.
#[local] Hint Resolve RO_scan : keeps.

Lemma RO_store_attrs l : keeps RO (store_attrs l).
Proof. induction l; cbn [store_attrs]; keep. Qed.
#[local] Hint Resolve RO_store_attrs : keeps.

Lemma RO_readdir ino : keeps RO (vfs_readdir ino).
Proof. unfold vfs_readdir, node, cached_dir, fresh, dirty_children, store_dir. keep. Qed.
#[local] Hint Resolve RO_readdir : keeps.

Lemma RO_dir_entries ino : keeps RO (dir_entries ino).
Proof. unfold dir_entries, parent_of. keep. Qed.
#[local] Hint Resolve RO_dir_entries : keeps.

Lemma RO_plus_entries f l : keeps RO (plus_entries f l).
Proof. induction l as [|[i [[ino name] k]] l IH]; cbn [plus_entries]; keep. Qed.
#[local] Hint Resolve RO_plus_entries : keeps.

Lemma RO_insert_reader fh ino r : keeps RO (insert_handle fh {| of_ino := ino; of_kind := HRead r |}).
Proof.
  apply keeps_intro. intros s x s' [Hs Hn] [= _ <-]. split; [done|]. intros h f. cbn.
  rewrite lookup_insert_Some. intros [[<- <-]|[_ Hl]]; [by eexists|by eapply Hn].
Qed.
#[local] Hint Resolve RO_insert_reader : keeps.

Lemma RO_open ino flags : is_writing flags = false → keeps RO (vfs_open ino flags).
Proof. intros Hw. unfold vfs_open, node, alloc_fh, open_reader. rewrite Hw. keep. Qed.

Lemma RO_release fh : keeps RO (release fh).
Proof.
  apply keeps_intro. intros s r s' [Hs Hn]. unfold release, mbind, reads, modify. cbn.
  assert (HRO : RO (set_handles (delete fh (handles s.1)) s.1, s.2)).
  { split; [done|]. intros h f. cbn. rewrite lookup_delete_Some. intros [_ Hl]. by eapply Hn. }
  destruct (handles s.1 !! fh) as [[ino [rd|w]]|] eqn:Hl; [by intros [= _ <-]| |by intros [= _ <-]].
  by destruct (Hn _ _ Hl) as (r' & [=]).
Qed.

Lemma RO_flush fh : keeps RO (flush_handle fh).
Proof.
  apply keeps_intro. intros s r s' [Hs Hn]. unfold flush_handle, write_handle_of, try, mbind, reads, mfail, mret. cbn.
  destruct (handles s.1 !! fh) as [[ino [rd|w]]|] eqn:Hl; [by intros [= _ <-]| |by intros [= _ <-]].
  by destruct (Hn _ _ Hl) as (r' & [=]).
Qed.

Lemma run_tasks_same {A} (ts : list (M W A)) w :
  (∀ t w r w', t ∈ ts → t w = (r, w') → ∀ l, obj w' l = obj w l) → ∀ l, obj (run_tasks ts w).2 l = obj w l.
Proof.
  revert w. induction ts as [|t ts IH]; intros w Hts l; [done|]. cbn [run_tasks].
  destruct (t w) as [r w1] eqn:Hr. specialize (IH w1). destruct (run_tasks ts w1) as [rs w2]. cbn in *.
  rewrite IH; [|intros; eapply Hts; [by right|done]]. eapply Hts; [by left|exact Hr].
Qed.

Lemma reader_same (r : ChunkReader) off n w res r' w' l :
  Reader.read r off n w = (res, r', w') → obj w' l = obj w l.
Proof.
  unfold Reader.read. destruct (_ || _); [by intros [= _ _ <-]|]. cbv zeta.
  set (missing := List.filter _ _).
  assert (Hf : ∀ fetched w1, match missing with [] => (Ok [], w) | _ => fetch_chunks r missing w end = (fetched, w1) →
    obj w1 l = obj w l).
  { intros fetched w1. destruct missing as [|i js]; [by intros [= _ <-]|]. unfold fetch_chunks.
    pose proof (run_tasks_same (map (fetch_chunk r) (arrange (i :: js))) w) as Hs.
    destruct (run_tasks _ w) as [rs w2]. intros [= _ <-]. apply Hs.
    intros t w3 x w4 (j & <- & _)%list_elem_of_In%in_map_iff Ht l'. unfold fetch_chunk in Ht.
    destruct (chunk_bounds r j) as [a b]. apply mbind_inv in Ht as [(e & He & _)|(d & w5 & Hd & Hok)].
    - by eapply range_law.
    - injection Hok as _ <-. by eapply range_law. }
  destruct (match missing with [] => _ | _ => _ end) as [fetched w1]. specialize (Hf _ _ eq_refl).
  destruct fetched as [fetched|e]; [|by intros [= _ _ <-]].
  destruct (foldl store _ _) as [c o]. destruct (evict _ _ _ _) as [c' o'].
  destruct (assemble _ _ _ _ _); by intros [= _ _ <-].
Qed.

Lemma RO_read_handle ino fh off n : keeps RO (read_handle ino fh off n).
Proof.
  apply keeps_intro. intros s r s' [Hs Hn]. unfold read_handle. rewrite mbind_reads.
  destruct (handles s.1 !! fh) as [[hino [rd|w]]|] eqn:Hl.
  - unfold on_reader. destruct (Reader.read rd off n s.2) as [[res rd'] w'] eqn:Hr. intros [= _ <-]. split.
    + intros l. cbn. rewrite (reader_same _ _ _ _ _ _ _ l Hr). apply Hs.
    + intros h f. cbn. rewrite lookup_insert_Some. intros [[<- <-]|[_ Hl']]; [by eexists|by eapply Hn].
  - by destruct (Hn _ _ Hl) as (r' & [=]).
  - assert (Hk : keeps RO (vfs_read ino off n)) by (unfold vfs_read, node; keep). by apply (keeps_run _ _ _ _ _ Hk).
Qed.

(** An open that does not ask for truncation. *)
Definition no_trunc (q : request) : Prop :=
  match q with ROpen _ flags => Z.land flags O_TRUNC = 0 | _ => True end.

(** What a read-only file system refuses. *)
Definition mutates (q : request) : bool :=
  match q with
  | RCreate _ _ | RWrite _ _ _ | RUnlink _ _ | RMkdir _ _ | RRmdir _ _ | RRename _ _ _ _ => true
  | RSetattr _ _ size => bool_decide (is_Some size)
  | ROpen _ flags => negb (Z.land flags O_ACCMODE =? O_RDONLY)
  | _ => false
  end.

Lemma RO_handler {A} (g : A → reply) (m : V A) s r s' :
  keeps RO m → RO s → fmap_ok g (errno_of m) s = (r, s') → RO s'.
Proof.
  intros Hm HI. unfold fmap_ok, errno_of. destruct (m s) as [[a|e] s1] eqn:Hr; intros [= _ <-];
    by eapply keeps_run.
Qed.

Lemma RO_readdirplus f parent offset :
  keeps RO (let! all := dir_entries parent in plus_entries f (from_offset offset all)).
Proof. keep. Qed.

Lemma RO_setattr ino fh : keeps RO (vfs_setattr ino None fh).
Proof. unfold vfs_setattr. keep. Qed.

Lemma RO_dispatch f q s r s' :
  read_only f = true → no_trunc q → RO s → dispatch f q s = (r, s') →
  RO s' ∧ (mutates q = true → r = Err EROFS).
Proof.
  intros Hf Hq HI. destruct q; cbn [mutates]; open_handler; rewrite ?Hf; cbn [andb];
    try (by intros [= <- <-]);
    repeat match goal with |- context [if is_utf8 ?b then _ else _] => destruct (is_utf8 b); [|by intros [= <- <-]] end;
    try (intros Hr; split; [|done]; refine (RO_handler _ _ _ _ _ _ HI Hr);
      auto using RO_lookup, RO_getattr, RO_dir_entries, RO_read_handle, RO_release, RO_flush, RO_readdirplus; fail).
  - destruct (Z.eqb_spec (Z.land flags O_ACCMODE) O_RDONLY) as [Heq|Hne]; cbn [negb]; [|by intros [= <- <-]].
    intros Hr. split; [|done]. refine (RO_handler _ _ _ _ _ _ HI Hr). apply RO_open.
    unfold is_writing. cbn in Hq. rewrite Heq, Hq. done.
  - destruct size as [size|]; [by rewrite bool_decide_true by (by eexists); intros [= <- <-]|].
    rewrite bool_decide_false by (by intros [? [=]]). intros Hr. split; [|done].
    refine (RO_handler _ _ _ _ _ _ HI Hr). apply RO_setattr.
Qed.

Lemma RO_serve f qs s rs s' :
  read_only f = true → Forall no_trunc qs → RO s → serve f qs s = (rs, s') →
  RO s' ∧ Forall2 (λ q r, mutates q = true → r = Err EROFS) qs rs.
Proof.
  intros Hf Hqs. revert s rs. induction Hqs as [|q qs Hq Hqs IH]; intros s rs HRO; cbn [serve]; [by intros [= <- <-]|].
  destruct (dispatch f q s) as [r s1] eqn:Hd. destruct (serve f qs s1) as [rs1 s2] eqn:Hsv. intros [= <- <-].
  destruct (RO_dispatch f q s r s1 Hf Hq HRO Hd) as [HRO1 Hr]. destruct (IH s1 rs1 HRO1 Hsv). by split; [|constructor].
Qed.
End ReadOnly.

(** A read-only mount never changes the bucket, whatever sequence of requests it serves:
    every mutating request is refused with EROFS, nothing is ever open for writing, and
    every object keeps its content. (Opens must not ask for truncation, which the kernel
    strips on a read-only mount and the adapter does not check.) *)
Theorem read_only_mount f qs s rs s' :
  read_only f = true → Forall no_trunc qs → no_writer s → serve f qs s = (rs, s') →
  (∀ l, obj s'.2 l = obj s.2 l) ∧ no_writer s' ∧
  Forall2 (λ q r, mutates q = true → r = Err EROFS) qs rs.
Proof.
  intros Hf Hqs Hn Hs. destruct (RO_serve s.2 f qs s rs s' Hf Hqs (conj (λ l, eq_refl) Hn) Hs) as [[Hsame Hw] Hr]. done.
Qed.
End MountSpec.
