(* ===== verification/MountWorld.v ===== *)
(** * The mount in a concrete world

    The in-memory world of MemWorld.v satisfies what the mount relies on; in it the
    theorems of VfsSpec.v and MountSpec.v are applied to runs of the filesystem, and
    its corner cases are exhibited. *)

From S2P Require Import Prelude RustStr Strutil Url Storage Fs Hoare Tasks MemWorld Inode Reader Writer Vfs FuseFs.
From S2P Require Import VfsSpec MountSession S3Laws MountSpec.

Local Open Scope Z_scope.

#[export] Instance nodes_in_order : NodeOrder := {
  node_iter := map_to_list;
  node_iter_perm m := Permutation_refl _;
}.
#[export] Instance handles_in_order : HandleOrder (W := MemWorld) := {
  handle_iter := map_to_list;
  handle_iter_perm m := Permutation_refl _;
}.
#[export] Instance mem_clocks : Clocks MemWorld := {
  instant w := (0, w);
  system_time w := (0, w);
}.

(** ** The laws *)

Definition mem_content (w : MemWorld) (l : str * str) : option str := o_body <$> mem_s3 w !! l.

Lemma mem_get_law u w r w' :
  mem_get u w = (r, w') →
  w' = w ∧ match r with Ok o => mem_s3 w !! loc u = Some o | Err e => is_not_found e = true → mem_s3 w !! loc u = None end.
Proof.
  unfold mem_get, guard_bucket, loc. case_bool_decide; [by intros [= <- <-]|].
  destruct (mem_s3 w !! _) eqn:Hl; by intros [= <- <-].
Qed.

Lemma mem_set_law u o w r w' :
  mem_set u o w = (r, w') →
  (∀ l, l ≠ loc u → mem_content w' l = mem_content w l) ∧
  (r = Ok tt → mem_content w' (loc u) = Some (o_body o)).
Proof.
  unfold mem_set, guard_bucket, mem_content, loc. case_bool_decide; intros [= <- <-]; [done|]. cbn. split.
  - intros l Hl. by rewrite lookup_insert_ne.
  - intros _. by rewrite lookup_insert, decide_True.
Qed.

Lemma mem_del_law u w r w' :
  mem_del u w = (r, w') →
  (∀ l, l ≠ loc u → mem_content w' l = mem_content w l) ∧ (r = Ok tt → mem_content w' (loc u) = None).
Proof.
  unfold mem_del, guard_bucket, mem_content, loc. case_bool_decide; intros [= <- <-]; [done|]. cbn. split.
  - intros l Hl. by rewrite lookup_delete_ne.
  - intros _. by rewrite lookup_delete, decide_True.
Qed.

Lemma mem_list_elem u w os w' :
  mem_list u w = (os, w') →
  w' = w ∧ (os = [with_error accessdenied] ∨
    ∀ o, o ∈ os ↔ ∃ k c, mem_s3 w !! (bucket u, k) = Some c ∧ (matches u k).1 = true ∧
                         o = mem_obj (with_path (matches u k).2 k) c).
Proof.
  unfold mem_list, guard_bucket. case_bool_decide; cbn; intros [= <- <-]; (split; [done|]); [by left|right].
  intros o. rewrite list_elem_of_omap. split.
  - intros ([[b k] c] & Hin%elem_of_map_to_list & Ho). cbn in Ho. case_bool_decide; [|done]. subst b.
    exists k, c. destruct (matches u k) as [[|] v] eqn:Hm; [|done]. by injection Ho as <-.
  - intros (k & c & Hl & Hm & ->). exists ((bucket u, k), c). split; [by apply elem_of_map_to_list|].
    cbn. rewrite bool_decide_true by done. destruct (matches u k) as [ok v]. cbn in *. by subst ok.
Qed.

Lemma matches_bucket u k : bucket (with_path (matches u k).2 k) = bucket u ∧ path (with_path (matches u k).2 k) = k.
Proof. unfold matches. destruct (filter_regex u); [|done]. by destruct (is_match _ _). Qed.

Lemma mem_put_law p n w r w' : mem_put p n w = (r, w') → ∀ l, mem_content w' l = mem_content w l.
Proof. by intros [= _ <-]. Qed.

(** One turn of the batch deletion. *)
Lemma mem_multi_delete_law s us w os w' :
  s3_multi_delete s us w = (os, w') →
  (∀ l, l ∉ map loc us → mem_content w' l = mem_content w l) ∧
  ((∀ o, o ∈ os → obj_err o = None) → ∀ l, l ∈ map loc us → mem_content w' l = None).
Proof.
  cbn [s3_multi_delete mem_s3ops]. set (f := λ '(out, w) u, _).
  assert (Hgen : ∀ us out w os w', foldl f (out, w) us = (os, w') →
    (∃ more, os = out ++ more ∧ ((∀ o, o ∈ more → obj_err o = None) → ∀ l, l ∈ map loc us → mem_content w' l = None)) ∧
    ∀ l, l ∉ map loc us → mem_content w' l = mem_content w l).
  { clear. induction us as [|u us IH]; intros out w os w'; cbn [foldl map].
    - intros [= <- <-]. split; [|done]. exists []. rewrite app_nil_r. split; [done|]. by intros _ l ?%elem_of_nil.
    - unfold f at 2. destruct (mem_del u w) as [r w1] eqn:Hd. apply mem_del_law in Hd as [Hf Hok].
      intros [(more & -> & Hgone) Hsame]%IH. split.
      + eexists. rewrite <-app_assoc. split; [reflexivity|]. intros Hall l Hl.
        destruct (decide (l ∈ map loc us)) as [Hin|Hnin].
        * apply Hgone; [|done]. intros o Ho. apply Hall. by right.
        * apply elem_of_cons in Hl as [->|]; [|done]. rewrite Hsame by done. apply Hok.
          specialize (Hall _ (list_elem_of_here _ _)). by destruct r as [[]|].
      + intros l Hl. apply not_elem_of_cons in Hl as [Hne Hl]. by rewrite Hsame, Hf. }
  intros [(more & -> & Hgone) Hsame]%Hgen. done.
Qed.

#[export] Instance mem_view : S3View MemWorld := { obj := mem_content; live _ := True }.

#[export] Program Instance mem_s3_laws : S3Laws MemWorld.
Next Obligation. by intros u o w r w' [= _ <-]. Qed.
Next Obligation.
  cbn. intros _ u w r w' [(e & He & ->)|(o & w1 & Hg & [= <- <-])]%mbind_inv.
  - apply mem_get_law in He as [-> He]. split; [done|]. intros _ Hn. unfold mem_content. by rewrite (He Hn).
  - apply mem_get_law in Hg as [-> Hg]. split; [done|]. intros _. exists (o_body o). split; [|done].
    unfold mem_content. by rewrite Hg.
Qed.
Next Obligation.
  cbn. intros _ u w os w' [-> Hos]%mem_list_elem. split; [done|]. intros o v Ho Hv. destruct Hos as [->|Hos].
  - apply list_elem_of_singleton in Ho as ->. done.
  - apply Hos in Ho as (k & c & Hl & Hm & ->). injection Hv as <-.
    destruct (matches_bucket u k) as [Hb Hp]. unfold listed_url. by rewrite Hp.
Qed.
Next Obligation.
  cbn. intros _ u w os w' [-> Hos]%mem_list_elem o v Ho Hv. destruct Hos as [->|Hos].
  - apply list_elem_of_singleton in Ho as ->. done.
  - apply Hos in Ho as (k & c & Hl & Hm & ->). injection Hv as <-. cbn. unfold matches.
    destruct (filter_regex u); [|done]. by destruct (is_match _ _).
Qed.
Next Obligation.
  cbn. intros _ u w os w' [-> Hos]%mem_list_elem Hflat. split_and!.
  - intros o e Ho He Hno. destruct Hos as [->|Hos].
    + apply list_elem_of_singleton in Ho as ->. injection He as <-. done.
    + apply Hos in Ho as (k & c & Hl & Hm & ->). done.
  - intros Hall k c Hm Hc. destruct Hos as [->|Hos].
    + by specialize (Hall _ (list_elem_of_here _ _)).
    + unfold mem_content in Hc. destruct (mem_s3 w !! _) as [o|] eqn:Hl; [|done].
      exists (mem_obj (with_path (matches u k).2 k) o), (with_path (matches u k).2 k).
      split_and!; [apply Hos; by eauto|done|apply matches_bucket|done].
  - intros o v Ho Hv. destruct Hos as [->|Hos]; [by apply list_elem_of_singleton in Ho as ->|].
    apply Hos in Ho as (k & c & Hl & Hm & ->). injection Hv as <-. destruct Hflat as (_ & Hver & _).
    unfold is_versioned in Hver. apply orb_false_iff in Hver as [_ Hver%negb_false_iff%bool_decide_eq_true].
    split; [cbn; unfold matches; destruct (filter_regex u); [by destruct (is_match _ _)|done]|].
    destruct (matches_bucket u k) as [_ Hp]. cbn [path with_path]. unfold mem_content. rewrite Hl. by eexists.
Qed.
Next Obligation.
  cbn. intros _ src dst _ w r w' [(e & He & ->)|(o & w1 & Hg & Hs)]%mbind_inv.
  - by apply mem_get_law in He as [-> _].
  - apply mem_get_law in Hg as [-> Hg]. apply mem_set_law in Hs as [Hf Hok]. split; [done|].
    intros _ _ _ Hr. rewrite (Hok Hr). unfold mem_content. rewrite Hg. by split; [|eexists].
Qed.
Next Obligation. cbn. intros _ u w r w' [Hf Hok]%mem_del_law. split; [done|]. by intros _ _. Qed.
Next Obligation.
  intros s us b w os w' [Hf Hok]%mem_multi_delete_law _. split; [done|]. by intros _.
Qed.
Next Obligation.
  cbn. intros _ p dst _ w r w'. destruct (mem_file p w); [|by intros [= _ <-]].
  intros [Hf _]%mem_set_law. exact Hf.
Qed.
Next Obligation.
  cbn. intros _ u o n w r w' [(e & He & ->)|(b & w1 & Hg & [= _ <-])]%mbind_inv.
  - by apply mem_get_law in He as [-> _].
  - by apply mem_get_law in Hg as [-> _].
Qed.

#[export] Program Instance mem_bucket_laws : BucketLaws MemWorld.
Next Obligation. cbn. by intros w t w' [[= _ <-]|[= _ <-]]. Qed.
Next Obligation. cbn. intros p d. apply mem_put_law. Qed.
Next Obligation.
  cbn. intros p w r w'. unfold mem_remove. destruct (mem_fs w !! p); by intros [= _ <-].
Qed.


#[export] Program Instance mem_session_laws : SessionLaws MemWorld.
Next Obligation.
  intros p w w'. cbn. destruct (mem_file p w) as [n|]; intros [= <-]; unfold mem_file; cbn; by rewrite lookup_insert_eq.
Qed.
Next Obligation. intros p w w' f. cbn. by destruct (mem_file p w) as [n|] eqn:Hf; intros [= <-]; rewrite ?Hf. Qed.
Next Obligation.
  intros p w f. cbn. unfold mem_file. destruct (mem_fs w !! p) as [n|]; [|done].
  destruct (ft_is_file (ft (n_meta n))) eqn:Hft; [|done]. intros [= <-]. unfold meta_of. rewrite Hft.
  destruct (ft (n_meta n)); [|done|done|done]. by eexists.
Qed.
Next Obligation.
  cbn. intros _ u w r w' [(e & He & ->)|(o & w1 & Hg & [= <- <-])]%mbind_inv.
  - apply mem_get_law in He as [-> He]. split; [done|]. intros e' [= <-] Hn. unfold loc in He. by rewrite (He Hn).
  - by apply mem_get_law in Hg as [-> _].
Qed.
Next Obligation.
  cbn. intros _ u p w r w' _ [(e & He & ->)|(o & w1 & Hg & [= <- <-])]%mbind_inv.
  - apply mem_get_law in He as [-> He]. split; [done|]. intros Hn. unfold loc in He. by rewrite (He Hn).
  - apply mem_get_law in Hg as [-> Hg]. unfold loc in Hg. split; [done|]. exists (o_body o). rewrite Hg.
    split; [done|]. unfold mem_file. cbn. by rewrite lookup_insert_eq.
Qed.
Next Obligation. cbn. by intros w t w' [[= _ <-]|[= _ <-]]. Qed.
Next Obligation. cbn. intros p w r w'. unfold mem_remove. by destruct (mem_fs w !! p); intros [= _ <-]. Qed.

(** ** A mount *)

Definition mount_cfg : VfsConfig :=
  {| attr_ttl := 10; dir_ttl := 10; cfg_uid := 1000; cfg_gid := 1000; cfg_chunk_size := 4; cfg_buffer_size := 16;
     cfg_concurrency := 2 |}.

(** The bucket [b] with the given objects, mounted. *)
Definition mounted (objs : list (str * str)) : Vfs (W := MemWorld) * MemWorld :=
  (Vfs_new (W := MemWorld) tt ($"b") [] ($"/cache") mount_cfg 0,
   {| mem_fs := ∅; mem_s3 := list_to_map (map (λ kb, (($"b", kb.1), mkobj kb.2 7)) objs); mem_denied := [];
      mem_log := [] |}).

Definition mount0 := mounted [($"docs/a", $"alpha"); ($"docs/b/c", $"gamma"); ($"x", $"ex")].

Definition rw_mount : S3Fuse := S3Fuse_new mount_cfg 1 false.
Definition ro_mount : S3Fuse := S3Fuse_new mount_cfg 1 true.

(** The content of an object after some requests. *)
Definition after (f : S3Fuse) (qs : list request) (s : Vfs (W := MemWorld) * MemWorld) (k : str) : option str :=
  mem_content (serve f qs s).2.2 ($"b", k).

Definition O_WRONLY : Z := 1.


Lemma docs_b_c : under ($"docs/") ($"docs/b/c").
Proof. exists ($"b/c"). split; [done|]. do 3 (apply (utf8_app [_]); [done|]). constructor. Qed.

Lemma rename_no_loss_witness :
  after rw_mount [RRename 1 ($"docs") 1 ($"papers")] mount0 ($"papers/b/c") = Some ($"gamma") ∧
  after rw_mount [RRename 1 ($"docs") 1 ($"papers")] mount0 ($"docs/b/c") = None.
Proof.
  unfold after. cbn [serve].
  set (m := rename 1 ($"docs") 1 ($"papers") mount0).
  assert (Hd : (dispatch rw_mount (RRename 1 ($"docs") 1 ($"papers")) mount0).2 = m.2).
  { subst m. open_handler. unfold fmap_ok, errno_of. cbn [read_only rw_mount S3Fuse_new].
    change (is_utf8 ($"docs")) with true. change (is_utf8 ($"papers")) with true.
    destruct (rename _ _ _ _ mount0) as [[|] ?]; done. }
  destruct (dispatch _ _ _) as [r s1]. cbn [fst snd] in Hd |- *. rewrite Hd.
  assert (Hm1 : m.1 = Ok tt) by vm_refl.
  assert (Hb : mount_ok mount0.1) by (split; [split_and!; [discriminate|vm_refl|vm_refl]|done]).
  set (root := {| key := []; nkind := KDir; nparent := 1 |}).
  assert (Hroot : get (inodes mount0.1) 1 = Some root) by vm_refl.
  assert (Hdis : disjoint ((key root ++ $"docs") ++ $"/") ((key root ++ $"papers") ++ $"/")) by (split; vm_refl).
  assert (Hold : key root ++ $"docs" ≠ []) by discriminate.
  assert (Hne : key root ++ $"docs" ≠ key root ++ $"papers") by discriminate.
  assert (Hglob : has_glob_character (key root ++ $"docs") = false) by vm_refl.
  assert (Hrun : rename 1 ($"docs") 1 ($"papers") mount0 = (m.1, m.2)) by exact (surjective_pairing m).
  destruct (rename_no_loss _ _ _ _ _ _ _ _ _ Hb Hroot Hroot Hold Hne Hglob Hdis Hrun) as [_ Hok].
  destruct (Hok ltac:(vm_refl) ($"docs/b/c") ($"gamma") ltac:(vm_refl)) as [_ Hmv].
  destruct (Hmv ltac:(vm_refl) docs_b_c) as [Hgone Hnew]. split; [exact Hnew|exact Hgone].
Defined.

Lemma read_only_mount_witness :
  mem_content (serve ro_mount [RLookup 1 ($"x"); ROpen 2 O_RDONLY; RRead 2 1 0 10; RUnlink 1 ($"x");
                                    RCreate 1 ($"y"); RRelease 1] mount0).2.2 ($"b", $"x") = mem_content mount0.2 ($"b", $"x").
Proof.
  assert (Hn : no_writer mount0).
  { intros fh f Hl. change ((∅ : gmap Z OpenFile) !! fh = Some f) in Hl. by rewrite lookup_empty in Hl. }
  match goal with |- context [serve ro_mount ?qs mount0] =>
    assert (Hqs : Forall no_trunc qs) by repeat constructor;
    destruct (read_only_mount ro_mount qs mount0 _ _ eq_refl Hqs Hn (surjective_pairing _)) as (Hobj & _) end.
  exact (Hobj ($"b", $"x")).
Defined.

(** The object [x], opened, extended past its end, cut, read back and released. *)
Definition session_ops : list file_op :=
  [SWrite 4 ($"YZ"); SRead 0 100; STruncate 5; SFlush; SGetattr; SWrite 0 ($"E")].

Definition x_url : Url :=
  match parse_url ($"s3://b/x") with Ok u => u | Err _ => write_dst end.

Lemma serve_state_app f qs1 qs2 (s : Vfs (W := MemWorld) * MemWorld) : (serve f (qs1 ++ qs2) s).2 = (serve f qs2 (serve f qs1 s).2).2.
Proof.
  revert s. induction qs1 as [|q qs1 IH]; intros s; [done|]. cbn [app serve]. destruct (dispatch f q s) as [r s1].
  specialize (IH s1). destruct (serve f (qs1 ++ qs2) s1) as [rs s2]. destruct (serve f qs1 s1) as [rs1 s3]. cbn in *. exact IH.
Qed.

Lemma serve_state_one f q (s : Vfs (W := MemWorld) * MemWorld) : (serve f [q] s).2 = (dispatch f q s).2.
Proof. cbn [serve]. by destruct (dispatch f q s). Qed.


(** ** Corner cases *)

(** An open for reading that truncates is served on a read-only mount, and its release uploads
    an empty object. *)
Example read_only_truncates :
  after ro_mount [RLookup 1 ($"x"); ROpen 2 O_TRUNC; RRelease 1] mount0 ($"x") = Some [].
Proof. vm_refl. Qed.

(** A file unlinked while it is open for writing comes back when it is released. *)
Example unlinked_file_returns :
  after rw_mount [RLookup 1 ($"x"); ROpen 2 O_WRONLY; RWrite 1 0 ($"E"); RUnlink 1 ($"x")] mount0 ($"x") = None ∧
  after rw_mount [RLookup 1 ($"x"); ROpen 2 O_WRONLY; RWrite 1 0 ($"E"); RUnlink 1 ($"x"); RRelease 1] mount0 ($"x")
    = Some ($"Ex").
Proof. split; vm_refl. Qed.

(** The writer of a file below a renamed directory still uploads to the old key. *)
Example directory_rename_strands_writer :
  let qs := [RLookup 1 ($"docs"); RLookup 2 ($"a"); ROpen 3 O_WRONLY; RWrite 1 0 ($"A");
             RRename 1 ($"docs") 1 ($"papers"); RRelease 1] in
  after rw_mount qs mount0 ($"papers/a") = Some ($"alpha") ∧ after rw_mount qs mount0 ($"docs/a") = Some ($"Alpha").
Proof. split; vm_refl. Qed.

(** A file rename re-points it. *)
Example file_rename_repoints_writer :
  let qs := [RLookup 1 ($"x"); ROpen 2 O_WRONLY; RWrite 1 0 ($"E"); RRename 1 ($"x") 1 ($"y"); RRelease 1] in
  after rw_mount qs mount0 ($"y") = Some ($"Ex") ∧ after rw_mount qs mount0 ($"x") = None.
Proof. split; vm_refl. Qed.

(** The name of a directory is a wildcard to the listing: renaming [a*] moves the marker of [ab]. *)
Example wildcard_directory_rename :
  let s := mounted [($"a*/", []); ($"a*/f", $"1"); ($"ab/", []); ($"ab/f", $"2")] in
  let qs := [RRename 1 ($"a*") 1 ($"c")] in
  after rw_mount qs s ($"ab/") = None ∧ after rw_mount qs s ($"c/ab/") = Some [] ∧
  after rw_mount qs s ($"a*/f") = Some ($"1") ∧ after rw_mount qs s ($"c/f") = None.
Proof. split_and!; vm_refl. Qed.

(** A created file cannot be renamed before its first upload. *)
Example unflushed_file_cannot_be_renamed :
  (serve rw_mount [RCreate 1 ($"n"); RRename 1 ($"n") 1 ($"m")] mount0).1 !! 1%nat = Some (Err ENOENT).
Proof. vm_refl. Qed.
