(* ===== verification/Listing.v ===== *)
(** * Listings and batch deletion (src/src/storage/s3.rs)

    A listing's channel is the list of the objects it sends, in order. The listing
    loops keep one [src] whose relative path [matches] updates; they thread it. *)

From S2P Require Import Prelude RustStr Strutil Url RateLimit Storage Fs S3Client.

Local Open Scope Z_scope.


Section Listing.
Context `{RegexLib} {W : Type} `{!Os W, !Sdk W, !Tokio W}.

Definition list_request (s : S3Client) (src : Url) (after : str) : ListRequest :=
  {| l_bucket := bucket src; l_prefix := url_prefix src; l_delimiter := nonempty (Some (delimiter src));
     l_start_after := nonempty (Some after); l_payer := s_payer s |}.

Definition dir_object (u : Url) : Object :=
  {| url := Some u; etag := []; mod_time := None; typ := Dir; size := 0;
     storage_class := {| class_name := [] |}; is_delete_marker := false; obj_err := None |}.

Definition file_object (u : Url) (c : Content) : Object :=
  {| url := Some u; etag := trim_quotes (c_etag c); mod_time := from_secs (c_modified c); typ := File;
     size := default 0 (c_size c); storage_class := {| class_name := default [] (c_class c) |};
     is_delete_marker := false; obj_err := None |}.

Definition marker_object (u : Url) (c : Content) : Object :=
  {| url := Some u; etag := []; mod_time := from_secs (c_modified c); typ := File; size := 0;
     storage_class := {| class_name := [] |}; is_delete_marker := true; obj_err := None |}.

(** The loop over a page's common prefixes: the objects sent and [src] after. *)
Fixpoint send_prefixes (src : Url) (ps : list (option str)) : list Object * Url :=
  match ps with
  | [] => ([], src)
  | None :: ps => send_prefixes src ps
  | Some p :: ps =>
      let prefix := percent_decode p in
      let '(ok, src) := matches src prefix in
      if negb ok then send_prefixes src ps
      else let '(objs, src') := send_prefixes src ps in (dir_object (with_path src prefix) :: objs, src')
  end.

(** The loop over a page's contents. *)
Fixpoint send_contents (src : Url) (cs : list Content) : list Object * Url :=
  match cs with
  | [] => ([], src)
  | c :: cs =>
      match c_key c with
      | None => send_contents src cs
      | Some key =>
          let key := percent_decode key in
          let '(ok, src) := matches src key in
          if negb ok then send_contents src cs
          else let '(objs, src') := send_contents src cs in (file_object (with_path src key) c :: objs, src')
      end
  end.

Definition send_page (src : Url) (p : Page) : list Object * Url :=
  let '(ds, src) := send_prefixes src (p_prefixes p) in
  let '(fs, src) := send_contents src (p_contents p) in
  (ds ++ fs, src).

Definition is_nil {A} (l : list A) : bool := match l with [] => true | _ => false end.

(** The end of a listing. *)
Definition send_end (src : Url) (object_found : bool) : list Object :=
  if negb object_found && negb (is_bucket src) then [with_error NoObjectFound] else [].

(** ** ListObjectsV2: the paginator hands over the pages *)

Fixpoint v2_pages (src : Url) (object_found : bool) (pages : list (result Page SdkError)) : list Object :=
  match pages with
  | [] => send_end src object_found
  | Err e :: _ => [with_error (sdk_error e)]
  | Ok page :: pages =>
      let '(objs, src) := send_page src page in
      objs ++ v2_pages src (object_found || negb (is_nil objs)) pages
  end.

Definition list_v2 (s : S3Client) (src : Url) (w : W) : list Object * W :=
  let '(pages, w) := list_objects_v2_pages (s_client s) (list_request s src (start_after src)) w in
  (v2_pages src false pages, w).

(** ** ListObjects: the marker of the next page is the loop's *)

Definition last_key (cs : list Content) : option str :=
  foldl (λ acc c, match c_key c with Some k => Some (percent_decode k) | None => acc end) None cs.

Fixpoint v1_loop (fuel : nat) (s : S3Client) (src : Url) (object_found : bool) (marker : option str) (w : W)
  : option (list Object * W) :=
  match fuel with
  | O => None
  | S fuel =>
      match list_objects (s_client s) (list_request s src []) marker w with
      | (Err e, w) => Some ([with_error (sdk_error e)], w)
      | (Ok page, w) =>
          let '(objs, src) := send_page src page in
          let object_found := object_found || negb (is_nil objs) in
          let marker := or_else (option_map percent_decode (p_next_key page)) (last_key (p_contents page)) in
          if negb (default false (p_truncated page)) || negb (is_some_b marker)
          then Some (objs ++ send_end src object_found, w)
          else
            match v1_loop fuel s src object_found marker w with
            | Some (rest, w) => Some (objs ++ rest, w)
            | None => None
            end
      end
  end.

Definition list_objects_v1 (fuel : nat) (s : S3Client) (src : Url) (w : W) : option (list Object * W) :=
  v1_loop fuel s src false None w.

(** ** ListObjectVersions *)

(** [versions()] and [delete_markers()]: those the URL's version selects. *)
Fixpoint send_versions (mk : Url → Content → Object) (src : Url) (cs : list Content) : list Object * Url :=
  match cs with
  | [] => ([], src)
  | c :: cs =>
      match c_key c with
      | None => send_versions mk src cs
      | Some key =>
          let key := percent_decode key in
          let '(ok, src) := matches src key in
          if negb ok then send_versions mk src cs
          else
            let vid := default [] (c_version c) in
            if negb (bool_decide (version_id src = [])) && negb (bool_decide (version_id src = vid))
            then send_versions mk src cs
            else
              let '(objs, src') := send_versions mk src cs in
              (mk (with_version_id (with_path src key) vid) c :: objs, src')
      end
  end.

Definition send_version_page (src : Url) (p : Page) : list Object * Url :=
  let '(ds, src) := send_prefixes src (p_prefixes p) in
  let '(vs, src) := send_versions file_object src (p_contents p) in
  let '(ms, src) := send_versions marker_object src (p_markers p) in
  (ds ++ vs ++ ms, src).

Fixpoint versions_loop (fuel : nat) (s : S3Client) (src : Url) (object_found : bool)
    (key_marker version_marker : option str) (w : W) : option (list Object * W) :=
  match fuel with
  | O => None
  | S fuel =>
      match list_versions (s_client s) (list_request s src []) key_marker version_marker w with
      | (Err e, w) => Some ([with_error (sdk_error e)], w)
      | (Ok page, w) =>
          let '(objs, src) := send_version_page src page in
          let object_found := object_found || negb (is_nil objs) in
          let key_marker := option_map percent_decode (p_next_key page) in
          let version_marker := option_map percent_decode (p_next_version page) in
          if negb (default false (p_truncated page)) || negb (is_some_b key_marker || is_some_b version_marker)
          then Some (objs ++ send_end src object_found, w)
          else
            match versions_loop fuel s src object_found key_marker version_marker w with
            | Some (rest, w) => Some (objs ++ rest, w)
            | None => None
            end
      end
  end.

Definition list_object_versions (fuel : nat) (s : S3Client) (src : Url) (w : W) : option (list Object * W) :=
  versions_loop fuel s src false None None w.

(** [Storage::list] *)
Definition S3_list (fuel : nat) (s : S3Client) (src : Url) (w : W) : option (list Object * W) :=
  if is_versioned src then list_object_versions fuel s src w
  else if s_use_v1 s then list_objects_v1 fuel s src w
  else Some (list_v2 s src w).

(** ** Batch deletion *)

Definition deleted_object (u : option Url) (e : option Error) : Object :=
  {| url := u; etag := []; mod_time := None; typ := Unknown; size := 0;
     storage_class := {| class_name := [] |}; is_delete_marker := false; obj_err := e |}.

Definition deleted_url (b : str) (key : option str) : result Url str :=
  parse ($"s3://" ++ b ++ $"/" ++ default [] key).

(** The results a chunk sends. A dry run builds its sends and never awaits them. *)
Definition delete_chunk (s : S3Client) (urls : list Url) (w : W) : list Object * W :=
  match urls with
  | [] => ([], w)
  | u0 :: _ =>
      if s_dry_run s then ([], w)
      else
        match delete_objects (s_client s) (bucket u0) (map path urls) (s_payer s) w with
        | (Err e, w) => ([with_error (sdk_error e)], w)
        | (Ok out, w) =>
            (omap (λ k, match deleted_url (bucket u0) k with
                        | Ok u => Some (deleted_object (Some u) None)
                        | Err _ => None
                        end) (deleted out)
             ++ map (λ '(k, m), deleted_object (result_ok (deleted_url (bucket u0) k))
                                  (Some (anyhow (default ($"delete failed") m)))) (errors out), w)
        end
  end.

(** The loop of [multi_delete] over the URLs that arrive. *)
Fixpoint multi_delete_loop (s : S3Client) (batch : list Url) (urls : list Url) (w : W) : list Object * W :=
  match urls with
  | [] => match batch with [] => ([], w) | _ => delete_chunk s batch w end
  | u :: urls =>
      let batch := batch ++ [u] in
      if Z.of_nat (length batch) >=? DELETE_CHUNK_SIZE then
        let '(objs, w) := delete_chunk s batch w in
        let '(rest, w) := multi_delete_loop s [] urls w in
        (objs ++ rest, w)
      else multi_delete_loop s batch urls w
  end.

Definition multi_delete (s : S3Client) (urls : list Url) (w : W) : list Object * W :=
  multi_delete_loop s [] urls w.
End Listing.
