(* ===== verification/ListingSpec.v ===== *)
(** * What listings and batch deletions guarantee *)

From S2P Require Import Prelude RustStr Strutil Url RateLimit Storage Fs S3Client Listing.

Local Open Scope Z_scope.

Section PageSpec.
Context `{RegexLib}.

(** The object a listed key is sent as; nothing when the filter rejects it. *)
Definition send_key (src : Url) (mk : Url → Object) (raw : str) : option Object :=
  let key := percent_decode raw in
  let '(ok, u) := matches src key in if ok then Some (mk (with_path u key)) else None.

Definition prefix_objects (src : Url) (ps : list (option str)) : list Object :=
  omap (λ p, p ≫= send_key src dir_object) ps.

Definition content_objects (src : Url) (cs : list Content) : list Object :=
  omap (λ c, c_key c ≫= send_key src (λ u, file_object u c)) cs.

Definition page_objects (src : Url) (p : Page) : list Object :=
  prefix_objects src (p_prefixes p) ++ content_objects src (p_contents p).

(** Two receivers that differ only in the relative path they carry. *)
Definition same_filter (u v : Url) : Prop := ∃ r, v = with_relative_path u r.

Lemma same_filter_refl u : same_filter u u.
Proof. exists (relative_path u). by destruct u. Qed.

Lemma same_filter_trans u v x : same_filter u v → same_filter v x → same_filter u x.
Proof. intros [r ->] [r' ->]. by exists r'. Qed.

Lemma matches_same u key : same_filter u (matches u key).2.
Proof.
  unfold matches. destruct (filter_regex u) as [r|]; [|apply same_filter_refl].
  destruct (is_match r key); cbn; [by eexists|apply same_filter_refl].
Qed.

Lemma send_key_same u v mk raw : same_filter u v → send_key v mk raw = send_key u mk raw.
Proof.
  intros [r ->]. unfold send_key, matches. cbn. destruct (filter_regex u) as [re|]; [|done].
  by destruct (is_match re _).
Qed.

Lemma send_prefixes_spec src ps :
  fst (send_prefixes src ps) = prefix_objects src ps ∧ same_filter src (snd (send_prefixes src ps)).
Proof.
  revert src. induction ps as [|[p|] ps IH]; intros src; cbn [send_prefixes]; [split; [done|apply same_filter_refl]| |apply IH].
  pose proof (matches_same src (percent_decode p)) as Hm.
  destruct (matches src (percent_decode p)) as [ok u] eqn:Hmatch. cbn in Hm.
  destruct (IH u) as [Hobj Hsame]. unfold prefix_objects. cbn [omap list_omap]. unfold send_key at 1. cbn.
  rewrite Hmatch.
  assert (Heq : prefix_objects u ps = prefix_objects src ps).
  { apply list_omap_ext, Forall_Forall2_diag, Forall_forall. intros [q|] _; cbn; [by apply send_key_same|done]. }
  destruct ok; cbn [negb].
  - destruct (send_prefixes u ps) as [objs src']. cbn in *. split; [by rewrite Hobj, Heq|by eapply same_filter_trans].
  - split; [by rewrite Hobj, Heq|by eapply same_filter_trans].
Qed.

Lemma prefix_objects_same u v ps : same_filter u v → prefix_objects v ps = prefix_objects u ps.
Proof.
  intros Hs. apply list_omap_ext, Forall_Forall2_diag, Forall_forall. intros [q|] _; cbn; [|done].
  by apply send_key_same.
Qed.

Lemma content_objects_same u v cs : same_filter u v → content_objects v cs = content_objects u cs.
Proof.
  intros Hs. apply list_omap_ext, Forall_Forall2_diag, Forall_forall. intros c _. destruct (c_key c); cbn; [|done].
  by apply send_key_same.
Qed.

Lemma send_contents_spec src cs :
  fst (send_contents src cs) = content_objects src cs ∧ same_filter src (snd (send_contents src cs)).
Proof.
  revert src. induction cs as [|c cs IH]; intros src; cbn [send_contents]; [split; [done|apply same_filter_refl]|].
  unfold content_objects. cbn [omap list_omap]. destruct (c_key c) as [key|]; cbn [base.mbind option_bind]; [|apply IH].
  unfold send_key at 1. cbv beta zeta. pose proof (matches_same src (percent_decode key)) as Hm.
  destruct (matches src (percent_decode key)) as [ok u]. cbn in Hm.
  destruct (IH u) as [Hobj Hsame]. pose proof (content_objects_same _ _ cs Hm) as Heq. unfold content_objects in *.
  destruct ok; cbn [negb].
  - destruct (send_contents u cs) as [objs src']. cbn [fst snd] in *. split; [by rewrite Hobj, Heq|by eapply same_filter_trans].
  - split; [by rewrite Hobj, Heq|by eapply same_filter_trans].
Qed.

Lemma send_page_spec src p :
  fst (send_page src p) = page_objects src p ∧ same_filter src (snd (send_page src p)).
Proof.
  unfold send_page, page_objects. destruct (send_prefixes_spec src (p_prefixes p)) as [H1 S1].
  destruct (send_prefixes src (p_prefixes p)) as [ds u]. cbn in H1, S1.
  destruct (send_contents_spec u (p_contents p)) as [H2 S2].
  destruct (send_contents u (p_contents p)) as [fs v]. cbn in *.
  rewrite H1, H2. split; [by rewrite (content_objects_same _ _ _ S1)|by eapply same_filter_trans].
Qed.

Lemma page_objects_same u v p : same_filter u v → page_objects v p = page_objects u p.
Proof. intros Hs. unfold page_objects. by rewrite (prefix_objects_same u v), (content_objects_same u v). Qed.

Lemma is_bucket_same u v : same_filter u v → is_bucket v = is_bucket u.
Proof. by intros [r ->]. Qed.

(** The pages up to the first failure, and that failure. *)
Fixpoint good_pages (pages : list (result Page SdkError)) : list Page * option SdkError :=
  match pages with
  | [] => ([], None)
  | Ok p :: ps => let '(gs, e) := good_pages ps in (p :: gs, e)
  | Err e :: _ => ([], Some e)
  end.

(** What a listing of [objs] ends with. *)
Definition listing_end (src : Url) (objs : list Object) (e : option SdkError) : list Object :=
  match e with
  | Some e => [with_error (sdk_error e)]
  | None => if is_nil objs && negb (is_bucket src) then [with_error NoObjectFound] else []
  end.

Lemma v2_pages_spec src found pages :
  let '(good, e) := good_pages pages in
  let objs := concat (map (page_objects src) good) in
  v2_pages src found pages =
  objs ++ match e with
          | Some e => [with_error (sdk_error e)]
          | None => send_end src (found || negb (is_nil objs))
          end.
Proof.
  revert src found. induction pages as [|[p|e] pages IH]; intros src found; cbn [good_pages v2_pages];
    [by rewrite orb_false_r| |done].
  destruct (send_page_spec src p) as [Hobj Hsame]. destruct (send_page src p) as [objs u]. cbn in Hobj, Hsame.
  specialize (IH u (found || negb (is_nil objs))). destruct (good_pages pages) as [good e].
  cbn [map concat]. rewrite IH, <-Hobj, <-app_assoc. f_equal.
  assert (Hmap : map (page_objects u) good = map (page_objects src) good).
  { apply map_ext. intros q. by apply page_objects_same. }
  rewrite Hmap. f_equal. destruct e; [done|]. unfold send_end. rewrite (is_bucket_same _ _ Hsame). do 2 f_equal.
  by destruct found, objs.
Qed.
End PageSpec.

Section ListingSpec.
Context `{RegexLib} {W : Type} `{!Os W, !Sdk W, !Tokio W}.

(** A V2 listing sends, in the server's order, one object for each key and prefix of the
    pages that the URL's filter accepts, under its decoded key; a page that fails is
    reported after what came before it, so a listing cut short is never taken for a
    complete one; and the no-match error appears exactly when the whole listing of a
    non-bucket URL matched nothing. *)
Theorem list_v2_spec s src w :
  let '(pages, w') := list_objects_v2_pages (s_client s) (list_request s src (start_after src)) w in
  let '(good, e) := good_pages pages in
  let objs := concat (map (page_objects src) good) in
  list_v2 s src w = (objs ++ listing_end src objs e, w').
Proof.
  unfold list_v2. destruct (list_objects_v2_pages _ _ w) as [pages w'].
  pose proof (v2_pages_spec src false pages) as Hspec. destruct (good_pages pages) as [good e].
  cbv zeta in *. rewrite Hspec. do 2 f_equal. destruct e; [done|]. unfold send_end, listing_end.
  cbn [orb]. by rewrite negb_involutive.
Qed.

(** ** ListObjects: the markers *)

Definition entry_key (c : Content) : option str := option_map percent_decode (c_key c).

(** The entries after the one with the key [m]. *)
Fixpoint after_key (m : str) (cs : list Content) : list Content :=
  match cs with
  | [] => []
  | c :: cs => if bool_decide (entry_key c = Some m) then cs else after_key m cs
  end.

Definition after_marker (entries : list Content) (m : option str) : list Content :=
  match m with None => entries | Some m => after_key m entries end.

(** A server that holds [entries] (in the worlds of [holds]) and answers ListObjects without a delimiter: a
    page is the next entries after the marker, at least one when some are left;
    [NextMarker] is absent or the last key of the page. *)
Definition serves (holds : W → Prop) (s : S3Client) (src : Url) (entries : list Content) : Prop :=
  ∀ m w r w', holds w → list_objects (s_client s) (list_request s src []) m w = (r, w') →
    holds w' ∧ ∀ p, r = Ok p → ∃ n,
      p_prefixes p = [] ∧ p_contents p = take n (after_marker entries m) ∧
      (after_marker entries m ≠ [] → (0 < n)%nat) ∧
      p_truncated p = Some (bool_decide (n < length (after_marker entries m))%nat) ∧
      (p_next_key p = None ∨
       option_map percent_decode (p_next_key p) = last_key (p_contents p)).

Lemma last_key_app cs c k : entry_key c = Some k → last_key (cs ++ [c]) = Some k.
Proof.
  unfold last_key, entry_key. rewrite foldl_app. cbn. destruct (c_key c); [|done]. cbn. by intros [= ->].
Qed.

Lemma after_key_app k cs c rest :
  entry_key c = Some k → (∀ d, d ∈ cs → entry_key d ≠ Some k) → after_key k (cs ++ c :: rest) = rest.
Proof.
  intros Hc. induction cs as [|d cs IH]; intros Hcs; cbn [app after_key].
  - by rewrite bool_decide_true.
  - rewrite bool_decide_false by (apply Hcs; by left). apply IH. intros x Hx. apply Hcs. by right.
Qed.

(** One page leads to the rest of the entries. *)
Lemma next_marker_rest done_ page_ rest :
  NoDup (map entry_key (done_ ++ page_ ++ rest)) → Forall (λ c, is_Some (entry_key c)) (done_ ++ page_ ++ rest) →
  page_ ≠ [] → ∃ k, last_key page_ = Some k ∧ after_key k (done_ ++ page_ ++ rest) = rest.
Proof.
  intros Hnd Hkeys Hne. destruct (exists_last Hne) as (init & c & ->).
  rewrite !Forall_app in Hkeys. destruct Hkeys as (_ & (_ & Hc) & _). apply Forall_cons in Hc as [[k Hk] _].
  exists k. split; [by apply last_key_app|]. rewrite <-app_assoc, app_assoc. cbn [app].
  apply after_key_app; [done|]. intros d Hd Heq. rewrite <-app_assoc, app_assoc, map_app in Hnd.
  apply NoDup_app in Hnd as (_ & Hdisj & _). apply (Hdisj (entry_key d)).
  - by apply list_elem_of_fmap_2.
  - cbn [app map]. rewrite Heq, <-Hk. by left.
Qed.

Lemma v1_loop_spec holds s src0 entries fuel src found m done_ w :
  serves holds s src0 entries → holds w → same_filter src0 src →
  NoDup (map entry_key entries) → Forall (λ c, is_Some (entry_key c)) entries →
  entries = done_ ++ after_marker entries m → (length (after_marker entries m) < fuel)%nat →
  ∃ out w', v1_loop fuel s src found m w = Some (out, w') ∧
    ((out = content_objects src0 (after_marker entries m)
            ++ send_end src0 (found || negb (is_nil (content_objects src0 (after_marker entries m))))) ∨
     ∃ k e, out = content_objects src0 (take k (after_marker entries m)) ++ [with_error (sdk_error e)] ∧
            ∃ m' w1 w2, list_objects (s_client s) (list_request s src0 []) m' w1 = (Err e, w2)).
Proof.
  intros Hserve Hw Hsame Hnd Hkeys. revert src found m done_ w Hw Hsame.
  induction fuel as [|fuel IH]; intros src found m done_ w Hw Hsame Hsplit Hfuel; [lia|]. cbn [v1_loop].
  assert (Hreq : list_request s src [] = list_request s src0 []) by by destruct Hsame as [r ->].
  rewrite Hreq. destruct (list_objects _ _ m w) as [r w1] eqn:Hlist.
  destruct (Hserve _ _ _ _ Hw Hlist) as [Hw1 Hpage].
  destruct r as [p|e]; [|eexists _, _; split; [done|]; right; exists 0%nat, e; split; [done|]; by eexists _, _, _].
  destruct (Hpage p eq_refl) as (n & Hpre & Hcont & Hpos & Htr & Hnext).
  destruct (send_page_spec src p) as [Hobj Hsame']. destruct (send_page src p) as [objs u]. cbn in Hobj, Hsame'.
  set (rem := after_marker entries m) in *.
  assert (Hobjs : objs = content_objects src0 (take n rem)).
  { rewrite Hobj. rewrite (page_objects_same _ _ _ Hsame). unfold page_objects. by rewrite Hpre, Hcont. }
  assert (Hsame0 : same_filter src0 u) by by eapply same_filter_trans.
  assert (Hcat : ∀ k, (n <= k)%nat → content_objects src0 (take k rem)
                   = objs ++ content_objects src0 (take (k - n) (drop n rem))).
  { intros k Hk. rewrite Hobjs. unfold content_objects. rewrite <-omap_app. f_equal.
    rewrite <-(take_drop n (take k rem)), take_take, skipn_firstn_comm. f_equal. f_equal. lia. }
  rewrite Htr. cbn [default from_option id]. case_bool_decide as Hmore; cbn [negb orb].
  - assert (Hne : rem ≠ []) by (intros ->; cbn in Hmore; lia). specialize (Hpos Hne).
    destruct (next_marker_rest done_ (take n rem) (drop n rem)) as (k & Hk & Hafter);
      [by rewrite take_drop, <-Hsplit|by rewrite take_drop, <-Hsplit| |].
    { intros Hnil%(f_equal length). rewrite length_take in Hnil. cbn in Hnil. lia. }
    rewrite take_drop, <-Hsplit in Hafter.
    assert (Hmk : or_else (option_map percent_decode (p_next_key p)) (last_key (p_contents p)) = Some k).
    { rewrite Hcont, Hk in *. destruct Hnext as [->| ->]; done. }
    rewrite Hmk. cbn [is_some_b negb].
    destruct (IH u (found || negb (is_nil objs)) (Some k) (done_ ++ take n rem) w1) as (out & w' & Hrun & Hout).
    { done. } { done. } { cbn [after_marker]. by rewrite Hafter, <-app_assoc, take_drop. }
    { cbn [after_marker]. rewrite Hafter, length_drop. lia. }
    rewrite Hrun. cbn [after_marker] in Hout. rewrite Hafter in Hout. eexists _, _. split; [done|].
    destruct Hout as [->|(j & e & -> & Hreqs)].
    + left. assert (Hfull : content_objects src0 rem = objs ++ content_objects src0 (drop n rem)).
      { rewrite <-(firstn_all rem) at 1. rewrite Hcat by lia. by rewrite <-length_drop, firstn_all. }
      rewrite Hfull, <-app_assoc. do 3 f_equal. by destruct found, objs.
    + right. exists (n + j)%nat, e. split; [|done]. rewrite Hcat by lia. rewrite app_assoc. do 4 f_equal. lia.
  - eexists _, _. split; [done|]. left.
    assert (Hall : take n rem = rem) by (apply take_ge; lia). rewrite Hobjs, Hall. f_equal.
    unfold send_end. by rewrite (is_bucket_same _ _ Hsame0).
Qed.


(** ** Batch deletion *)

Fixpoint delete_chunks (s : S3Client) (chunks : list (list Url)) (w : W) : list (list Object) * W :=
  match chunks with
  | [] => ([], w)
  | c :: cs =>
      let '(objs, w) := delete_chunk s c w in
      let '(rest, w) := delete_chunks s cs w in (objs :: rest, w)
  end.

Lemma multi_delete_chunks s batch urls w :
  (Z.of_nat (length batch) < DELETE_CHUNK_SIZE) →
  ∃ chunks, concat chunks = batch ++ urls ∧
    Forall (λ c, c ≠ [] ∧ Z.of_nat (length c) <= DELETE_CHUNK_SIZE) chunks ∧
    multi_delete_loop s batch urls w =
      (concat (fst (delete_chunks s chunks w)), snd (delete_chunks s chunks w)).
Proof.
  revert batch w. induction urls as [|u urls IH]; intros batch w Hb; cbn [multi_delete_loop].
  - destruct batch as [|u batch]; [by exists []|]. exists [u :: batch]. rewrite app_nil_r. cbn [concat delete_chunks].
    rewrite app_nil_r. split; [done|]. split; [repeat constructor; [done|lia]|].
    destruct (delete_chunk s (u :: batch) w). cbn. by rewrite app_nil_r.
  - destruct (Z.geb_spec (Z.of_nat (length (batch ++ [u]))) DELETE_CHUNK_SIZE) as [Hfull|Hroom].
    + destruct (delete_chunk s (batch ++ [u]) w) as [objs w1] eqn:Hd.
      destruct (IH [] w1 ltac:(done)) as (chunks & Hcat & Hall & Heq). rewrite Heq.
      exists ((batch ++ [u]) :: chunks). cbn [concat delete_chunks]. rewrite Hcat, Hd, <-app_assoc.
      split; [done|]. split.
      * constructor; [|done]. split; [by destruct batch|]. rewrite length_app in *. cbn in *. lia.
      * by destruct (delete_chunks s chunks w1).
    + destruct (IH (batch ++ [u]) w) as (chunks & Hcat & Hall & Heq); [lia|].
      exists chunks. split; [by rewrite Hcat, <-app_assoc|done].
Qed.

(** What S3 promises of a batch: it answers for every key of the request, once. *)
Definition answers_every_key (s : S3Client) : Prop :=
  ∀ b keys payer w out w', delete_objects (s_client s) b keys payer w = (Ok out, w') →
    deleted out ++ map fst (errors out) ≡ₚ map Some keys.

(** The URL of a result and whether the deletion succeeded. *)
Definition reported (o : Object) : option Url := url o.

Lemma delete_chunk_reports s b chunk w objs w' :
  s_dry_run s = false → answers_every_key s → chunk ≠ [] → Forall (λ u, bucket u = b) chunk →
  (∀ u, u ∈ chunk → is_ok (deleted_url b (Some (path u))) = true) →
  delete_chunk s chunk w = (objs, w') →
  (∃ e, objs = [with_error e]) ∨
  map reported objs ≡ₚ map (λ u, result_ok (deleted_url b (Some (path u)))) chunk.
Proof.
  intros Hdry Hans Hne Hb Hparse. unfold delete_chunk. destruct chunk as [|u0 chunk]; [done|]. rewrite Hdry.
  assert (Hb0 : bucket u0 = b) by by apply Forall_cons in Hb as [? _]. rewrite Hb0.
  destruct (delete_objects _ b _ _ w) as [r w1] eqn:Hreq. destruct r as [out|e]; intros [= <- <-]; [right|by left; eexists].
  pose proof (Hans _ _ _ _ _ _ Hreq) as Hperm.
  set (p := λ k : option str, result_ok (deleted_url b k)).
  assert (Hin : ∀ k, k ∈ deleted out → is_ok (deleted_url b k) = true).
  { intros k Hk. assert (Hk' : k ∈ map Some (map path (u0 :: chunk))).
    { rewrite <-Hperm. apply elem_of_app. by left. }
    apply list_elem_of_fmap in Hk' as (x & -> & Hx). apply list_elem_of_fmap in Hx as (u & -> & Hu). by apply Hparse. }
  assert (Hdel : ∀ l, (∀ k, k ∈ l → is_ok (deleted_url b k) = true) →
            map reported (omap (λ k, match deleted_url b k with
                                     | Ok u => Some (deleted_object (Some u) None)
                                     | Err _ => None end) l) = map p l).
  { induction l as [|k l IHl]; intros Hl; [done|]. cbn [omap list_omap map]. unfold p at 1.
    pose proof (Hl k ltac:(by left)) as Hk. destruct (deleted_url b k) as [u|]; [|done]. cbn [map].
    rewrite IHl; [done|]. intros x Hx. apply Hl. by right. }
  rewrite map_app, (Hdel _ Hin), map_map.
  transitivity (map p (deleted out) ++ map p (map fst (errors out))).
  - apply Permutation_app_head. rewrite map_map. erewrite map_ext; [done|]. by intros [k m].
  - rewrite <-map_app, Hperm, !map_map. done.
Qed.

(** C17. Batch deletion loses nothing: the URLs go to S3 in their order, in batches of one to
    1,000 keys; and for each batch either its failure is reported, or every URL of it is
    reported once, deleted or with its error. *)
Theorem multi_delete_reports_all s b urls w :
  s_dry_run s = false → answers_every_key s → Forall (λ u, bucket u = b) urls →
  (∀ u, u ∈ urls → is_ok (deleted_url b (Some (path u))) = true) →
  ∃ chunks results, concat chunks = urls ∧ fst (multi_delete s urls w) = concat results ∧
    Forall (λ c, c ≠ [] ∧ Z.of_nat (length c) <= DELETE_CHUNK_SIZE) chunks ∧
    Forall2 (λ c objs, (∃ e, objs = [with_error e]) ∨
               map reported objs ≡ₚ map (λ u, result_ok (deleted_url b (Some (path u)))) c) chunks results.
Proof.
  intros Hdry Hans Hb Hparse. unfold multi_delete.
  destruct (multi_delete_chunks s [] urls w ltac:(done)) as (chunks & Hcat & Hall & ->).
  exists chunks, (fst (delete_chunks s chunks w)). split; [done|]. split; [done|]. split; [done|].
  cbn [app] in Hcat. subst urls. clear Hcat || idtac. revert w Hb Hparse.
  induction Hall as [|c chunks [Hne _] Hall IH]; intros w Hb Hparse; cbn [delete_chunks]; [constructor|].
  cbn [concat] in Hb, Hparse. apply Forall_app in Hb as [Hbc Hb].
  destruct (delete_chunk s c w) as [objs w1] eqn:Hc.
  specialize (IH w1 Hb ltac:(intros u Hu; apply Hparse, elem_of_app; by right)).
  destruct (delete_chunks s chunks w1) as [rest w2]. cbn [fst] in *. constructor; [|done].
  eapply delete_chunk_reports; [done|done|done|done| |done]. intros u Hu. apply Hparse, elem_of_app. by left.
Qed.

(** A dry run reports nothing: the sends are built and dropped. *)
Lemma dry_delete_silent s urls w : s_dry_run s = true → multi_delete s urls w = ([], w).
Proof.
  intros Hdry. unfold multi_delete. destruct (multi_delete_chunks s [] urls w ltac:(done)) as (chunks & _ & _ & ->).
  induction chunks as [|c chunks IH]; [done|]. cbn [delete_chunks].
  assert (Hc : delete_chunk s c w = ([], w)) by (unfold delete_chunk; rewrite Hdry; by destruct c).
  rewrite Hc. destruct (delete_chunks s chunks w) as [rest w2]. cbn in *. congruence.
Qed.
End ListingSpec.
