(* ===== verification/Rm.v ===== *)
(** * [rm] (src/src/command/rm.rs) *)

From S2P Require Import Prelude RustStr Strutil Url Storage Fs Output.

Local Open Scope Z_scope.

Record RmArgs := {
  rm_targets : list str;
  rm_version_id : option str;
  rm_raw : bool;
  rm_exclude : list str;
  rm_include : list str;
  rm_exclude_from : list str;
  rm_include_from : list str;
}.

Section Rm.
Context `{RegexLib} {W : Type} `{!Os W, !S3Ops W}.

Definition rm_filters (a : RmArgs) (w : W) : result Filters Error :=
  let read f := read_to_string f w in
  let? includes := result_map_err anyhow (patterns_with_files read (rm_include a) (rm_include_from a)) in
  let? excludes := result_map_err anyhow (patterns_with_files read (rm_exclude a) (rm_exclude_from a)) in
  result_map_err anyhow (Filters_new includes excludes).

Definition rm_url (a : RmArgs) (target : str) : result Url Error :=
  result_map_err anyhow (Url_new target
    {| opt_raw := rm_raw a; opt_version_id := rm_version_id a; opt_all_versions := false;
       opt_start_after := None |}).

Definition expands (u : Url) : bool := negb (is_raw u) && (is_wildcard u || is_remote u && is_prefix u).

(** One deletion, reported; whether it failed. *)
Definition rm_one (client : Client) (u : Url) : M (Console W) bool :=
  let! r := attempt (io (storage_delete client u)) in
  match r with
  | Ok _ => let! _ := success ($"rm") (show_url u) in mret false
  | Err e => let! _ := failure ($"rm") (show_url u) (show_error_alt e) in mret true
  end.

(** The URLs the feeder hands to the batch deletion. *)
Definition fed (filters : Filters) (objs : list Object) : list Url :=
  omap (λ o, match url o with
             | Some u => if should_skip filters (filter_key u) then None else Some u
             | None => None
             end) objs.

(** The results of the batch deletion, reported; whether one failed. *)
Fixpoint rm_results (objs : list Object) : M (Console W) bool :=
  match objs with
  | [] => mret false
  | o :: objs =>
      let k := match url o with Some u => show_url u | None => [] end in
      let! failed :=
        match obj_err o with
        | None => let! _ := success ($"rm") k in mret false
        | Some e => let! _ := failure ($"rm") k (show_error_alt e) in mret true
        end in
      let! rest := rm_results objs in
      mret (failed || rest)
  end.

(** The loop over a local listing. *)
Fixpoint rm_local (client : Client) (filters : Filters) (objs : list Object) : M (Console W) bool :=
  match objs with
  | [] => mret false
  | o :: objs =>
      let! failed :=
        match obj_err o with
        | Some e => let! _ := failure ($"rm") [] (show_error_alt e) in mret true
        | None =>
            match url o with
            | Some u => if should_skip filters (filter_key u) then mret false else rm_one client u
            | None => mret false
            end
        end in
      let! rest := rm_local client filters objs in
      mret (failed || rest)
  end.

Definition rm_target (opts : Options) (a : RmArgs) (filters : Filters) (target : str) : M (Console W) bool :=
  let! u := mlift (rm_url a target) in
  let! client := io (new_client u opts) in
  if negb (expands u) then rm_one client u
  else
    let! objs := io' (storage_list client u true) in
    if is_remote u then
      let! s3 := io (S3_new u opts) in
      let! results := io' (s3_multi_delete s3 (fed filters objs)) in
      rm_results results
    else rm_local client filters objs.

Fixpoint rm_all (opts : Options) (a : RmArgs) (filters : Filters) (targets : list str) : M (Console W) bool :=
  match targets with
  | [] => mret false
  | t :: targets =>
      let! failed := rm_target opts a filters t in
      let! rest := rm_all opts a filters targets in
      mret (failed || rest)
  end.

Definition rm_run (opts : Options) (a : RmArgs) : M (Console W) unit :=
  let! filters := (λ c, (rm_filters a (world c), c)) in
  let! had_error := rm_all opts a filters (rm_targets a) in
  if had_error then mfail (anyhow ($"one or more rm operations failed")) else mret tt.
End Rm.
