(* ===== verification/RmSpec.v ===== *)
(** * What [rm] guarantees

    Over a wildcard, [rm] removes exactly the objects the wildcard and the filters choose,
    as long as the listing itself does not fail: the feeder drops the listing's errors. *)

From S2P Require Import Prelude RustStr Strutil Url Storage Fs Hoare Output Rm S3Laws Listed.

Local Open Scope Z_scope.

Section RmSpec.
Context `{RegexLaws} {W : Type} `{!Os W, !S3Ops W, !S3View W, !S3Laws W}.

Lemma relative_filter_key u v : relative u = relative v → filter_key u = filter_key v.
Proof. unfold filter_key. by intros ->. Qed.

(** The URLs handed over are chosen ones, and all of them when the listing did not fail. *)
Lemma fed_spec s u (w : W) os w' filters :
  s3_list s u w = (os, w') →
  Forall (λ v, bucket v = bucket u) (fed filters os) ∧
  (∀ l, l ∈ map loc (fed filters os) → l.1 = bucket u ∧ chosen u filters l.2) ∧
  (flat_listing u → (∀ o, o ∈ os → obj_err o = None) →
   ∀ k, chosen u filters k → (bucket u, k) ∈ map loc (fed filters os) ∨ obj w (bucket u, k) = None).
Proof.
  intros Hl. pose proof (list_law _ _ _ _ _ Hl) as [_ Hin]. split_and!.
  - apply Forall_forall. intros v (o & Ho & Hv)%list_elem_of_omap. destruct (url o) as [v'|] eqn:Hu; [|done].
    destruct (should_skip _ _); [done|]. injection Hv as <-. by apply (Hin o v' Ho Hu).
  - intros l (v & -> & (o & Ho & Hv)%list_elem_of_omap)%list_elem_of_fmap.
    destruct (url o) as [v'|] eqn:Hu; [|done]. destruct (should_skip _ _) eqn:Hs; [done|]. injection Hv as <-.
    destruct (Hin o v' Ho Hu) as (Hb & Hm & Hr). split; [done|]. split; [done|]. cbn.
    by rewrite <-(relative_filter_key _ _ Hr).
  - intros Hflat Hclean k [Hm Hs]. destruct (obj w (bucket u, k)) as [c|] eqn:Hc; [left|by right].
    destruct (list_complete _ _ _ _ _ Hl Hflat) as (_ & Hall & _). destruct (Hall Hclean k c Hm Hc) as (o & v & Ho & Hv & Hp & _).
    destruct (Hin o v Ho Hv) as (Hb & _ & Hr). rewrite Hp in Hr.
    apply list_elem_of_fmap. exists v. split; [unfold loc; by rewrite Hb, Hp|].
    apply list_elem_of_omap. exists o. split; [done|]. rewrite Hv. by rewrite (relative_filter_key _ _ Hr), Hs.
Qed.

(** Printing leaves the world alone, and tells whether an object failed. *)
Lemma rm_results_run objs (c : Console W) : ∃ c',
  rm_results objs c = (Ok (existsb (λ o, match obj_err o with Some _ => true | None => false end) objs), c') ∧
  world c' = world c.
Proof.
  revert c. induction objs as [|o objs IH]; intros c; cbn [rm_results existsb]; [by exists c|].
  destruct (obj_err o) as [e|].
  - destruct (IH (emit (λ m, op_error m ($"rm") (match url o with Some u => show_url u | None => [] end) None
                               (show_error_alt e)) c).2) as (c' & Hr & Hw).
    exists c'. unfold mbind, failure, emit, mret in *. cbn in *. rewrite Hr. done.
  - destruct (IH (emit (λ m, op_success m ($"rm") (match url o with Some u => show_url u | None => [] end) None) c).2)
      as (c' & Hr & Hw).
    exists c'. unfold mbind, success, emit, mret in *. cbn in *. rewrite Hr. done.
Qed.

Lemma rm_wildcard_flat a t u :
  rm_url a t = Ok u → is_wildcard u = true → is_versioned u = false → flat_listing u ∧ expands u = true.
Proof.
  unfold rm_url. destruct (Url_new _ _) as [v|e] eqn:Hnew; [|done]. intros [= ->] Hw Hver. split.
  - apply wildcard_flat; [by eapply Url_new_wf|done..|exact (Url_new_start _ _ _ Hnew)].
  - unfold expands, is_raw. rewrite Hw. unfold is_wildcard in Hw. apply andb_true_iff in Hw as [Hraw _]. by rewrite Hraw.
Qed.

Lemma io_inv {A} (m : M W A) (c : Console W) r c' :
  io m c = (r, c') → m (world c) = (r, world c').
Proof. unfold io. destruct (m (world c)) as [x w]. by intros [= <- <-]. Qed.

Lemma io'_inv {A} (m : W → A * W) (c : Console W) r c' :
  io' m c = (r, c') → ∃ a, r = Ok a ∧ m (world c) = (a, world c').
Proof. unfold io'. destruct (m (world c)) as [x w]. intros [= <- <-]. by exists x. Qed.

Lemma rm_target_exact opts a filters t u (c : Console W) r c' :
  rm_url a t = Ok u → is_remote u = true → is_wildcard u = true → is_versioned u = false →
  rm_target opts a filters t c = (r, c') →
  (∀ l, ¬ (l.1 = bucket u ∧ chosen u filters l.2) → obj (world c') l = obj (world c) l) ∧
  (dry_run opts = false → r = Ok false → (∀ s, S3_new u opts (world c) = (Ok s, world c) → Forall (λ o, obj_err o = None) (s3_list s u (world c)).1) →
   ∀ k, chosen u filters k → obj (world c') (bucket u, k) = None).
Proof.
  intros Hu Hrem Hw Hver. destruct (rm_wildcard_flat _ _ _ Hu Hw Hver) as [Hflat Hex]. unfold rm_target.
  rewrite (mbind_step (mlift _) _ c u c) by (unfold mlift; by rewrite Hu).
  intros [(e & He%io_inv & ->)|(client & c1 & Hnew%io_inv & Hr)]%mbind_inv; unfold new_client in *; rewrite Hrem in *.
  { apply mbind_inv in He as [(e' & He & _)|(s & w1 & _ & [=])]. apply new_law in He as [He _]. by rewrite He. }
  apply mbind_inv in Hnew as [(e' & _ & [=])|(s & w1 & Hn0 & Hret)]. pose proof (new_law _ _ _ _ _ Hn0) as [-> _].
  injection Hret as <- Hw1. rewrite Hex in Hr. cbn [negb storage_list] in Hr.
  apply mbind_inv in Hr as [(e & He & _)|(objs & c2 & (os & [= <-] & Hl)%io'_inv & Hr)].
  { apply io'_inv in He as (? & [=] & _). }
  rewrite <-Hw1 in Hl. change (s3_list s u (world c) = (objs, world c2)) in Hl. pose proof (list_law _ _ _ _ _ Hl) as [Hs2 _].
  destruct (fed_spec s u (world c) objs (world c2) filters Hl) as (Hbk & Hin & Hall).
  apply mbind_inv in Hr as [(e & [He _]%io_inv%new_law & ->)|(s3 & c3 & [Hn Hlive]%io_inv%new_law & Hr)].
  { rewrite He. split; [intros; by rewrite Hs2|done]. }
  apply mbind_inv in Hr as [(e & He & _)|(res & c4 & (rs & [= <-] & Hdel)%io'_inv & Hr)].
  { apply io'_inv in He as (? & [=] & _). }
  destruct (multi_delete_law _ _ _ _ _ _ Hdel Hbk) as [Hs4 Hgone]. rewrite Hn in Hs4, Hdel.
  destruct (rm_results_run res c4) as (c5 & Hrep & Hw5). rewrite Hrep in Hr. injection Hr as <- <-. rewrite Hw5.
  split.
  - intros l Hl'. rewrite Hs4, Hs2; [done|]. intros Hin'. by apply Hl', Hin.
  - intros Hdry Hok Hclean k Hk. injection Hok as Hok. specialize (Hlive Hdry s3 eq_refl).
    assert (Hnoerr : ∀ o, o ∈ res → obj_err o = None).
    { intros o Ho. destruct (obj_err o) as [e|] eqn:He; [|done]. exfalso.
      assert (Ht : existsb (λ o, match obj_err o with Some _ => true | None => false end) res = true).
      { apply existsb_exists. exists o. split; [by apply list_elem_of_In|by rewrite He]. }
      congruence. }
    assert (Hcl : ∀ o, o ∈ objs → obj_err o = None).
    { specialize (Hclean s Hn0). rewrite Hl in Hclean. by rewrite Forall_forall in Hclean. }
    destruct (Hall Hflat Hcl k Hk) as [Hfed|Hnone].
    + by apply Hgone.
    + destruct (decide ((bucket u, k) ∈ map loc (fed filters objs))) as [Hf|Hf]; [by apply Hgone|].
      by rewrite Hs4, Hs2.
Qed.

(** C19. [rm] of a wildcard removes only objects of its bucket that the wildcard and the
    include and exclude filters choose; and when a run that is not dry succeeds and the
    listing met no error, every one of them is gone. *)
Theorem rm_exact opts a t u filters (c : Console W) r c' :
  rm_targets a = [t] → rm_url a t = Ok u → is_remote u = true → is_wildcard u = true → is_versioned u = false →
  rm_filters a (world c) = Ok filters → rm_run opts a c = (r, c') →
  (∀ l, ¬ (l.1 = bucket u ∧ chosen u filters l.2) → obj (world c') l = obj (world c) l) ∧
  (dry_run opts = false → r = Ok tt → (∀ s, S3_new u opts (world c) = (Ok s, world c) → Forall (λ o, obj_err o = None) (s3_list s u (world c)).1) →
   ∀ k, chosen u filters k → obj (world c') (bucket u, k) = None).
Proof.
  intros Ht Hu Hrem Hw Hver Hf. unfold rm_run. rewrite (mbind_step _ _ c filters c) by by rewrite Hf.
  rewrite Ht. cbn [rm_all]. rewrite mbind_assoc.
  intros [(e & He & ->)|(failed & c1 & Hr & Hrest)]%mbind_inv.
  - destruct (rm_target_exact _ _ _ _ _ _ _ _ Hu Hrem Hw Hver He) as [Hs _]. done.
  - destruct (rm_target_exact _ _ _ _ _ _ _ _ Hu Hrem Hw Hver Hr) as [Hs Hgone].
    rewrite mbind_assoc in Hrest. unfold mbind, mret in Hrest. cbn in Hrest. rewrite orb_false_r in Hrest.
    destruct failed; injection Hrest as <- <-; (split; [done|]); [done|]. intros Hdry _. by apply Hgone.
Qed.
End RmSpec.
