(* ===== verification/Units.v ===== *)
(** * Sizes and timestamps for display

    What the commands use of the humansize and time crates, and of the C library for the
    local time zone; an instant is in nanoseconds since the epoch. *)

From S2P Require Import Prelude RustStr.

Local Open Scope Z_scope.

(** [humansize::format_size(_, BINARY)] *)
Class HumanSize := { format_size : Z → str }.

(** [OffsetDateTime::parse] of RFC 3339 text (or the parse error's text), and the two formats:
    in UTC, and at an offset (in seconds) with the offset appended. *)
Class TimeLib := {
  rfc3339 : str → result Z str;
  format_utc : Z → option str;
  format_offset : Z → Z → option str;
  (** [UtcOffset::from_whole_seconds] accepts it *)
  offset_ok : Z → bool;
  (** [tm_gmtoff] of [localtime_r] at a time in seconds *)
  local_gmtoff : Z → option Z;
}.

Section Units.
Context `{HumanSize}.

Definition humanize_size (size : Z) (human : bool) : str :=
  if human then format_size (Z.max size 0) else to_string_i size.
End Units.

(** [str::to_lowercase] and [str::to_uppercase]: Unicode's tables, on UTF-8 bytes. *)
Class UnicodeCase := {
  to_lowercase : str → str;
  to_uppercase : str → str;
}.
