(* ===== verification/Bucket.v ===== *)
(** * Buckets: [mb], [rb] and [bucket-version] (src/src/command/bucket.rs, bucket_version.rs)

    [BucketOps] are the operations of the S3 backend on buckets. *)

From S2P Require Import Prelude RustStr Strutil Url Storage Fs Output Units Rm.

Local Open Scope Z_scope.

Class BucketOps `{RegexLib} (W : Type) `{!S3Ops W} := {
  s3_list_buckets : S3 → str → M W (list Bucket);
  s3_make_bucket : S3 → str → M W unit;
  s3_remove_bucket : S3 → str → M W unit;
  s3_get_versioning : S3 → str → M W str;
  s3_set_versioning : S3 → str → str → M W unit;
}.

Record RbArgs := { rb_bucket : str; rb_force : bool }.
Record BucketVersionArgs := { bv_bucket : str; bv_set : option str }.

Section Bucket.
Context `{RegexLib, UnicodeCase} {W : Type} `{!Os W, !S3Ops W, !BucketOps W}.

Definition bucket_name_of (arg : str) : result (Url * str) Error :=
  let? u := result_map_err anyhow (parse arg) in
  if negb (is_remote u) || negb (is_bucket u)
  then Err (anyhow ($"expected a bucket URL like s3://bucket-name, got " ++ debug_str arg))
  else Ok (u, bucket u).

Definition run_mb (opts : Options) (arg : str) : M (Console W) unit :=
  let! (u, name) := mlift (bucket_name_of arg) in
  let! s3 := io (S3_new u opts) in
  let! _ := io (s3_make_bucket s3 name) in
  success ($"mb") (show_url u).

(** [--force]: every listed URL goes to the batch deletion. *)
Definition empty_bucket (s3 : S3) (u : Url) : M (Console W) unit :=
  let! objs := io' (s3_list s3 u) in
  let! results := io' (s3_multi_delete s3 (omap url objs)) in
  let! had_error := rm_results results in
  if had_error then mfail (anyhow ($"rb --force: one or more object deletions failed")) else mret tt.

Definition run_rb (opts : Options) (a : RbArgs) : M (Console W) unit :=
  let! (u, name) := mlift (bucket_name_of (rb_bucket a)) in
  let! s3 := io (S3_new u opts) in
  let! _ := (if rb_force a then empty_bucket s3 u else mret tt) in
  let! _ := io (s3_remove_bucket s3 name) in
  success ($"rb") (show_url u).

(** ** bucket-version *)

Definition versioning_line (u : Url) (status : str) (did_set : bool) (m : OutMode) : Line :=
  if is_json m then
    JsonLine (JObj ([($"bucket", JStr (show_url u)); ($"versioning", JStr status)]
                    ++ if did_set then [($"success", JBool true)] else []))
  else Stdout (show_url u ++ $" " ++ status).

Definition versioning_status (raw : str) : result str Error :=
  let lc := to_lowercase raw in
  if bool_decide (lc = $"enabled") then Ok ($"Enabled")
  else if bool_decide (lc = $"suspended") then Ok ($"Suspended")
  else Err (anyhow ($"invalid versioning status " ++ debug_str raw ++ $" (use Enabled or Suspended)")).

Definition run_bucket_version (opts : Options) (a : BucketVersionArgs) : M (Console W) unit :=
  let! u := mlift (result_map_err anyhow (parse (bv_bucket a))) in
  if negb (is_remote u) || negb (is_bucket u)
  then mfail (anyhow ($"expected a bucket URL like s3://bucket, got " ++ debug_str (bv_bucket a)))
  else
    let! s3 := io (S3_new u opts) in
    match bv_set a with
    | Some raw =>
        let! status := mlift (versioning_status raw) in
        let! _ := io (s3_set_versioning s3 (bucket u) status) in
        emit (versioning_line u status true)
    | None =>
        let! status := io (s3_get_versioning s3 (bucket u)) in
        emit (versioning_line u status false)
    end.
End Bucket.
