(* ===== verification/BucketSpec.v ===== *)
(** * What [rb] guarantees *)

From S2P Require Import Prelude RustStr Strutil Url Storage Fs Hoare Output Units Rm S3Laws RmSpec Bucket.

Local Open Scope Z_scope.

(** S3 removes a bucket only when it is empty, and touches no object. *)
Class BucketOpsLaws `{RegexLib} (W : Type) `{!S3Ops W, !S3View W, !BucketOps W} : Prop := {
  remove_bucket_law : ∀ s b w r w', s3_remove_bucket s b w = (r, w') →
    (∀ l, obj w' l = obj w l) ∧ (live s → r = Ok tt → ∀ k, obj w (b, k) = None);
}.

Section BucketSpec.
Context `{RegexLib, UnicodeCase} {W : Type} `{!Os W, !S3Ops W, !S3View W, !S3Laws W, !BucketOps W, !BucketOpsLaws W}.

Lemma bucket_name_of_Ok arg u name :
  bucket_name_of arg = Ok (u, name) → name = bucket u ∧ is_remote u = true ∧ is_bucket u = true.
Proof.
  unfold bucket_name_of. destruct (result_map_err anyhow (parse arg)) as [v|]; [|done]. cbn [result_bind].
  destruct (is_remote v) eqn:Hr; [|done]. destruct (is_bucket v) eqn:Hb; [|done]. by intros [= <- <-].
Qed.

(** The deletions of [--force] stay in the bucket, whatever their outcome. *)
Lemma empty_bucket_frame s3 u (c : Console W) r c' :
  empty_bucket s3 u c = (r, c') → ∀ l, l.1 ≠ bucket u → obj (world c') l = obj (world c) l.
Proof.
  unfold empty_bucket, mbind, io'. destruct (s3_list s3 u (world c)) as [objs w1] eqn:Hl.
  cbn [world set_world]. destruct (s3_multi_delete s3 (omap url objs) w1) as [res w2] eqn:Hd.
  set (c2 := set_world (set_world c w1) w2). destruct (rm_results_run res c2) as (c3 & Hr & Hw). rewrite Hr.
  assert (Hin : Forall (λ v, bucket v = bucket u) (omap url objs)).
  { apply Forall_forall. intros v (o & Ho & Hv)%list_elem_of_omap.
    destruct (list_law _ _ _ _ _ Hl) as [_ Hall]. by apply (Hall o v Ho Hv). }
  intros Hend l Hb. assert (Hw3 : world c' = w2).
  { destruct (existsb _ res); injection Hend as _ <-; by rewrite Hw. }
  rewrite Hw3. destruct (multi_delete_law _ _ _ _ _ _ Hd Hin) as [Hsame _]. rewrite Hsame.
  - by apply (list_law _ _ _ _ _ Hl).
  - intros (v & -> & Hv)%list_elem_of_fmap. apply Hb. by apply (proj1 (Forall_forall _ _) Hin).
Qed.


(** The listing [--force] deletes has the delimiter of a bucket URL: it is one level deep, so an
    object whose key has a slash stays, and S3 refuses to remove the bucket. *)
Lemma rb_lists_one_level arg u name :
  bucket_name_of arg = Ok (u, name) → delimiter u = S3_SEPARATOR ∧ url_prefix u = [].
Proof.
  unfold bucket_name_of. destruct (parse arg) as [v|e] eqn:Hp; [|done]. cbn [result_map_err result_bind].
  destruct (is_remote v) eqn:Hr; [|done]. destruct (is_bucket v) eqn:Hb; [|done]. intros [= <- <-].
  unfold is_bucket in Hb. apply andb_true_iff in Hb as [_ Hb]. apply bool_decide_eq_true in Hb.
  assert (Hset : ∃ f, raw f = false ∧ set_prefix_and_filter f = Ok v).
  { unfold parse in Hp. apply Url_new_inv in Hp as [[_ Hset]|(b & k & _ & _ & _ & _ & Hset)]; (eexists; split; [|exact Hset]; done). }
  destruct Hset as (f & Hraw & Hset). pose proof (set_prefix_and_filter_keeps _ _ Hset) as Hk.
  assert (Hpath : path f = []) by (destruct Hk as (_ & _ & _ & Hk & _); congruence). unfold set_prefix_and_filter in Hset. rewrite Hraw, Hpath in Hset.
  cbn [find] in Hset. apply result_bind_Ok in Hset as (rg & _ & [= <-]). by split.
Qed.
End BucketSpec.
