(* ===== verification/Du.v ===== *)
(** * [du] (src/src/command/du.rs) *)

From S2P Require Import Prelude RustStr Btree Strutil Url Storage Fs Output Units.

Local Open Scope Z_scope.

Record DuArgs := {
  du_target : option str;
  du_humanize : bool;
  du_group : bool;
  du_exclude : list str;
  du_all_versions : bool;
  du_version_id : option str;
}.

Record SizeAndCount := { sc_size : Z; sc_count : Z }.

Definition sc_default : SizeAndCount := {| sc_size := 0; sc_count := 0 |}.

(** [i64] additions, which wrap around. *)
Definition sc_add (sc : SizeAndCount) (size : Z) : SizeAndCount :=
  {| sc_size := as_i64 (sc_size sc + size); sc_count := as_i64 (sc_count sc + 1) |}.

Definition size_json (source : str) (class : option str) (sc : SizeAndCount) : Json :=
  JObj ([($"source", JStr source); ($"count", JNum (sc_count sc)); ($"size", JNum (sc_size sc))]
        ++ match class with
           | Some c => if bool_decide (c = []) then [] else [($"storage_class", JStr c)]
           | None => []
           end).

(** Fatal listing errors name the target. *)
Definition annotate_fatal (target : str) (e : Error) : Error :=
  let msg := to_ascii_lowercase (show_error_alt e) in
  if contains ($"accessdenied") msg || contains ($"nosuchbucket") msg
  then anyhow ($"cannot access " ++ target ++ $": " ++ show_error_alt e)
  else e.

Section Du.
Context `{RegexLib, HumanSize} {W : Type} `{!Os W, !S3Ops W}.

(** The same loop as that of the filters. *)
Definition du_compile_globs (globs : list str) : result (list re) Error := result_map_err anyhow (compile_globs globs).

Definition should_exclude (excludes : list re) (key : str) : bool :=
  existsb (λ re, is_match re key) excludes.

Definition size_message (source : str) (class : option str) (sc : SizeAndCount) (human : bool) : str :=
  let class_suffix := match class with
                      | Some c => if bool_decide (c = []) then [] else $" [" ++ c ++ $"]"
                      | None => []
                      end in
  humanize_size (sc_size sc) human ++ $" bytes in " ++ to_string_i (sc_count sc) ++ $" objects: " ++ source
    ++ class_suffix.

Definition du_url (a : DuArgs) (target : str) : result Url Error :=
  result_map_err anyhow (Url_new target
    {| opt_raw := false; opt_version_id := du_version_id a; opt_all_versions := du_all_versions a;
       opt_start_after := None |}).

Definition du_key (o : Object) : str := match url o with Some u => relative u | None => [] end.

(** Whether an object counts. *)
Definition du_counts (excludes : list re) (o : Object) : bool :=
  negb (is_dir (typ o)) && negb (should_exclude excludes (du_key o)).

(** The loop over the listing. *)
Fixpoint du_loop (target : str) (excludes : list re) (objs : list Object)
    (total : SizeAndCount) (by_class : BTreeMap SizeAndCount) : result (SizeAndCount * BTreeMap SizeAndCount) Error :=
  match objs with
  | [] => Ok (total, by_class)
  | o :: objs =>
      match obj_err o with
      | Some e => Err (annotate_fatal target e)
      | None =>
          if is_dir (typ o) then du_loop target excludes objs total by_class
          else if should_exclude excludes (du_key o) then du_loop target excludes objs total by_class
          else du_loop target excludes objs (sc_add total (size o))
                 (bt_entry (class_name (storage_class o)) (λ sc, sc_add (default sc_default sc) (size o)) by_class)
      end
  end.

Definition du_line (a : DuArgs) (source : str) (class : option str) (sc : SizeAndCount) (m : OutMode) : Line :=
  if is_json m then JsonLine (size_json source class sc)
  else Stdout (size_message source class sc (du_humanize a)).

Fixpoint du_print (a : DuArgs) (source : str) (l : BTreeMap SizeAndCount) : M (Console W) unit :=
  match l with
  | [] => mret tt
  | (class, sc) :: l =>
      let! _ := emit (du_line a source (Some class) sc) in
      du_print a source l
  end.

Definition du_run (opts : Options) (a : DuArgs) : M (Console W) unit :=
  let! target := mlift (match du_target a with
                        | Some t => Ok t
                        | None => Err (anyhow ($"expected only 1 argument"))
                        end) in
  let! u := mlift (du_url a target) in
  let! excludes := mlift (du_compile_globs (du_exclude a)) in
  let! client := io (new_client u opts) in
  let! objs := io' (storage_list client u false) in
  let! (total, by_class) := mlift (du_loop target excludes objs sc_default []) in
  let source := show_url u in
  if negb (du_group a) then emit (du_line a source None total)
  else du_print a source by_class.
End Du.
