(* ===== verification/DuSpec.v ===== *)
(** * What [du] reports

    The totals are those of the listed objects that are neither directories nor excluded,
    and the groups of [--group] are the classes of those objects, each once and in order. *)

From S2P Require Import Prelude RustStr Btree Strutil Url Storage Fs Hoare Output Units Du.

Local Open Scope Z_scope.

Section DuSpec.
Context `{RegexLib, HumanSize} {W : Type} `{!Os W, !S3Ops W}.

(** The size and the number of a set of objects, as 64-bit integers. *)
Definition usage (l : list Object) : SizeAndCount :=
  {| sc_size := as_i64 (zsum (map size l)); sc_count := as_i64 (Z.of_nat (length l)) |}.

Definition class_of (o : Object) : str := class_name (storage_class o).
Definition of_class (k : str) (l : list Object) : list Object :=
  List.filter (λ o, bool_decide (class_of o = k)) l.

Lemma usage_snoc l o : sc_add (usage l) (size o) = usage (l ++ [o]).
Proof.
  unfold sc_add, usage. cbn. rewrite !as_i64_add, map_app, zsum_app, length_app. cbn.
  f_equal; f_equal; lia.
Qed.

Lemma usage_nil : usage [] = sc_default.
Proof. done. Qed.

(** The objects that count. *)
Definition counted (excludes : list re) (objs : list Object) : list Object := List.filter (du_counts excludes) objs.

Lemma counted_cons excludes o objs :
  counted excludes (o :: objs) = if du_counts excludes o then o :: counted excludes objs else counted excludes objs.
Proof. done. Qed.

(** The map after the objects [l]: one entry for each of their classes. *)
Definition grouped (l : list Object) (m : BTreeMap SizeAndCount) : Prop :=
  bt_wf m ∧ ∀ k, bt_get k m = if bool_decide (of_class k l = []) then None else Some (usage (of_class k l)).

Lemma of_class_snoc k l o :
  of_class k (l ++ [o]) = of_class k l ++ if bool_decide (class_of o = k) then [o] else [].
Proof. unfold of_class. rewrite List.filter_app. by cbn. Qed.

Lemma grouped_snoc l m o :
  grouped l m → grouped (l ++ [o]) (bt_entry (class_of o) (λ sc, sc_add (default sc_default sc) (size o)) m).
Proof.
  intros [Hwf Hget]. split; [by apply bt_entry_wf|]. intros k. rewrite bt_get_entry by done. rewrite of_class_snoc, !Hget.
  destruct (bool_decide_reflect (k = class_of o)) as [->|Hk].
  - rewrite (bool_decide_true (class_of o = class_of o)) by done. rewrite (bool_decide_false (_ ++ [o] = [])) by by destruct (of_class _ l).
    rewrite <-usage_snoc. case_bool_decide as Hnil; [by rewrite Hnil|done].
  - rewrite (bool_decide_false (class_of o = k)) by congruence. by rewrite app_nil_r.
Qed.

Lemma du_loop_spec target excludes objs l m :
  grouped l m →
  match first_error objs with
  | Some e => du_loop target excludes objs (usage l) m = Err (annotate_fatal target e)
  | None => ∃ m', du_loop target excludes objs (usage l) m = Ok (usage (l ++ counted excludes objs), m') ∧
                  grouped (l ++ counted excludes objs) m'
  end.
Proof.
  revert l m. induction objs as [|o objs IH]; intros l m Hg; cbn [first_error du_loop].
  { exists m. by rewrite app_nil_r. }
  destruct (obj_err o) as [e|]; [done|]. rewrite counted_cons. unfold du_counts.
  destruct (is_dir (typ o)); [by apply IH|]. destruct (should_exclude excludes (du_key o)); [by apply IH|]. cbn [negb andb].
  rewrite usage_snoc. specialize (IH (l ++ [o]) _ (grouped_snoc _ _ o Hg)).
  destruct (first_error objs) as [e|]; [exact IH|]. destruct IH as (m' & Hrun & Hg'). exists m'. rewrite <-app_assoc in Hrun, Hg'.
  by split.
Qed.

Lemma du_print_run a source (l : BTreeMap SizeAndCount) (c : Console W) : ∃ c',
  du_print a source l c = (Ok tt, c') ∧ world c' = world c ∧
  printed c' = printed c ++ map (λ kv, du_line a source (Some kv.1) kv.2 (mode c)) l.
Proof.
  revert c. induction l as [|[k sc] l IH]; intros c; cbn [du_print map]; [exists c; by rewrite app_nil_r|].
  destruct (IH (emit (du_line a source (Some k) sc) c).2) as (c' & Hr & Hw & Hp). exists c'. unfold mbind, emit in *. cbn in *.
  rewrite Hr, Hw, Hp. split_and!; [done..|]. by rewrite <-app_assoc.
Qed.

(** C30. [du] reports exactly the objects the listing returns that are neither directories nor
    excluded: their number and the sum of their sizes (as 64-bit integers), in one line; or
    with [--group] one line for each of their storage classes, in increasing order, with
    the number and sum of that class. A listing error fails the command, with nothing
    printed. *)
Theorem du_exact opts a t u exc client objs (c : Console W) w1 w2 r c' :
  du_target a = Some t → du_url a t = Ok u → du_compile_globs (du_exclude a) = Ok exc →
  new_client u opts (world c) = (Ok client, w1) → storage_list client u false w1 = (objs, w2) →
  du_run opts a c = (r, c') →
  world c' = w2 ∧
  match first_error objs with
  | Some e => r = Err (annotate_fatal t e) ∧ printed c' = printed c
  | None =>
      r = Ok tt ∧
      if du_group a then
        ∃ classes, StronglySorted str_lt classes ∧ (∀ k, k ∈ classes ↔ of_class k (counted exc objs) ≠ []) ∧
          printed c' = printed c
            ++ map (λ k, du_line a (show_url u) (Some k) (usage (of_class k (counted exc objs))) (mode c)) classes
      else printed c' = printed c ++ [du_line a (show_url u) None (usage (counted exc objs)) (mode c)]
  end.
Proof.
  intros Ht Hu Hexc Hnew Hlist. unfold du_run. rewrite Ht. unfold mbind, mlift, io, io', emit. rewrite Hu, Hexc, Hnew.
  cbn [world set_world]. rewrite Hlist.
  assert (Hg : grouped [] []) by (split; [constructor|done]).
  pose proof (du_loop_spec t exc objs [] [] Hg) as Hloop. rewrite usage_nil in Hloop.
  destruct (first_error objs) as [e|]; [rewrite Hloop; by intros [= <- <-]|].
  destruct Hloop as (m & -> & Hwf & Hget). cbn [app] in *. destruct (du_group a); cbn [negb]; [|by intros [= <- <-]].
  intros Hp. destruct (du_print_run a (show_url u) m (set_world (set_world c w1) w2)) as (c1 & Hr & Hw & Hpr).
  rewrite Hr in Hp. injection Hp as <- <-. split; [done|]. split; [done|]. exists (map fst m). split; [done|].
  assert (Hin : ∀ k, k ∈ map fst m ↔ of_class k (counted exc objs) ≠ []).
  { intros k. specialize (Hget k). pose proof (bt_get_None k m) as Hn. destruct (decide (k ∈ map fst m)) as [?|Hno].
    - split; [|done]. intros _ Hnil. rewrite bool_decide_true in Hget by done. apply Hn in Hget. done.
    - split; [done|]. intros Hne. rewrite bool_decide_false in Hget by done. apply Hn in Hno. congruence. }
  split; [exact Hin|]. rewrite Hpr. cbn [set_world printed mode]. f_equal. rewrite map_map. apply map_ext_in. intros [k sc] Hk%list_elem_of_In.
  cbn. f_equal. assert (Hk' : bt_get k m = Some sc) by by apply bt_get_Some.
  rewrite Hget in Hk'. case_bool_decide; [done|]. by injection Hk' as <-.
Qed.
End DuSpec.
