(* ===== verification/Tree.v ===== *)
(** * [tree] (src/src/command/tree.rs) *)

From S2P Require Import Prelude RustStr Btree Strutil Url Storage Fs Output.

Local Open Scope Z_scope.
#[local] Set Warnings "-register-all".

Record TreeArgs := {
  tree_target : str;
  tree_depth : option Z;
  tree_limit : option Z;
  tree_size : bool;
}.

(** [children] is a [BTreeMap]. *)
Inductive Node := MkNode { children : list (str * Node); n_size : option Z; n_is_dir : bool }.

Definition Node_default : Node := MkNode [] None false.

Definition nonempty_str (s : str) : bool := negb (bool_decide (s = [])).

(** The loop of [Node::insert] over the non-empty segments. *)
Fixpoint insert_segs (segs : list str) (size : option Z) (dir : bool) (n : Node) : Node :=
  match segs with
  | [] => n
  | seg :: rest =>
      let update (c : option Node) :=
        let child := default Node_default c in
        let child :=
          match rest with
          | [] => if dir then MkNode (children child) (n_size child) true else MkNode (children child) size (n_is_dir child)
          | _ => MkNode (children child) (n_size child) true
          end in
        insert_segs rest size dir child in
      MkNode (bt_entry seg update (children n)) (n_size n) (n_is_dir n)
  end.

Definition node_insert (segments : list str) (size : option Z) (dir : bool) (n : Node) : Node :=
  insert_segs (List.filter nonempty_str segments) size dir n.

(** ** Printing *)

Definition connector (last : bool) : str := if last then $"└── " else $"├── ".
Definition indent (last : bool) : str := if last then $"    " else $"│   ".

Definition format_node (name : str) (n : Node) (show_size : bool) : str :=
  let dir := n_is_dir n || negb (match children n with [] => true | _ => false end) in
  match n_size n with
  | Some sz => if negb dir && show_size then name ++ $" (" ++ to_string_i sz ++ $")" else name
  | None => name
  end.

(** The lines [print_children] prints. *)
Fixpoint print_children (n : Node) (prefix : str) (show_size : bool) : list str :=
  (fix go (l : list (str * Node)) : list str :=
     match l with
     | [] => []
     | (name, child) :: l =>
         let last := match l with [] => true | _ => false end in
         (prefix ++ connector last ++ format_node name child show_size)
           :: print_children child (prefix ++ indent last) show_size ++ go l
     end) (children n).

Section Tree.
Context `{RegexLib} {W : Type} `{!Os W, !S3Ops W}.

Definition listing_target (u : Url) : str :=
  let base := absolute u in
  if is_remote u then
    if is_bucket u then base ++ $"/*"
    else if ends_with ($"/") base then base ++ $"*"
    else base ++ $"/*"
  else if ends_with ($"/") base then base ++ $"*"
  else base ++ $"/*".

Definition tree_key (o : Object) : str := match url o with Some u => relative u | None => [] end.
Definition tree_is_dir (o : Object) : bool := is_dir (typ o) || ends_with ($"/") (tree_key o).

(** The loop over the listing. *)
Fixpoint tree_loop (depth limit : option Z) (objs : list Object) (root : Node) (collected : Z) : result Node Error :=
  match objs with
  | [] => Ok root
  | o :: objs =>
      match obj_err o with
      | Some e => Err e
      | None =>
          let key := tree_key o in
          if bool_decide (key = []) then tree_loop depth limit objs root collected
          else
            let dir := tree_is_dir o in
            let segments := split_chr SLASH key in
            match (match depth with
                   | Some d => if 0 <? d then Some (take (Z.to_nat d) segments) else None
                   | None => Some segments
                   end) with
            | None => tree_loop depth limit objs root collected
            | Some segments =>
                let root := node_insert segments (if dir then None else Some (size o)) dir root in
                if dir then tree_loop depth limit objs root collected
                else
                  let collected := collected + 1 in
                  match limit with
                  | Some l => if l <=? collected then Ok root else tree_loop depth limit objs root collected
                  | None => tree_loop depth limit objs root collected
                  end
            end
      end
  end.

Fixpoint say_lines (ls : list str) : M (Console W) unit :=
  match ls with
  | [] => mret tt
  | l :: ls => let! _ := say l in say_lines ls
  end.

Definition tree_run (opts : Options) (a : TreeArgs) : M (Console W) unit :=
  let! display_url := mlift (result_map_err anyhow (Url_new (tree_target a) UrlOptions_default)) in
  let! listing_url := mlift (result_map_err anyhow (Url_new (listing_target display_url) UrlOptions_default)) in
  let! client := io (new_client display_url opts) in
  let! objs := io' (storage_list client listing_url true) in
  let! root := mlift (tree_loop (tree_depth a) (tree_limit a) objs Node_default 0) in
  let! _ := say (show_url display_url) in
  say_lines (print_children root [] (tree_size a)).
End Tree.
