(* ===== verification/TreeSpec.v ===== *)
(** * What [tree] prints

    The nodes built are exactly the prefixes of the keys inserted, and the lines printed
    read back as those prefixes in lexicographic order, each at its depth. *)

From S2P Require Import Prelude RustStr Btree Strutil Url Storage Fs Hoare Output Tree.

Local Open Scope nat_scope.
#[local] Set Warnings "-register-all".

(** ** Trees *)

Lemma node_ind' (P : Node → Prop) :
  (∀ l s d, Forall (λ kc : str * Node, P kc.2) l → P (MkNode l s d)) → ∀ n, P n.
Proof.
  intros Hstep. fix IH 1. intros [l s d]. apply Hstep. clear s d.
  revert l. fix IHl 1. intros [|[k c] l]; constructor; [apply IH|apply IHl].
Qed.

Inductive node_wf : Node → Prop :=
  | node_wf_intro l s d : bt_wf l → Forall (λ kc : str * Node, node_wf kc.2) l → node_wf (MkNode l s d).

Lemma node_wf_inv n : node_wf n → bt_wf (children n) ∧ ∀ k c, bt_get k (children n) = Some c → node_wf c.
Proof.
  intros [l s d Hl Hc]. cbn. split; [done|]. intros k c Hk%bt_get_Some; [|done].
  exact (proj1 (Forall_forall _ _) Hc _ Hk).
Qed.

Lemma node_wf_flags l s d s' d' : node_wf (MkNode l s d) → node_wf (MkNode l s' d').
Proof. intros Hw. inversion_clear Hw. by constructor. Qed.

(** The node under a path. *)
Fixpoint find_node (p : list str) (n : Node) : option Node :=
  match p with
  | [] => Some n
  | seg :: p => match bt_get seg (children n) with Some c => find_node p c | None => None end
  end.

(** Its size and whether it is marked as a directory. *)
Definition view (p : list str) (n : Node) : option (option Z * bool) :=
  option_map (λ c, (n_size c, n_is_dir c)) (find_node p n).

Lemma view_default p : p ≠ [] → view p Node_default = None.
Proof. by destruct p. Qed.

(** What an insertion makes of a node on the way, and of the last. *)
Definition seen (last dir : bool) (size : option Z) (old : option (option Z * bool)) : option Z * bool :=
  let old := default (None, false) old in
  if last && negb dir then (size, old.2) else (old.1, true).

Lemma insert_segs_wf segs size dir n : node_wf n → node_wf (insert_segs segs size dir n).
Proof.
  revert n. induction segs as [|seg rest IH]; intros n Hn; [done|].
  pose proof (node_wf_inv _ Hn) as [Hwf Hc]. cbn [insert_segs]. constructor; [by apply bt_entry_wf|].
  apply Forall_forall. intros [k c] Hk. apply bt_get_Some in Hk; [|by apply bt_entry_wf].
  rewrite bt_get_entry in Hk by done. cbn. case_bool_decide; [|by apply (Hc k)]. injection Hk as <-. apply IH.
  assert (Hd : node_wf (default Node_default (bt_get seg (children n)))).
  { destruct (bt_get seg (children n)) as [c|] eqn:Hg; [by apply (Hc seg)|]. by repeat constructor. }
  destruct (default _ _) as [l s d]. cbn. destruct rest; [destruct dir|]; by eapply node_wf_flags.
Qed.

Lemma view_cons seg p n :
  view (seg :: p) n = match bt_get seg (children n) with Some c => view p c | None => None end.
Proof. unfold view. cbn. by destruct (bt_get seg (children n)). Qed.

Lemma view_cons_default seg p n : p ≠ [] → view (seg :: p) n = view p (default Node_default (bt_get seg (children n))).
Proof. intros Hp. rewrite view_cons. destruct (bt_get _ _); [done|]. cbn. by rewrite view_default. Qed.

Lemma view_flags p l s d s' d' : p ≠ [] → view p (MkNode l s d) = view p (MkNode l s' d').
Proof. by destruct p. Qed.

Lemma insert_segs_view p segs size dir n :
  node_wf n → p ≠ [] →
  view p (insert_segs segs size dir n) =
    if bool_decide (p `prefix_of` segs) then Some (seen (bool_decide (p = segs)) dir size (view p n)) else view p n.
Proof.
  revert p n. induction segs as [|seg rest IH]; intros p n Hn Hp.
  { rewrite bool_decide_false; [done|]. by intros ->%prefix_nil_inv. }
  destruct p as [|x p]; [done|]. pose proof (node_wf_inv _ Hn) as [Hwf Hc]. cbn [insert_segs].
  rewrite view_cons. cbn [children]. rewrite bt_get_entry by done.
  destruct (bool_decide_reflect (x = seg)) as [->|Hx].
  2:{ rewrite bool_decide_false; [by rewrite view_cons|]. intros Hpre. by apply prefix_cons_inv_1 in Hpre. }
  rewrite (bool_decide_ext (seg :: p `prefix_of` seg :: rest) (p `prefix_of` rest))
    by (split; [apply prefix_cons_inv_2|apply prefix_cons]).
  rewrite (bool_decide_ext (seg :: p = seg :: rest) (p = rest)) by (split; [by intros [=]|by intros ->]).
  assert (Hd : node_wf (default Node_default (bt_get seg (children n)))).
  { destruct (bt_get seg (children n)) as [c|] eqn:Hg; [by apply (Hc seg)|]. by repeat constructor. }
  destruct (default Node_default (bt_get seg (children n))) as [l s d] eqn:Hdef. cbn [children n_size n_is_dir].
  destruct (decide (p = [])) as [->|Hp'].
  - rewrite (bool_decide_true ([] `prefix_of` rest)) by apply prefix_nil.
    assert (Hold : default (None, false) (view [seg] n) = (s, d)).
    { rewrite view_cons. destruct (bt_get seg (children n)) as [c|]; cbn in *; [by subst c|by injection Hdef as <- <- <-]. }
    unfold seen. rewrite Hold. destruct rest; cbn; by destruct dir.
  - rewrite IH; [|by destruct rest; [destruct dir|]; eapply node_wf_flags|done].
    assert (Hv : view p (match rest with
                         | [] => if dir then MkNode l s true else MkNode l size d
                         | _ :: _ => MkNode l s true
                         end) = view (seg :: p) n).
    { rewrite view_cons_default, Hdef by done. destruct rest; [destruct dir|]; by apply view_flags. }
    by rewrite Hv.
Qed.

(** ** The keys collected *)

(** A key: its non-empty segments, and its size unless it is a directory. *)
Definition Key : Type := list str * option Z.

Definition insert_key (n : Node) (k : Key) : Node :=
  insert_segs k.1 k.2 (match k.2 with Some _ => false | None => true end) n.

Definition build (ks : list Key) : Node := foldl insert_key Node_default ks.

(** A path is a folder when a key lies below it or names it as a directory. *)
Definition folder (ks : list Key) (p : list str) : Prop :=
  Exists (λ k : Key, p `prefix_of` k.1 ∧ (p ≠ k.1 ∨ k.2 = None)) ks.

#[export] Instance folder_dec ks p : Decision (folder ks p).
Proof. unfold folder. apply _. Defined.

(** The size of the last object whose key is the path. *)
Definition size_at (ks : list Key) (p : list str) : option Z :=
  last (omap (λ k : Key, if bool_decide (p = k.1) then k.2 else None) ks).

(** The label of a path: its last segment; with the size, for a path that is no folder. *)
Definition label (ks : list Key) (show_size : bool) (p : list str) : str :=
  let name := List.last p [] in
  match size_at ks p with
  | Some sz => if negb (bool_decide (folder ks p)) && show_size then name ++ $" (" ++ to_string_i sz ++ $")" else name
  | None => name
  end.

Lemma build_snoc ks k : build (ks ++ [k]) = insert_key (build ks) k.
Proof. unfold build. by rewrite foldl_app. Qed.

Lemma build_wf ks : node_wf (build ks).
Proof.
  induction ks as [|k ks IH] using rev_ind; [by repeat constructor|]. rewrite build_snoc. by apply insert_segs_wf.
Qed.

Lemma build_view ks p : p ≠ [] →
  view p (build ks) = if decide (Exists (λ k : Key, p `prefix_of` k.1) ks)
                      then Some (size_at ks p, bool_decide (folder ks p)) else None.
Proof.
  intros Hp. induction ks as [|[segs o] ks IH] using rev_ind.
  { rewrite view_default by done. case_decide as He; [by inversion He|done]. }
  rewrite build_snoc. unfold insert_key. cbn [fst snd]. rewrite insert_segs_view by (done || apply build_wf). rewrite IH. clear IH.
  unfold size_at, folder. rewrite omap_app. cbn [omap list_omap fst snd].
  set (E := Exists (λ k : Key, p `prefix_of` k.1) ks).
  set (F := Exists (λ k : Key, p `prefix_of` k.1 ∧ (p ≠ k.1 ∨ k.2 = None)) ks).
  assert (HF : F → E) by (unfold F, E; intros Hf; eapply Exists_impl; [exact Hf|]; by intros ? [? _]).
  assert (Hnone : ¬ E → omap (λ k : Key, if bool_decide (p = k.1) then k.2 else None) ks = []).
  { unfold E. intros Hne. clear HF. induction ks as [|k ks IHk]; [done|]. cbn. rewrite Exists_cons in Hne.
    rewrite bool_decide_false by naive_solver. apply IHk. naive_solver. }
  match goal with |- _ = if decide (Exists ?P ?l) then _ else _ => destruct (decide (Exists P l)) as [HE'|HE'] end;
    rewrite Exists_app, Exists_cons, Exists_nil in HE';
    (destruct (bool_decide_reflect (p `prefix_of` segs)) as [Hpre|Hpre]; [try naive_solver|]).
  - f_equal. unfold seen. destruct (bool_decide_reflect (p = segs)) as [->|Hne]; cbn [andb].
    + destruct o as [sz|]; cbn [negb].
      * rewrite last_snoc. f_equal. destruct (decide E) as [HE|HE]; cbn [default snd].
        -- apply bool_decide_ext. rewrite Exists_app, Exists_cons, Exists_nil. fold F. cbn. clear. intuition congruence.
        -- symmetry. apply bool_decide_false. rewrite Exists_app, Exists_cons, Exists_nil. fold F. cbn.
           clear -HE HF. intuition congruence.
      * rewrite app_nil_r. f_equal; [destruct (decide E) as [HE|HE]; [done|by rewrite (Hnone HE)]|].
        symmetry. apply bool_decide_true. apply Exists_app. right. constructor. naive_solver.
    + rewrite app_nil_r. f_equal; [destruct (decide E) as [HE|HE]; [done|by rewrite (Hnone HE)]|].
      symmetry. apply bool_decide_true. apply Exists_app. right. constructor. naive_solver.
  - rewrite (bool_decide_false (p = segs)) by (intros ->; by apply Hpre). rewrite app_nil_r.
    rewrite decide_True by naive_solver. do 2 f_equal. apply bool_decide_ext.
    rewrite Exists_app, Exists_cons, Exists_nil. naive_solver.
  - rewrite decide_False by naive_solver. done.
Qed.

(** ** Traversal *)

(** The paths of a tree with their nodes, parents first, in the order of the children. *)
Fixpoint entries (n : Node) (at_ : list str) : list (list str * Node) :=
  (fix go (l : list (str * Node)) : list (list str * Node) :=
     match l with
     | [] => []
     | (name, c) :: l => (at_ ++ [name], c) :: entries c (at_ ++ [name]) ++ go l
     end) (children n).

Fixpoint list_entries (l : list (str * Node)) (at_ : list str) : list (list str * Node) :=
  match l with
  | [] => []
  | (name, c) :: l => (at_ ++ [name], c) :: entries c (at_ ++ [name]) ++ list_entries l at_
  end.

Lemma entries_children n at_ : entries n at_ = list_entries (children n) at_.
Proof. destruct n as [l s d]. cbn [children]. induction l as [|[k c] l IH]; [done|]. cbn [list_entries]. by rewrite <-IH. Qed.

(** The lexicographic order of paths, a path before those below it. *)
Fixpoint path_ltb (p q : list str) : bool :=
  match p, q with
  | [], _ :: _ => true
  | x :: p, y :: q => str_ltb x y || bool_decide (x = y) && path_ltb p q
  | _, [] => false
  end.
Definition path_lt (p q : list str) : Prop := path_ltb p q = true.

Lemma path_lt_app at_ p q : path_lt (at_ ++ p) (at_ ++ q) ↔ path_lt p q.
Proof.
  induction at_ as [|x at_ IH]; [done|]. rewrite <-IH. unfold path_lt. cbn. rewrite bool_decide_true by done.
  pose proof (str_lt_irrefl x) as Hx. unfold str_lt in Hx. apply not_true_is_false in Hx. by rewrite Hx.
Qed.

Lemma path_lt_cons x y p q : str_lt x y → path_lt (x :: p) (y :: q).
Proof. intros Hxy. unfold path_lt. cbn. by rewrite Hxy. Qed.

Lemma elem_of_list_entries p c l at_ :
  bt_wf l → Forall (λ kc : str * Node, ∀ p c at_, (p, c) ∈ entries kc.2 at_ ↔
                       ∃ q, q ≠ [] ∧ p = at_ ++ q ∧ find_node q kc.2 = Some c) l →
  (p, c) ∈ list_entries l at_ ↔
    ∃ x q, p = at_ ++ x :: q ∧ ∃ n, bt_get x l = Some n ∧ find_node q n = Some c.
Proof.
  induction l as [|[k n] l IH]; intros Hl Hall; cbn [list_entries].
  { rewrite elem_of_nil. split; [done|]. by intros (x & q & _ & n & ? & _). }
  apply Forall_cons_1 in Hall as [Hn Hall]. pose proof (bt_wf_cons _ _ _ Hl) as [Hl' Hlt].
  rewrite elem_of_cons, elem_of_app, (Hn p c (at_ ++ [k])), IH by done. cbn [bt_get snd] in *. split.
  - intros [[= -> ->]|[(q & Hq & -> & Hf)|(x & q & -> & m & Hm & Hf)]].
    + exists k, []. split; [done|]. exists n. by rewrite bool_decide_true.
    + exists k, q. rewrite <-app_assoc. split; [done|]. exists n. by rewrite bool_decide_true.
    + exists x, q. split; [done|]. exists m. rewrite bool_decide_false; [done|]. intros ->.
      apply (str_lt_irrefl k), Hlt, list_elem_of_fmap. exists (k, m). split; [done|]. by apply bt_get_Some.
  - intros (x & q & -> & m & Hm & Hf). case_bool_decide as Hx.
    + subst x. injection Hm as <-. destruct q as [|y q]; [left; cbn in Hf; by injection Hf as ->|right; left].
      exists (y :: q). by rewrite <-app_assoc.
    + right. right. exists x, q. split; [done|]. by exists m.
Qed.

Lemma elem_of_entries n : node_wf n → ∀ p c at_,
  (p, c) ∈ entries n at_ ↔ ∃ q, q ≠ [] ∧ p = at_ ++ q ∧ find_node q n = Some c.
Proof.
  induction n as [l s d IH] using node_ind'. intros Hn p c at_. inversion_clear Hn as [??? Hl Hc].
  rewrite entries_children. cbn [children]. rewrite elem_of_list_entries; [|done|].
  - split.
    + intros (x & q & -> & n & Hn & Hf). exists (x :: q). cbn. by rewrite Hn.
    + intros ([|x q] & ? & -> & Hf); [done|]. exists x, q. split; [done|]. cbn in Hf.
      destruct (bt_get x l) as [n|]; [by exists n|done].
  - eapply Forall_impl; [exact (proj2 (Forall_and _ _) (conj IH Hc))|]. intros [k n] [Hk Hn] p' c' at'. by apply Hk.
Qed.

Lemma entries_below n at_ p c : node_wf n → (p, c) ∈ entries n at_ → ∃ q, q ≠ [] ∧ p = at_ ++ q.
Proof. intros Hn (q & Hq & -> & _)%elem_of_entries; [|done]. by exists q. Qed.

Lemma entries_sorted n : node_wf n → ∀ at_, StronglySorted path_lt (map fst (entries n at_)).
Proof.
  induction n as [l s d IH] using node_ind'. intros Hn at_. inversion_clear Hn as [??? Hl Hc].
  rewrite entries_children. cbn [children]. clear s d. revert Hl Hc IH.
  induction l as [|[k n] l IHl]; intros Hl Hc IH; [constructor|].
  apply Forall_cons_1 in IH as [IHn IH]. apply Forall_cons_1 in Hc as [Hcn Hc]. pose proof (bt_wf_cons _ _ _ Hl) as [Hl' Hlt].
  cbn [list_entries map fst]. rewrite map_app.
  assert (Hrest : ∀ q p, p ∈ map fst (list_entries l at_) → path_lt (at_ ++ k :: q) p).
  { intros q p ([p' c] & -> & Hp)%list_elem_of_fmap.
    apply elem_of_list_entries in Hp as (x & q' & -> & m & Hm & _); [|done|].
    - cbn. apply path_lt_app, path_lt_cons, Hlt, list_elem_of_fmap. exists (x, m). split; [done|]. by apply bt_get_Some.
    - eapply Forall_impl; [exact Hc|]. intros [x m] Hm. cbn. by apply elem_of_entries. }
  assert (Hbelow : ∀ p, p ∈ map fst (entries n (at_ ++ [k])) → ∃ y q, p = at_ ++ k :: y :: q).
  { intros p ([p' c] & -> & Hp)%list_elem_of_fmap. apply entries_below in Hp as ([|y q] & ? & ->); [done| |done].
    exists y, q. cbn. by rewrite <-app_assoc. }
  constructor.
  - apply StronglySorted_app. split_and!; [|by apply IHn|by apply IHl].
    intros p q (y & r & ->)%Hbelow Hq. by apply Hrest.
  - apply Forall_app. split; apply Forall_forall; intros p Hp.
    + apply Hbelow in Hp as (y & q & ->). apply path_lt_app. exact (proj2 (path_lt_app [k] [] (y :: q)) eq_refl).
    + by apply Hrest.
Qed.

(** ** Reading the lines back *)

(** The depth and the label of a line. *)
Fixpoint read_go (fuel : nat) (l : str) : option (nat * str) :=
  match fuel with
  | O => None
  | S fuel =>
      match strip_prefix (connector true) l, strip_prefix (connector false) l with
      | Some r, _ | None, Some r => Some (0, r)
      | None, None =>
          match strip_prefix (indent true) l, strip_prefix (indent false) l with
          | Some r, _ | None, Some r => option_map (λ dn, (S dn.1, dn.2)) (read_go fuel r)
          | None, None => None
          end
      end
  end.

Definition read_line (l : str) : option (nat * str) := read_go (S (length l)) l.

Lemma read_go_indents bs b name fuel :
  length bs < fuel → read_go fuel (concat (map indent bs) ++ connector b ++ name) = Some (length bs, name).
Proof.
  revert fuel. induction bs as [|i bs IH]; intros [|fuel] Hf; [cbn in Hf; lia| |cbn in Hf; lia|].
  - by destruct b.
  - cbn [map concat]. rewrite <-app_assoc. specialize (IH fuel ltac:(cbn in Hf; lia)).
    set (rest := concat (map indent bs) ++ connector b ++ name) in *. cbn [length].
    destruct i; cbn [indent]; (transitivity (option_map (λ dn, (S dn.1, dn.2)) (read_go fuel rest)); [reflexivity|by rewrite IH]).
Qed.

Lemma read_line_indents bs b name : read_line (concat (map indent bs) ++ connector b ++ name) = Some (length bs, name).
Proof.
  apply read_go_indents. rewrite length_app.
  assert (length bs <= length (concat (map indent bs))); [|lia].
  induction bs as [|i bs IH]; [done|]. cbn [map concat length]. rewrite length_app. destruct i; cbn; lia.
Qed.

Fixpoint print_list (l : list (str * Node)) (prefix : str) (show_size : bool) : list str :=
  match l with
  | [] => []
  | (name, child) :: l =>
      let last := match l with [] => true | _ => false end in
      (prefix ++ connector last ++ format_node name child show_size)
        :: print_children child (prefix ++ indent last) show_size ++ print_list l prefix show_size
  end.

Lemma print_children_list n prefix show_size : print_children n prefix show_size = print_list (children n) prefix show_size.
Proof. destruct n as [l s d]. cbn [children]. induction l as [|[k c] l IH]; [done|]. cbn [print_list]. by rewrite <-IH. Qed.

Definition node_label (show_size : bool) (e : list str * Node) : str := format_node (List.last e.1 []) e.2 show_size.

Lemma last_snoc' (l : list str) x d : List.last (l ++ [x]) d = x.
Proof. apply last_last. Qed.

(** Each line reads back as the depth and the label of an entry, in order. *)
Lemma print_read n show_size : ∀ bs at_, length at_ = length bs →
  map read_line (print_children n (concat (map indent bs)) show_size) =
  map (λ e : list str * Node, Some (pred (length e.1), node_label show_size e)) (entries n at_).
Proof.
  induction n as [l s d IH] using node_ind'. intros bs at_ Hlen. rewrite print_children_list, entries_children. cbn [children].
  clear s d. induction l as [|[k n] l IHl]; [done|]. apply Forall_cons_1 in IH as [IHn IH].
  cbn [print_list list_entries map]. rewrite !map_app. f_equal.
  - rewrite read_line_indents. unfold node_label. cbn [fst snd]. rewrite last_snoc', length_app. cbn. do 2 f_equal. lia.
  - f_equal; [|by apply IHl]. rewrite <-(IHn (bs ++ [match l with [] => true | _ => false end])).
    + by rewrite map_app, concat_app; cbn; rewrite app_nil_r.
    + rewrite !length_app. cbn. lia.
Qed.

Lemma find_node_app p q n : find_node (p ++ q) n = match find_node p n with Some c => find_node q c | None => None end.
Proof. revert n. induction p as [|x p IH]; intros n; [done|]. cbn. by destruct (bt_get x (children n)). Qed.

(** The entries of the tree of a list of keys are the prefixes of the keys, under their labels. *)
Lemma elem_of_paths ks p :
  p ∈ map fst (entries (build ks) []) ↔ p ≠ [] ∧ Exists (λ k : Key, p `prefix_of` k.1) ks.
Proof.
  assert (Hv : p ≠ [] → is_Some (find_node p (build ks)) ↔ Exists (λ k : Key, p `prefix_of` k.1) ks).
  { intros Hp. pose proof (build_view ks p Hp) as Hv. unfold view in Hv.
    case_decide; destruct (find_node p (build ks)); try discriminate Hv; [done|]. split; [by intros []|done]. }
  split.
  - intros ([p' c] & -> & (q & Hq & -> & Hf)%elem_of_entries)%list_elem_of_fmap; [|apply build_wf].
    cbn in *. split; [done|]. apply Hv; [done|]. by exists c.
  - intros [Hp [c Hc]%Hv]; [|done]. apply list_elem_of_fmap. exists (p, c). split; [done|].
    apply elem_of_entries; [apply build_wf|]. by exists p.
Qed.

Lemma entry_label ks show_size p c :
  (p, c) ∈ entries (build ks) [] → node_label show_size (p, c) = label ks show_size p.
Proof.
  intros (q & Hq & -> & Hf)%elem_of_entries; [|apply build_wf]. cbn [app].
  pose proof (build_view ks q Hq) as Hv. unfold view in Hv. rewrite Hf in Hv. case_decide as He; [|done].
  injection Hv as Hsz Hdir. unfold node_label, format_node, label. cbn [fst snd]. rewrite Hsz, Hdir.
  assert (Hch : bool_decide (folder ks q) || negb (match children c with [] => true | _ => false end)
                = bool_decide (folder ks q)); [|by rewrite Hch].
  destruct (children c) as [|[x m] l] eqn:Hc; [by rewrite orb_false_r|]. cbn [negb]. rewrite orb_true_r. symmetry.
  apply bool_decide_true.
  assert (Hx : view (q ++ [x]) (build ks) ≠ None).
  { unfold view. rewrite find_node_app, Hf. cbn. rewrite Hc. cbn. by rewrite bool_decide_true. }
  rewrite build_view in Hx by by destruct q. case_decide as Hex; [|done]. unfold folder.
  eapply Exists_impl; [exact Hex|]. intros [segs o] Hpre. cbn in *. split; [by eapply prefix_app_l|]. left. intros ->.
  apply prefix_length in Hpre. rewrite length_app in Hpre. cbn in Hpre. lia.
Qed.

(** The lines printed for a list of keys. *)
Lemma print_build ks show_size :
  map read_line (print_children (build ks) [] show_size) =
  map (λ p, Some (pred (length p), label ks show_size p)) (map fst (entries (build ks) [])).
Proof.
  pose proof (print_read (build ks) show_size [] [] eq_refl) as Hread. cbn [map concat] in Hread. rewrite Hread, map_map. apply map_ext_in.
  intros [p c] Hp%list_elem_of_In. cbn [fst]. by rewrite (entry_label ks show_size p c Hp).
Qed.

(** ** The command *)

Section TreeSpec.
Context `{RegexLib} {W : Type} `{!Os W, !S3Ops W}.

(** The key an object contributes: nothing for an empty key or a depth of 0. *)
Definition key_of (depth : option Z) (o : Object) : option Key :=
  if bool_decide (tree_key o = []) then None
  else
    let segments := split_chr SLASH (tree_key o) in
    let value := if tree_is_dir o then None else Some (size o) in
    match depth with
    | Some d => if (0 <? d)%Z then Some (List.filter nonempty_str (take (Z.to_nat d) segments), value) else None
    | None => Some (List.filter nonempty_str segments, value)
    end.

Definition files (ks : list Key) : nat := length (omap snd ks).

(** The part of the listing the loop looks at. *)
Definition looked_at (depth limit : option Z) (objs os : list Object) (c : nat) : Prop :=
  os `prefix_of` objs ∧
  (∀ l, limit = Some l → (Z.of_nat (c + files (omap (key_of depth) os)) <= Z.max 1 l)%Z) ∧
  (first_error os = None → os = objs ∨
     ∃ l, limit = Some l ∧ Z.of_nat (c + files (omap (key_of depth) os)) = Z.max 1 l).

Lemma looked_at_cons depth limit o objs os c :
  obj_err o = None →
  looked_at depth limit objs os (c + files (match key_of depth o with Some k => [k] | None => [] end)) →
  looked_at depth limit (o :: objs) (o :: os) c.
Proof.
  intros Herr (Hpre & Hle & Hend). cbn [first_error]. unfold looked_at. cbn [first_error]. rewrite Herr.
  assert (Hf : files (omap (key_of depth) (o :: os)) =
    files (match key_of depth o with Some k => [k] | None => [] end) + files (omap (key_of depth) os)).
  { cbn [omap list_omap]. by destruct (key_of depth o) as [[p [s|]]|]. }
  rewrite Hf, Nat.add_assoc. split_and!; [by apply prefix_cons|done|].
  intros Hn. destruct (Hend Hn) as [->|?]; [by left|by right].
Qed.

(** One turn of the loop. *)
Lemma tree_loop_cons depth limit o objs n c :
  obj_err o = None →
  tree_loop depth limit (o :: objs) n c =
    match key_of depth o with
    | None => tree_loop depth limit objs n c
    | Some k =>
        match k.2, limit with
        | None, _ => tree_loop depth limit objs (insert_key n k) c
        | Some _, None => tree_loop depth limit objs (insert_key n k) (c + 1)
        | Some _, Some l =>
            if (l <=? c + 1)%Z then Ok (insert_key n k) else tree_loop depth limit objs (insert_key n k) (c + 1)
        end
    end.
Proof.
  intros Herr. cbn [tree_loop]. rewrite Herr. unfold key_of, node_insert, insert_key. case_bool_decide; [done|].
  destruct depth as [d|]; [destruct (0 <? d)%Z; [|done]|]; by destruct (tree_is_dir o), limit.
Qed.

Lemma tree_loop_spec depth limit objs ks c :
  (∀ l, limit = Some l → (Z.of_nat c < Z.max 1 l)%Z) →
  ∃ os, looked_at depth limit objs os c ∧
    tree_loop depth limit objs (build ks) (Z.of_nat c) =
      match first_error os with
      | Some e => Err e
      | None => Ok (build (ks ++ omap (key_of depth) os))
      end.
Proof.
  revert ks c. induction objs as [|o objs IH]; intros ks c Hc.
  { exists []. cbn. rewrite app_nil_r. split; [|done]. split_and!; [done| |by left].
    intros l Hl. cbn. specialize (Hc l Hl). lia. }
  destruct (obj_err o) as [e|] eqn:Herr.
  { exists [o]. cbn [tree_loop first_error]. rewrite Herr. split; [|done].
    split_and!; [by exists objs| |cbn; by rewrite Herr].
    intros l Hl. specialize (Hc l Hl). unfold files. cbn. destruct (key_of depth o) as [[p [s|]]|]; cbn; lia. }
  rewrite (tree_loop_cons _ _ _ _ _ _ Herr).
  (* the loop goes on with the keys [ks'] *)
  assert (Hgo : ∀ ks' c', ks' = ks ++ match key_of depth o with Some k => [k] | None => [] end →
    c' = c + files (match key_of depth o with Some k => [k] | None => [] end) →
    (∀ l, limit = Some l → (Z.of_nat c' < Z.max 1 l)%Z) → ∃ os, looked_at depth limit (o :: objs) os c ∧
    tree_loop depth limit objs (build ks') (Z.of_nat c') =
      match first_error os with Some e => Err e | None => Ok (build (ks ++ omap (key_of depth) os)) end).
  { intros ks' c' -> -> Hc'. destruct (IH (ks ++ match key_of depth o with Some k => [k] | None => [] end) _ Hc') as (os & Hl & Hr). exists (o :: os). split; [by apply looked_at_cons|].
    rewrite Hr. cbn. rewrite Herr. destruct (key_of depth o); by rewrite <-app_assoc. }
  destruct (key_of depth o) as [[segs v]|] eqn:Hk; [|apply Hgo; [by rewrite app_nil_r|unfold files; cbn; lia|done]].
  cbn [snd]. rewrite <-build_snoc. destruct v as [sz|]; [|apply Hgo; [done|unfold files; cbn; lia|done]].
  replace (Z.of_nat c + 1)%Z with (Z.of_nat (c + 1)) by lia.
  destruct limit as [l|]; [|by apply Hgo]. specialize (Hc l eq_refl).
  destruct (Z.leb_spec l (Z.of_nat (c + 1))); [|apply Hgo; [done|done|intros l' [= <-]; lia]].
  exists [o]. assert (Hf : files (omap (key_of depth) [o]) = 1) by (cbn; by rewrite Hk). split.
  - split_and!; [by exists objs| |]; rewrite Hf; [intros l' [= <-]; lia|]. intros _. right. exists l. split; [done|]. lia.
  - cbn. by rewrite Herr, Hk.
Qed.

Lemma say_lines_run ls (c : Console W) : ∃ c',
  say_lines ls c = (Ok tt, c') ∧ world c' = world c ∧ printed c' = printed c ++ map Stdout ls.
Proof.
  revert c. induction ls as [|l ls IH]; intros c; cbn [say_lines map]; [exists c; by rewrite app_nil_r|].
  destruct (IH (say l c).2) as (c' & Hr & Hw & Hp). exists c'. unfold mbind, say, emit in *. cbn in *.
  rewrite Hr, Hw, Hp. split_and!; [done..|]. by rewrite <-app_assoc.
Qed.

(** C31. [tree] prints the keys of the listing as a tree: below the target's own line, each line
    reads back as the depth and the label of one path; the paths are exactly the non-empty
    prefixes of the keys (cut at [--depth]), in lexicographic order, each once. The loop
    looks at the listing up to its end, an error, which fails the command before anything
    is printed, or the object that reaches [--limit]. *)
Theorem tree_exact opts a u v client objs (c : Console W) w1 w2 r c' :
  Url_new (tree_target a) UrlOptions_default = Ok u → Url_new (listing_target u) UrlOptions_default = Ok v →
  new_client u opts (world c) = (Ok client, w1) → storage_list client v true w1 = (objs, w2) →
  tree_run opts a c = (r, c') →
  world c' = w2 ∧ ∃ os, looked_at (tree_depth a) (tree_limit a) objs os 0 ∧
  let ks := omap (key_of (tree_depth a)) os in
  match first_error os with
  | Some e => r = Err e ∧ printed c' = printed c
  | None =>
      r = Ok tt ∧ ∃ ls paths, printed c' = printed c ++ Stdout (show_url u) :: map Stdout ls ∧
        map read_line ls = map (λ p, Some (pred (length p), label ks (tree_size a) p)) paths ∧
        StronglySorted path_lt paths ∧ ∀ p, p ∈ paths ↔ p ≠ [] ∧ Exists (λ k : Key, p `prefix_of` k.1) ks
  end.
Proof.
  intros Hu Hv Hnew Hlist. unfold tree_run, mbind, mlift, io, io'. rewrite Hu. cbn [result_map_err]. rewrite Hv.
  cbn [result_map_err]. rewrite Hnew. cbn [world set_world]. rewrite Hlist. destruct (tree_loop_spec (tree_depth a) (tree_limit a) objs [] 0) as (os & Hl & Hr); [intros l _; lia|].
  change Node_default with (build []). change 0%Z with (Z.of_nat 0). rewrite Hr. cbn [app].
  destruct (first_error os) as [e|] eqn:Hfe.
  { intros [= <- <-]. split; [done|]. exists os. split; [done|]. cbv zeta. by rewrite Hfe. }
  set (ks := omap (key_of (tree_depth a)) os) in *. unfold say, emit. cbn [mode printed stdin world set_world].
  set (c1 := {| mode := _; printed := _; stdin := _; world := _ |}).
  destruct (say_lines_run (print_children (build ks) [] (tree_size a)) c1) as (c2 & Hs & Hw & Hp). rewrite Hs. intros [= <- <-].
  rewrite Hw. split; [done|]. exists os. split; [done|]. cbv zeta. rewrite Hfe. split; [done|].
  exists (print_children (build ks) [] (tree_size a)), (map fst (entries (build ks) [])). split_and!.
  - rewrite Hp. unfold c1. cbn. by rewrite <-app_assoc.
  - apply print_build.
  - apply entries_sorted, build_wf.
  - intros p. apply elem_of_paths.
Qed.
End TreeSpec.
