(* ===== verification/Ls.v ===== *)
(** * [ls] (src/src/command/ls.rs)

    [now] is the clock reading of the run, in nanoseconds since the epoch. *)

From S2P Require Import Prelude RustStr Strutil Url Storage Fs Output Units Bucket.

Local Open Scope Z_scope.

Record LsArgs := {
  ls_target : option str;
  ls_humanize : bool;
  ls_storage_class : bool;
  ls_etag : bool;
  ls_all_versions : bool;
  ls_version_id : option str;
  ls_summarize : bool;
  ls_show_fullpath : bool;
  ls_start_after : option str;
  ls_newer_than : option str;
  ls_older_than : option str;
  ls_local_time : bool;
  ls_exclude : list str;
  ls_include : list str;
  ls_exclude_from : list str;
  ls_include_from : list str;
}.

(** ** Time bounds *)

Definition unit_secs (suffix : ascii) : option Z :=
  if is_chr "s"%char suffix then Some 1
  else if is_chr "m"%char suffix then Some 60
  else if is_chr "h"%char suffix then Some (60 * 60)
  else if is_chr "d"%char suffix then Some (60 * 60 * 24)
  else None.

(** The duration in seconds. *)
Definition parse_relative_duration (s : str) : result (option Z) Error :=
  match last s with
  | None => Ok None
  | Some c =>
      match unit_secs c with
      | None => Ok None
      | Some unit_secs =>
          let num := take (length s - 1) s in
          if bool_decide (num = []) || negb (forallb is_digit num) then Ok None
          else match parse_uint u64_max num with
               | Some n => Ok (Some (sat_mul_u64 n unit_secs))
               | None => Err (anyhow ($"invalid duration `" ++ s ++ $"`"))
               end
      end
  end.

(** [SystemTime::checked_sub] of whole seconds: the seconds of a [SystemTime] are an [i64]. *)
Definition checked_sub_secs (now secs : Z) : option Z :=
  if - 2 ^ 63 <=? now / 1000000000 - secs then Some (now - secs * 1000000000) else None.

Section Ls.
Context `{RegexLib, HumanSize, TimeLib} {W : Type} `{!Os W, !S3Ops W, !BucketOps W}.

Definition parse_time_bound (spec : str) (now : Z) : result Z Error :=
  let s := trim spec in
  if bool_decide (s = []) then Err (anyhow ($"empty time value"))
  else
    let? dur := parse_relative_duration s in
    match dur with
    | Some secs =>
        match checked_sub_secs now secs with
        | Some t => Ok t
        | None => Err (anyhow ($"duration `" ++ s ++ $"` is too far in the past"))
        end
    | None =>
        match rfc3339 s with
        | Ok t => Ok t
        | Err e => Err (anyhow ($"invalid time `" ++ s ++ $"`: expected RFC3339 or a duration like 24h/7d/30m/45s ("
                                ++ e ++ $")"))
        end
    end.

Definition opt_time_bound (spec : option str) (now : Z) : result (option Z) Error :=
  match spec with
  | Some s => let? t := parse_time_bound s now in Ok (Some t)
  | None => Ok None
  end.

(** ** Formatting *)

(** The east-of-UTC offset in seconds at an instant. *)
Definition local_utc_offset (t : Z) : option Z :=
  let secs := if t <? 0 then 0 else t / 1000000000 in
  match local_gmtoff secs with
  | None => None
  | Some g => let g := as_i32 g in if offset_ok g then Some g else None
  end.

Definition format_time (t : Z) (local : bool) : str :=
  if negb local then default [] (format_utc t)
  else default [] (format_offset t (default 0 (local_utc_offset t))).

Definition format_summary (total_objects total_size : Z) (human : bool) : str :=
  $"Total objects: " ++ to_string total_objects ++ [LF] ++ $"Total size: " ++ humanize_size total_size human.

(** The number of characters of a string, and [{:>w}] and [{:<w}]. *)
Definition chars (s : str) : nat := length (List.filter (λ c, negb (cont c)) s).
Definition pad_left (w : nat) (s : str) : str := repeat " "%char (w - chars s) ++ s.
Definition pad_right (w : nat) (s : str) : str := s ++ repeat " "%char (w - chars s).

Definition obj_path (o : Object) : str := match url o with Some u => relative u | None => [] end.

(** The version of the object's URL, when it has one. *)
Definition obj_version (o : Object) : option str :=
  match url o with Some u => if bool_decide (version_id u = []) then None else Some (version_id u) | None => None end.

Definition columns (date stclass etag size rest : str) : str :=
  pad_left 19 date ++ $" " ++ pad_left 2 stclass ++ $" " ++ pad_right 1 etag ++ $" " ++ pad_left 12 size ++ $"  "
    ++ rest.

Definition is_common_prefix (o : Object) : bool :=
  is_dir (typ o) && (size o =? 0) && match mod_time o with None => true | Some _ => false end.

Definition ls_format_object (a : LsArgs) (m : OutMode) (o : Object) : str :=
  let path := obj_path o in
  if is_common_prefix o then columns [] [] [] ($"DIR") (paint_dir m path)
  else
    let version := match obj_version o with Some v => $"  " ++ v | None => [] end in
    let date := match mod_time o with Some t => format_time t (ls_local_time a) | None => [] end in
    if is_delete_marker o then columns date [] [] ($"DELETE_MARKER") (path ++ version)
    else
      columns date (if ls_storage_class a then class_name (storage_class o) else [])
        (if ls_etag a then etag o else []) (humanize_size (size o) (ls_humanize a)) (paint_object m path ++ version).

Definition opt_field (k : str) (v : option Json) : list (str * Json) :=
  match v with Some v => [(k, v)] | None => [] end.
Definition str_field (k v : str) : list (str * Json) := if bool_decide (v = []) then [] else [(k, JStr v)].

Definition ls_object_json (o : Object) (local : bool) : Json :=
  let kind := if is_delete_marker o then $"delete_marker" else if is_dir (typ o) then $"directory" else $"file" in
  let modified := opt_field ($"last_modified") (option_map (λ t, JStr (format_time t local)) (mod_time o)) in
  let version := opt_field ($"version_id") (option_map JStr (obj_version o)) in
  JObj ([($"type", JStr kind); ($"key", JStr (obj_path o))]
        ++ if is_delete_marker o then ($"delete_marker", JBool true) :: modified ++ version
           else (if is_dir (typ o) then []
                 else ($"size", JNum (size o)) :: str_field ($"etag") (etag o)
                        ++ str_field ($"storage_class") (class_name (storage_class o)) ++ modified)
                ++ version).

(** ** Listing *)

(** The filters: the globs, on objects that are no directories, and the window of
    modification times. *)
Definition ls_filtered (filters : Filters) (o : Object) : bool :=
  negb (is_dir (typ o)) && match url o with Some u => should_skip filters (filter_key u) | None => false end.

Definition in_window (newer older : option Z) (o : Object) : bool :=
  match newer, older with
  | None, None => true
  | _, _ =>
      match mod_time o with
      | Some t =>
          match newer with Some lo => negb (t <? lo) | None => true end
          && match older with Some hi => negb (hi <=? t) | None => true end
      | None => false
      end
  end.

Definition ls_shows (filters : Filters) (newer older : option Z) (o : Object) : bool :=
  negb (ls_filtered filters o) && in_window newer older o.

(** One object: nothing for [--show-fullpath] without a URL. *)
Definition ls_print (a : LsArgs) (o : Object) : M (Console W) unit := λ c,
  if is_json (mode c) then emit (λ _, JsonLine (ls_object_json o (ls_local_time a))) c
  else if ls_show_fullpath a then
    match url o with Some u => say (absolute u) c | None => (Ok tt, c) end
  else emit (λ m, Stdout (ls_format_object a m o)) c.

(** The loop, with the running totals; the size is an [i64]. *)
Fixpoint ls_loop (a : LsArgs) (filters : Filters) (newer older : option Z) (objs : list Object) (n total : Z)
  : M (Console W) (Z * Z) :=
  match objs with
  | [] => mret (n, total)
  | o :: objs =>
      match obj_err o with
      | Some e => mfail e
      | None =>
          if negb (ls_shows filters newer older o) then ls_loop a filters newer older objs n total
          else
            let! _ := ls_print a o in
            if ls_summarize a && negb (is_dir (typ o))
            then ls_loop a filters newer older objs (n + 1) (as_i64 (total + size o))
            else ls_loop a filters newer older objs n total
      end
  end.

Definition summary_line (a : LsArgs) (n total : Z) (m : OutMode) : Line :=
  if is_json m then
    JsonLine (JObj [($"summary", JBool true); ($"total_objects", JNum n); ($"total_size", JNum total)])
  else Stdout (format_summary n total (ls_humanize a)).

Definition ls_filters (a : LsArgs) (w : W) : result Filters Error :=
  let read f := read_to_string f w in
  let? includes := result_map_err anyhow (patterns_with_files read (ls_include a) (ls_include_from a)) in
  let? excludes := result_map_err anyhow (patterns_with_files read (ls_exclude a) (ls_exclude_from a)) in
  result_map_err anyhow (Filters_new includes excludes).

(** ** Buckets *)

Definition bucket_line (local : bool) (b : Bucket) (m : OutMode) : Line :=
  let name := $"s3://" ++ bucket_name b in
  if is_json m then
    JsonLine (JObj (($"name", JStr name)
                    :: opt_field ($"created_at") (option_map (λ t, JStr (format_time t local)) (creation_date b))))
  else
    let date := match creation_date b with
                | Some t => format_time t local
                | None => repeat " "%char (if local then 25 else 19)
                end in
    Stdout (date ++ $"  " ++ name).

Fixpoint emit_all (ls : list (OutMode → Line)) : M (Console W) unit :=
  match ls with
  | [] => mret tt
  | l :: ls => let! _ := emit l in emit_all ls
  end.

Definition ls_buckets (opts : Options) (prefix : str) (local : bool) : M (Console W) unit :=
  let! u := mlift (result_map_err anyhow (parse ($"s3://_"))) in
  let! s3 := io (S3_new u opts) in
  let! buckets := io (s3_list_buckets s3 prefix) in
  emit_all (map (bucket_line local) buckets).

Definition ls_url (a : LsArgs) (target : str) : result Url Error :=
  result_map_err anyhow (Url_new target
    {| opt_raw := false; opt_version_id := ls_version_id a; opt_all_versions := ls_all_versions a;
       opt_start_after := ls_start_after a |}).

Definition ls_run (now : Z) (opts : Options) (a : LsArgs) : M (Console W) unit :=
  match ls_target a with
  | None => ls_buckets opts [] (ls_local_time a)
  | Some target =>
      let! u := mlift (ls_url a target) in
      let! newer := mlift (opt_time_bound (ls_newer_than a) now) in
      let! older := mlift (opt_time_bound (ls_older_than a) now) in
      let! filters := (λ c, (ls_filters a (world c), c)) in
      let! client := io (new_client u opts) in
      let! objs := io' (storage_list client u true) in
      let! (n, total) := ls_loop a filters newer older objs 0 0 in
      if ls_summarize a then emit (summary_line a n total) else mret tt
  end.
End Ls.
