(* ===== verification/LsSpec.v ===== *)
(** * What [ls] prints, and which objects a time window shows *)

From S2P Require Import Prelude RustStr Strutil Url Storage Fs Hoare Output Units Bucket Ls.

Local Open Scope Z_scope.

(** ** Time windows *)

Section Window.
Context `{RegexLib, TimeLib}.

Lemma last_digit_suffix n c : last (to_string n ++ [c]) = Some c.
Proof. by rewrite last_snoc. Qed.

Lemma unit_secs_range c k : unit_secs c = Some k → 1 <= k <= 86400.
Proof. unfold unit_secs. repeat (destruct (is_chr _ c); [intros [= <-]; lia|]). done. Qed.

(** A number with a unit is a duration, saturated to 64 bits. *)
Lemma parse_relative_duration_spec n c k :
  0 <= n <= u64_max → unit_secs c = Some k → parse_relative_duration (to_string n ++ [c]) = Ok (Some (sat_mul_u64 n k)).
Proof.
  intros Hn Hk. unfold parse_relative_duration. rewrite last_digit_suffix, Hk, length_app. cbn [length].
  rewrite Nat.add_sub, take_app_length. rewrite (to_string_digits n) by lia. rewrite bool_decide_false by apply to_string_nonempty.
  cbn [orb negb]. by rewrite parse_to_string.
Qed.

Lemma duration_trimmed n c : 0 <= n → unit_secs c ≠ None → trim (to_string n ++ [c]) = to_string n ++ [c].
Proof.
  intros Hn Hc. apply trim_trimmed, trimmed_ascii. rewrite forallb_app. apply andb_true_iff. split.
  - by apply digits_plain, to_string_digits.
  - unfold unit_secs in Hc. cbn [forallb]. rewrite andb_true_r.
    revert Hc. repeat (destruct (is_chr _ c) eqn:Hd; [apply is_chr_true in Hd as ->; intros _; vm_compute; reflexivity|clear Hd]).
    done.
Qed.

(** The time bounds of [ls]: a number with a unit means that long before now, and an object
    with a modification time is shown by exactly one of [--newer-than T] and [--older-than T],
    so the two split a listing; with both, the window is half open. *)
Theorem time_window_spec now n c k :
  0 <= n <= u64_max → unit_secs c = Some k → sat_mul_u64 n k <= now / 1000000000 + 2 ^ 63 →
  parse_time_bound (to_string n ++ [c]) now = Ok (now - sat_mul_u64 n k * 1000000000) ∧
  ∀ o t lo hi, mod_time o = Some t →
    in_window (Some lo) None o = negb (in_window None (Some lo) o) ∧
    (in_window (Some lo) (Some hi) o = true ↔ lo <= t < hi) ∧
    (in_window (Some lo) None o = true ↔ lo <= t).
Proof.
  intros Hn Hk Hfit. split.
  - unfold parse_time_bound. rewrite duration_trimmed by (lia || by rewrite Hk).
    rewrite bool_decide_false by by destruct (to_string n). rewrite (parse_relative_duration_spec n c k Hn Hk).
    cbn [result_bind]. unfold checked_sub_secs. destruct (Z.leb_spec (- 2 ^ 63) (now / 1000000000 - sat_mul_u64 n k)); [done|lia].
  - intros o t lo hi Ht. unfold in_window. rewrite Ht. rewrite !andb_true_r. cbn [andb].
    destruct (Z.ltb_spec t lo), (Z.leb_spec lo t), (Z.leb_spec hi t); cbn; split_and!; try done; try lia; split; (done || lia).
Qed.

End Window.

(** ** The listing *)

Section LsSpec.
Context `{RegexLib, HumanSize, TimeLib} {W : Type} `{!Os W, !S3Ops W, !BucketOps W}.

(** The lines of one object. *)
Definition object_lines (a : LsArgs) (m : OutMode) (o : Object) : list Line :=
  if is_json m then [JsonLine (ls_object_json o (ls_local_time a))]
  else if ls_show_fullpath a then match url o with Some u => [Stdout (absolute u)] | None => [] end
  else [Stdout (ls_format_object a m o)].

Lemma ls_print_run a o (c : Console W) : ∃ c',
  ls_print a o c = (Ok tt, c') ∧ world c' = world c ∧ mode c' = mode c ∧
  printed c' = printed c ++ object_lines a (mode c) o.
Proof.
  unfold ls_print, object_lines. destruct (is_json (mode c)); [by eexists|].
  destruct (ls_show_fullpath a); [|by eexists]. destruct (url o); [by eexists|]. exists c. by rewrite app_nil_r.
Qed.

(** The objects that count in the summary. *)
Definition summed (l : list Object) : list Object := List.filter (λ o, negb (is_dir (typ o))) l.

Lemma ls_loop_run a filters newer older objs n total (c : Console W) : ∃ c',
  let shown := List.filter (ls_shows filters newer older) (before_error objs) in
  ls_loop a filters newer older objs n (as_i64 total) c =
    (match first_error objs with
     | Some e => Err e
     | None => Ok (if ls_summarize a
                   then (n + Z.of_nat (length (summed shown)), as_i64 (total + zsum (map size (summed shown))))
                   else (n, as_i64 total))
     end, c') ∧ world c' = world c ∧ mode c' = mode c ∧
  printed c' = printed c ++ flat_map (object_lines a (mode c)) shown.
Proof.
  revert n total c. induction objs as [|o objs IH]; intros n total c; cbn [ls_loop first_error before_error].
  { exists c. cbn. rewrite app_nil_r, !Z.add_0_r. split_and!; [|done..]. by destruct (ls_summarize a). }
  destruct (obj_err o) as [e|]; [exists c; cbn; by rewrite app_nil_r|]. cbn [List.filter].
  destruct (ls_shows filters newer older o); cbn [negb]; [|apply IH].
  destruct (ls_print_run a o c) as (c1 & Hp & Hw & Hm & Hpr). rewrite (mbind_step _ _ _ _ _ Hp).
  unfold summed. cbn [List.filter flat_map]. destruct (ls_summarize a) eqn:Hs; cbn [andb].
  - destruct (is_dir (typ o)) eqn:Hd; cbn [negb].
    + destruct (IH n total c1) as (c' & Hr & Hw' & Hm' & Hp'). exists c'. rewrite Hr. cbv zeta. rewrite Hp', Hw', Hm', Hpr, Hm, Hw.
      split_and!; [done..|]. by rewrite <-app_assoc.
    + destruct (IH (n + 1) (total + size o) c1) as (c' & Hr & Hw' & Hm' & Hp'). exists c'. rewrite as_i64_add, Hr.
      cbv zeta. rewrite Hp', Hw', Hm', Hpr, Hm, Hw. split_and!; [|done|done|by rewrite <-app_assoc].
      destruct (first_error objs); [done|]. do 3 f_equal; [cbn [length]; unfold summed; lia|].
      f_equal. unfold summed. cbn [map zsum foldr]. unfold zsum. lia.
  - destruct (IH n total c1) as (c' & Hr & Hw' & Hm' & Hp'). exists c'. rewrite Hr. cbv zeta. rewrite Hp', Hw', Hm', Hpr, Hm, Hw.
    split_and!; [done..|]. by rewrite <-app_assoc.
Qed.

(** What [ls] shows: an object the filters let through (directories always) and, if there is
    a time window, one with a modification time in it. *)
Definition displayed (filters : Filters) (newer older : option Z) (o : Object) : Prop :=
  (is_dir (typ o) = false → ∀ u, url o = Some u → should_skip filters (filter_key u) = false) ∧
  ((newer, older) ≠ (None, None) →
   ∃ t, mod_time o = Some t ∧ match newer with Some lo => lo <= t | None => True end ∧
     match older with Some hi => t < hi | None => True end).

Lemma in_window_displayed newer older o :
  in_window newer older o = true ↔
  ((newer, older) ≠ (None, None) →
   ∃ t, mod_time o = Some t ∧ match newer with Some lo => lo <= t | None => True end ∧
     match older with Some hi => t < hi | None => True end).
Proof.
  assert (Hsome : ∀ t (P : Z → Prop), (∃ t', Some t = Some t' ∧ P t') ↔ P t) by (intros t P; split; [by intros (? & [= <-] & ?)|by exists t]).
  assert (Hnone : ∀ P : Z → Prop, (∃ t', None = Some t' ∧ P t') ↔ False) by (intros P; split; [by intros (? & ? & _)|done]).
  unfold in_window. destruct newer as [lo|], older as [hi|]; [..|by split]; destruct (mod_time o) as [t|];
    rewrite ?Hsome, ?Hnone, ?andb_true_iff, ?negb_true_iff, ?Z.ltb_ge, ?Z.leb_gt; (split; [intros Hw _|intros Hw; specialize (Hw ltac:(done))]);
    tauto || done.
Qed.

Lemma ls_shows_displayed filters newer older o : ls_shows filters newer older o = true ↔ displayed filters newer older o.
Proof.
  unfold ls_shows, ls_filtered, displayed. rewrite andb_true_iff, in_window_displayed, negb_true_iff, andb_false_iff, negb_false_iff.
  apply and_iff_compat_r. destruct (is_dir (typ o)); [by split; [|left]|]. destruct (url o) as [u|]; [|by split; [|right]].
  split; [by intros [?|Hs] _ ? [= <-]|]. intros Hs. right. by apply Hs.
Qed.

(** C32. [ls] of a target prints exactly the listed objects it is to display - the directories and
    the files the filters let through, with a modification time in the window if there is one -
    in the order of the listing and in the format asked for, up to a listing error, which it returns; with [--summarize] and no error, a last line with the number of
    objects shown that are no directories and the sum of their sizes. *)
Theorem ls_exact now opts a t u newer older filters client objs (c : Console W) w1 w2 r c' :
  ls_target a = Some t → ls_url a t = Ok u → opt_time_bound (ls_newer_than a) now = Ok newer →
  opt_time_bound (ls_older_than a) now = Ok older → ls_filters a (world c) = Ok filters →
  new_client u opts (world c) = (Ok client, w1) → storage_list client u true w1 = (objs, w2) →
  ls_run now opts a c = (r, c') →
  ∃ shows, (∀ o, shows o = true ↔ displayed filters newer older o) ∧
  let shown := List.filter shows (before_error objs) in
  world c' = w2 ∧
  match first_error objs with
  | Some e => r = Err e ∧ printed c' = printed c ++ flat_map (object_lines a (mode c)) shown
  | None =>
      r = Ok tt ∧
      printed c' = printed c ++ flat_map (object_lines a (mode c)) shown
        ++ if ls_summarize a
           then [summary_line a (Z.of_nat (length (summed shown))) (as_i64 (zsum (map size (summed shown)))) (mode c)]
           else []
  end.
Proof.
  intros Ht Hu Hn Ho Hf Hnew Hlist Hrun. exists (ls_shows filters newer older). split; [by apply ls_shows_displayed|].
  revert Hrun. unfold ls_run. rewrite Ht. unfold mlift, io, io'.
  rewrite (mbind_step _ _ c u c) by by rewrite Hu. rewrite (mbind_step _ _ c newer c) by by rewrite Hn.
  rewrite (mbind_step _ _ c older c) by by rewrite Ho. rewrite (mbind_step _ _ c filters c) by by rewrite Hf.
  rewrite (mbind_step _ _ c client (set_world c w1)) by by rewrite Hnew.
  rewrite (mbind_step _ _ (set_world c w1) objs (set_world (set_world c w1) w2)) by (cbn [world set_world]; by rewrite Hlist).
  destruct (ls_loop_run a filters newer older objs 0 0 (set_world (set_world c w1) w2)) as (c1 & Hr & Hw & Hm & Hp).
  unfold mbind. change (as_i64 0) with 0 in Hr. rewrite Hr. cbn [world set_world mode printed] in *.
  destruct (first_error objs) as [e|]; [intros [= <- <-]; by rewrite Hw, Hp|].
  destruct (ls_summarize a) eqn:Hs; intros [= <- <-]; cbn [world printed]; rewrite Hw, Hp; (split; [done|]); (split; [done|]).
  - by rewrite <-app_assoc, Hm, !Z.add_0_l.
  - by rewrite app_nil_r.
Qed.
End LsSpec.
