(* ===== verification/Backend.v ===== *)
(** * The S3 backend of the commands

    The operations of src/src/storage/s3.rs, made of the requests of any [Sdk], as the
    interface the commands are written against. *)

From S2P Require Import Prelude RustStr Strutil Url Storage Fs Tasks S3Client Transfer Listing Output Units Rm Bucket.

Section Backend.
Context `{RegexLib} {W} `{!Os W, !Sdk W, !Tokio W, !Unordered}.

(** [fuel] bounds the pages of a V1 or version listing; a listing that needs more ends
    with an error. *)
Definition list_all (fuel : nat) (s : S3Client) (u : Url) (w : W) : list Object * W :=
  default ([with_error (anyhow ($"listing too long"))], w) (S3_list fuel s u w).

Definition sdk_backend (fuel : nat) : S3Ops W := {|
  S3 := S3Client;
  S3_new := S3Client_new;
  s3_stat := S3_stat;
  s3_list := list_all fuel;
  s3_delete := S3_delete;
  s3_copy := S3_copy;
  s3_download := download;
  s3_upload := upload;
  s3_client_copy := S3_client_copy;
  s3_client_copy_to := S3_client_copy_to;
  s3_multi_delete := multi_delete;
  put_object_bytes := S3_put_object_bytes;
  get_object_bytes := S3_get_object_bytes;
  s3_read_range := read_range;
|}.

Definition sdk_buckets (fuel : nat) : @BucketOps _ W (sdk_backend fuel) := {|
  s3_list_buckets := (list_buckets : @S3 _ _ (sdk_backend fuel) → _);
  s3_make_bucket := make_bucket;
  s3_remove_bucket := remove_bucket;
  s3_get_versioning := get_bucket_versioning;
  s3_set_versioning := set_bucket_versioning;
|}.
End Backend.
