(* ===== verification/BackendSpec.v ===== *)
(** * The S3 backend keeps what the commands rely on

    [BackendLaws] is what S3 and its SDK promise of the requests behind [S3Ops]: existence,
    deletion and listing. From them and [StoreLaws], the code of src/src/storage/s3.rs
    satisfies [S3Laws] and [BucketOpsLaws], the interfaces the commands are verified against. *)

From S2P Require Import Prelude RustStr Strutil Url RateLimit Storage Fs Hoare Tasks S3Client Transfer TransferParts.
From S2P Require Import Store TransferFrame TransferSpec Listing ListingSpec Output Units Rm Bucket S3Laws BucketSpec Backend.

Local Open Scope Z_scope.

(** The current version of an object. *)
Definition current_of `{StoreLaws} (w : W) (l : str * str) : option str := obj_of w (l.1, l.2, None).

(** Entries of objects of the bucket [b]. *)
Definition names `{StoreLaws} (w : W) (b : str) (cs : list Content) : Prop :=
  ∀ e k, e ∈ cs → entry_key e = Some k → is_Some (current_of w (b, k)).

Class BackendLaws `{RegexLib} (W : Type) `{!Os W, !Sdk W, !Tokio W, !StoreLaws W} : Prop := {
  (** a length the SDK can report *)
  head_exists : ∀ c q w out w', head_object c q w = (Ok out, w') →
    ∃ o, obj_of w (request_key q) = Some o ∧ Z.of_nat (length o) <= i64_max;
  head_missing : ∀ c q w e w', head_object c q w = (Err e, w') →
    if sdk_not_found e then obj_of w (request_key q) = None else is_not_found (sdk_error e) = false;
  delete_spec : ∀ c q w r w', delete_object c q w = (r, w') →
    touches file_of obj_of (request_loc q) w w' ∧
    (q_version q = None → r = Ok tt → current_of w' (request_loc q) = None);
  (** a key without an error is gone *)
  delete_all_spec : ∀ c b keys payer w r w', delete_objects c b keys payer w = (r, w') →
    (∀ k : objkey, k.1 ∉ map (pair b) keys → obj_of w' k = obj_of w k) ∧
    ∀ out, r = Ok out → ∀ k, k ∈ keys → Some k ∉ map fst (errors out) → current_of w' (b, k) = None;
  (** a flat listing names objects of the bucket only, and when its pages all arrive every
      object under the prefix; keys come percent-encoded *)
  v2_spec : ∀ c q w pages w', list_objects_v2_pages c q w = (pages, w') →
    same_objs obj_of w w' ∧
    (∀ e, Err e ∈ pages → is_no_object (sdk_error e) = false) ∧
    (l_delimiter q = None → ∀ p, Ok p ∈ pages → p_prefixes p = [] ∧ names w (l_bucket q) (p_contents p)) ∧
    (l_delimiter q = None → l_start_after q = None → (∀ e, Err e ∉ pages) →
     ∀ k b, current_of w (l_bucket q, k) = Some b → starts_with (l_prefix q) k = true →
     ∃ p e, Ok p ∈ pages ∧ e ∈ p_contents p ∧ entry_key e = Some k);
  v1_keeps : ∀ c q m w r w', list_objects c q m w = (r, w') →
    same_objs obj_of w w' ∧ ∀ e, r = Err e → is_no_object (sdk_error e) = false;
  v1_serves : ∀ s src w, delimiter src = [] →
    ∃ entries, serves (same_objs obj_of w) s src entries ∧ NoDup (map entry_key entries) ∧
      Forall (λ e, is_Some (entry_key e)) entries ∧ names w (bucket src) entries ∧
      ∀ k b, current_of w (bucket src, k) = Some b → starts_with (url_prefix src) k = true →
      ∃ e, e ∈ entries ∧ entry_key e = Some k;
  versions_keeps : ∀ c q m v w r w', list_versions c q m v w = (r, w') → same_objs obj_of w w';
  (** only an empty bucket can be removed *)
  delete_bucket_spec : ∀ c b w r w', delete_bucket c b w = (r, w') →
    same_objs obj_of w w' ∧ (r = Ok tt → ∀ k, current_of w (b, k) = None);
}.

(** ** What a listing sends *)

Section Sent.
Context `{RegexLib}.

(** An entry of a listing of [src]: an error, or a URL the listing chose. *)
Definition sent (src : Url) (o : Object) : Prop := ∀ v, url o = Some v →
  (bucket v = bucket src ∧ (matches src (path v)).1 = true ∧ relative v = relative (listed_url src (path v))) ∧
  kind v = kind src ∧ scheme v = scheme src.

Lemma sent_with_error src e : sent src (with_error e).
Proof. by intros v. Qed.

Lemma sent_end src u found : Forall (sent src) (send_end u found).
Proof. unfold send_end. destruct (_ && _); [apply Forall_singleton, sent_with_error|constructor]. Qed.

Lemma matches_fields u k :
  bucket (matches u k).2 = bucket u ∧ version_id (matches u k).2 = version_id u ∧
  kind (matches u k).2 = kind u ∧ scheme (matches u k).2 = scheme u.
Proof. pose proof (matches_same u k) as [r ->]. done. Qed.

Lemma sent_listed src k o v :
  (matches src k).1 = true → url o = Some v →
  bucket v = bucket src ∧ path v = k ∧ relative v = relative (listed_url src k) ∧ kind v = kind src ∧ scheme v = scheme src →
  sent src o.
Proof. intros Hm Ho (Hb & Hp & Hr & ? & ?) v' Hv'. assert (v' = v) as -> by congruence. by rewrite Hp. Qed.

Lemma send_key_Some src mk raw o :
  send_key src mk raw = Some o → let k := percent_decode raw in (matches src k).1 = true ∧ o = mk (listed_url src k).
Proof.
  unfold send_key, listed_url. destruct (matches src (percent_decode raw)) as [[] u]; [|done]. by intros [= <-].
Qed.

Lemma sent_page src p : Forall (sent src) (page_objects src p).
Proof.
  assert (Hmk : ∀ mk raw o, (∀ u, url (mk u) = Some u) → send_key src mk raw = Some o → sent src o).
  { intros mk raw o Hmk [Hm ->]%send_key_Some. eapply sent_listed; [exact Hm|apply Hmk|].
    destruct (matches_fields src (percent_decode raw)) as (? & _ & ? & ?). by split_and!. }
  unfold page_objects. apply Forall_app. split; apply Forall_forall; intros o Ho; apply list_elem_of_omap in Ho as (x & _ & Hx).
  - apply bind_Some in Hx as (raw & _ & Hx). by eapply (Hmk dir_object).
  - apply bind_Some in Hx as (raw & _ & Hx). by eapply (Hmk (λ u, file_object u x)).
Qed.

Lemma sent_same u v o : same_filter u v → sent v o → sent u o.
Proof.
  intros [r ->] Ho w Hw. destruct (Ho w Hw) as ((Hb & Hm & Hr) & Hsite). split; [|exact Hsite]. split; [exact Hb|].
  unfold listed_url, matches in *. cbn in *. destruct (filter_regex u); [|done]. by destruct (is_match _ _).
Qed.

Lemma sent_versions mk src cs :
  (∀ u c, url (mk u c) = Some u) →
  Forall (sent src) (send_versions mk src cs).1 ∧ same_filter src (send_versions mk src cs).2.
Proof.
  intros Hmk. revert src. induction cs as [|c cs IH]; intros src; cbn [send_versions]; [split; [done|apply same_filter_refl]|].
  destruct (c_key c) as [raw|]; [|apply IH]. cbv zeta. set (k := percent_decode raw).
  pose proof (matches_same src k) as Hs. destruct (matches src k) as [ok u] eqn:Hm. cbn in Hs.
  assert (Hskip : Forall (sent src) (send_versions mk u cs).1 ∧ same_filter src (send_versions mk u cs).2).
  { destruct (IH u) as [Hall Hu]. split; [|by eapply same_filter_trans].
    eapply Forall_impl; [exact Hall|]. intros o. by apply sent_same. }
  destruct ok; cbn [negb]; [|done]. destruct (_ && _); [done|].
  destruct (send_versions mk u cs) as [objs src']. destruct Hskip as [Hall Hsame]. split; [|done]. constructor; [|done].
  eapply sent_listed; [by rewrite Hm|apply Hmk|]. split_and!; [by destruct Hs as [r ->]|done| |by destruct Hs as [r ->]..].
  unfold listed_url. by rewrite Hm.
Qed.

Lemma sent_version_page src p :
  Forall (sent src) (send_version_page src p).1 ∧ same_filter src (send_version_page src p).2.
Proof.
  unfold send_version_page. destruct (send_prefixes_spec src (p_prefixes p)) as [Hd S1].
  pose proof (sent_page src p) as Hpg. unfold page_objects in Hpg. apply Forall_app in Hpg as [Hpre _]. rewrite <-Hd in Hpre.
  destruct (send_prefixes src (p_prefixes p)) as [ds u]. cbn in S1.
  destruct (sent_versions file_object u (p_contents p) (λ _ _, eq_refl)) as [Hv S2].
  destruct (send_versions file_object u _) as [vs u2]. cbn in Hv, S2.
  destruct (sent_versions marker_object u2 (p_markers p) (λ _ _, eq_refl)) as [Hm S3].
  destruct (send_versions marker_object u2 _) as [ms u3]. cbn in Hm, S3 |- *.
  assert (S12 : same_filter src u2) by by eapply same_filter_trans.
  split; [|by eapply same_filter_trans]. rewrite !Forall_app. split_and!; [done|..].
  - eapply Forall_impl; [exact Hv|]. intros o. by apply sent_same.
  - eapply Forall_impl; [exact Hm|]. intros o. by apply sent_same.
Qed.
End Sent.

(** ** Listings *)

Section BackendListing.
Context `{BackendLaws}.

#[local] Abbreviation same_objs := (same_objs obj_of).

Lemma list_v2_sent s src w os w' : list_v2 s src w = (os, w') → same_objs w w' ∧ Forall (sent src) os.
Proof.
  unfold list_v2. destruct (list_objects_v2_pages _ _ w) as [pages w1] eqn:Hp. apply v2_spec in Hp as (Hs & _).
  intros [= <- <-]. split; [done|]. pose proof (v2_pages_spec src false pages) as Hv. destruct (good_pages pages) as [good e].
  cbv zeta in Hv. rewrite Hv. apply Forall_app. split.
  - apply Forall_concat, Forall_map, Forall_forall. intros p _. apply sent_page.
  - destruct e; [apply Forall_singleton, sent_with_error|apply sent_end].
Qed.

Lemma v1_loop_sent fuel s src0 src found m w os w' :
  same_filter src0 src → v1_loop fuel s src found m w = Some (os, w') → same_objs w w' ∧ Forall (sent src0) os.
Proof.
  revert src found m w os. induction fuel as [|fuel IH]; intros src found m w os Hf; cbn [v1_loop]; [done|].
  destruct (list_objects _ _ m w) as [[p|e] w1] eqn:Hl; apply v1_keeps in Hl as [Hs _].
  2:{ intros [= <- <-]. split; [done|]. apply Forall_singleton, sent_with_error. }
  destruct (send_page_spec src p) as [Hobj Hf']. destruct (send_page src p) as [objs u]. cbn in Hobj, Hf'.
  assert (Hf0 : same_filter src0 u) by by eapply same_filter_trans.
  assert (Hsent : Forall (sent src0) objs) by (rewrite Hobj, (page_objects_same _ _ _ Hf); apply sent_page).
  destruct (_ || _).
  - intros [= <- <-]. split; [done|]. apply Forall_app. split; [done|apply sent_end].
  - destruct (v1_loop _ _ _ _ _ w1) as [[rest w2]|] eqn:Hr; [|done]. intros [= <- <-].
    destruct (IH _ _ _ _ _ Hf0 Hr) as [Hs2 Hrest]. split; [by transitivity w1|]. by apply Forall_app.
Qed.

Lemma versions_loop_sent fuel s src0 src found km vm w os w' :
  same_filter src0 src → versions_loop fuel s src found km vm w = Some (os, w') →
  same_objs w w' ∧ Forall (sent src0) os.
Proof.
  revert src found km vm w os. induction fuel as [|fuel IH]; intros src found km vm w os Hf; cbn [versions_loop]; [done|].
  destruct (list_versions _ _ _ _ w) as [[p|e] w1] eqn:Hl; apply versions_keeps in Hl as Hs.
  2:{ intros [= <- <-]. split; [done|]. apply Forall_singleton, sent_with_error. }
  destruct (sent_version_page src p) as [Hobj Hf']. destruct (send_version_page src p) as [objs u]. cbn in Hobj, Hf'.
  assert (Hf0 : same_filter src0 u) by by eapply same_filter_trans.
  assert (Hsent : Forall (sent src0) objs) by (eapply Forall_impl; [exact Hobj|]; intros o; by apply sent_same).
  destruct (_ || _).
  - intros [= <- <-]. split; [done|]. apply Forall_app. split; [done|apply sent_end].
  - destruct (versions_loop _ _ _ _ _ _ w1) as [[rest w2]|] eqn:Hr; [|done]. intros [= <- <-].
    destruct (IH _ _ _ _ _ _ Hf0 Hr) as [Hs2 Hrest]. split; [by transitivity w1|]. by apply Forall_app.
Qed.

Lemma list_all_sent fuel s u w os w' : list_all fuel s u w = (os, w') → same_objs w w' ∧ Forall (sent u) os.
Proof.
  unfold list_all. destruct (S3_list fuel s u w) as [[os1 w1]|] eqn:Hl; cbn [default from_option id]; intros [= <- <-].
  2:{ split; [done|]. apply Forall_singleton, sent_with_error. }
  revert Hl. unfold S3_list, list_object_versions, list_objects_v1. destruct (is_versioned u); [|destruct (s_use_v1 s)].
  - apply versions_loop_sent, same_filter_refl.
  - apply v1_loop_sent, same_filter_refl.
  - intros [= Hl]. by eapply list_v2_sent.
Qed.

(** More pages than are needed change nothing. *)
Lemma v1_loop_more fuel k s src found m w x :
  v1_loop fuel s src found m w = Some x → v1_loop (fuel + k) s src found m w = Some x.
Proof.
  revert src found m w x. induction fuel as [|fuel IH]; intros src found m w x; cbn [v1_loop Nat.add]; [done|].
  destruct (list_objects _ _ m w) as [[p|e] w1]; [|done]. destruct (send_page src p) as [objs u]. destruct (_ || _); [done|].
  destruct (v1_loop fuel _ _ _ _ w1) as [[rest w2]|] eqn:Hr; [|done]. by rewrite (IH _ _ _ _ _ Hr).
Qed.

(** The objects of entries that cover a key. *)
Lemma content_covers src cs k :
  (matches src k).1 = true → (∃ e, e ∈ cs ∧ entry_key e = Some k) →
  ∃ o v, o ∈ content_objects src cs ∧ url o = Some v ∧ path v = k ∧ is_dir (typ o) = false.
Proof.
  intros Hm (e & He & Hk). unfold entry_key in Hk. destruct (c_key e) as [raw|] eqn:Hraw; [|done]. injection Hk as <-.
  exists (file_object (listed_url src (percent_decode raw)) e), (listed_url src (percent_decode raw)).
  split; [|done]. unfold content_objects. apply list_elem_of_omap. exists e. split; [done|]. rewrite Hraw. cbn.
  unfold send_key, listed_url. destruct (matches src _) as [[] u]; [done|done].
Qed.

(** What a flat listing says of the objects of the world. *)
Definition complete (u : Url) (w : W) (os : list Object) : Prop :=
  (∀ o e, o ∈ os → obj_err o = Some e → is_no_object e = true →
     ∀ k, (matches u k).1 = true → current_of w (bucket u, k) = None) ∧
  ((∀ o, o ∈ os → obj_err o = None) →
     ∀ k c, (matches u k).1 = true → current_of w (bucket u, k) = Some c →
       ∃ o v, o ∈ os ∧ url o = Some v ∧ path v = k ∧ is_dir (typ o) = false) ∧
  (∀ o v, o ∈ os → url o = Some v → version_id v = [] ∧ is_Some (current_of w (bucket u, path v))).

(** The object of an entry: no error, the current version of an object that is there. *)
Definition plain (u : Url) (w : W) (o : Object) : Prop :=
  obj_err o = None ∧ ∀ v, url o = Some v → version_id v = [] ∧ is_Some (current_of w (bucket u, path v)).

Lemma flat_unversioned u : flat_listing u → version_id u = [].
Proof. intros (_ & Hv & _). unfold is_versioned in Hv. apply orb_false_iff in Hv as [_ Hv%negb_false_iff%bool_decide_eq_true]. done. Qed.

(** A listing of chosen objects and its end, when the objects cover every key. *)
Lemma complete_end u w objs :
  Forall (plain u w) objs →
  (∀ k c, (matches u k).1 = true → current_of w (bucket u, k) = Some c →
     ∃ o v, o ∈ objs ∧ url o = Some v ∧ path v = k ∧ is_dir (typ o) = false) →
  complete u w (objs ++ send_end u (negb (is_nil objs))).
Proof.
  intros Hok Hcov. rewrite Forall_forall in Hok. split_and!.
  - intros o e Ho He _ k Hm. destruct (current_of w _) as [c|] eqn:Hc; [exfalso|done].
    destruct (Hcov k c Hm Hc) as (o' & _ & Ho' & _). destruct objs as [|x objs]; [by apply elem_of_nil in Ho'|].
    cbn [is_nil negb] in Ho. unfold send_end in Ho. cbn [negb andb] in Ho. rewrite app_nil_r in Ho.
    by rewrite (proj1 (Hok o Ho)) in He.
  - intros _ k c Hm Hc. destruct (Hcov k c Hm Hc) as (o & v & Ho & ?). exists o, v. rewrite elem_of_app. by split; [left|].
  - intros o v [Ho|Ho]%elem_of_app Hv; [by apply (Hok o Ho)|]. pose proof (sent_end u u (negb (is_nil objs))) as He.
    unfold send_end in Ho. destruct (_ && _); [|by apply elem_of_nil in Ho]. apply list_elem_of_singleton in Ho as ->. done.
Qed.

(** A listing that a request cut short. *)
Lemma complete_cut u w objs e :
  Forall (plain u w) objs → is_no_object e = false → complete u w (objs ++ [with_error e]).
Proof.
  intros Hok He. rewrite Forall_forall in Hok. split_and!.
  - intros o e' [Ho|Ho%list_elem_of_singleton]%elem_of_app He'.
    + by rewrite (proj1 (Hok o Ho)) in He'.
    + subst o. injection He' as <-. by rewrite He.
  - intros Hall. specialize (Hall (with_error e)). rewrite elem_of_app, list_elem_of_singleton in Hall. by specialize (Hall (or_intror eq_refl)).
  - intros o v [Ho|Ho%list_elem_of_singleton]%elem_of_app Hv; [by apply (Hok o Ho)|by subst o].
Qed.

Lemma content_objects_plain src w cs :
  version_id src = [] → names w (bucket src) cs → Forall (plain src w) (content_objects src cs).
Proof.
  intros Hv Hn. apply Forall_forall. intros o (c & Hin & (raw & Hraw & [_ ->]%send_key_Some)%bind_Some)%list_elem_of_omap.
  split; [done|]. intros v [= <-]. destruct (matches_fields src (percent_decode raw)) as (_ & Hvid & _).
  split; [by rewrite <-Hv|]. apply (Hn c _ Hin). unfold entry_key. by rewrite Hraw.
Qed.

Lemma names_take w b n cs : names w b cs → names w b (take n cs).
Proof. intros Hn e k (i & Hi & _)%elem_of_take. apply Hn. by eapply list_elem_of_lookup_2. Qed.

Lemma page_objects_plain src w p :
  version_id src = [] → p_prefixes p = [] → names w (bucket src) (p_contents p) → Forall (plain src w) (page_objects src p).
Proof. intros Hv Hp Hn. unfold page_objects. rewrite Hp. by apply content_objects_plain. Qed.

(** The pages of a listing that is not cut short. *)
Lemma good_pages_all pages good e :
  good_pages pages = (good, e) →
  match e with Some e => Err e ∈ pages | None => ∀ p, Ok p ∈ pages → p ∈ good end ∧
  (e = None → ∀ e', Err e' ∉ pages) ∧ ∀ p, p ∈ good → Ok p ∈ pages.
Proof.
  revert good e. induction pages as [|[p|e1] pages IH]; intros good e; cbn [good_pages].
  - intros [= <- <-]. split_and!; [by intros p ?%elem_of_nil|by intros _ e' ?%elem_of_nil|by intros p ?%elem_of_nil].
  - destruct (good_pages pages) as [gs e0]. destruct (IH gs e0 eq_refl) as (Hin & Hno & Hg). intros [= <- <-]. split_and!.
    + destruct e0; [by right|]. intros q [[= ->]|Hq]%elem_of_cons; [by left|right; by apply Hin].
    + intros He e' [?|Hq]%elem_of_cons; [done|]. by apply (Hno He e').
    + intros q [->|Hq]%elem_of_cons; [by left|right; by apply Hg].
  - intros [= <- <-]. split_and!; [by left|done|by intros p ?%elem_of_nil].
Qed.

Lemma list_v2_complete s u w os w' :
  list_v2 s u w = (os, w') → flat_listing u → complete u w os.
Proof.
  unfold list_v2. intros Hl Hflat. pose proof (flat_unversioned u Hflat) as Hver. destruct Hflat as (Hdel & _ & Hsa & Hpre).
  revert Hl.
  destruct (list_objects_v2_pages _ _ w) as [pages w1] eqn:Hp. apply v2_spec in Hp as (_ & Herr & Hnames & Hcov).
  intros [= <- _]. pose proof (v2_pages_spec u false pages) as Hv. destruct (good_pages pages) as [good e] eqn:Hg.
  apply good_pages_all in Hg as (Hgood & Hno & Hin). cbv zeta in Hv. rewrite Hv. set (objs := concat _).
  cbn [list_request l_delimiter l_start_after l_bucket l_prefix] in Hcov, Hnames. rewrite Hdel in Hnames.
  assert (Hobjs : Forall (plain u w) objs).
  { apply Forall_concat, Forall_map, Forall_forall. intros p Hp%Hin. destruct (Hnames eq_refl p Hp). by apply page_objects_plain. }
  destruct e as [e|]; [apply complete_cut; [done|by apply Herr]|]. cbn [orb]. apply complete_end; [done|].
  intros k c Hm Hc. rewrite Hdel, Hsa in Hcov.
  destruct (Hcov eq_refl eq_refl (Hno eq_refl) k c Hc (Hpre k Hm)) as (p & e & Hpin & Hein & Hk).
  destruct (content_covers u (p_contents p) k Hm ltac:(by exists e)) as (o & v & Ho & Hu & Hpath & Hd).
  exists o, v. split; [|done]. apply list_elem_of_In, in_concat. exists (page_objects u p). split.
  - apply in_map, list_elem_of_In. by apply Hgood.
  - apply list_elem_of_In. unfold page_objects. apply elem_of_app. by right.
Qed.

Lemma list_v1_complete_world fuel s u w os w' :
  list_objects_v1 fuel s u w = Some (os, w') → flat_listing u → complete u w os.
Proof.
  intros Hl Hflat. pose proof (flat_unversioned u Hflat) as Hver. destruct Hflat as (Hdel & _ & _ & Hpre).
  destruct (v1_serves s u w Hdel) as (entries & Hserve & Hnd & Hkeys & Hnames & Hcov).
  apply (v1_loop_more _ (S (length entries))) in Hl.
  destruct (v1_loop_spec _ s u entries (fuel + S (length entries)) u false None [] w Hserve (reflexivity w)
              (same_filter_refl u) Hnd Hkeys eq_refl) as (out & w2 & Hrun & Hout); [cbn; lia|].
  rewrite Hl in Hrun. injection Hrun as <- _. cbn [after_marker orb] in Hout.
  destruct Hout as [->|(k & e & -> & m & w3 & w4 & He)].
  - apply complete_end; [by apply content_objects_plain|]. intros k c Hm Hc. by apply content_covers, (Hcov k c Hc), Hpre.
  - apply complete_cut; [apply content_objects_plain; [done|by apply names_take]|]. apply v1_keeps in He as [_ He]. by apply He.
Qed.

Lemma list_all_complete fuel s u w os w' :
  list_all fuel s u w = (os, w') → flat_listing u → complete u w os.
Proof.
  intros Hl Hflat. pose proof Hflat as (_ & Hver & _). revert Hl. unfold list_all, S3_list. rewrite Hver.
  destruct (s_use_v1 s).
  - destruct (list_objects_v1 fuel s u w) as [[os1 w1]|] eqn:Hl; cbn [default from_option id]; intros [= <- _].
    + by eapply list_v1_complete_world.
    + by apply (complete_cut u w []).
  - cbn [default from_option id]. intros Hl. by eapply list_v2_complete.
Qed.
End BackendListing.

(** ** The other operations *)

Section BackendOps.
Context `{BackendLaws, !Unordered}.

#[local] Abbreviation same_objs := (same_objs obj_of).

Lemma touches_current l w w' k : touches file_of obj_of l w w' → k ≠ l → current_of w' k = current_of w k.
Proof. intros [_ Ho] Hk. apply Ho. by destruct k. Qed.

Lemma S3_stat_law s u w r w' :
  S3_stat s u w = (r, w') → same_objs w w' ∧
  (version_id u = [] →
   match r with
   | Ok o => ∃ c, current_of w (loc u) = Some c ∧ size o = Z.of_nat (length c)
   | Err e => is_not_found e = true → current_of w (loc u) = None
   end).
Proof.
  unfold S3_stat. destruct (head_object _ _ w) as [[out|e] w1] eqn:Hh; pose proof (head_same _ _ _ _ _ Hh) as (_ & Hs & _);
    intros [= <- <-]; (split; [done|]); intros Hv;
    assert (Hk : request_key (request s u None) = ((loc u).1, (loc u).2, None)) by (unfold request_key; cbn; by rewrite Hv).
  - destruct (head_exists _ _ _ _ _ Hh) as (c & Hc & _). pose proof (head_len _ _ _ _ _ _ Hh Hc) as Hlen. rewrite Hk in Hc.
    exists c. split; [done|]. cbn. by rewrite Hlen.
  - apply head_missing in Hh. destruct (sdk_not_found e); [intros _; by rewrite Hk in Hh|by rewrite Hh].
Qed.

Lemma head_size_exists s u w n w' :
  head_size s u w = (Ok n, w') → ∃ f, obj_of w (url_key u) = Some f ∧ Z.of_nat (length f) <= u64_max.
Proof.
  unfold head_size, mbind, send, mret. destruct (head_object _ _ w) as [[out|e] w1] eqn:Hh; intros [= _ _].
  destruct (head_exists _ _ _ _ _ Hh) as (f & Hf & Hlen). exists f. split; [exact Hf|]. unfold i64_max, u64_max in *. lia.
Qed.

(** One copy request: the destination is the source, or nothing changed. *)
Lemma copy_single_cases s src dst m w r w' :
  object_url src → copy_object_single s src dst m w = (r, w') →
  match r with
  | Ok _ => ∃ f, obj_of w (url_key src) = Some f ∧ obj_of w' (current_key dst) = Some f
  | Err _ => same_objs w w'
  end.
Proof.
  intros Hsrc. unfold copy_object_single.
  destruct (if if_none_match m then let '(r, w) := head_size s dst w in (is_ok r, w) else (false, w)) as [ex w1] eqn:Hex.
  assert (Ho1 : same_objs w w1).
  { destruct (if_none_match m); [|by injection Hex as _ <-].
    destruct (head_size s dst w) as [rh wh] eqn:Hh. injection Hex as _ <-. by destruct (head_size_ok _ _ _ _ _ Hh) as [(_ & ? & _) _]. }
  destruct ex; [by intros [= <- <-]|]. unfold send. destruct (copy_object _ _ _ _ w1) as [rc w2] eqn:Hc.
  destruct (copy_spec _ _ _ _ _ _ _ _ Hc (copy_source_header_key _ Hsrc)) as (_ & Hok & Herr).
  destruct rc as [[]|e]; intros [= <- <-]; [|by transitivity w1; [|apply Herr]].
  destruct (Hok eq_refl) as (f & Hf & Hd). rewrite Ho1 in Hf. by exists f.
Qed.

Lemma copy_fall_back_Ok s src dst m w w' :
  object_url src → 5 * 1024 * 1024 <= s_part_size s → copy_or_fall_back s src dst m w = (Ok tt, w') →
  ∃ f, obj_of w (url_key src) = Some f ∧ obj_of w' (current_key dst) = Some f.
Proof.
  intros Hsrc Hps. unfold copy_or_fall_back. destruct (copy_object_single s src dst m w) as [rc w1] eqn:Hc.
  apply copy_single_cases in Hc; [|done]. destruct rc as [[]|e]; [by intros [= <-]|]. destruct (is_copy_source_too_large e); [|done].
  intros [(e' & _ & ?)|(n & w2 & Hh & Hr)]%mbind_inv; [done|]. pose proof (head_size_exists _ _ _ _ _ Hh) as (f & Hf & Hmax).
  apply head_size_ok in Hh as [(_ & Ho & _) Hn]. rewrite (Hn f n Hf eq_refl) in Hr. exists f. split; [by rewrite <-Hc|].
  assert (Hf2 : obj_of w2 (url_key src) = Some f) by by rewrite Ho.
  destruct (copy_multipart_ok _ _ _ _ _ _ _ _ Hsrc Hf2 Hps Hmax Hr) as (_ & Hd & _). by apply Hd.
Qed.

Lemma S3_copy_Ok s src dst m w w' :
  s_dry_run s = false → object_url src → 5 * 1024 * 1024 <= s_part_size s → S3_copy s src dst m w = (Ok tt, w') →
  ∃ f, obj_of w (url_key src) = Some f ∧ obj_of w' (current_key dst) = Some f.
Proof.
  intros Hdry Hsrc Hps. unfold S3_copy. rewrite Hdry. destruct (_ <? _); [|by apply copy_fall_back_Ok].
  intros [(e' & _ & ?)|(n & w1 & Hh & Hr)]%mbind_inv; [done|]. pose proof (head_size_exists _ _ _ _ _ Hh) as (f & Hf & Hmax).
  apply head_size_ok in Hh as [(_ & Ho & _) Hn]. assert (Hf1 : obj_of w1 (url_key src) = Some f) by by rewrite Ho.
  destruct (n >? _).
  - rewrite (Hn f n Hf eq_refl) in Hr. exists f. split; [done|].
    destruct (copy_multipart_ok _ _ _ _ _ _ _ _ Hsrc Hf1 Hps Hmax Hr) as (_ & Hd & _). by apply Hd.
  - destruct (copy_fall_back_Ok _ _ _ _ _ _ Hsrc Hps Hr) as (g & Hg & Hd). exists g. by rewrite <-Ho.
Qed.

Lemma S3_delete_law s u w r w' :
  S3_delete s u w = (r, w') →
  (∀ l, l ≠ loc u → current_of w' l = current_of w l) ∧
  (s_dry_run s = false → version_id u = [] → r = Ok tt → current_of w' (loc u) = None).
Proof.
  unfold S3_delete. destruct (s_dry_run s); [by intros [= _ <-]|]. unfold send.
  destruct (delete_object _ _ w) as [rd w1] eqn:Hd. apply delete_spec in Hd as [Ht Hgone].
  assert (Hf : ∀ l, l ≠ loc u → current_of w1 l = current_of w l) by (intros l; by apply (touches_current (loc u))).
  destruct rd as [[]|e]; intros [= <- <-]; (split; [done|]); intros _ Hv Hr; [|done].
  apply Hgone; [|done]. cbn. by rewrite Hv.
Qed.

Lemma read_range_same s u o n w r w' : read_range s u o n w = (r, w') → same_objs w w'.
Proof.
  unfold read_range. destruct (n =? 0); [by intros [= _ <-]|]. destruct (get_object _ _ w) as [[resp|e] w1] eqn:Hg;
    apply get_same in Hg as (_ & Hs & _); [by intros [= _ <-]|]. destruct (is_range_not_satisfiable _); by intros [= _ <-].
Qed.

(** ** Batches *)

Lemma locs_paths b us : Forall (λ u, bucket u = b) us → map loc us = map (pair b) (map path us).
Proof.
  intros Hb. rewrite map_map. apply map_ext_in. intros u Hu%list_elem_of_In. rewrite Forall_forall in Hb.
  unfold loc. by rewrite (Hb u Hu).
Qed.

Lemma delete_chunk_law s b c w os w' :
  delete_chunk s c w = (os, w') → Forall (λ u, bucket u = b) c →
  (∀ l, l ∉ map loc c → current_of w' l = current_of w l) ∧
  (s_dry_run s = false → (∀ o, o ∈ os → obj_err o = None) → ∀ l, l ∈ map loc c → current_of w' l = None).
Proof.
  intros Hd Hb. rewrite (locs_paths b) by done. revert Hd. unfold delete_chunk.
  destruct c as [|u0 c]; [by intros [= _ <-]; split; [|intros _ _ l ?%elem_of_nil]|].
  destruct (s_dry_run s); [by intros [= _ <-]|].
  assert (Hb0 : bucket u0 = b) by by apply Forall_cons in Hb as [? _]. rewrite Hb0. generalize (map path (u0 :: c)). intros keys.
  destruct (delete_objects _ b keys _ w) as [r w1] eqn:Hr. apply delete_all_spec in Hr as [Hf Hgone].
  assert (Hsame : ∀ l, l ∉ map (pair b) keys → current_of w1 l = current_of w l) by (intros [x k] Hl; by apply Hf).
  destruct r as [out|e]; intros [= <- <-]; (split; [done|]); intros _ Hok l Hl.
  - apply list_elem_of_fmap in Hl as (k & -> & Hk). apply (Hgone out eq_refl k Hk).
    intros ([k' m] & Heq & He)%list_elem_of_fmap.
    assert (Ho : obj_err (deleted_object (result_ok (deleted_url b k')) (Some (anyhow (default ($"delete failed") m)))) = None); [|done].
    apply Hok, elem_of_app. right. apply list_elem_of_fmap. by exists (k', m).
  - by specialize (Hok _ (list_elem_of_here _ _)).
Qed.

Lemma delete_chunks_law s b cs w :
  Forall (λ u, bucket u = b) (concat cs) →
  (∀ l, l ∉ map loc (concat cs) → current_of (delete_chunks s cs w).2 l = current_of w l) ∧
  (s_dry_run s = false → (∀ o, o ∈ concat (delete_chunks s cs w).1 → obj_err o = None) →
   ∀ l, l ∈ map loc (concat cs) → current_of (delete_chunks s cs w).2 l = None).
Proof.
  revert w. induction cs as [|c cs IH]; intros w; cbn [concat delete_chunks].
  { intros _. split; [done|]. by intros _ _ l ?%elem_of_nil. }
  intros [Hbc Hb]%Forall_app. destruct (delete_chunk s c w) as [os w1] eqn:Hc. apply (delete_chunk_law s b) in Hc as [Hf1 Hg1]; [|done].
  destruct (IH w1 Hb) as [Hf2 Hg2]. destruct (delete_chunks s cs w1) as [rest w2]. cbn [fst snd concat] in *. rewrite map_app.
  split.
  - intros l [? ?]%not_elem_of_app. by rewrite Hf2, Hf1.
  - intros Hdry Hok l Hl. assert (Hok2 : ∀ o, o ∈ concat rest → obj_err o = None) by (intros; apply Hok, elem_of_app; by right).
    destruct (decide (l ∈ map loc (concat cs))) as [Hin|Hnin]; [by apply Hg2|]. apply elem_of_app in Hl as [Hl|]; [|done].
    rewrite Hf2 by done. apply Hg1; [done| |done]. intros. apply Hok, elem_of_app. by left.
Qed.

Lemma multi_delete_law_sdk s b us w os w' :
  multi_delete s us w = (os, w') → Forall (λ u, bucket u = b) us →
  (∀ l, l ∉ map loc us → current_of w' l = current_of w l) ∧
  (s_dry_run s = false → (∀ o, o ∈ os → obj_err o = None) → ∀ l, l ∈ map loc us → current_of w' l = None).
Proof.
  unfold multi_delete. destruct (multi_delete_chunks s [] us w ltac:(done)) as (cs & Hcat & _ & ->). cbn [app] in Hcat.
  subst us. intros [= <- <-]. apply delete_chunks_law.
Qed.

Lemma remove_bucket_sdk s b w r w' :
  remove_bucket s b w = (r, w') →
  same_objs w w' ∧ (s_dry_run s = false → r = Ok tt → ∀ k, current_of w (b, k) = None).
Proof.
  unfold remove_bucket. destruct (s_dry_run s); [by intros [= _ <-]|]. unfold send.
  destruct (delete_bucket _ b w) as [[[]|e] w1] eqn:Hd; apply delete_bucket_spec in Hd as [Hs Hgone]; intros [= <- <-]; (split; [done|]);
    intros _ Hr; [by apply Hgone|done].
Qed.

Lemma S3Client_new_law u o w r w' :
  S3Client_new u o w = (r, w') →
  w' = w ∧ (dry_run o = false → ∀ s, r = Ok s → s_dry_run s = false ∧ 5 * 1024 * 1024 <= s_part_size s).
Proof.
  unfold S3Client_new. intros [= <- <-]. split; [done|]. intros Hdry s (p & _ & Hs)%result_bind_Ok.
  apply result_bind_Ok in Hs as (h & _ & [= <-]). cbn. rewrite Hdry. lia.
Qed.
End BackendOps.

(** ** The interfaces *)

Section Implements.
Context `{BackendLaws, !Unordered}.

(** The current objects; a live client asks S3, in parts of the size S3 requires. *)
#[export] Instance sdk_view (fuel : nat) : @S3View _ W (sdk_backend fuel) := {|
  obj := current_of;
  live := (λ s, s_dry_run s = false ∧ 5 * 1024 * 1024 <= s_part_size s) : @S3 _ _ (sdk_backend fuel) → Prop;
|}.

#[export] Instance sdk_s3_laws (fuel : nat) : @S3Laws _ W (sdk_backend fuel) (sdk_view fuel).
Proof.
  split; cbn [S3_new s3_stat s3_list s3_copy s3_delete s3_multi_delete s3_upload s3_read_range sdk_backend obj live sdk_view].
  - intros u o w r w'. apply S3Client_new_law.
  - intros s u w r w' [Hs Hr]%S3_stat_law. split; [intros l; apply Hs|done].
  - intros s u w os w' [Hs Hall]%list_all_sent. split; [intros l; apply Hs|]. intros o v Ho Hv.
    rewrite Forall_forall in Hall. exact (proj1 (Hall o Ho v Hv)).
  - intros s u w os w' [Hs Hall]%list_all_sent o v Ho Hv. rewrite Forall_forall in Hall. exact (proj2 (Hall o Ho v Hv)).
  - intros s u w os w'. apply list_all_complete.
  - intros s src dst md w r w' Hc. pose proof (copy_touches_only _ _ _ _ _ _ _ Hc) as Ht. split.
    + intros l. by apply (touches_current (loc dst)).
    + intros [Hdry Hps] Hsrc Hv ->. destruct (S3_copy_Ok _ _ _ _ _ _ Hdry Hsrc Hps Hc) as (f & Hf & Hd).
      unfold url_key in Hf. rewrite Hv in Hf. unfold current_key in Hd. split; [exact (eq_trans Hd (eq_sym Hf))|by exists f].
  - intros s u w r w' [Hf Hg]%S3_delete_law. split; [done|]. intros [Hdry _]. exact (Hg Hdry).
  - intros s us b w os w' Hd Hb. destruct (multi_delete_law_sdk _ _ _ _ _ _ Hd Hb) as [Hf Hg]. split; [done|].
    intros [Hdry _]. exact (Hg Hdry).
  - intros s p dst md w r w' Hu%upload_touches l. by apply (touches_current (loc dst)).
  - intros s u o n w r w' Hs%read_range_same l. apply Hs.
Qed.

#[export] Instance sdk_bucket_laws (fuel : nat) : @BucketOpsLaws _ W (sdk_backend fuel) (sdk_view fuel) (sdk_buckets fuel).
Proof.
  split. cbn. intros s b w r w' [Hs Hg]%remove_bucket_sdk. split; [intros l; apply Hs|]. intros [Hdry _]. by apply Hg.
Qed.

End Implements.
