(* ===== verification/Cat.v ===== *)
(** * [cat] (src/src/command/cat.rs)

    Writing to standard output does not fail here; the bytes of a chunk are one [Raw] line
    of the console. *)

From S2P Require Import Prelude RustStr Btree Strutil Url Storage Fs S3Client Transfer Listing Output Units Rm Bucket Tasks Backend.

Local Open Scope Z_scope.

Record CatArgs := { cat_src : str; cat_version_id : option str }.

Section Cat.
Context `{RegexLib} {W : Type} `{!Os W, !Sdk W, !Tokio W, !Unordered}.

Definition cat_url (a : CatArgs) : result Url Error :=
  result_map_err anyhow (Url_new (cat_src a)
    {| opt_raw := false; opt_version_id := cat_version_id a; opt_all_versions := false; opt_start_after := None |}).

Definition cat_expands (u : Url) : bool := is_remote u && (is_wildcard u || is_bucket u || is_prefix u).

(** The loop over a body: [wrap] is what an error becomes. *)
Fixpoint write_body (wrap : Error → Error) (body : list (result str Error)) : M (Console W) unit :=
  match body with
  | [] => mret tt
  | Err e :: _ => mfail (wrap e)
  | Ok chunk :: body => let! _ := write_raw chunk in write_body wrap body
  end.

(** The loop over the listing. *)
Fixpoint cat_sources (objs : list Object) : result (list Url) Error :=
  match objs with
  | [] => Ok []
  | o :: objs =>
      match obj_err o with
      | Some e => Err e
      | None =>
          let? srcs := cat_sources objs in
          Ok (if is_dir (typ o) then srcs else match url o with Some u => u :: srcs | None => srcs end)
      end
  end.

Definition cat_error (src : Url) (e : Error) : Error :=
  anyhow ($"cat " ++ show_url src ++ $": " ++ show_error_alt e).

Definition by_path (a b : Url) : bool := str_leb (path a) (path b).

Definition cat_one (s : S3Client) (src : Url) : M (Console W) unit :=
  let! body := (λ c, let '(r, c) := io (s3_read s src) c in (result_map_err (cat_error src) r, c)) in
  write_body (cat_error src) body.

Fixpoint cat_all (s : S3Client) (srcs : list Url) : M (Console W) unit :=
  match srcs with
  | [] => mret tt
  | src :: srcs => let! _ := cat_one s src in cat_all s srcs
  end.

(** [fuel] bounds the pages of the listing. *)
Definition cat_expanded (fuel : nat) (s : S3Client) (u : Url) : M (Console W) unit :=
  let! objs := io' (list_all fuel s u) in
  let! srcs := mlift (cat_sources objs) in
  if is_nil srcs then mfail (anyhow ($"no objects matched " ++ show_url u))
  else cat_all s (sort_by by_path srcs).

Definition cat_run (fuel : nat) (opts : Options) (a : CatArgs) : M (Console W) unit :=
  let! u := mlift (cat_url a) in
  if cat_expands u then
    if is_some_b (cat_version_id a)
    then mfail (anyhow ($"--version-id cannot be combined with a wildcard/prefix/bucket source"))
    else let! s := io (S3Client_new u opts) in cat_expanded fuel s u
  else if is_remote u then
    let! s := io (S3Client_new u opts) in
    let! body := io (s3_read s u) in
    write_body id body
  else
    λ c, match read_bytes (absolute u) (world c) with
         | Ok data => write_raw data c
         | Err e => (Err (io_error e), c)
         end.
End Cat.
