(* ===== verification/CatSpec.v ===== *)
(** * What [cat] writes *)

From S2P Require Import Prelude RustStr Btree Strutil Url Storage Fs Hoare Tasks S3Client Transfer TransferParts Store TransferSpec Listing Output.
From S2P Require Import Units Rm Bucket Backend Cat.

Local Open Scope Z_scope.

Section CatSpec.
Context `{RegexLib} {W : Type} `{!Os W, !Sdk W, !Tokio W, !Unordered, !StoreLaws W}.

Lemma by_path_total a b : by_path a b = false → by_path b a = true.
Proof. unfold by_path. rewrite str_leb_false, str_leb_true. by left. Qed.

Lemma by_path_trans a b c : by_path a b = true → by_path b c = true → by_path a c = true.
Proof. apply str_leb_trans. Qed.

(** The object a URL names, in its version. *)
Definition url_key (u : Url) : objkey := (bucket u, path u, nonempty (Some (version_id u))).

(** The sources of a listing without errors. *)
Definition sources (objs : list Object) : list Url :=
  omap (λ o, if is_dir (typ o) then None else url o) objs.

Lemma cat_sources_spec objs :
  cat_sources objs = match first_error objs with Some e => Err e | None => Ok (sources objs) end.
Proof.
  induction objs as [|o objs IH]; [done|]. cbn [cat_sources first_error]. destruct (obj_err o); [done|].
  rewrite IH. destruct (first_error objs); [done|]. cbn. by destruct (is_dir (typ o)), (url o).
Qed.

(** The lines [out] were written, and no file or object changed since [w]. *)
Definition wrote (c : Console W) (w : W) (out : list str) (c' : Console W) : Prop :=
  printed c' = printed c ++ map Raw out ∧ same file_of obj_of part_of w (world c').

Lemma write_body_run wrap body (c : Console W) r c' :
  write_body wrap body c = (r, c') →
  world c' = world c ∧ ∃ out, printed c' = printed c ++ map Raw out ∧
  (r = Ok tt → collect_body body = Ok (concat out)).
Proof.
  revert c. induction body as [|[chunk|e] body IH]; intros c; cbn [write_body].
  - intros [= <- <-]. split; [done|]. exists []. by rewrite app_nil_r.
  - intros Hr. destruct (IH _ Hr) as (Hw & out & Hp & Hok). split; [done|]. exists (chunk :: out). split.
    + rewrite Hp. cbn. by rewrite <-app_assoc.
    + intros Hrok. cbn. by rewrite (Hok Hrok).
  - intros [= <- <-]. split; [done|]. exists []. by rewrite app_nil_r.
Qed.

(** One body read and written. *)
Lemma read_and_write s u wrap wrap' (c : Console W) r c' :
  (let! body := (λ c, let '(r, c) := io (s3_read s u) c in (result_map_err wrap r, c)) in write_body wrap' body) c = (r, c') →
  ∃ out, wrote c (world c) out c' ∧ (r = Ok tt → obj_of (world c) (url_key u) = Some (concat out)).
Proof.
  unfold mbind at 1, io, s3_read, send, mbind. destruct (get_object _ _ (world c)) as [[resp|e] w1] eqn:Hg;
    pose proof (get_same _ _ _ _ _ Hg) as Hs; cbn [result_map_err].
  - intros (Hw & out & Hp & Hok)%write_body_run. exists out. split; [split; [exact Hp|by rewrite Hw]|].
    intros Hr. exact (get_whole _ (request s u None) _ _ _ _ eq_refl Hg (Hok Hr)).
  - intros [= <- <-]. exists []. split; [split; [by rewrite app_nil_r|done]|done].
Qed.

Lemma wrote_trans c w out1 c1 out2 c2 :
  wrote c w out1 c1 → wrote c1 (world c1) out2 c2 → wrote c w (out1 ++ out2) c2.
Proof.
  intros [Hp1 (Hf1 & Ho1 & Hq1)] [Hp2 (Hf2 & Ho2 & Hq2)]. split; [by rewrite Hp2, Hp1, map_app, app_assoc|].
  split_and!; [intros p; by rewrite Hf2|intros o; by rewrite Ho2|intros i n; by rewrite Hq2].
Qed.

(** The sources are written one after the other; a failure stops at the first that fails. *)
Lemma cat_all_run s srcs (c : Console W) r c' :
  cat_all s srcs c = (r, c') →
  ∃ out, wrote c (world c) out c' ∧ ∃ read bodies, read `prefix_of` srcs ∧
    Forall2 (λ u b, obj_of (world c) (url_key u) = Some b) read bodies ∧
    concat bodies `prefix_of` concat out ∧ (r = Ok tt → read = srcs ∧ concat out = concat bodies).
Proof.
  revert c. induction srcs as [|u srcs IH]; intros c; cbn [cat_all].
  { intros [= <- <-]. exists []. split; [split; [by rewrite app_nil_r|done]|]. exists [], []. by split_and!. }
  unfold mbind at 1. destruct (cat_one s u c) as [r1 c1] eqn:Hone. apply read_and_write in Hone as (out1 & Hw1 & Hok1).
  destruct r1 as [[]|e].
  - intros Hall. destruct (IH _ Hall) as (out2 & Hw2 & read & bodies & Hpre & Hb & Hcat & Hend).
    exists (out1 ++ out2). split; [by eapply wrote_trans|]. exists (u :: read), (concat out1 :: bodies). split_and!.
    + by apply prefix_cons.
    + constructor; [by apply Hok1|]. eapply Forall2_impl; [exact Hb|]. cbn. intros v b Hv.
      destruct Hw1 as [_ (_ & Ho & _)]. by rewrite <-Ho.
    + rewrite concat_app. by apply prefix_app.
    + intros Hr. destruct (Hend Hr) as [-> Heq]. split; [done|]. by rewrite concat_app, Heq.
  - intros [= <- <-]. exists out1. split; [done|]. exists [], []. split_and!; [apply prefix_nil|constructor|apply prefix_nil|done].
Qed.

End CatSpec.
