(* ===== verification/Select.v ===== *)
(** * [select] (src/src/command/select.rs)

    S3's SelectObjectContent is the class [SelectSdk]: its answer is the events the stream
    yields, or the error a read of it returns. *)

From S2P Require Import Prelude RustStr Btree Strutil Url Storage Fs S3Client Transfer Listing Output Units Rm Bucket Tasks Backend.

Local Open Scope Z_scope.

(** ** The request *)

Inductive JsonType := Lines | Document.
Inductive FileHeaderInfo := HeaderUse | HeaderIgnore | HeaderNone.
(** [CompressionFrom s] is [CompressionType::from(s)]. *)
Inductive CompressionType := Gzip | Bzip2 | CompressionFrom (s : str).

Inductive InputFormat :=
  | JsonInput (t : JsonType)
  | CsvInput (field_delimiter : str) (header : FileHeaderInfo)
  | ParquetInput.
Record InputSerialization := { in_format : InputFormat; in_compression : option CompressionType }.
Inductive OutputSerialization := JsonOutput | CsvOutput (field_delimiter : str).

Record SelectRequest := {
  sel_bucket : str;
  sel_key : str;
  sel_expression : str;
  sel_input : InputSerialization;
  sel_output : OutputSerialization;
}.

Inductive SelectEvent := Records (payload : option str) | End_ | OtherEvent.

Class SelectSdk (W : Type) `{!Sdk W} := {
  select_object_content : Handle → SelectRequest → W → result (list (result SelectEvent Error)) SdkError * W;
}.

(** ** The query *)

Definition DEFAULT_QUERY : str := $"SELECT * FROM s3object s".

Record SelectQuery := {
  expression : str;
  input_format : str;
  compression : str;
  input_structure : str;
  q_header_info : str;
  output_format : str;
}.

Record SelectArgs := {
  sel_src : str;
  sel_query : str;
  sel_input_format : str;
  sel_compression : str;
  sel_json_type : str;
  sel_delimiter : str;
  sel_use_header : str;
  sel_output_format : option str;
  sel_exclude : list str;
  sel_version_id : option str;
  sel_all_versions : bool;
}.

Section Query.
Context `{UnicodeCase}.

Definition compression_type (c : str) : option CompressionType :=
  let l := to_lowercase c in
  if bool_decide (l = []) || bool_decide (l = $"none") then None
  else if bool_decide (l = $"gzip") then Some Gzip
  else if bool_decide (l = $"bzip2") then Some Bzip2
  else Some (CompressionFrom (to_uppercase l)).

Definition file_header_info (s : str) : FileHeaderInfo :=
  let u := to_uppercase s in
  if bool_decide (u = $"USE") then HeaderUse
  else if bool_decide (u = $"IGNORE") then HeaderIgnore
  else HeaderNone.

Definition or_comma (s : str) : str := if bool_decide (s = []) then $"," else s.

Definition input_serialization (q : SelectQuery) : result InputSerialization Error :=
  let? format :=
    if bool_decide (input_format q = $"json") then
      Ok (JsonInput (if bool_decide (to_lowercase (input_structure q) = $"document") then Document else Lines))
    else if bool_decide (input_format q = $"csv") then
      Ok (CsvInput (or_comma (input_structure q)) (file_header_info (q_header_info q)))
    else if bool_decide (input_format q = $"parquet") then Ok ParquetInput
    else Err (anyhow ($"input format is not valid: " ++ input_format q)) in
  Ok {| in_format := format;
        in_compression := if bool_decide (input_format q = $"parquet") then None else compression_type (compression q) |}.

Definition output_serialization (q : SelectQuery) : result OutputSerialization Error :=
  if bool_decide (output_format q = $"json") then Ok JsonOutput
  else if bool_decide (output_format q = $"csv") then
    Ok (CsvOutput (if bool_decide (input_format q = $"json") then $"," else or_comma (input_structure q)))
  else Err (anyhow ($"output serialization is not valid: " ++ output_format q)).

(** [SelectQuery::from_args] *)
Definition from_args (a : SelectArgs) : SelectQuery :=
  {| expression := sel_query a;
     input_format := sel_input_format a;
     compression := sel_compression a;
     input_structure := if bool_decide (sel_input_format a = $"json") then sel_json_type a
                        else if bool_decide (sel_input_format a = $"csv") then sel_delimiter a
                        else [];
     q_header_info := sel_use_header a;
     output_format := match sel_output_format a with
                      | Some f => f
                      | None => if bool_decide (sel_input_format a = $"parquet") then $"json" else sel_input_format a
                      end |}.
End Query.

Section Select.
Context `{RegexLib, UnicodeCase} {W : Type} `{!Os W, !Sdk W, !SelectSdk W, !Tokio W, !Unordered}.

(** The loop over the event stream. *)
Fixpoint write_events (payload : list (result SelectEvent Error)) : M (Console W) unit :=
  match payload with
  | [] => mret tt
  | Err e :: _ => mfail e
  | Ok (Records (Some blob)) :: payload => let! _ := write_raw blob in write_events payload
  | Ok End_ :: _ => mret tt
  | Ok _ :: payload => write_events payload
  end.

(** [S3::select] *)
Definition select (s : S3Client) (src : Url) (q : SelectQuery) : M (Console W) unit :=
  if s_dry_run s then mret tt
  else
    let! input := mlift (input_serialization q) in
    let! output := mlift (output_serialization q) in
    let! payload := io (send (select_object_content (s_client s)
      {| sel_bucket := bucket src; sel_key := path src; sel_expression := expression q;
         sel_input := input; sel_output := output |})) in
    write_events payload.

(** [ExcludeFilter]: its regexes, built by the loop of the filters. *)
Definition ExcludeFilter_new (excludes : list str) : result (list re) Error := result_map_err anyhow (compile_globs excludes).
Definition is_excluded (patterns : list re) (key : str) : bool := existsb (λ re, is_match re key) patterns.

(** The loop over the listing; skipping a glacier object is announced. *)
Fixpoint select_sources (exclude : list re) (objs : list Object) : M (Console W) (list Url) :=
  match objs with
  | [] => mret []
  | o :: objs =>
      match obj_err o with
      | Some e => mfail e
      | None =>
          if is_dir (typ o) then select_sources exclude objs
          else
            match url o with
            | None => select_sources exclude objs
            | Some u =>
                if is_glacier (storage_class o) then
                  let! _ := complain ($"skipping glacier object " ++ show_url u) in select_sources exclude objs
                else if is_excluded exclude (relative u) then select_sources exclude objs
                else let! srcs := select_sources exclude objs in mret (u :: srcs)
            end
      end
  end.

Definition by_path_version (a b : Url) : bool :=
  if bool_decide (path a = path b) then str_leb (version_id a) (version_id b) else str_leb (path a) (path b).

(** The loop over the sources: whether one failed. *)
Fixpoint select_all (s : S3Client) (q : SelectQuery) (srcs : list Url) (had_error : bool) : M (Console W) bool :=
  match srcs with
  | [] => mret had_error
  | src :: srcs =>
      let! r := attempt (select s src q) in
      match r with
      | Ok _ => select_all s q srcs had_error
      | Err e =>
          let! _ := complain ($"ERROR select " ++ show_url src ++ $": " ++ show_error_alt e) in
          select_all s q srcs true
      end
  end.

(** [fuel] bounds the pages of the listing. *)
Definition select_expanded (fuel : nat) (s : S3Client) (u : Url) (q : SelectQuery) (exclude : list re) : M (Console W) unit :=
  let! objs := io' (list_all fuel s u) in
  let! srcs := select_sources exclude objs in
  if is_nil srcs then mfail (anyhow ($"no objects matched " ++ show_url u))
  else
    let! had_error := select_all s q (sort_by by_path_version srcs) false in
    if had_error then mfail (anyhow ($"select failed for one or more objects")) else mret tt.

Definition select_url (a : SelectArgs) : result Url Error :=
  result_map_err anyhow (Url_new (sel_src a)
    {| opt_raw := false; opt_version_id := sel_version_id a; opt_all_versions := sel_all_versions a;
       opt_start_after := None |}).

Definition select_run (fuel : nat) (opts : Options) (a : SelectArgs) : M (Console W) unit :=
  let! u := mlift (select_url a) in
  if negb (is_remote u) then mfail (anyhow ($"source must be remote"))
  else if bool_decide (sel_query a = []) then mfail (anyhow ($"query must be non-empty"))
  else
    let q := from_args a in
    let! s := io (S3Client_new u opts) in
    if negb (is_wildcard u) && negb (is_bucket u) && negb (is_prefix u) then select s u q
    else
      let! exclude := mlift (ExcludeFilter_new (sel_exclude a)) in
      select_expanded fuel s u q exclude.
End Select.
