(* ===== verification/SelectSpec.v ===== *)
(** * What [select] queries and writes *)

From S2P Require Import Prelude RustStr Btree Strutil Url Storage Fs Hoare Tasks S3Client Transfer Listing Output.
From S2P Require Import Units Rm Bucket Backend Select.

Local Open Scope Z_scope.

(** ** The query built from the arguments *)

Section Query.
Context `{UnicodeCase}.

(** The values the argument parser lets through. *)
Definition accepted (a : SelectArgs) : Prop :=
  sel_input_format a ∈ [$"json"; $"csv"; $"parquet"] ∧
  match sel_output_format a with Some f => f ∈ [$"json"; $"csv"] | None => True end.

(** They always make a request. *)
Lemma accepted_serialises a :
  accepted a → is_ok (input_serialization (from_args a)) = true ∧ is_ok (output_serialization (from_args a)) = true.
Proof.
  unfold accepted, input_serialization, output_serialization, from_args. cbn [input_format output_format].
  intros [Hi Ho]. rewrite !elem_of_cons, elem_of_nil in Hi.
  assert (Hout : ∀ f, f ∈ [$"json"; $"csv"] → f = $"json" ∨ f = $"csv") by (intros f; rewrite !elem_of_cons, elem_of_nil; tauto).
  destruct Hi as [->|[->|[->|[]]]]; (split; [done|]);
    (destruct (sel_output_format a) as [f|]; [destruct (Hout f Ho) as [->| ->]|]; done).
Qed.
End Query.

Section SelectSpec.
Context `{RegexLib, UnicodeCase} {W : Type} `{!Os W, !Sdk W, !SelectSdk W, !Tokio W, !Unordered}.

(** ** One query *)

(** What an event stream writes, and the error it ends with. *)
Fixpoint records (payload : list (result SelectEvent Error)) : list str * option Error :=
  match payload with
  | [] => ([], None)
  | Err e :: _ => ([], Some e)
  | Ok End_ :: _ => ([], None)
  | Ok (Records (Some blob)) :: payload => let '(out, e) := records payload in (blob :: out, e)
  | Ok _ :: payload => records payload
  end.

(** The request for an object. *)
Definition request_of (u : Url) (q : SelectQuery) : result SelectRequest Error :=
  let? input := input_serialization q in
  let? output := output_serialization q in
  Ok {| sel_bucket := bucket u; sel_key := path u; sel_expression := expression q; sel_input := input; sel_output := output |}.

(** One request, its records and its failure. *)
Definition query_one (s : S3Client) (q : SelectQuery) (u : Url) (w : W) : list str * option Error * W :=
  if s_dry_run s then ([], None, w)
  else
    match request_of u q with
    | Err e => ([], Some e, w)
    | Ok req =>
        match select_object_content (s_client s) req w with
        | (Err e, w) => ([], Some (sdk_error e), w)
        | (Ok payload, w) => (records payload, w)
        end
    end.

Definition outcome_of (e : option Error) : result unit Error := match e with Some e => Err e | None => Ok tt end.

(** The console after some lines, in the world [w]. *)
Definition with_lines (c : Console W) (ls : list Line) (w : W) : Console W :=
  {| mode := mode c; printed := printed c ++ ls; stdin := stdin c; world := w |}.

Lemma with_lines_nil (c : Console W) : c = with_lines c [] (world c).
Proof. destruct c. unfold with_lines. cbn. by rewrite app_nil_r. Qed.

Lemma with_lines_app (c : Console W) l1 w1 l2 w2 : with_lines (with_lines c l1 w1) l2 w2 = with_lines c (l1 ++ l2) w2.
Proof. unfold with_lines. cbn. by rewrite app_assoc. Qed.

Lemma write_events_run payload (c : Console W) :
  write_events payload c = (outcome_of (records payload).2, with_lines c (map Raw (records payload).1) (world c)).
Proof.
  revert c. induction payload as [|[[[blob|]| |]|e] payload IH]; intros c; cbn [write_events records];
    try (rewrite <-with_lines_nil; done); try apply IH.
  rewrite (mbind_step _ _ _ tt (with_lines c [Raw blob] (world c))) by done.
  rewrite IH, with_lines_app. by destruct (records payload).
Qed.

Lemma select_run_one s u q (c : Console W) :
  select s u q c =
    let '(out, e, w) := query_one s q u (world c) in (outcome_of e, with_lines c (map Raw out) w).
Proof.
  unfold select, query_one, request_of. destruct (s_dry_run s); [by rewrite <-with_lines_nil|].
  unfold mlift, mbind at 1. destruct (input_serialization q) as [input|e]; cbn [result_bind]; [|by rewrite <-with_lines_nil].
  unfold mbind at 1. destruct (output_serialization q) as [output|e]; cbn [result_bind]; [|by rewrite <-with_lines_nil].
  unfold mbind, io, send. destruct (select_object_content _ _ (world c)) as [[payload|e] w].
  - rewrite write_events_run. cbn. by destruct (records payload).
  - unfold with_lines. cbn. by rewrite app_nil_r.
Qed.

(** ** All of them *)

(** Every source queried once, in order, whatever the others did. *)
Fixpoint query_all (s : S3Client) (q : SelectQuery) (us : list Url) (w : W) : list (list str * option Error) * W :=
  match us with
  | [] => ([], w)
  | u :: us =>
      let '(out, e, w1) := query_one s q u w in
      let '(outs, w2) := query_all s q us w1 in
      ((out, e) :: outs, w2)
  end.

Lemma query_all_length s q us w outs w' : query_all s q us w = (outs, w') → length outs = length us.
Proof.
  revert w outs w'. induction us as [|u us IH]; intros w outs w'; cbn [query_all]; [by intros [= <- _]|].
  destruct (query_one s q u w) as [[out e] w1]. destruct (query_all s q us w1) as [outs1 w2] eqn:Hq.
  intros [= <- _]. cbn. f_equal. by eapply IH.
Qed.

(** The lines of one source. *)
Definition source_lines (u : Url) (r : list str * option Error) : list Line :=
  map Raw r.1 ++ match r.2 with Some e => [Stderr ($"ERROR select " ++ show_url u ++ $": " ++ show_error_alt e)] | None => [] end.

Definition failed (r : list str * option Error) : bool := is_some_b r.2.

Lemma select_all_run s q us had (c : Console W) :
  select_all s q us had c =
    let '(outs, w) := query_all s q us (world c) in
    (Ok (had || existsb failed outs), with_lines c (concat (zip_with source_lines us outs)) w).
Proof.
  revert had c. induction us as [|u us IH]; intros had c; cbn [select_all query_all].
  { cbn. by rewrite orb_false_r, <-with_lines_nil. }
  unfold mbind at 1, attempt. rewrite select_run_one. destruct (query_one s q u (world c)) as [[out e] w1].
  destruct e as [e|]; cbn [outcome_of].
  - unfold complain, mbind, emit. rewrite IH. cbn [world with_lines]. destruct (query_all s q us w1) as [outs w2].
    cbn [zip_with concat existsb failed is_some_b snd]. rewrite orb_true_r. unfold with_lines, source_lines.
    cbn [fst snd mode stdin printed]. by rewrite <-!app_assoc.
  - rewrite IH. cbn [world with_lines]. destruct (query_all s q us w1) as [outs w2].
    rewrite with_lines_app. unfold source_lines at 2. cbn. by rewrite app_nil_r.
Qed.

(** ** The sources *)

Definition candidates (objs : list Object) : list (Object * Url) :=
  omap (λ o, if is_dir (typ o) then None else option_map (λ u, (o, u)) (url o)) objs.

(** The sources of a listing, and the lines that announce those skipped. *)
Definition chosen (exclude : list re) (objs : list Object) : list Url :=
  omap (λ '(o, u), if is_glacier (storage_class o) || is_excluded exclude (relative u) then None else Some u) (candidates objs).
Definition skip_lines (objs : list Object) : list Line :=
  omap (λ '(o, u), if is_glacier (storage_class o) then Some (Stderr ($"skipping glacier object " ++ show_url u)) else None)
    (candidates objs).

Lemma select_sources_run exclude objs (c : Console W) :
  select_sources exclude objs c =
    (match first_error objs with Some e => Err e | None => Ok (chosen exclude objs) end,
     with_lines c (skip_lines (before_error objs)) (world c)).
Proof.
  revert c. induction objs as [|o objs IH]; intros c; cbn [select_sources first_error before_error].
  { by rewrite <-with_lines_nil. }
  destruct (obj_err o) as [e|]; [by rewrite <-with_lines_nil|]. unfold chosen, skip_lines, candidates. cbn [omap list_omap].
  destruct (is_dir (typ o)); [apply IH|]. destruct (url o) as [u|]; [|apply IH]. cbn [option_map omap list_omap].
  destruct (is_glacier (storage_class o)); cbn [orb].
  - unfold complain. rewrite (mbind_step _ _ _ tt (with_lines c [Stderr ($"skipping glacier object " ++ show_url u)] (world c))) by done.
    rewrite IH, with_lines_app. done.
  - destruct (is_excluded exclude (relative u)); [apply IH|]. unfold mbind. rewrite IH. by destruct (first_error objs).
Qed.

Lemma by_path_version_total a b : by_path_version a b = false → by_path_version b a = true.
Proof.
  unfold by_path_version. case_bool_decide as Hp.
  - rewrite bool_decide_true, str_leb_false, str_leb_true by done. by left.
  - rewrite bool_decide_false, str_leb_false, str_leb_true by congruence. by left.
Qed.

Lemma by_path_version_trans a b c : by_path_version a b = true → by_path_version b c = true → by_path_version a c = true.
Proof.
  unfold by_path_version. repeat case_bool_decide; try congruence; intros Hab Hbc.
  - by eapply str_leb_trans.
  - exfalso. subst. match goal with H : path a ≠ path b |- _ => apply H end. apply str_leb_anti; congruence.
  - by eapply str_leb_trans.
Qed.

(** C28. [select] of a wildcard, prefix or bucket queries every object of the listing that is no
    directory, not in Glacier and not excluded, exactly once, in the order of keys and
    versions, which does not depend on the order of the listing, and goes on after a
    failure: it writes the records of each before those of the next, an error line after
    those of one that failed, and succeeds exactly when there was a source and all
    succeeded. A listing error is returned before any query. *)
Theorem select_exact fuel s u q exclude objs (c : Console W) w1 r c' :
  list_all fuel s u (world c) = (objs, w1) → select_expanded fuel s u q exclude c = (r, c') →
  match first_error objs with
  | Some e => r = Err e ∧ c' = with_lines c (skip_lines (before_error objs)) w1
  | None => ∃ order outs w2, order ≡ₚ chosen exclude objs ∧
      query_all s q order w1 = (outs, w2) ∧ length outs = length order ∧
      (∀ objs', objs' ≡ₚ objs → NoDup (map (λ u, (path u, version_id u)) (chosen exclude objs)) →
         sort_by by_path_version (chosen exclude objs') = order) ∧
      c' = with_lines c (skip_lines objs ++ concat (zip_with source_lines order outs)) w2 ∧
      (r = Ok tt ↔ order ≠ [] ∧ Forall (λ x, x.2 = None) outs)
  end.
Proof.
  intros Hlist. unfold select_expanded. rewrite (mbind_step _ _ c objs (set_world c w1)) by by unfold io'; rewrite Hlist.
  unfold mbind at 1. rewrite select_sources_run. destruct (first_error objs) as [e|] eqn:Hfe.
  { intros [= <- <-]. done. }
  rewrite before_error_all by done. set (c1 := with_lines (set_world c w1) _ _). assert (Hc1 : c1 = with_lines c (skip_lines objs) w1) by done.
  clearbody c1. subst c1. set (order := sort_by by_path_version (chosen exclude objs)).
  assert (Hperm : order ≡ₚ chosen exclude objs) by apply sort_by_perm.
  assert (Hany : ∀ objs', objs' ≡ₚ objs → NoDup (map (λ u, (path u, version_id u)) (chosen exclude objs)) →
                   sort_by by_path_version (chosen exclude objs') = order).
  { intros objs' Hp Hnd. symmetry. apply sort_by_unique.
    - apply by_path_version_total.
    - apply by_path_version_trans.
    - unfold chosen, candidates. by rewrite Hp.
    - intros a b Ha Hb Hab Hba. assert (Hk : (path a, version_id a) = (path b, version_id b)).
      { unfold by_path_version in Hab, Hba. destruct (decide (path a = path b)) as [He|He].
        - rewrite bool_decide_true in Hab, Hba by done. f_equal; [done|by apply str_leb_anti].
        - rewrite bool_decide_false in Hab, Hba by congruence. by destruct (He (str_leb_anti _ _ Hab Hba)). }
      by apply (NoDup_map_elem (λ u, (path u, version_id u)) (chosen exclude objs)). }
  destruct (is_nil (chosen exclude objs)) eqn:Hnil.
  { assert (Ho : order = []).
    { apply Permutation_nil. rewrite Hperm. by destruct (chosen exclude objs). }
    intros [= <- <-]. exists order, [], w1. rewrite Ho in *. split_and!; try done.
    - cbn. by rewrite app_nil_r.
    - split; [done|]. by intros [[] _]. }
  unfold mbind. rewrite select_all_run. cbn [world with_lines].
  destruct (query_all s q order w1) as [outs w2] eqn:Hq. rewrite with_lines_app. cbn [orb]. intros Hr.
  pose proof (query_all_length _ _ _ _ _ _ Hq) as Hlen.
  exists order, outs, w2. split_and!; try done.
  - by destruct (existsb failed outs); injection Hr as _ <-.
  - assert (Ho : order ≠ []) by (intros Ho; rewrite Ho in Hperm; apply Permutation_nil in Hperm; by rewrite Hperm in Hnil).
    destruct (existsb failed outs) eqn:Hf; injection Hr as <- _.
    + split; [done|]. intros [_ Hall]. exfalso. apply not_false_iff_true in Hf. apply Hf, existsb_false_Forall.
      eapply Forall_impl; [exact Hall|]. intros [out e] He. cbn in *. by subst e.
    + split; [|done]. intros _. split; [done|]. apply existsb_false_Forall in Hf. eapply Forall_impl; [exact Hf|].
      intros [out [e|]] He; [discriminate He|done].
Qed.
End SelectSpec.
