(* ===== verification/Head.v ===== *)
(** * [head] (src/src/command/head.rs) *)

From S2P Require Import Prelude RustStr Strutil Url Storage Fs S3Client Output Units Pipe.

Local Open Scope Z_scope.

(** The request on a bucket. *)
Class HeadSdk (W : Type) `{!Sdk W} := {
  sdk_head_bucket : Handle → str → W → result unit SdkError * W;
}.

Record HeadArgs := { head_src : str; head_version_id : option str; head_raw : bool }.

Section Head.
Context `{RegexLib, TimeLib, MapOrder} {W : Type} `{!Os W, !Sdk W, !HeadSdk W, !Tokio W, !UrlDebug}.

(** A missing class is STANDARD. *)
Definition headed_object (u : Url) (out : HeadOutput) : Object :=
  {| url := Some u; etag := trim_quotes (head_etag out); mod_time := from_secs (head_modified out);
     typ := File; size := default 0 (head_length out);
     storage_class := {| class_name := default ($"STANDARD") (head_class out) |};
     is_delete_marker := false; obj_err := None |}.

(** The metadata of the answer: its content type, encryption and user metadata. *)
Record Headed := { hd_type : option str; hd_sse : option str; hd_user : gmap str str }.

Definition headed_metadata (out : HeadOutput) : Headed :=
  {| hd_type := head_type out; hd_sse := head_sse out; hd_user := head_user out |}.

(** [S3::head_object] *)
Definition S3_head_object (s : S3Client) (u : Url) : M W (Object * Headed) := λ w,
  match head_object (s_client s) (request s u None) w with
  | (Ok out, w) => (Ok (headed_object u out, headed_metadata out), w)
  | (Err e, w) => (Err (if sdk_not_found e then ObjectNotFound (absolute u) else sdk_error e), w)
  end.

Definition S3_head_bucket (s : S3Client) (b : str) : M W unit := send (sdk_head_bucket (s_client s) b).

Definition field_if (k v : str) : list (str * Json) := if bool_decide (v = []) then [] else [(k, JStr v)].
Definition object_key (o : Object) : str := match url o with Some u => show_url u | None => [] end.
Definition object_version (o : Object) : str := match url o with Some u => version_id u | None => [] end.

Definition head_object_json (o : Object) (m : Headed) : Json :=
  JObj (field_if ($"key") (object_key o)
        ++ field_if ($"content_type") (default [] (hd_type m))
        ++ field_if ($"server_side_encryption") (default [] (hd_sse m))
        ++ match mod_time o with
           | Some t => match format_utc t with Some s => [($"last_modified", JStr s)] | None => [] end
           | None => []
           end
        ++ (if size o =? 0 then [] else [($"size", JNum (size o))])
        ++ field_if ($"storage_class") (class_name (storage_class o))
        ++ field_if ($"version_id") (object_version o)
        ++ field_if ($"etag") (etag o)
        ++ [($"metadata", JObj (map (λ kv, (kv.1, JStr kv.2)) (map_iter (hd_user m))))]).

Definition part_if (label v : str) : list str := if bool_decide (v = []) then [] else [label ++ v].

Definition head_format_object (o : Object) (m : Headed) : str :=
  let modified := match mod_time o with Some t => default [] (format_utc t) | None => [] end in
  join ($"  ") ([object_key o; to_string_i (size o) ++ $" bytes"; $"etag=" ++ etag o]
                ++ part_if ($"last-modified=") modified
                ++ part_if ($"storage-class=") (class_name (storage_class o))
                ++ part_if ($"content-type=") (default [] (hd_type m))
                ++ part_if ($"sse=") (default [] (hd_sse m))
                ++ part_if ($"version-id=") (object_version o)
                ++ map (λ kv, kv.1 ++ $"=" ++ kv.2) (map_iter (hd_user m))).

Definition head_url (a : HeadArgs) : result Url Error :=
  result_map_err anyhow (Url_new (head_src a)
    {| opt_raw := head_raw a; opt_version_id := head_version_id a; opt_all_versions := false; opt_start_after := None |}).

(** The checks of [run] on the target. *)
Definition head_target (a : HeadArgs) : result Url Error :=
  let? u := head_url a in
  if is_prefix u then Err (anyhow ($"target have to be a object or a bucket"))
  else if negb (is_remote u) then Err (anyhow ($"target should be remote object or bucket"))
  else if is_wildcard u && negb (is_raw u)
  then Err (anyhow ($"remote source " ++ url_debug u ++ $" can not contain glob characters"))
  else Ok u.

Definition head_run (opts : Options) (a : HeadArgs) : M (Console W) unit :=
  let! u := mlift (head_target a) in
  let! s := io (S3Client_new u opts) in
  if is_bucket u then
    let! _ := io (S3_head_bucket s (bucket u)) in
    emit (λ m, if is_json m then JsonLine (JObj [($"bucket", JStr (show_url u))])
               else Stdout (show_url u ++ $"  exists"))
  else
    let! (o, md) := io (S3_head_object s u) in
    emit (λ m, if is_json m then JsonLine (head_object_json o md) else Stdout (head_format_object o md)).
End Head.
