(* ===== verification/Presign.v ===== *)
(** * [presign] (src/src/command/presign.rs)

    Floating-point numbers, [Duration::from_secs_f64] and the SDK's presigner are classes. A
    duration is in nanoseconds; [from_secs_f64] and the addition of durations panic out of
    range, which is an outcome of the parser. *)

From S2P Require Import Prelude RustStr Strutil Url Storage Fs S3Client Output Units Pipe.

Local Open Scope Z_scope.

Class F64 := {
  f64 : Type;
  (** [s.parse::<f64>()] *)
  parse_f64 : str → option f64;
  f64_negative : f64 → bool;
  f64_mul : f64 → Z → f64;
  (** [Duration::from_secs_f64]; [None]: it panics *)
  from_secs_f64 : f64 → option Z;
  (** [{:?}] of a [char] *)
  char_debug : str → str;
}.

Class PresignSdk (W : Type) `{!Sdk W} := {
  presigned_get : Handle → ObjectRequest → Z → W → result str Error * W;
  presigned_put : Handle → ObjectRequest → Z → W → result str Error * W;
}.

Record PresignArgs := { ps_src : str; ps_expire : str; ps_version_id : option str; ps_put : bool }.

(** A value, an error, or a panic. *)
Inductive outcome (A : Type) := Done (a : A) | Failed (e : Error) | Panicked.
Arguments Done {A} a.
Arguments Failed {A} e.
Arguments Panicked {A}.

(** The largest [Duration]: [u64::MAX] seconds and 999,999,999 nanoseconds. *)
Definition max_duration : Z := u64_max * 1000000000 + 999999999.

Section Duration.
Context `{F64}.

Definition unit_of (c : str) : option Z :=
  if bool_decide (c = $"h") then Some 3600
  else if bool_decide (c = $"m") then Some 60
  else if bool_decide (c = $"s") then Some 1
  else None.

Definition is_num (c : ascii) : bool := is_digit c || is_chr "."%char c.

(** The loop over the characters of [s]; [rest] is what is left. *)
Fixpoint duration_loop (fuel : nat) (s rest num : str) (total : Z) (saw_unit : bool) : outcome Z :=
  match rest, fuel with
  | [], _ =>
      if negb (bool_decide (num = []))
      then Failed (anyhow ($"invalid duration " ++ debug_str s ++ $": trailing number " ++ debug_str num ++ $" without unit"))
      else if negb saw_unit then Failed (anyhow ($"invalid duration " ++ debug_str s))
      else Done total
  | _ :: _, O => Panicked
  | c :: rest', S fuel =>
      if is_num c then duration_loop fuel s rest' (num ++ [c]) total saw_unit
      else
        let n := match utf8_head rest with inl n => n | inr n => n end in
        let ch := take n rest in
        if bool_decide (num = [])
        then Failed (anyhow ($"invalid duration " ++ debug_str s ++ $": missing number before unit " ++ char_debug ch))
        else
          match parse_f64 num with
          | None => Failed (anyhow ($"invalid number " ++ debug_str num ++ $" in duration " ++ debug_str s))
          | Some value =>
              match unit_of ch with
              | None => Failed (anyhow ($"invalid duration unit " ++ char_debug ch ++ $" in " ++ debug_str s))
              | Some unit_secs =>
                  match from_secs_f64 (f64_mul value unit_secs) with
                  | None => Panicked
                  | Some d =>
                      if total + d <=? max_duration
                      then duration_loop fuel s (drop n rest) [] (total + d) true
                      else Panicked
                  end
              end
          end
  end.

Definition parse_duration (s : str) : outcome Z :=
  let s := trim s in
  if bool_decide (s = []) then Failed (anyhow ($"empty duration"))
  else
    match parse_f64 s with
    | Some secs =>
        if f64_negative secs then Failed (anyhow ($"duration must not be negative: " ++ debug_str s))
        else match from_secs_f64 secs with Some d => Done d | None => Panicked end
    | None => duration_loop (length s) s s [] 0 false
    end.
End Duration.

Section Presign.
Context `{RegexLib, F64} {W : Type} `{!Os W, !Sdk W, !PresignSdk W, !Tokio W, !UrlDebug}.

(** [S3::presign] and [S3::presign_put] *)
Definition S3_presign (s : S3Client) (src : Url) (expire : Z) : M W str :=
  presigned_get (s_client s) (request s src None) expire.
Definition S3_presign_put (s : S3Client) (dst : Url) (expire : Z) : M W str :=
  presigned_put (s_client s) (put_request s dst) expire.

Definition presign_url (a : PresignArgs) : result Url Error :=
  let? u := result_map_err anyhow (Url_new (ps_src a)
    {| opt_raw := false; opt_version_id := ps_version_id a; opt_all_versions := false; opt_start_after := None |}) in
  if negb (is_remote u) then Err (anyhow ($"source must be a remote object"))
  else if is_bucket u || is_prefix u then Err (anyhow ($"remote source must be an object"))
  else if is_wildcard u then Err (anyhow ($"remote source " ++ url_debug u ++ $" can not contain glob characters"))
  else Ok u.

(** The run, or [None] when it panics. *)
Definition presign_run (opts : Options) (a : PresignArgs) (c : Console W) : option (result unit Error * Console W) :=
  match presign_url a with
  | Err e => Some (Err e, c)
  | Ok u =>
      match parse_duration (ps_expire a) with
      | Panicked => None
      | Failed e => Some (Err e, c)
      | Done expire =>
          Some ((let! s := io (S3Client_new u opts) in
                 let! presigned := io (if ps_put a then S3_presign_put s u expire else S3_presign s u expire) in
                 emit (λ m, if is_json m then JsonLine (JObj [($"url", JStr presigned)]) else Stdout presigned)) c)
      end
  end.
End Presign.

(** ** The durations of [--expire] *)

(** What the code relies on from the standard library's floating point: integers below 2^53
    are exact, and no number has one of the unit letters in its text. *)
Class F64Laws `{F64} := {
  parse_f64_digits : ∀ n k, 0 <= n → k ∈ [1; 60; 3600] → n * k < 2 ^ 53 →
    ∃ v, parse_f64 (to_string n) = Some v ∧ from_secs_f64 (f64_mul v k) = Some (n * k * 1000000000);
  parse_f64_unit : ∀ s c, c ∈ s → unit_of [c] ≠ None → parse_f64 s = None;
}.

Section PresignSpec.
Context `{F64, !F64Laws}.

(** The text of a list of numbers with their units, and what it means in nanoseconds. *)
Definition duration_text (parts : list (Z * ascii)) : str := concat (map (λ '(n, c), to_string n ++ [c]) parts).
Definition unit_value (c : ascii) : Z := default 0 (unit_of [c]).
Definition duration_value (parts : list (Z * ascii)) : Z := zsum (map (λ '(n, c), n * unit_value c * 1000000000) parts).

Definition part_ok (p : Z * ascii) : Prop := 0 <= p.1 ∧ unit_of [p.2] ≠ None ∧ p.1 * unit_value p.2 < 2 ^ 53.

Lemma unit_cases c : unit_of [c] ≠ None → c = "h"%char ∨ c = "m"%char ∨ c = "s"%char.
Proof.
  unfold unit_of. case_bool_decide as Hh; [injection Hh; auto|]. case_bool_decide as Hm; [injection Hm; auto|].
  case_bool_decide as Hs; [injection Hs; auto|]. by intros [].
Qed.

Lemma unit_not_num c : unit_of [c] ≠ None → is_num c = false.
Proof. by intros [->|[->| ->]]%unit_cases. Qed.

Lemma unit_head c rest : unit_of [c] ≠ None → utf8_head (c :: rest) = inl 1%nat.
Proof. by intros [->|[->| ->]]%unit_cases. Qed.

Lemma unit_value_in c : unit_of [c] ≠ None → unit_of [c] = Some (unit_value c) ∧ unit_value c ∈ [1; 60; 3600].
Proof. intros [->|[->| ->]]%unit_cases; (split; [done|]); vm_compute; repeat ((by left) || right). Qed.

(** Digits collect in [num]. *)
Lemma loop_digits ds fuel s rest num total saw :
  forallb is_digit ds = true →
  duration_loop (length ds + fuel) s (ds ++ rest) num total saw = duration_loop fuel s rest (num ++ ds) total saw.
Proof.
  revert num. induction ds as [|d ds IH]; intros num; [by rewrite app_nil_r|]. cbn [forallb app length plus duration_loop].
  intros [Hd Hds]%andb_true_iff. unfold is_num at 1. rewrite Hd. cbn [orb]. rewrite IH by done. by rewrite <-app_assoc.
Qed.

Lemma duration_value_nonneg parts : Forall part_ok parts → 0 <= duration_value parts.
Proof.
  unfold duration_value. induction 1 as [|[n c] parts (Hn & Hu & _) _ IH]; [done|]. cbn [map zsum foldr] in *. cbn in Hn.
  destruct (unit_value_in c Hu) as [_ Hin]. rewrite !elem_of_cons, elem_of_nil in Hin. unfold zsum in *. nia.
Qed.

Lemma loop_parts parts s total saw :
  Forall part_ok parts → 0 <= total → total + duration_value parts <= max_duration → (parts = [] → saw = true) →
  duration_loop (length (duration_text parts)) s (duration_text parts) [] total saw = Done (total + duration_value parts).
Proof.
  intros Hok. revert total saw. induction Hok as [|[n c] parts (Hn & Hu & Hfit) Hok IH]; intros total saw Ht Hmax Hsaw.
  { cbn. rewrite (Hsaw eq_refl). cbn. f_equal. unfold duration_value. cbn. lia. }
  cbn [fst snd] in *. destruct (unit_value_in c Hu) as [Hc Hin].
  destruct (parse_f64_digits n (unit_value c) Hn Hin Hfit) as (v & Hv & Hd).
  unfold duration_text. cbn [map concat]. fold (duration_text parts). rewrite <-app_assoc, length_app. cbn [app length].
  rewrite loop_digits by by apply to_string_digits. cbn [app duration_loop]. rewrite unit_not_num, unit_head by done.
  change (take 1 _) with [c]. change (drop 1 _) with (duration_text parts). rewrite bool_decide_false by apply to_string_nonempty. rewrite Hv, Hc, Hd.
  pose proof (duration_value_nonneg _ Hok) as Hrest. unfold duration_value in Hmax, Hrest. cbn [map] in Hmax.
  assert (Hz : ∀ x l, zsum (x :: l) = x + zsum l) by done. rewrite Hz in Hmax.
  assert (Hpos : 0 <= n * unit_value c * 1000000000).
  { rewrite !elem_of_cons, elem_of_nil in Hin. nia. }
  destruct (Z.leb_spec (total + n * unit_value c * 1000000000) max_duration); [|lia].
  rewrite IH; [|lia|unfold duration_value; lia|done]. f_equal. unfold duration_value. cbn [map]. rewrite Hz. lia.
Qed.

(** [--expire] means what it says: numbers with the units h, m and s add up to the duration
    in nanoseconds, as long as each is exact in floating point and the sum is a duration;
    and the parser neither panics nor fails on them. *)
Theorem parse_duration_units parts :
  parts ≠ [] → Forall part_ok parts → duration_value parts <= max_duration →
  parse_duration (duration_text parts) = Done (duration_value parts).
Proof.
  intros Hne Hok Hmax. destruct parts as [|[n c] parts]; [done|]. set (ps := (n, c) :: parts) in *.
  assert (Hasc : forallb (λ d, negb (ws1 d) && (code d <? 128)%nat) (duration_text ps) = true).
  { clear Hmax Hne. induction Hok as [|[n' c'] l (Hn & Hu & _) _ IH]; [done|]. unfold duration_text. cbn [map concat].
    rewrite !forallb_app. apply andb_true_iff. split; [|exact IH]. cbn [fst snd] in Hn, Hu. apply andb_true_iff. split.
    - by apply digits_plain, to_string_digits.
    - by destruct (unit_cases c' Hu) as [->|[->| ->]]. }
  unfold parse_duration. rewrite trim_trimmed by by apply trimmed_ascii.
  rewrite bool_decide_false by (unfold ps, duration_text; cbn [map concat]; by intros [[_ ?]%app_eq_nil _]%app_eq_nil).
  assert (Hu : unit_of [c] ≠ None) by by apply Forall_cons_1 in Hok as [(_ & Hu & _) _].
  rewrite (parse_f64_unit _ c); [|unfold ps, duration_text; cbn; set_solver|done].
  by rewrite loop_parts.
Qed.
End PresignSpec.
