(* ===== verification/MountSetup.v ===== *)
(** * The [mount] command (src/src/mount/mod.rs, src/src/command/mount.rs)

    The arguments, the durations they hold, the set-up of the filesystem and the end of the
    mount. The FUSE session is the list of the requests it serves and the way it ends. *)

From S2P Require Import Prelude RustStr Strutil Url Storage Fs Tasks S3Client Inode Reader Writer Vfs FuseFs Presign.
From S2P Require S3cfg Global.

Local Open Scope Z_scope.

(** ** Durations *)

(** The rest of the operations on [f64]. *)
Class F64Div `{F64} := {
  f64_div : f64 → Z → f64;
  f64_finite : f64 → bool;
}.

Definition is_ascii_alphabetic (c : ascii) : bool := in_range 65 90 c || in_range 97 122 c.

(** [char::is_alphabetic]: Unicode's table, on the bytes of a character. *)
Class Alphabetic := {
  alphabetic : str → bool;
  alphabetic_ascii : ∀ c, (code c < 128)%nat → alphabetic [c] = is_ascii_alphabetic c;
}.

Section Duration.
Context `{F64Div, Alphabetic}.

(** [s.split_at(s.find(alphabetic))]; the length is enough fuel. *)
Fixpoint split_alphabetic (fuel : nat) (s : str) : str * str :=
  match s, fuel with
  | _ :: _, S fuel =>
      let n := match utf8_head s with inl n => n | inr n => n end in
      if alphabetic (take n s) then ([], s)
      else let '(a, b) := split_alphabetic fuel (drop n s) in (take n s ++ a, b)
  | _, _ => (s, [])
  end.

Definition MICRO : str := ["194"; "181"]%char.

Definition scaled (value : f64) (unit_ : str) : option f64 :=
  if bool_decide (unit_ ∈ [[]; $"s"]) then Some value
  else if bool_decide (unit_ = $"ms") then Some (f64_div value 1000)
  else if bool_decide (unit_ ∈ [$"us"; MICRO ++ $"s"]) then Some (f64_div value 1000000)
  else if bool_decide (unit_ = $"m") then Some (f64_mul value 60)
  else if bool_decide (unit_ = $"h") then Some (f64_mul value 3600)
  else None.

(** [humantime_secs], in nanoseconds. *)
Definition humantime_secs (s : str) : outcome Z :=
  let s := trim s in
  if bool_decide (s = []) then Failed (anyhow ($"empty duration"))
  else
    let '(num, unit_) := split_alphabetic (length s) s in
    match parse_f64 (trim num) with
    | None => Failed (anyhow ($"invalid duration: " ++ s))
    | Some value =>
        match scaled value unit_ with
        | None => Failed (anyhow ($"unknown duration unit: " ++ unit_))
        | Some secs =>
            if negb (f64_finite secs) || f64_negative secs then Failed (anyhow ($"invalid duration: " ++ s))
            else match from_secs_f64 secs with Some d => Done d | None => Panicked end
        end
    end.
End Duration.

(** ** The mount *)

Record MountArgs := {
  ma_source : str;
  ma_mountpoint : str;
  ma_read_only : bool;
  ma_cache_dir : option str;
  ma_vfs_read_chunk_size : Z;
  ma_buffer_size : Z;
  ma_dir_cache_time : Z;
  ma_attr_timeout : Z;
  ma_part_size : Z;
  ma_concurrency : Z;
  ma_allow_other : bool;
  ma_uid : option Z;
  ma_gid : option Z;
}.

(** [fuse3::MountOptions], as the command fills them. *)
Record MountOptions := {
  mo_fs_name : str;
  mo_uid : Z;
  mo_gid : Z;
  mo_read_only : bool;
  mo_allow_other : bool;
}.

(** The process and the system. *)
Class MountHost (W : Type) := {
  getuid : W → Z;
  getgid : W → Z;
  pid : W → Z;
  host_env : str → W → option str;
  temp_dir : W → str;
  path_is_dir : str → W → bool;
  remove_dir_all : str → M W unit;
  (* [Session::mount_with_unprivileged] *)
  mount_with_unprivileged : MountOptions → str → M W unit;
}.

(** How [select!] ends: the session's result, or Ctrl-C. *)
Inductive mount_end := SessionOver (r : result unit Error) | CtrlC.

Section Mount.
Context `{RegexLib} {W : Type} `{!Os W, !S3Ops W, !Unordered, !Clocks W, !NodeOrder, !HandleOrder, !MountHost W, !S3cfg.ByteSizeLib}.

Definition default_cache_dir (w : W) : str :=
  match nonempty (host_env ($"XDG_CACHE_HOME") w) with
  | Some x => pathbuf_join (pathbuf_join x ($"rs5cmd")) ($"mount")
  | None =>
      match nonempty (host_env ($"HOME") w) with
      | Some home => pathbuf_join (pathbuf_join (pathbuf_join home ($".cache")) ($"rs5cmd")) ($"mount")
      | None => pathbuf_join (temp_dir w) ($"rs5cmd-mount")
      end
  end.

(** The root prefix of a source: empty, or ending in a slash. *)
Definition root_prefix_of (src : Url) : str :=
  let p := path src in
  if negb (bool_decide (p = [])) && negb (ends_with ($"/") p) then p ++ $"/" else p.

(** The options of the client; the multiplication wraps at 64 bits. *)
Definition mount_client_options (now : Z) (global : Global.GlobalOpts) (a : MountArgs) : Options :=
  let o := Global.storage_options now global in
  {| max_retries := max_retries o; endpoint := endpoint o; no_verify_ssl := no_verify_ssl o; dry_run := dry_run o;
     no_sign_request := no_sign_request o; use_list_objects_v1 := use_list_objects_v1 o;
     request_payer := request_payer o; profile := profile o; region := region o; source_region := source_region o;
     destination_region := destination_region o; source_endpoint := source_endpoint o;
     destination_endpoint := destination_endpoint o; proxy := proxy o; addressing_style := addressing_style o;
     ca_certs_file := ca_certs_file o; use_dualstack_endpoint := use_dualstack_endpoint o;
     use_fips_endpoint := use_fips_endpoint o;
     part_size := (Z.max (ma_part_size a) 5 * 1024 * 1024) mod 2 ^ 64;
     concurrency := Z.max (ma_concurrency a) 1; preserve_timestamps := preserve_timestamps o;
     client_copy := client_copy o; remove_empty_dirs := remove_empty_dirs o; upload_limiter := upload_limiter o;
     download_limiter := download_limiter o |}.

Definition mount_config (a : MountArgs) (uid gid : Z) : VfsConfig :=
  {| attr_ttl := ma_attr_timeout a; dir_ttl := ma_dir_cache_time a; cfg_uid := uid; cfg_gid := gid;
     cfg_chunk_size := ma_vfs_read_chunk_size a; cfg_buffer_size := ma_buffer_size a;
     cfg_concurrency := Z.max (ma_concurrency a) 1 |}.

Definition mount_options (a : MountArgs) (uid gid : Z) : MountOptions :=
  {| mo_fs_name := $"rs5cmd"; mo_uid := uid; mo_gid := gid; mo_read_only := ma_read_only a;
     mo_allow_other := ma_allow_other a |}.

Definition mount_cache_dir (a : MountArgs) (w : W) : str :=
  pathbuf_join (match ma_cache_dir a with Some d => d | None => default_cache_dir w end) ($"mount-" ++ to_string (pid w)).

(** [Vfs::new] reads the clock. *)
Definition new_vfs (s3 : S3) (bucket root_prefix dir : str) (cfg : VfsConfig) : M W Vfs := λ w,
  let '(t, w) := system_time w in (Ok (Vfs_new s3 bucket root_prefix dir cfg t), w).

(** [run] up to the mount: the adapter and the filesystem behind it. *)
Definition mount_setup (now : Z) (global : Global.GlobalOpts) (a : MountArgs) : M W (S3Fuse * Vfs) := λ w,
  let uid := default (getuid w) (ma_uid a) in
  let gid := default (getgid w) (ma_gid a) in
  (if negb (path_is_dir (ma_mountpoint a) w)
   then mfail (anyhow ($"mountpoint " ++ ma_mountpoint a ++ $" is not a directory"))
   else
     let! src := mlift (result_map_err anyhow (parse (ma_source a))) in
     if negb (is_remote src)
     then mfail (anyhow ($"mount source must be an s3:// URL, got " ++ ma_source a))
     else
       let! s3 := S3_new src (mount_client_options now global a) in
       let cfg := mount_config a uid gid in
       let dir := mount_cache_dir a w in
       let! _ := create_dir_all dir in
       let! vfs := new_vfs s3 (bucket src) (root_prefix_of src) dir cfg in
       mret (S3Fuse_new cfg (ma_attr_timeout a) (ma_read_only a), vfs)) w.

(** [mount::run], serving [qs] until [ending]; and the replies. *)
Definition mount_run (now : Z) (global : Global.GlobalOpts) (a : MountArgs) (qs : list request) (ending : mount_end) (w : W)
  : result unit Error * list (result reply Z) * W :=
  match mount_setup now global a w with
  | (Err e, w) => (Err e, [], w)
  | (Ok (f, vfs), w) =>
      match mount_with_unprivileged (mount_options a (f_uid f) (f_gid f)) (ma_mountpoint a) w with
      | (Err e, w) => (Err e, [], w)
      | (Ok _, w) =>
          let '(rs, (vfs, w)) := serve f qs (vfs, w) in
          match ending with
          | SessionOver (Err e) => (Err e, rs, w)
          | SessionOver (Ok _) | CtrlC => let '(_, w) := remove_dir_all (cache_dir vfs) w in (Ok tt, rs, w)
          end
      end
  end.
End Mount.
