(* ===== verification/MountSetupSpec.v ===== *)
(** * What a mount guarantees as a whole

    The durations of its options, the filesystem its set-up hands to the kernel, and a whole
    run of [rs5cmd mount]. *)

From S2P Require Import Prelude RustStr Strutil Url Storage Fs Hoare Tasks S3Client Inode Reader Writer Vfs FuseFs.
From S2P Require Import Presign VfsSpec S3Laws MountSpec MountSetup.
From S2P Require S3cfg Global.

Local Open Scope Z_scope.

(** ** Durations *)

(** Whole numbers below 2^53 and their products are exact. *)
Class F64DivLaws `{F64Div} := {
  parse_whole : ∀ n, 0 <= n < 2 ^ 53 → ∃ v, parse_f64 (to_string n) = Some v ∧
    f64_finite v = true ∧ f64_negative v = false ∧ from_secs_f64 v = Some (n * 1000000000);
  mul_whole : ∀ n k v, 0 <= n → k ∈ [60; 3600] → n * k < 2 ^ 53 → parse_f64 (to_string n) = Some v →
    f64_finite (f64_mul v k) = true ∧ f64_negative (f64_mul v k) = false ∧
    from_secs_f64 (f64_mul v k) = Some (n * k * 1000000000);
}.

Section DurationSpec.
Context `{F64Div, Alphabetic, !F64DivLaws}.

(** The units of whole seconds. *)
Definition seconds_unit (u : str) (k : Z) : Prop := (u, k) ∈ [([], 1); ($"s", 1); ($"m", 60); ($"h", 3600)].

Lemma digit_not_alphabetic c : is_digit c = true → alphabetic [c] = false ∧ utf8_head [c] = inl 1%nat ∧ (code c < 128)%nat.
Proof.
  intros Hc. assert (Hb : (code c < 128)%nat ∧ is_ascii_alphabetic c = false ∧ utf8_head [c] = inl 1%nat).
  { revert Hc. destruct c as [[] [] [] [] [] [] [] []]; try discriminate; vm_compute; intros _; (split; [lia|done]). }
  destruct Hb as (Hlt & Ha & Hu). by rewrite alphabetic_ascii, Ha.
Qed.

Lemma split_digits fuel d u :
  forallb is_digit d = true → (length d < fuel)%nat ∨ u = [] → (length d <= fuel)%nat →
  (u = [] ∨ ∃ c r, u = c :: r ∧ (code c < 128)%nat ∧ is_ascii_alphabetic c = true) →
  split_alphabetic fuel (d ++ u) = (d, u).
Proof.
  intros Hd Hf Hle Hu. revert fuel Hf Hle. induction d as [|c d IH]; intros fuel Hf Hle.
  - destruct Hu as [->|(c & r & -> & Hlt & Ha)]; [by destruct fuel|]. destruct Hf as [Hf|]; [|done].
    destruct fuel as [|fuel]; [cbn in Hf; lia|]. cbn [app split_alphabetic utf8_head].
    rewrite (proj2 (Nat.ltb_lt _ _) Hlt). change (take 1 (c :: r)) with [c]. by rewrite alphabetic_ascii, Ha.
  - cbn [forallb] in Hd. apply andb_true_iff in Hd as [Hc Hd]. destruct fuel as [|fuel]; [cbn in Hle; lia|].
    apply digit_not_alphabetic in Hc as (Hna & _ & Hlt). cbn [app split_alphabetic utf8_head].
    rewrite (proj2 (Nat.ltb_lt _ _) Hlt). change (take 1 (c :: d ++ u)) with [c]. change (drop 1 (c :: d ++ u)) with (d ++ u). rewrite Hna.
    rewrite IH; [done|done|cbn in Hf; destruct Hf; [left; lia|by right]|cbn in Hle; lia].
Qed.

(** A whole number of seconds, minutes or hours is read as that duration. *)
Lemma humantime_units n u k :
  0 <= n → seconds_unit u k → n * k < 2 ^ 53 → humantime_secs (to_string n ++ u) = Done (n * k * 1000000000).
Proof.
  intros Hn Hu Hmax. pose proof (to_string_digits n Hn) as Hd. pose proof (to_string_nonempty n) as Hne.
  assert (Hcases : u = [] ∨ ∃ c r, u = c :: r ∧ (code c < 128)%nat ∧ is_ascii_alphabetic c = true).
  { unfold seconds_unit in Hu. rewrite !elem_of_cons, elem_of_nil in Hu.
    destruct Hu as [[= -> _]|[[= -> _]|[[= -> _]|[[= -> _]|[]]]]]; [by left|right..]; eexists _, _; (split; [reflexivity|split; [vm_compute; lia|done]]). }
  assert (Htrim : trim (to_string n ++ u) = to_string n ++ u).
  { apply trim_trimmed, trimmed_ascii. rewrite forallb_app. apply andb_true_iff. split.
    - rewrite forallb_forall in *. intros c Hc. specialize (Hd c Hc). destruct c as [[] [] [] [] [] [] [] []]; try discriminate; done.
    - unfold seconds_unit in Hu. rewrite !elem_of_cons, elem_of_nil in Hu. by destruct Hu as [[= -> _]|[[= -> _]|[[= -> _]|[[= -> _]|[]]]]]. }
  assert (Htn : trim (to_string n) = to_string n).
  { apply trim_trimmed, trimmed_ascii. rewrite forallb_forall in *. intros c Hc. specialize (Hd c Hc).
    destruct c as [[] [] [] [] [] [] [] []]; try discriminate; done. }
  unfold humantime_secs. rewrite Htrim. rewrite bool_decide_false by (by intros [? _]%app_eq_nil).
  rewrite split_digits; [|done| |rewrite length_app; lia|done].
  2:{ destruct Hcases as [->|(c & r & -> & _)]; [by right|left]. rewrite length_app. cbn. lia. }
  rewrite Htn. assert (Hn53 : 0 <= n < 2 ^ 53).
  { unfold seconds_unit in Hu. rewrite !elem_of_cons, elem_of_nil in Hu. destruct Hu as [[= _ ->]|[[= _ ->]|[[= _ ->]|[[= _ ->]|[]]]]]; lia. }
  destruct (parse_whole n Hn53) as (v & Hv & Hfin & Hneg & Hsecs). rewrite Hv.
  assert (Hsc : ∃ secs, scaled v u = Some secs ∧ f64_finite secs = true ∧ f64_negative secs = false ∧
                  from_secs_f64 secs = Some (n * k * 1000000000)).
  { unfold seconds_unit in Hu. rewrite !elem_of_cons, elem_of_nil in Hu.
    destruct Hu as [[= -> ->]|[[= -> ->]|[[= -> ->]|[[= -> ->]|[]]]]]; eexists; (split; [reflexivity|]);
      rewrite ?Z.mul_1_r; try done; (apply mul_whole; [done|set_solver|done|done]). }
  destruct Hsc as (secs & -> & -> & -> & ->). done.
Qed.
End DurationSpec.

(** ** A whole mount *)

(** Directories and the mount itself are apart from the objects. *)
Class MountLaws `{RegexLib} (W : Type) `{!Os W, !S3Ops W, !S3View W, !Clocks W, !MountHost W} : Prop := {
  mount_bucket :: BucketLaws W;
  create_dir_law : ∀ p w r w', create_dir_all p w = (r, w') → ∀ l, obj w' l = obj w l;
  remove_dir_all_law : ∀ p w r w', remove_dir_all p w = (r, w') → ∀ l, obj w' l = obj w l;
  mount_law : ∀ o p w r w', mount_with_unprivileged o p w = (r, w') → ∀ l, obj w' l = obj w l;
}.

(** The prefix a mount is rooted at. *)
Definition good_root (rk : str) : Prop := rk = [] ∨ ends_with ($"/") rk = true.

Section MountSetupSpec.
Context `{MountLaws} `{!RegexLaws, !Unordered, !NodeOrder, !HandleOrder, !S3cfg.ByteSizeLib}.

Lemma root_prefix_good src : good_root (root_prefix_of src) ∧ starts_with (path src) (root_prefix_of src) = true.
Proof.
  unfold root_prefix_of, good_root. case_bool_decide as Hp; cbn [negb andb]; [rewrite Hp; by split; [left|]|].
  destruct (ends_with _ (path src)) eqn:He; cbn [negb].
  - split; [by right|]. apply starts_with_true. exists []. by rewrite app_nil_r.
  - split; [right; apply ends_with_true; by eexists|]. apply starts_with_true. by eexists.
Qed.

(** What set-up hands over. *)
Definition fresh_mount (a : MountArgs) (w : W) (f : S3Fuse) (v : Vfs (W := W)) : Prop :=
  path_is_dir (ma_mountpoint a) w = true ∧ read_only f = ma_read_only a ∧ cache_dir v = mount_cache_dir a w ∧
  handles v = ∅ ∧ next_fh v = 0 ∧
  ∃ src, parse (ma_source a) = Ok src ∧ is_remote src = true ∧ v_bucket v = bucket src ∧
         good_root (root_prefix_of src) ∧ vfs_inv (root_prefix_of src) v.

Lemma mount_setup_exact now g a w r w' :
  mount_setup now g a w = (r, w') →
  (∀ l, obj w' l = obj w l) ∧ ∀ f v, r = Ok (f, v) → fresh_mount a w f v.
Proof.
  unfold mount_setup. cbv zeta. destruct (path_is_dir (ma_mountpoint a) w) eqn:Hdir; cbn [negb]; [|by intros [= <- <-]].
  intros [(e & [= _ <-] & ->)|(src & w1 & [= Hsrc <-] & Hr)]%mbind_inv; [done|].
  destruct (is_remote src) eqn:Hrem; cbn [negb] in Hr; [|by injection Hr as <- <-].
  apply mbind_inv in Hr as [(e & [-> _]%new_law & ->)|(s3 & w1 & [-> _]%new_law & Hr)]; [done|].
  apply mbind_inv in Hr as [(e & He & ->)|([] & w1 & Hmk & Hr)]; [by split; [eapply create_dir_law|]|].
  pose proof (create_dir_law _ _ _ _ Hmk) as Hs1. unfold mbind, new_vfs, mret in Hr. destruct (system_time w1) as [t w2] eqn:Ht.
  injection Hr as <- <-. split; [intros l; by rewrite (clock_law _ _ _ (or_intror Ht)), Hs1|].
  intros f v [= <- <-]. split_and!; [done|done|done|done|done|]. exists src.
  split_and!; [by destruct (parse _); [injection Hsrc as ->|]|done|done|apply root_prefix_good|apply Vfs_new_inv].
Qed.

End MountSetupSpec.
