(* ===== verification/Program.v ===== *)
(** * The program: configuration, start-up and dispatch (src/src/command/mod.rs, import_s3cfg.rs, main.rs)

    [Process] is what the program uses of its process: the environment, the terminal and the
    file operations with a mode. The argument parser is clap's: a [Cli] is what it returns.
    This is the program built without its optional features ([fast] and [mount]). *)

From S2P Require Import Prelude RustStr Btree Strutil Url Storage Pool Fs Tasks S3Client Transfer Listing S3cfg Global.
From S2P Require Import Output Pipe Sync Cp Rm Units Bucket Du Tree Ls Backend Cat Select Head Presign.

Local Open Scope Z_scope.

(** ** The command line *)

Record ImportS3cfgArgs := { im_path : str; im_out : option str; im_profile : str; im_no_credentials : bool }.

Inductive Shell := Bash | Elvish | Fish | PowerShell | Zsh.

Inductive Command :=
  | CLs (a : LsArgs)
  | CCp (a : CpArgs)
  | CMv (a : CpArgs)
  | CRm (a : RmArgs)
  | CCat (a : CatArgs)
  | CMb (bucket : str)
  | CRb (a : RbArgs)
  | CSync (a : SyncArgs)
  | CDu (a : DuArgs)
  | CTree (a : TreeArgs)
  | CPipe (a : PipeArgs)
  | CHead (a : HeadArgs)
  | CPresign (a : PresignArgs)
  | CSelect (a : SelectArgs)
  | CRun (file : option str)
  | CBucketVersion (a : BucketVersionArgs)
  | CCompletion (shell : Shell)
  | CImportS3cfg (a : ImportS3cfgArgs).

Record Cli := { global : GlobalOpts; command : option Command }.

Class Process (W : Type) := {
  environ : W → Env;
  put_environ : Env → W → W;
  stdout_is_terminal : W → bool;
  (** [OpenOptions] write, create and truncate, with a mode for a new file *)
  open_mode : str → Z → M W unit;
  set_permissions : str → Z → M W unit;
  (** [OpenOptions] create and append, then a write *)
  append_file : str → str → M W unit;
}.

(** clap's texts. *)
Class Clap := { help_text : str; completion_script : Shell → str }.

Definition color_choice (m : ColorMode) : ColorChoice :=
  match m with Global.Auto => Output.Auto | Global.Always => Output.Always | Global.Never => Output.Never end.

Section Startup.
Context `{ByteSizeLib, Clap} {W : Type} `{!Os W, !Process W}.

Definition home_dir : M W str := λ w,
  (match environ w !! ($"HOME") with Some h => Ok h | None => Err (anyhow ($"HOME is not set")) end, w).

(** [map_err(|e| anyhow!("{label}: {e}"))] *)
Definition labelled {A} (label : str) (m : M W A) : M W A := λ w,
  let '(r, w) := m w in (result_map_err (λ e, anyhow (label ++ $": " ++ show_error e)) r, w).

(** ** import-s3cfg *)

Definition write_aws_credentials (prof ak sk : str) (tok : option str) : M W str :=
  let! home := home_dir in
  let dir := pathbuf_join home ($".aws") in
  let! _ := create_dir_all dir in
  let path := pathbuf_join dir ($"credentials") in
  let! existing := (λ w, (Ok (match read_to_string path w with Ok t => t | Err _ => [] end), w)) in
  let merged := credentials_text existing prof ak sk tok in
  let! _ := open_mode path 384 in
  let! _ := write_all_at path merged 0 in
  let! _ := set_permissions path 384 in
  mret path.

Fixpoint complain_all (ls : list str) : M (Console W) unit :=
  match ls with
  | [] => mret tt
  | l :: ls => let! _ := complain l in complain_all ls
  end.

Definition import_text (path : str) (label : str) : M W str := λ w,
  (result_map_err (λ e, anyhow (label ++ path ++ $": " ++ e)) (read_to_string path w), w).

Definition import_run (a : ImportS3cfgArgs) : M (Console W) unit :=
  let! text := io (import_text (im_path a) ($"reading ")) in
  let t := translate_s3cfg (parse_ini text) in
  let! _ := complain_all (map (app ($"warning: ")) (warnings t)) in
  let! out := io (match im_out a with
                  | Some p => mret p
                  | None => let! home := home_dir in mret (pathbuf_join home ($".rs5cmd"))
                  end) in
  let! _ := io (labelled ($"writing " ++ out) (fs_write out (to_rs5cmd_ini t))) in
  let! _ := say ($"wrote rs5cmd config to " ++ out) in
  let! _ :=
    (if im_no_credentials a then mret tt
     else match access_key t, secret_key t with
          | Some ak, Some sk =>
              let! path := io (write_aws_credentials (im_profile a) ak sk (session_token t)) in
              say ($"wrote AWS credentials to " ++ path ++ $" [profile " ++ im_profile a ++ $"] (mode 0600)")
          | _, _ =>
              complain ($"note: no access_key/secret_key in " ++ im_path a
                        ++ $"; set credentials via env or ~/.aws/credentials")
          end) in
  say ($"done. rs5cmd now works against this endpoint without --s3cfg.").

(** ** --install-completion *)

Definition join_all_paths (base : str) (parts : list str) : str := foldl pathbuf_join base parts.

Definition shell_of (path : str) : Shell :=
  let name := match file_name path with Some n => if is_utf8 n then n else $"bash" | None => $"bash" end in
  if bool_decide (name = $"zsh") then Zsh else if bool_decide (name = $"fish") then Fish else Bash.

(** The rc file and the file of the script. *)
Definition completion_paths (shell : Shell) (home : str) : option str * str :=
  match shell with
  | Zsh => (Some (pathbuf_join home ($".zshrc")),
            join_all_paths home [$".config"; $"rs5cmd"; $"completion.zsh"])
  | Fish => (None, join_all_paths home [$".config"; $"fish"; $"completions"; $"rs5cmd.fish"])
  | _ => (Some (pathbuf_join home ($".bashrc")),
          join_all_paths home [$".config"; $"rs5cmd"; $"completion.bash"])
  end.

Definition source_line (comp_path : str) : str := $"source " ++ ["034"%char] ++ comp_path ++ ["034"%char].

Definition install_completion : M (Console W) unit :=
  let! shell_path := (λ c, (Ok (default [] (environ (world c) !! ($"SHELL"))), c)) in
  let shell := shell_of shell_path in
  let! home := io home_dir in
  let '(rc_path, comp_path) := completion_paths shell home in
  let! _ := io (match parent comp_path with Some p => create_dir_all p | None => mret tt end) in
  let! _ := io (fs_write comp_path (completion_script shell)) in
  let! _ := say ($"wrote completion script to " ++ comp_path) in
  match rc_path with
  | None => say ($"fish will auto-load it on next shell start")
  | Some rc =>
      let line := source_line comp_path in
      let! existing := (λ c, (Ok (match read_to_string rc (world c) with Ok t => t | Err _ => [] end), c)) in
      if contains line existing then say (rc ++ $" already sources it; nothing to do")
      else
        let! _ := io (append_file rc ([LF] ++ $"# rs5cmd shell completion" ++ [LF] ++ line ++ [LF])) in
        say ($"added completion to " ++ rc ++ $" (restart your shell or `source` it)")
  end.

(** ** Configuration *)

(** The text of [~/.rs5cmd], if there is one. *)
Definition rs5cmd_dotfile (w : W) : option str :=
  match environ w !! ($"HOME") with
  | None => None
  | Some home => match read_to_string (pathbuf_join home ($".rs5cmd")) w with Ok t => Some t | Err _ => None end
  end.

Definition export_credentials_file (g : GlobalOpts) (w : W) : W :=
  match g_credentials_file g with
  | Some path => put_environ (<[$"AWS_SHARED_CREDENTIALS_FILE" := path]> (environ w)) w
  | None => w
  end.

(** The options in force, with the environment extended and the modes of the output set; the
    order is that of [run]. *)
Definition set_up (now : Z) (g : GlobalOpts) : M (Console W) GlobalOpts :=
  let! s3cfg := io (match g_s3cfg g with
                    | Some path => let! text := import_text path ($"reading --s3cfg ") in mret (Some text)
                    | None => mret None
                    end) in
  λ c,
    let '(g, env) := configure s3cfg (rs5cmd_dotfile (world c)) g (environ (world c)) in
    let w := put_environ env (world c) in
    let m := out_mode (g_json g) (g_dry_run g) (color_choice (g_color g)) (stdout_is_terminal w) (env !! ($"NO_COLOR")) in
    let c := {| mode := m; printed := printed c; stdin := stdin c; world := w |} in
    match validate_bandwidth_limits now g with
    | Ok _ => (Ok g, c)
    | Err e => (Err e, c)
    end.
End Startup.

(** ** Dispatch *)

(** The choices of the worker pools of a run. *)
Record Schedules := { cp_choices : list choice; sync_copies : list choice; sync_deletes : list choice }.

Section Dispatch.
Context `{RegexLib, ByteSizeLib, Clap, HumanSize, TimeLib, UnicodeCase, F64, Md5, MapOrder} {W : Type}.
Context `{!Os W, !Process W, !Sdk W, !SelectSdk W, !HeadSdk W, !PresignSdk W, !Tokio W, !Unordered, !Aborted, !UrlDebug}.
(** The bound on the pages of a listing, and the schedules. *)
Context (fuel : nat) (sched : Schedules).

#[local] Instance program_backend : S3Ops W := sdk_backend fuel.
#[local] Instance program_buckets : BucketOps W := sdk_buckets fuel.

(** A result and a console, or [None]: the process panics, or the schedule is not one of
    this run. *)
Definition Run : Type := Console W → option (result unit Error * Console W).
Definition total (m : M (Console W) unit) : Run := λ c, Some (m c).

(** A command of the world alone: its result lines are not modelled. *)
Definition silent (m : W → option (result unit Error * W)) : Run := λ c,
  match m (world c) with Some (r, w) => Some (r, set_world c w) | None => None end.

Definition dispatch (on_run : GlobalOpts → option str → Run) (now : Z) (g : GlobalOpts) (cmd : Command) : Run :=
  let opts := storage_options now g in
  match cmd with
  | CLs a => total (ls_run now opts a)
  | CCp a => silent (λ w, option_map (λ '(r, w), (cr_result r, w)) (Cp.run now g a false (cp_choices sched) w))
  | CMv a => silent (λ w, option_map (λ '(r, w), (cr_result r, w)) (Cp.run now g a true (cp_choices sched) w))
  | CRm a => total (rm_run opts a)
  | CCat a => total (cat_run fuel opts a)
  | CMb b => total (run_mb opts b)
  | CRb a => total (run_rb opts a)
  | CSync a => silent (λ w, option_map (λ '(r, _, w), (r, w)) (Sync.run now g a (sync_copies sched) (sync_deletes sched) w))
  | CDu a => total (du_run opts a)
  | CTree a => total (tree_run opts a)
  | CPipe a => total (pipe_run opts a)
  | CHead a => total (head_run opts a)
  | CPresign a => presign_run opts a
  | CSelect a => total (select_run fuel opts a)
  | CRun file => on_run g file
  | CBucketVersion a => total (run_bucket_version opts a)
  | CCompletion shell => total (write_raw (completion_script shell))
  | CImportS3cfg _ => λ _, None
  end.

(** [command::run], at the instant [now]. *)
Definition program (on_run : GlobalOpts → option str → Run) (now : Z) (cli : Cli) : Run := λ c,
  if g_install_completion (global cli) then total install_completion c
  else
    let c := set_world c (export_credentials_file (global cli) (world c)) in
    match command cli with
    | Some (CImportS3cfg a) => total (import_run a) c
    | cmd =>
        match set_up now (global cli) c with
        | (Err e, c) => Some (Err e, c)
        | (Ok g, c) =>
            match cmd with
            | None => total (let! _ := write_raw help_text in say []) c
            | Some cmd => dispatch on_run now g cmd c
            end
        end
    end.

(** The exit code of a run that is not interrupted, and its error line. *)
Definition exit_code (r : result unit Error) : Z := match r with Ok _ => 0 | Err _ => 1 end.
Definition main_line (r : result unit Error) : list Line :=
  match r with Ok _ => [] | Err e => [Stderr ($"error: " ++ show_error_alt e)] end.
End Dispatch.
