(* ===== verification/ProgramSpec.v ===== *)
(** * Importing a configuration and running with it *)

From S2P Require Import Prelude RustStr Strutil Url Storage Pool Fs Hoare S3cfg Global Output Program.

Local Open Scope Z_scope.

(** What a run can see of a file by its path, and the environment, are the same. *)
Definition untouched {W} `{!Os W, !Process W} (p : str) (w w' : W) : Prop :=
  read_to_string p w' = read_to_string p w ∧ environ w' = environ w.

(** Writing a path changes the text of that path only, and what is written is read back; a
    file written is a Rust string's bytes, so UTF-8. *)
Class ProcessLaws (W : Type) `{!Os W, !Process W} := {
  mode_of : W → str → option Z;
  environ_law : ∀ e w, environ (put_environ e w) = e ∧ ∀ p, read_to_string p (put_environ e w) = read_to_string p w;
  fs_write_law : ∀ p d w r w', fs_write p d w = (r, w') →
    (∀ q, q ≠ p → untouched q w w') ∧ (r = Ok tt → is_utf8 d = true → read_to_string p w' = Ok d) ∧ environ w' = environ w;
  mkdir_law : ∀ p w r w', create_dir_all p w = (r, w') → ∀ q, untouched q w w';
  open_mode_law : ∀ p m w r w', open_mode p m w = (r, w') → (∀ q, q ≠ p → untouched q w w') ∧ environ w' = environ w;
  overwrite_law : ∀ p m d w w1 r w', open_mode p m w = (Ok tt, w1) → write_all_at p d 0 w1 = (r, w') →
    (∀ q, q ≠ p → untouched q w1 w') ∧ (r = Ok tt → is_utf8 d = true → read_to_string p w' = Ok d) ∧ environ w' = environ w1;
  permissions_law : ∀ p m w r w', set_permissions p m w = (r, w') →
    (∀ q, untouched q w w') ∧ (r = Ok tt → mode_of w' p = Some m);
}.

Section ProgramSpec.
Context `{ByteSizeLib, !ByteSizeLaws, Clap} {W : Type} `{!Os W, !Process W, !ProcessLaws W}.

Lemma untouched_trans p (w w1 w2 : W) : untouched p w w1 → untouched p w1 w2 → untouched p w w2.
Proof. intros [Hr He] [Hr' He']. split; congruence. Qed.

Lemma complain_all_run ls (c : Console W) : ∃ c', complain_all ls c = (Ok tt, c') ∧ world c' = world c.
Proof.
  revert c. induction ls as [|l ls IH]; intros c; cbn [complain_all]; [by exists c|].
  destruct (IH (complain l c).2) as (c' & Hr & Hw). exists c'. split; [exact Hr|exact Hw].
Qed.

Definition credentials_file (home : str) : str := pathbuf_join (pathbuf_join home ($".aws")) ($"credentials").

Lemma dotfile_not_credentials home : pathbuf_join home ($".rs5cmd") ≠ credentials_file home.
Proof.
  unfold credentials_file. unfold pathbuf_join at 2 3. intros Heq. apply (f_equal reverse) in Heq.
  unfold pathbuf_join in Heq.
  repeat case_match; rewrite ?reverse_app in Heq; discriminate Heq.
Qed.

(** The credentials written: the section in the file, with mode 0600, and nothing else. *)
Lemma write_aws_credentials_run prof ak sk tok home (w : W) r w' :
  environ w !! ($"HOME") = Some home → write_aws_credentials prof ak sk tok w = (r, w') →
  let path := credentials_file home in
  let merged := credentials_text (match read_to_string path w with Ok t => t | Err _ => [] end) prof ak sk tok in
  (∀ q, q ≠ path → untouched q w w') ∧ environ w' = environ w ∧
  (∀ p, r = Ok p → p = path ∧ mode_of w' path = Some 384 ∧ (is_utf8 merged = true → read_to_string path w' = Ok merged)).
Proof.
  intros Hhome. unfold write_aws_credentials. rewrite (mbind_step _ _ w home w) by by unfold home_dir; rewrite Hhome.
  cbv zeta. fold (credentials_file home). set (path := credentials_file home).
  unfold mbind at 1. destruct (create_dir_all _ w) as [[[]|e] w1] eqn:Hmk; pose proof (mkdir_law _ _ _ _ Hmk) as Hu1.
  2:{ intros [= <- <-]. split_and!; [done|apply (Hu1 path)|done]. }
  assert (Hread : read_to_string path w1 = read_to_string path w) by apply Hu1.
  rewrite (mbind_step _ _ w1 _ w1) by done. rewrite Hread. set (merged := credentials_text _ prof ak sk tok).
  unfold mbind at 1. destruct (open_mode path 384 w1) as [[[]|e] w2] eqn:Ho; destruct (open_mode_law _ _ _ _ _ Ho) as [Hu2 He2].
  2:{ intros [= <- <-]. split_and!; [|rewrite He2; apply (Hu1 path)|done]. intros q Hq. eapply untouched_trans; [apply Hu1|by apply Hu2]. }
  unfold mbind at 1. destruct (write_all_at path merged 0 w2) as [r3 w3] eqn:Hw.
  destruct (overwrite_law _ _ _ _ _ _ _ Ho Hw) as (Hu3 & Hok & He3).
  assert (H13 : ∀ q, q ≠ path → untouched q w w3).
  { intros q Hq. eapply untouched_trans; [apply Hu1|]. eapply untouched_trans; [by apply Hu2|by apply Hu3]. }
  assert (Henv : environ w3 = environ w) by (rewrite He3, He2; apply (Hu1 path)).
  destruct r3 as [[]|e]; [|by intros [= <- <-]].
  unfold mbind. destruct (set_permissions path 384 w3) as [r4 w4] eqn:Hp. destruct (permissions_law _ _ _ _ _ Hp) as [Hu4 Hmode].
  assert (H14 : ∀ q, q ≠ path → untouched q w w4) by (intros q Hq; eapply untouched_trans; [by apply H13|apply Hu4]).
  assert (Henv4 : environ w4 = environ w) by (rewrite <-Henv; apply (Hu4 path)).
  destruct r4 as [[]|e]; [|by intros [= <- <-]]. intros [= <- <-]. split_and!; [done|done|]. intros p [= <-].
  split_and!; [done|by apply Hmode|]. intros Hu. destruct (Hu4 path) as [-> _]. by apply Hok.
Qed.

(** What a successful import leaves: the dotfile of the translation, and the credentials. *)
Lemma import_run_spec a text home (c : Console W) c' :
  let t := translate_s3cfg (parse_ini text) in
  read_to_string (im_path a) (world c) = Ok text → im_out a = None → environ (world c) !! ($"HOME") = Some home →
  is_utf8 (to_rs5cmd_ini t) = true → import_run a c = (Ok tt, c') →
  environ (world c') = environ (world c) ∧ rs5cmd_dotfile (world c') = Some (to_rs5cmd_ini t) ∧
  (im_no_credentials a = false → is_Some (access_key t) → is_Some (secret_key t) →
     mode_of (world c') (credentials_file home) = Some 384).
Proof.
  cbv zeta. intros Htext Hout Hhome Hutf. unfold import_run.
  rewrite (mbind_step _ _ c text c) by (apply io_same; unfold import_text; by rewrite Htext). cbv zeta.
  set (t := translate_s3cfg (parse_ini text)) in *.
  destruct (complain_all_run (map (app ($"warning: ")) (warnings t)) c) as (c1 & Hc1 & Hw1). rewrite (mbind_step _ _ _ _ _ Hc1).
  rewrite Hout. set (dot := pathbuf_join home ($".rs5cmd")).
  rewrite (mbind_step _ _ c1 dot c1) by (apply io_same; unfold mbind, home_dir; by rewrite Hw1, Hhome).
  unfold mbind at 1. unfold io at 1, labelled at 1. destruct (fs_write dot _ (world c1)) as [[[]|e] w2] eqn:Hfw; [|done].
  destruct (fs_write_law _ _ _ _ _ Hfw) as (Hu2 & Hok2 & He2). cbn [result_map_err]. rewrite Hw1 in *.
  specialize (Hok2 eq_refl Hutf). set (c2 := set_world c1 w2).
  rewrite (mbind_step _ _ c2 tt (say ($"wrote rs5cmd config to " ++ dot) c2).2) by done.
  set (c3 := (say _ c2).2). assert (Hw3 : world c3 = w2) by done. clearbody c3. clear c2.
  intros Hrun. unfold mbind at 1 in Hrun.
  set (creds := if im_no_credentials a then mret tt else _) in Hrun. destruct (creds c3) as [[[]|e] c4] eqn:Hcr; [|done].
  assert (Hend : world c' = world c4) by by injection Hrun as <-. clear Hrun.
  assert (Hdot : ∀ w, untouched dot w2 w → environ w = environ (world c) ∧ rs5cmd_dotfile w = Some (to_rs5cmd_ini t)).
  { intros w [Hr He]. unfold rs5cmd_dotfile. rewrite He, He2, Hhome. split; [done|]. fold dot. by rewrite Hr, Hok2. }
  rewrite Hend. unfold creds in Hcr. destruct (im_no_credentials a).
  { injection Hcr as <-. rewrite Hw3. by destruct (Hdot w2 (conj eq_refl eq_refl)). }
  destruct (access_key t) as [ak|], (secret_key t) as [sk|];
    try (injection Hcr as <-; cbn [world complain emit snd]; rewrite Hw3; destruct (Hdot w2 (conj eq_refl eq_refl));
         split_and!; [done|done|by intros _ [? ?] [? ?]]).
  unfold mbind, io in Hcr. destruct (write_aws_credentials _ ak sk _ (world c3)) as [[p|e] w5] eqn:Hwc; [|done].
  injection Hcr as <-. cbn [world say emit set_world].
  rewrite Hw3 in Hwc. apply (write_aws_credentials_run _ _ _ _ home) in Hwc as (Hu5 & _ & Hok5); [|by rewrite He2].
  destruct (Hok5 p eq_refl) as (_ & Hmode & _).
  destruct (Hdot w5 (Hu5 dot (dotfile_not_credentials home))) as [He Hd]. by split_and!.
Qed.

End ProgramSpec.
