(* ===== verification/Run.v ===== *)
(** * [run] (src/src/command/run.rs)

    The lines run on one task, [workers] of them in flight: the pool of Pool.v, where a line
    takes effect at one instant. The error lines of the report are collected in the pool's
    accumulator. shell_words and clap's parser are classes. *)

From S2P Require Import Prelude RustStr Btree Strutil Url Storage Pool Fs Tasks S3Client Transfer Listing S3cfg Global.
From S2P Require Import Output Pipe Sync Cp Rm Units Bucket Du Tree Ls Backend Cat Select Head Presign Program.

Local Open Scope Z_scope.

Class CommandLine := {
  shell_split : str → result (list str) str;
  try_parse_from : list str → result Cli str;
}.

(** ** The argument vector of a line *)

Definition opt_flag (name : str) (v : option str) : list str := match v with Some v => [name; v] | None => [] end.
Definition bool_flag (name : str) (b : bool) : list str := if b then [name] else [].

Definition global_flags (g : GlobalOpts) : list str :=
  opt_flag ($"--endpoint-url") (g_endpoint_url g)
  ++ opt_flag ($"--region") (g_region g)
  ++ opt_flag ($"--profile") (g_profile g)
  ++ opt_flag ($"--addressing-style") (g_addressing_style g)
  ++ opt_flag ($"--proxy") (g_proxy g)
  ++ bool_flag ($"--no-sign-request") (g_no_sign_request g)
  ++ bool_flag ($"--no-verify-ssl") (g_no_verify_ssl g)
  ++ bool_flag ($"--dry-run") (g_dry_run g)
  ++ bool_flag ($"--json") (g_json g)
  ++ bool_flag ($"--use-list-objects-v1") (g_use_list_objects_v1 g)
  ++ [$"--numworkers"; to_string (g_numworkers g); $"--retry-count"; to_string (g_retry_count g)]
  ++ opt_flag ($"--ca-certs-file") (g_ca_certs_file g)
  ++ opt_flag ($"--request-payer") (g_request_payer g)
  ++ opt_flag ($"--limitrate") (g_limitrate g).

Definition build_argv (g : GlobalOpts) (tokens : list str) : list str := $"rs5cmd" :: global_flags g ++ tokens.

(** ** The lines *)

Fixpoint numbered_lines (i : nat) (ls : list str) : list (nat * str) :=
  match ls with
  | [] => []
  | raw :: ls =>
      let line := trim raw in
      if bool_decide (line = []) || starts_with ($"#") line then numbered_lines (S i) ls
      else (S i, line) :: numbered_lines (S i) ls
  end.

(** The commands of a file, with their line numbers. *)
Definition command_lines (content : str) : list (nat * str) := numbered_lines 0 (lines content).

(** [read_to_string] of standard input. *)
Fixpoint read_all (s : Stream) : result str Error :=
  match s with
  | [] => Ok []
  | Err e :: _ => Err e
  | Ok chunk :: s => if bool_decide (chunk = []) then Ok [] else let? rest := read_all s in Ok (chunk ++ rest)
  end.

Definition not_utf8 : Error := anyhow ($"stream did not contain valid UTF-8").

Definition read_stdin (s : Stream) : result str Error :=
  let? text := read_all s in if is_utf8 text then Ok text else Err not_utf8.

Section Run.
Context `{RegexLib, ByteSizeLib, Clap, HumanSize, TimeLib, UnicodeCase, F64, Md5, MapOrder, CommandLine} {W : Type}.
Context `{!Os W, !Process W, !Sdk W, !SelectSdk W, !HeadSdk W, !PresignSdk W, !Tokio W, !Unordered, !Aborted, !UrlDebug}.
Context (fuel : nat) (sched : Schedules).

(** [run_line]; a nested run is refused before it is dispatched. *)
Definition run_line (g : GlobalOpts) (job : nat * str) : Run (W := W) := λ c,
  match shell_split job.2 with
  | Err e => Some (Err (anyhow ($"parsing line " ++ to_string (Z.of_nat job.1) ++ $": " ++ e)), c)
  | Ok [] => Some (Ok tt, c)
  | Ok tokens =>
      match try_parse_from (build_argv g tokens) with
      | Err e => Some (Err (anyhow ($"line " ++ to_string (Z.of_nat job.1) ++ $": " ++ e)), c)
      | Ok cli =>
          match command cli with
          | Some (CRun _) => Some (Err (anyhow ($"nested run is not supported (line " ++ to_string (Z.of_nat job.1) ++ $")")), c)
          | _ =>
              let '(now, w) := instant_now (world c) in
              program fuel sched (λ _ _ _, None) now cli (set_world c w)
          end
      end
  end.

(** [run_one]: a panic is [None]. *)
Definition run_one (g : GlobalOpts) (job : nat * str) (c : Console W) : option (result unit Error) * Console W :=
  match run_line g job c with Some (r, c) => (Some r, c) | None => (None, c) end.

Definition report_line (job : nat * str) (r : option (result unit Error)) (a : bool * list Line) : bool * list Line :=
  match r with
  | Some (Err e) => (true, a.2 ++ [Stderr ($"ERROR " ++ job.2 ++ $": " ++ show_error_alt e)])
  | _ => a
  end.

Definition run_content (file : option str) : M (Console W) str := λ c,
  match file with
  | Some path => (result_map_err (λ e, anyhow ($"opening " ++ path ++ $": " ++ e)) (read_to_string path (world c)), c)
  | None => (result_map_err (λ e, anyhow ($"reading stdin: " ++ show_error e)) (read_stdin (stdin c)), set_stdin c [])
  end.

Definition panicked (x : (nat * str) * option (result unit Error)) : bool := match x.2 with None => true | Some _ => false end.

(** [run], under the choices of the pool; [None]: a panic, or choices that are not a run. *)
Definition run_file (choices : list choice) (g : GlobalOpts) (file : option str) : Run (W := W) := λ c,
  match run_content file c with
  | (Err e, c) => Some (Err e, c)
  | (Ok content, c) =>
      let workers := Z.to_nat (Z.max (g_numworkers g) 1) in
      match pool_run (run_one g) report_line (λ _, false) workers choices
              (pool_init (command_lines content) (false, []) c) with
      | Some p =>
          match todo p, running p with
          | [], [] =>
              if existsb panicked (reported p) then None
              else
                let '(had_error, errs) := acc p in
                let c := Pool.world p in
                Some (if had_error : bool then Err (anyhow ($"one or more run commands failed")) else Ok tt,
                      {| mode := mode c; printed := printed c ++ errs; stdin := stdin c; world := world c |})
          | _, _ => None
          end
      | None => None
      end
  end.

(** The whole program. *)
Definition rs5cmd (choices : list choice) (now : Z) (cli : Cli) : Run (W := W) :=
  program fuel sched (run_file choices) now cli.
End Run.
