(* ===== verification/RunSpec.v ===== *)
(** * What [run] does with its lines *)

From S2P Require Import Prelude RustStr Btree Strutil Url Storage Pool Fs Tasks S3Client Transfer Listing S3cfg Global.
From S2P Require Import Output Pipe Sync Cp Rm Units Bucket Du Tree Ls Backend Cat Select Head Presign Program Run.

Local Open Scope Z_scope.

Section RunSpec.
Context `{RegexLib, ByteSizeLib, Clap, HumanSize, TimeLib, UnicodeCase, F64, Md5, MapOrder, CommandLine} {W : Type}.
Context `{!Os W, !Process W, !Sdk W, !SelectSdk W, !HeadSdk W, !PresignSdk W, !Tokio W, !Unordered, !Aborted, !UrlDebug}.
Context (fuel : nat) (sched : Schedules).

(** The lines run one after the other, each with its result, none panicking. *)
Fixpoint run_in_order (g : GlobalOpts) (jobs : list (nat * str)) (c : Console W)
  : option (list ((nat * str) * result unit Error) * Console W) :=
  match jobs with
  | [] => Some ([], c)
  | j :: jobs =>
      match run_line fuel sched g j c with
      | None => None
      | Some (r, c) => match run_in_order g jobs c with Some (rs, c) => Some ((j, r) :: rs, c) | None => None end
      end
  end.

Definition line_ok (x : (nat * str) * result unit Error) : bool := is_ok x.2.

(** The error line of a line that failed. *)
Definition error_line (x : (nat * str) * result unit Error) : list Line :=
  match x.2 with Err e => [Stderr ($"ERROR " ++ x.1.2 ++ $": " ++ show_error_alt e)] | Ok _ => [] end.

Lemma exec_in_order g jobs c rs c' :
  exec_all (run_one fuel sched g) jobs c = (rs, c') → existsb panicked rs = false →
  ∃ outs, run_in_order g jobs c = Some (outs, c') ∧ rs = map (λ x, (x.1, Some x.2)) outs.
Proof.
  revert c rs c'. induction jobs as [|j jobs IH]; intros c rs c'; cbn [exec_all run_in_order].
  { intros [= <- <-] _. by exists []. }
  unfold run_one at 1. destruct (run_line fuel sched g j c) as [[r c1]|].
  - destruct (exec_all _ jobs c1) as [l c2] eqn:He. intros [= <- <-]. cbn [existsb panicked snd orb]. intros Hp.
    destruct (IH _ _ _ He Hp) as (outs & -> & ->). by exists ((j, r) :: outs).
  - destruct (exec_all _ jobs c) as [l c2]. intros [= <- <-]. done.
Qed.

Lemma report_lines rs b ls :
  report_all report_line (map (λ x : (nat * str) * result unit Error, (x.1, Some x.2)) rs) (b, ls) =
    (b || negb (forallb line_ok rs), ls ++ concat (map error_line rs)).
Proof.
  revert b ls. induction rs as [|[j r] rs IH]; intros b ls; unfold report_all in *; cbn [map foldl fst snd].
  { by rewrite orb_false_r, app_nil_r. }
  cbn [forallb concat line_ok error_line fst snd]. destruct r as [[]|e]; cbn [report_line]; rewrite IH; [done|].
  cbn. by rewrite orb_true_r, <-app_assoc.
Qed.

Lemma all_reported (rs : list ((nat * str) * option (result unit Error))) :
  existsb panicked rs = false → ∃ outs, rs = map (λ x : (nat * str) * result unit Error, (x.1, Some x.2)) outs.
Proof.
  induction rs as [|[j [r|]] rs IH]; [by exists []| |done]. intros [outs ->]%IH. by exists ((j, r) :: outs).
Qed.

Lemma some_perm (l l' : list ((nat * str) * result unit Error)) :
  map (λ x, (x.1, Some x.2)) l ≡ₚ map (λ x, (x.1, Some x.2)) l' → l ≡ₚ l'.
Proof.
  intros Hp%(Permutation_map (λ x, (x.1, default (Ok tt) x.2))). rewrite !map_map in Hp. cbn in Hp.
  assert (Hid : ∀ l : list ((nat * str) * result unit Error), map (λ x, (x.1, x.2)) l = l)
    by (intros q; induction q as [|[] q IH]; cbn; congruence).
  by rewrite !Hid in Hp.
Qed.

(** The lines keep their order, and each has its own number. *)
Lemma numbered_sorted i ls : StronglySorted lt (map fst (numbered_lines i ls)) ∧ Forall (lt i) (map fst (numbered_lines i ls)).
Proof.
  revert i. induction ls as [|l ls IH]; intros i; cbn [numbered_lines]; [split; constructor|].
  destruct (IH (S i)) as [Hs Hi]. assert (Hi' : Forall (lt i) (map fst (numbered_lines (S i) ls)))
    by (eapply Forall_impl; [exact Hi|cbn; lia]).
  destruct (_ || _); [done|]. cbn. split; [by constructor|constructor; [lia|done]].
Qed.


(** A nested run is refused, whatever it names, and nothing happens. *)
Lemma nested_run_refused g i line tokens cli file (c : Console W) :
  shell_split line = Ok tokens → tokens ≠ [] → try_parse_from (build_argv g tokens) = Ok cli → command cli = Some (CRun file) →
  ∃ e, run_line fuel sched g (i, line) c = Some (Err e, c).
Proof.
  intros Hs Hne Hp Hc. unfold run_line. cbn [snd]. rewrite Hs. destruct tokens as [|t ts]; [done|]. rewrite Hp, Hc. by eexists.
Qed.
End RunSpec.

(** Per-side regions and endpoints, dual-stack, FIPS, the directed limits, the colour and the
    configuration files of the run are not passed on to its lines. *)
Lemma argv_forgets (g g' : GlobalOpts) tokens :
  (g_endpoint_url g, g_region g, g_profile g, g_addressing_style g, g_proxy g, g_no_sign_request g, g_no_verify_ssl g)
  = (g_endpoint_url g', g_region g', g_profile g', g_addressing_style g', g_proxy g', g_no_sign_request g', g_no_verify_ssl g') →
  (g_dry_run g, g_json g, g_use_list_objects_v1 g, g_numworkers g, g_retry_count g, g_ca_certs_file g, g_request_payer g,
   g_limitrate g)
  = (g_dry_run g', g_json g', g_use_list_objects_v1 g', g_numworkers g', g_retry_count g', g_ca_certs_file g',
     g_request_payer g', g_limitrate g') →
  build_argv g tokens = build_argv g' tokens.
Proof. unfold build_argv, global_flags. intros [= -> -> -> -> -> -> ->] [= -> -> -> -> -> -> -> ->]. done. Qed.
