(* ===== verification/SdkWorld.v ===== *)
(** * A concrete world for the S3 client

    An in-memory server and disk: instances of [Os], [Sdk], [Tokio] and [StoreLaws], on
    which the witnesses of the transfers and listings evaluate. *)

From S2P Require Import Prelude RustStr Strutil Url RateLimit Storage Fs Tasks S3Client Transfer TransferParts.
From S2P Require Import Store TransferSpec Listing ListingSpec MemWorld Backend.
From S2P Require Import Output Pipe PipeSpec.

Local Open Scope Z_scope.

(** ** The world *)

Record SdkWorld := {
  sw_files : gmap str str;
  sw_objs : gmap (str * str) str;
  sw_parts : gmap (str * Z) str;
  sw_next : Z;
  sw_clock : Z;
  sw_cell : option RateLimiter;
  sw_env : gmap str str;
  sw_modes : gmap str Z;
}.

Definition set_files (f : gmap str str) (w : SdkWorld) : SdkWorld :=
  {| sw_files := f; sw_objs := sw_objs w; sw_parts := sw_parts w; sw_next := sw_next w; sw_clock := sw_clock w;
     sw_cell := sw_cell w; sw_env := sw_env w; sw_modes := sw_modes w |}.
Definition set_objs (o : gmap (str * str) str) (w : SdkWorld) : SdkWorld :=
  {| sw_files := sw_files w; sw_objs := o; sw_parts := sw_parts w; sw_next := sw_next w; sw_clock := sw_clock w;
     sw_cell := sw_cell w; sw_env := sw_env w; sw_modes := sw_modes w |}.
Definition set_parts (p : gmap (str * Z) str) (w : SdkWorld) : SdkWorld :=
  {| sw_files := sw_files w; sw_objs := sw_objs w; sw_parts := p; sw_next := sw_next w; sw_clock := sw_clock w;
     sw_cell := sw_cell w; sw_env := sw_env w; sw_modes := sw_modes w |}.
Definition set_clock (t : Z) (w : SdkWorld) : SdkWorld :=
  {| sw_files := sw_files w; sw_objs := sw_objs w; sw_parts := sw_parts w; sw_next := sw_next w; sw_clock := t;
     sw_cell := sw_cell w; sw_env := sw_env w; sw_modes := sw_modes w |}.
Definition set_cell (c : RateLimiter) (w : SdkWorld) : SdkWorld :=
  {| sw_files := sw_files w; sw_objs := sw_objs w; sw_parts := sw_parts w; sw_next := sw_next w;
     sw_clock := sw_clock w; sw_cell := Some c; sw_env := sw_env w; sw_modes := sw_modes w |}.
Definition set_process (e : gmap str str) (m : gmap str Z) (w : SdkWorld) : SdkWorld :=
  {| sw_files := sw_files w; sw_objs := sw_objs w; sw_parts := sw_parts w; sw_next := sw_next w;
     sw_clock := sw_clock w; sw_cell := sw_cell w; sw_env := e; sw_modes := m |}.

Definition sdk_file (p : str) (w : SdkWorld) : option str := sw_files w !! p.

Definition edit_file (p : str) (f : str → str) : M SdkWorld unit := λ w,
  match sw_files w !! p with
  | Some b => (Ok tt, set_files (<[p := f b]> (sw_files w)) w)
  | None => (Err (io_error enoent), w)
  end.

Definition file_result (p : str) (w : SdkWorld) : result str Error :=
  match sw_files w !! p with Some b => Ok b | None => Err (io_error enoent) end.

Definition file_meta (p : str) (w : SdkWorld) : result FileMeta IoError :=
  match sw_files w !! p with
  | Some b => Ok {| ft := FtFile; len := Z.of_nat (length b); modified := Some 1700000000123456789 |}
  | None => Err enoent
  end.

#[export] Instance sdk_os : Os SdkWorld := {
  symlink_metadata := file_meta;
  metadata := file_meta;
  read_link _ _ := Err enoent;
  read_to_string p w := result_map_err show_error (file_result p w);
  read_bytes p w := match sw_files w !! p with Some b => Ok b | None => Err enoent end;
  remove_file p w := match sw_files w !! p with
                     | Some _ => (Ok tt, set_files (delete p (sw_files w)) w)
                     | None => (Err (io_error enoent), w)
                     end;
  remove_dir _ := mret tt;
  create_dir_all _ := mret tt;
  copy_file s d w := match sw_files w !! s with
                     | Some b => (Ok tt, set_files (<[d := b]> (sw_files w)) w)
                     | None => (Err (io_error enoent), w)
                     end;
  symlink _ _ := mret tt;
  write_all_at p d off := edit_file p (λ b, write_at zero_byte b off d);
  read_at p off n w := let? b := file_result p w in Ok (slice b off n);
  set_len p n := edit_file p (λ b, resize zero_byte b n);
  sync_all _ := mret tt;
  open_create p trunc w :=
    (Ok tt, if trunc || negb (is_some_b (sw_files w !! p)) then set_files (<[p := []]> (sw_files w)) w else w);
  fs_write p b w := (Ok tt, set_files (<[p := b]> (sw_files w)) w);
  walkdir _ _ _ := [];
  glob _ _ := Ok [];
}.

(** The two numbers of a [bytes=a-b] range. *)
Definition parse_range (r : str) : option (Z * Z) :=
  match strip_prefix ($"bytes=") r with
  | Some s => option_map (λ '(a, b), (digits_val 0 a, digits_val 0 b)) (split_once ($"-") s)
  | None => None
  end.

Definition sdk_err (m : str) : SdkError := {| sdk_error := anyhow m; sdk_debug := m; sdk_not_found := false |}.
Definition no_such_key : SdkError :=
  {| sdk_error := anyhow ($"NoSuchKey"); sdk_debug := $"NoSuchKey"; sdk_not_found := true |}.

(** What S3 stores: objects of at most 2^63-1 bytes, under keys of valid UTF-8. *)
Definition storable (key body : str) : bool :=
  bool_decide (from_utf8_lossy key = key) && (Z.of_nat (length body) <=? i64_max).

Definition visible (w : SdkWorld) : gmap (str * str) str :=
  filter (λ ko : (str * str) * str, storable ko.1.2 ko.2 = true) (sw_objs w).

Definition obj_at (k : objkey) (w : SdkWorld) : option str :=
  match k with (b, p, None) => visible w !! (b, p) | _ => None end.

Definition world_get (q : ObjectRequest) (w : SdkWorld) : result GetOutput SdkError :=
  match obj_at (request_key q) w with
  | None => Err no_such_key
  | Some o =>
      let total := Z.of_nat (length o) in
      match q_range q with
      | None => Ok {| out_body := [Ok o]; out_content_range := None; out_content_length := Some total;
                      out_metadata := ∅ |}
      | Some r =>
          match parse_range r with
          | Some (a, b) =>
              if (a <? total) && (total <=? u64_max) then
                Ok {| out_body := [Ok (slice o a (b - a + 1))];
                      out_content_range := Some (content_range_text a (Z.min b (total - 1)) total);
                      out_content_length := None; out_metadata := ∅ |}
              else Err (sdk_err ($"InvalidRange"))
          | None => Err (sdk_err ($"InvalidArgument"))
          end
      end
  end.

Definition put_obj (q : ObjectRequest) (body : str) (w : SdkWorld) : result unit SdkError * SdkWorld :=
  if storable (q_key q) body then (Ok tt, set_objs (<[(q_bucket q, q_key q) := body]> (sw_objs w)) w)
  else (Err (sdk_err ($"InvalidRequest")), w).

Definition world_part (id : str) (n : Z) (body : str) (w : SdkWorld) : result (option str) SdkError * SdkWorld :=
  (Ok (Some ($"etag")), set_parts (<[(id, n) := body]> (sw_parts w)) w).

Definition world_complete (q : ObjectRequest) (id : str) (ps : list (Z * option str)) (w : SdkWorld)
  : result unit SdkError * SdkWorld :=
  match mapM (λ p : Z * option str, sw_parts w !! (id, p.1)) ps with
  | Some bodies => put_obj q (concat bodies) w
  | None => (Err (sdk_err ($"InvalidPart")), w)
  end.

Definition copied (cs : str) (w : SdkWorld) : option str := decode_source cs ≫= λ k, obj_at k w.

(** A key as a listing sends it, with [encoding-type=url]. *)
Definition encode_key (k : str) : str := plus_to_space (flat_map escape_byte k).

Definition world_entry (ko : (str * str) * str) : Content :=
  {| c_key := Some (encode_key ko.1.2); c_etag := None; c_modified := None; c_size := Some (Z.of_nat (length ko.2));
     c_class := None; c_version := None |}.

Definition world_entries (b : str) (w : SdkWorld) : list Content :=
  omap (λ ko : (str * str) * str, if bool_decide (ko.1.1 = b) then Some (world_entry ko) else None)
    (map_to_list (visible w)).

Definition page_of (cs : list Content) (more : bool) : Page :=
  {| p_prefixes := []; p_contents := cs; p_markers := []; p_truncated := Some more; p_next_key := None; p_next_version := None |}.

(** V1: pages of two keys, without [NextMarker]. *)
Definition world_page (q : ListRequest) (m : option str) (w : SdkWorld) : Page :=
  let rest := after_marker (world_entries (l_bucket q) w) m in page_of (take 2 rest) (bool_decide (2 < length rest)%nat).

(** V2: the keys under the prefix. *)
Definition world_pages (q : ListRequest) (w : SdkWorld) : list (result Page SdkError) :=
  let under e := match entry_key e with Some k => starts_with (l_prefix q) k | None => false end in
  [Ok (page_of (List.filter under (world_entries (l_bucket q) w)) false)].

#[export] Instance sdk_sdk : Sdk SdkWorld := {
  Handle := unit;
  from_conf _ := tt;
  env_var _ _ := None;
  shared_region r _ _ := r;
  url_parse _ := Err ($"unsupported");
  pem_certs _ := Ok [];
  check_root _ := None;
  anyhow_debug := show_error_alt;
  get_object _ q w := (world_get q w, w);
  head_object _ q w :=
    (match obj_at (request_key q) w with
     | Some o => Ok {| head_length := Some (Z.of_nat (length o)); head_etag := None; head_modified := None;
                       head_type := None; head_class := None; head_sse := None; head_user := ∅ |}
     | None => Err no_such_key
     end, w);
  put_object _ q _ _ body w := put_obj q body w;
  create_multipart_upload _ _ _ w := (Ok (Some ($"upload-1")), w);
  upload_part _ _ id n body w := world_part id n body w;
  upload_part_copy _ _ id n cs range w :=
    match copied cs w, parse_range range with
    | Some o, Some (a, b) => world_part id n (slice o a (b - a + 1)) w
    | _, _ => (Err no_such_key, w)
    end;
  complete_multipart_upload _ q id ps _ w := world_complete q id ps w;
  abort_multipart_upload _ _ _ w := (Ok tt, w);
  copy_object _ q cs _ w :=
    match copied cs w with
    | Some o => if Z.of_nat (length o) >? 16 then (Err (sdk_err ($"EntityTooLarge")), w)
                else put_obj q o w
    | None => (Err no_such_key, w)
    end;
  delete_object _ q w := (Ok tt, set_objs (delete (q_bucket q, q_key q) (sw_objs w)) w);
  delete_objects _ b keys _ w :=
    (Ok {| deleted := map Some keys; errors := [] |},
     set_objs (foldl (λ m k, delete (b, k) m) (sw_objs w) keys) w);
  list_objects_v2_pages _ q w := (world_pages q w, w);
  list_objects _ q m w := (Ok (world_page q m w), w);
  list_versions _ _ _ _ w := (Err (sdk_err ($"NotImplemented")), w);
  sdk_list_buckets _ w := (Ok [], w);
  create_bucket _ _ w := (Ok tt, w);
  delete_bucket _ b w :=
    (if is_nil (world_entries b w) then Ok tt else Err (sdk_err ($"BucketNotEmpty")), w);
  sdk_get_versioning _ _ w := (Ok None, w);
  sdk_put_versioning _ _ _ w := (Ok tt, w);
}.

#[export] Instance sdk_tokio : Tokio SdkWorld := {
  read_file := file_result;
  byte_stream p o n w :=
    let? b := file_result p w in
    let d := slice b o n in
    if Z.of_nat (length d) =? n then Ok d else Err (anyhow ($"short read"));
  byte_stream_file := file_result;
  open_truncate p w := (Ok tt, set_files (<[p := []]> (sw_files w)) w);
  set_file_mtime _ _ _ := mret tt;
  temp_name w := ($"/tmp/rs5cmd-cc-1-0", w);
  instant_now w := (sw_clock w, set_clock (sw_clock w + 1) w);
  sleep_for d w := set_clock (sw_clock w + d) w;
  limiter_cell rl w := default rl (sw_cell w);
  set_limiter_cell _ rl w := set_cell rl w;
}.

(** ** The world keeps the promises *)

Lemma parse_range_header a b : 0 <= a → 0 <= b → parse_range (range_header a b) = Some (a, b).
Proof.
  intros Ha Hb. unfold parse_range, range_header. rewrite strip_prefix_app.
  change ($"-") with ["-"%char]. change (["-"%char] ++ to_string b) with ("-"%char :: to_string b).
  rewrite split_once_chr.
  - cbn [option_map]. by rewrite !to_string_val.
  - pose proof (to_string_digits a Ha) as Hd. rewrite forallb_Forall in *. eapply Forall_impl; [exact Hd|].
    intros c Hc. cbn. apply negb_true_iff, is_chr_ne. by intros ->.
Qed.

Lemma collect_one d : collect_body [Ok d] = Ok d.
Proof. cbn. by rewrite app_nil_r. Qed.

Lemma edit_file_only p f w r w' :
  edit_file p f w = (r, w') →
  only_file (λ w p, sdk_file p w) (λ w k, obj_at k w) (λ w i n, sw_parts w !! (i, n)) p w w' ∧
  (∀ g, sw_files w !! p = Some g → r = Ok tt → sw_files w' !! p = Some (f g)).
Proof.
  unfold edit_file. destruct (sw_files w !! p) as [g|] eqn:Hg; intros [= <- <-]; (split; [split_and!; [|done..]|]); try done.
  - intros q Hq. unfold sdk_file. cbn. by rewrite lookup_insert_ne.
  - intros g' [= <-] _. cbn. by rewrite lookup_insert_eq.
Qed.

Lemma world_get_range q a b w resp d :
  q_range q = Some (range_header a b) → 0 <= a <= b → world_get q w = Ok resp →
  collect_body (out_body resp) = Ok d →
  ∃ o, obj_at (request_key q) w = Some o ∧ d = slice o a (b - a + 1) ∧ Z.of_nat (length o) <= u64_max ∧
       out_content_range resp = Some (content_range_text a (Z.min b (Z.of_nat (length o) - 1)) (Z.of_nat (length o))).
Proof.
  intros Hq Hab. unfold world_get. rewrite Hq, parse_range_header by lia.
  destruct (obj_at _ w) as [o|]; [|done]. destruct (_ && _) eqn:Hc; [|done]. reflect_bools.
  intros [= <-]. cbn [out_body out_content_range]. rewrite collect_one. intros [= <-]. by exists o.
Qed.

Lemma visible_lookup w l :
  visible w !! l = sw_objs w !! l ≫= λ b, if storable l.2 b then Some b else None.
Proof.
  unfold visible. rewrite map_lookup_filter. destruct (sw_objs w !! l) as [b|]; [|done]. cbn.
  destruct (storable l.2 b) eqn:Hs; by case_guard.
Qed.

Lemma stored w l b : visible w !! l = Some b → sw_objs w !! l = Some b.
Proof. rewrite visible_lookup. destruct (sw_objs w !! l); [|done]. cbn. by destruct (storable _ _). Qed.

(** Objects that changed only at [l]. *)
Lemma touches_at (l : str * str) w w' :
  sw_files w' = sw_files w → (∀ k, k ≠ l → sw_objs w' !! k = sw_objs w !! k) →
  touches (λ w p, sdk_file p w) (λ w k, obj_at k w) l w w'.
Proof.
  intros Hf Ho. split; [intros p; unfold sdk_file; by rewrite Hf|]. intros [[b k] [v|]] Hk; [done|]. cbn in *.
  by rewrite !visible_lookup, Ho.
Qed.

Lemma put_obj_spec q body w r w' :
  put_obj q body w = (r, w') →
  same_files (λ w p, sdk_file p w) w w' ∧
  (r = Ok tt → obj_at (q_bucket q, q_key q, None) w' = Some body) ∧
  (r ≠ Ok tt → same_objs (λ w k, obj_at k w) w w') ∧
  touches (λ w p, sdk_file p w) (λ w k, obj_at k w) (request_loc q) w w'.
Proof.
  unfold put_obj. destruct (storable (q_key q) body) eqn:Hs; intros [= <- <-]; [|by split_and!].
  split_and!; [done| |done|].
  - intros _. cbn. rewrite visible_lookup. cbn [sw_objs set_objs]. rewrite lookup_insert_eq. cbn. by rewrite Hs.
  - apply touches_at; [done|]. intros k Hk. cbn. by apply lookup_insert_ne.
Qed.

Lemma mapM_parts (id : str) (ps : list (Z * option str)) (bodies : list str) (m : gmap (str * Z) str) :
  Forall2 (λ (p : Z * option str) body, m !! (id, p.1) = Some body) ps bodies →
  mapM (λ p : Z * option str, m !! (id, p.1)) ps = Some bodies.
Proof. intros Hps. apply mapM_Some_2. done. Qed.

#[export] Program Instance sdk_laws : StoreLaws SdkWorld := {
  file_of w p := sdk_file p w;
  obj_of w k := obj_at k w;
  part_of w i n := sw_parts w !! (i, n);
}.
Next Obligation. by intros w t w' [= _ <-]. Qed.
Next Obligation. by intros d w. Qed.
Next Obligation. by intros a b w. Qed.
Next Obligation. intros p w m f. unfold sdk_file. cbn. unfold file_meta. intros Hm Hf. rewrite Hf in Hm. by injection Hm as <-. Qed.
Next Obligation. intros p w d. cbn. unfold file_result, sdk_file. by destruct (sw_files w !! p); intros [= <-]. Qed.
Next Obligation. intros p w d. cbn. unfold file_result, sdk_file. by destruct (sw_files w !! p); intros [= <-]. Qed.
Next Obligation.
  intros p o n w d f. cbn. unfold file_result, sdk_file. intros Hd Hf. rewrite Hf in Hd. cbn in Hd.
  destruct (Z.eqb_spec (Z.of_nat (length (slice f o n))) n); [|done]. by injection Hd as <-.
Qed.
Next Obligation.
  intros p w r w' [= <- <-]. split; [|by intros _; unfold sdk_file; cbn; rewrite lookup_insert_eq].
  split_and!; [|done..]. intros q Hq. unfold sdk_file. cbn. by rewrite lookup_insert_ne.
Qed.
Next Obligation. intros p d o w r w' Hw. by apply edit_file_only in Hw. Qed.
Next Obligation. intros p n w r w' Hw. by apply edit_file_only in Hw. Qed.
Next Obligation. by intros p w r w' [= _ <-]. Qed.
Next Obligation. by intros p s n w r w' [= _ <-]. Qed.
Next Obligation. by intros c q w r w' [= _ <-]. Qed.
Next Obligation.
  intros c q w resp w' d Hq [= Hget <-]. revert Hget. unfold world_get. rewrite Hq.
  destruct (obj_at _ w) as [o|]; [|done]. intros [= <-]. cbn [out_body]. rewrite collect_one. by intros [= <-].
Qed.
Next Obligation. intros c q a b w resp w' d Hq Hab [= Hget <-] Hd. by apply (world_get_range q a b w resp d). Qed.
Next Obligation. by intros c q w r w' [= _ <-]. Qed.
Next Obligation.
  intros c q w out w' o. cbn [head_object sdk_sdk]. intros [= Hh _] Ho.
  change (match obj_at (request_key q) w with
          | Some o => Ok {| head_length := Some (Z.of_nat (length o)); head_etag := None; head_modified := None;
                            head_type := None; head_class := None; head_sse := None; head_user := ∅ |}
          | None => Err no_such_key
          end = Ok out) in Hh.
  rewrite Ho in Hh. by injection Hh as <-.
Qed.
Next Obligation.
  intros c q h b body w r w' (? & ? & ? & _)%put_obj_spec. by split_and!.
Qed.
Next Obligation. by intros c q h w r w' [= _ <-]. Qed.
Next Obligation.
  intros c q id n body w r w' [= <- <-]. split; [done|]. split; [done|]. intros t _. cbn.
  split; [apply lookup_insert_eq|]. intros m Hm. apply lookup_insert_ne. congruence.
Qed.
Next Obligation.
  intros c q id n cs src a b w r w' Hc Hdec Hab. cbn [upload_part_copy sdk_sdk] in Hc. unfold copied in Hc.
  rewrite Hdec, parse_range_header in Hc by lia. cbn [base.mbind option_bind] in Hc. destruct (obj_at src w) as [o|] eqn:Ho.
  - injection Hc as <- <-. split; [done|]. split; [done|]. intros t _. exists o. split; [done|]. cbn.
    split; [apply lookup_insert_eq|]. intros m Hm. apply lookup_insert_ne. congruence.
  - by injection Hc as <- <-.
Qed.
Next Obligation.
  intros c q id ps b w r w' bodies Hc _ Hps. cbn in Hc. unfold world_complete in Hc.
  rewrite (mapM_parts id ps bodies (sw_parts w) Hps) in Hc.
  apply put_obj_spec in Hc as (? & ? & ? & _). by split_and!.
Qed.
Next Obligation. by intros c q id w r w' [= _ <-]. Qed.
Next Obligation.
  intros c q cs h src w r w' Hc Hdec. cbn [copy_object sdk_sdk] in Hc. unfold copied in Hc. rewrite Hdec in Hc.
  cbn [base.mbind option_bind] in Hc.
  destruct (obj_at src w) as [o|] eqn:Ho; [|by injection Hc as <- <-].
  destruct (_ >? 16); [injection Hc as <- <-; by split_and!|].
  apply put_obj_spec in Hc as (? & ? & ? & _). split_and!; [done| |done]. intros Hr. exists o. by split; [|auto].
Qed.
Next Obligation. by intros c q h b body w r w' (_ & _ & _ & ?)%put_obj_spec. Qed.
Next Obligation.
  intros c q id ps b w r w'. cbn. unfold world_complete.
  destruct (mapM _ ps) as [bodies|]; [by intros (_ & _ & _ & ?)%put_obj_spec|by intros [= _ <-]].
Qed.
Next Obligation.
  intros c q cs h w r w'. cbn. destruct (copied cs w) as [o|]; [|by intros [= _ <-]].
  destruct (_ >? 16); [by intros [= _ <-]|by intros (_ & _ & _ & ?)%put_obj_spec].
Qed.
Next Obligation.
  intros c q id n cs range w r w'. cbn. destruct (copied cs w) as [o|]; [|by intros [= _ <-]].
  destruct (parse_range range) as [[a b]|]; by intros [= _ <-].
Qed.

(** ** Witnesses *)

Definition demo_client (ps : Z) : S3Client (W := SdkWorld) :=
  {| s_client := tt; s_dry_run := false; s_use_v1 := false; s_payer := None; s_part_size := ps; s_concurrency := 3;
     multipart_copy_threshold := DEFAULT_MULTIPART_COPY_THRESHOLD; s_preserve := true;
     s_upload_limiter := Some (RateLimiter_new 1000 0); s_download_limiter := None |}.

Definition demo_url (k : str) : Url :=
  {| kind := Remote; scheme := $"s3"; bucket := $"b"; path := k; delimiter := $"/"; url_prefix := k;
     version_id := []; all_versions := false; start_after := []; relative_path := []; url_filter := [];
     filter_regex := None; raw := false |}.

Definition demo_data : str := $"nineteen bytes long".

Definition demo_world : SdkWorld :=
  {| sw_files := <[$"/f" := demo_data]> ∅; sw_objs := <[($"b", $"k k") := demo_data]> ∅; sw_parts := ∅; sw_next := 0;
     sw_clock := 0; sw_cell := None; sw_env := ∅; sw_modes := ∅ |}.


Lemma download_exact_witness :
  match download (demo_client 4) (demo_url ($"k k")) ($"/out") demo_world with
  | (r, w') => r = Ok tt ∧ sw_files w' !! ($"/out") = Some demo_data
  end.
Proof.
  assert (Hok : is_ok (fst (download (demo_client 4) (demo_url ($"k k")) ($"/out") demo_world)) = true) by vm_refl.
  destruct (download _ _ _ demo_world) as [r w'] eqn:Hd.
  destruct (download_exact (demo_client 4) (demo_url ($"k k")) ($"/out") demo_data demo_world r w'
              ltac:(vm_refl) ltac:(cbn; lia) ltac:(vm_refl) Hd) as (_ & _ & Hfile).
  destruct r as [[]|e]; [|discriminate Hok]. split; [done|]. exact (Hfile eq_refl).
Defined.


Lemma mtime_roundtrip_witness :
  file_mtime_value ($"/f") demo_world = Some ($"1700000000.123456789") ∧
  ∃ v, file_mtime_value ($"/f") demo_world = Some v ∧
       set_file_mtime_from_value ($"/g") v = set_file_mtime ($"/g") 1700000000 123456789.
Proof.
  split; [vm_refl|].
  destruct (mtime_roundtrip (W := SdkWorld) ($"/f") ($"/g") demo_world
    {| ft := FtFile; len := 19; modified := Some 1700000000123456789 |} 1700000000123456789
    ltac:(vm_refl) ltac:(vm_refl) ltac:(lia) ltac:(vm_compute; done)) as (v & Hv & Hset & _).
  exists v. split; [exact Hv|exact Hset].
Defined.

(** ** Listing and deleting *)

Definition many_world : SdkWorld :=
  {| sw_files := ∅; sw_objs := list_to_map (map (λ k, (($"b", k), demo_data)) [$"p/1"; $"p/2"; $"q"; $"p/3"; $"p/4"]);
     sw_parts := ∅; sw_next := 0; sw_clock := 0; sw_cell := None; sw_env := ∅; sw_modes := ∅ |}.

Definition many_entry (k : str) : Content :=
  {| c_key := Some k; c_etag := None; c_modified := None; c_size := Some 19; c_class := None; c_version := None |}.

Definition many_entries : list Content := map many_entry [$"q"; $"p/4"; $"p/3"; $"p/2"; $"p/1"].

Lemma many_world_entries : world_entries ($"b") many_world = many_entries.
Proof. vm_refl. Qed.

Definition list_url : Url :=
  match parse ($"s3://b/p/*") with Ok u => u | Err _ => demo_url [] end.


Definition doomed : list Url := map demo_url [$"p/1"; $"p/2"; $"q"].

Lemma multi_delete_reports_all_witness :
  map (λ o, is_some_b (obj_err o)) (fst (multi_delete (demo_client 4) doomed many_world)) = [false; false; false] ∧
  ∃ chunks results, concat chunks = doomed ∧ fst (multi_delete (demo_client 4) doomed many_world) = concat results ∧
    length chunks = length results.
Proof.
  split; [vm_refl|].
  assert (Hans : answers_every_key (demo_client 4)).
  { intros b keys payer w out w' [= <- _]. cbn [deleted errors map]. by rewrite app_nil_r. }
  assert (Hparse : ∀ u, u ∈ doomed → is_ok (deleted_url ($"b") (Some (path u))) = true).
  { apply Forall_forall. repeat constructor; vm_refl. }
  destruct (multi_delete_reports_all (demo_client 4) ($"b") doomed many_world ltac:(vm_refl) Hans
    ltac:(repeat constructor) Hparse) as (chunks & results & Hcat & Hres & _ & Hall).
  exists chunks, results. split; [exact Hcat|]. split; [exact Hres|]. by eapply Forall2_length.
Defined.

(** ** Piping *)

#[export] Instance none_started : Aborted := {
  started A l := [];
  started_sub A l := submseteq_nil_l l;
}.
#[export] Instance no_debug : UrlDebug := { url_debug := absolute }.

Definition demo_stdin : Stream := [Ok ($"nine"); Ok ($"teen byt"); Ok ($"es long")].


(** A read that fails after the upload was created aborts it: nothing is stored. *)
Example pipe_read_error :
  match put_multipart_reader (demo_client 4) [Ok ($"nineteen"); Err (anyhow ($"EIO"))] (demo_url ($"new"))
          Metadata_default 4 demo_world with
  | (r, _, w') => is_ok r = false ∧ sw_objs w' !! ($"b", $"new") = None
  end.
Proof. split; vm_refl. Qed.
