(* ===== verification/BackendWorld.v ===== *)
(** * The concrete server keeps the backend's laws

    The in-memory server of SdkWorld.v satisfies [BackendLaws], so the S3 client over it
    satisfies the interfaces of the commands. *)

From S2P Require Import Prelude RustStr Strutil Url RateLimit Storage Fs Tasks S3Client Transfer TransferParts.
From S2P Require Import Store TransferSpec Listing ListingSpec MemWorld Output Pipe Rm Bucket S3Laws BucketSpec Backend BackendSpec SdkWorld.

Local Open Scope Z_scope.

Lemma visible_storable w l b : visible w !! l = Some b → storable l.2 b = true.
Proof.
  rewrite visible_lookup. destruct (sw_objs w !! l) as [b'|]; [|done]. cbn.
  destruct (storable l.2 b') eqn:Hs; [|done]. by intros [= <-].
Qed.

Lemma visible_key w l b : visible w !! l = Some b → entry_key (world_entry (l, b)) = Some l.2.
Proof.
  intros Hl%visible_storable. unfold storable in Hl. apply andb_true_iff in Hl as [Hk%bool_decide_eq_true _].
  unfold entry_key, world_entry, encode_key. cbn. unfold percent_decode.
  by rewrite (percent_bytes_encoded _ _ (escaped_encoding _)), Hk.
Qed.

Lemma same_visible w w' : same_objs (obj_of (StoreLaws := sdk_laws)) w w' → visible w' = visible w.
Proof. intros Hs. apply map_eq. intros [b k]. exact (Hs (b, k, None)). Qed.

Lemma in_entries b w e :
  e ∈ world_entries b w ↔ ∃ k c, e = world_entry ((b, k), c) ∧ visible w !! (b, k) = Some c.
Proof.
  unfold world_entries. rewrite list_elem_of_omap. split.
  - intros ([[b' k] c] & Hin%elem_of_map_to_list & He). cbn in He. case_bool_decide as Hb; [|done]. subst b'.
    injection He as <-. by exists k, c.
  - intros (k & c & -> & Hl). exists ((b, k), c). split; [by apply elem_of_map_to_list|]. by rewrite bool_decide_true.
Qed.

Lemma entries_keys b w : Forall (λ e, is_Some (entry_key e)) (world_entries b w).
Proof. apply Forall_forall. intros e (k & c & -> & Hl)%in_entries. by exists k; rewrite (visible_key _ _ _ Hl). Qed.

Lemma entries_cover b w k c :
  visible w !! (b, k) = Some c → ∃ e, e ∈ world_entries b w ∧ entry_key e = Some k.
Proof.
  intros Hl. exists (world_entry ((b, k), c)). split; [apply in_entries; by exists k, c|]. exact (visible_key _ _ _ Hl).
Qed.

Lemma entries_distinct b w : NoDup (map entry_key (world_entries b w)).
Proof.
  unfold world_entries. pose proof (NoDup_fst_map_to_list (visible w)) as Hnd.
  assert (Hin : ∀ x, x ∈ map_to_list (visible w) → visible w !! x.1 = Some x.2) by (intros []; by apply elem_of_map_to_list).
  induction (map_to_list (visible w)) as [|[[b' k] c] l IH]; [constructor|].
  apply NoDup_cons in Hnd as [Hnew Hnd]. specialize (IH Hnd ltac:(intros x Hx; apply Hin; by right)). cbn [omap list_omap fst].
  case_bool_decide as Hb; [|done]. subst b'. cbn [map]. constructor; [|done].
  rewrite (visible_key w (b, k) c (Hin _ (list_elem_of_here _ _))). intros (e & Hk & He)%list_elem_of_fmap.
  apply list_elem_of_omap in He as ([[b2 k2] c2] & Hl & He). cbn in He. case_bool_decide as Hb2; [|done]. subst b2. injection He as <-.
  rewrite (visible_key w (b, k2) c2 (Hin _ ltac:(by right))) in Hk. injection Hk as Hk. cbn in Hk. subst k2.
  apply Hnew. apply list_elem_of_fmap. by exists ((b, k), c2).
Qed.

Lemma entries_named b w : names w b (world_entries b w).
Proof. intros e k (k' & c & -> & Hl)%in_entries. rewrite (visible_key _ _ _ Hl). intros [= <-]. by exists c. Qed.

Lemma deleted_lookup (m : gmap (str * str) str) b ks l :
  foldl (λ m k, delete (b, k) m) m ks !! l = if decide (l ∈ map (pair b) ks) then None else m !! l.
Proof.
  revert m. induction ks as [|k ks IH]; intros m; cbn [foldl map].
  { rewrite decide_False; [done|]. apply not_elem_of_nil. }
  rewrite IH. destruct (decide (l ∈ map (pair b) ks)) as [Hin|Hnin]; [by rewrite decide_True by (by right)|].
  destruct (decide (l = (b, k))) as [->|Hne].
  - by rewrite lookup_delete_eq, decide_True by (by left).
  - rewrite lookup_delete_ne by congruence. rewrite decide_False; [done|]. by intros [?|?]%elem_of_cons.
Qed.

#[export] Program Instance sdk_backend_laws : BackendLaws SdkWorld.
Next Obligation.
  intros c q w out w'. cbn [head_object sdk_sdk]. destruct (obj_at (request_key q) w) as [o|] eqn:Ho; [intros _|done].
  exists o. split; [exact Ho|]. unfold request_key, obj_at in Ho. destruct (q_version q); [done|].
  apply visible_storable in Ho. unfold storable in Ho. apply andb_true_iff in Ho as [_ Ho%Z.leb_le]. exact Ho.
Qed.
Next Obligation.
  intros c q w e w'. cbn [head_object sdk_sdk]. destruct (obj_at (request_key q) w) as [o|] eqn:Ho; [done|].
  intros [= <- _]. exact Ho.
Qed.
Next Obligation.
  intros c q w r w' [= <- <-]. split.
  - apply (touches_at (request_loc q)); [done|]. intros k Hk. cbn. by apply lookup_delete_ne.
  - intros _ _. unfold current_of. cbn. rewrite visible_lookup. cbn. by rewrite lookup_delete_eq.
Qed.
Next Obligation.
  intros c b keys payer w r w' [= <- <-]. split.
  - intros [[b' k] [v|]] Hk; [done|]. cbn in *. rewrite !visible_lookup. cbn. rewrite deleted_lookup.
    by rewrite decide_False.
  - intros out _ k Hk _. unfold current_of. cbn. rewrite visible_lookup. cbn. rewrite deleted_lookup.
    rewrite decide_True; [done|]. by apply list_elem_of_fmap_2.
Qed.
Next Obligation.
  intros c q w pages w' [= <- <-]. split_and!; [done|by intros e [?|?%elem_of_nil]%elem_of_cons| |].
  { intros _ p [[= ->]|?%elem_of_nil]%elem_of_cons; [|done]. split; [done|]. intros e k He. apply entries_named.
    apply list_elem_of_In in He. apply filter_In in He as [He _]. by apply list_elem_of_In. }
  intros _ _ _ k b Hc Hpre. destruct (entries_cover (l_bucket q) w k b Hc) as (e & He & Hk).
  eexists _, e. split; [by left|]. split; [|done]. cbn. apply list_elem_of_In, filter_In. split; [by apply list_elem_of_In|].
  by rewrite Hk.
Qed.
Next Obligation. intros c q m w r w' [= <- <-]. by split. Qed.
Next Obligation.
  intros s src w _. exists (world_entries (bucket src) w). split_and!; [|apply entries_distinct|apply entries_keys|apply entries_named|].
  - intros m w1 r w2 Hs [= <- <-]. split; [done|]. intros p [= <-]. exists 2%nat. unfold world_page. cbn.
    assert (He : world_entries (bucket src) w1 = world_entries (bucket src) w) by (unfold world_entries; by rewrite (same_visible w w1)).
    rewrite He. split_and!; [done|done|lia|done|by left].
  - intros k b Hc _. by eapply entries_cover.
Qed.
Next Obligation. by intros c q m v w r w' [= _ <-]. Qed.
Next Obligation.
  intros c b w r w' [= <- <-]. split; [done|]. intros Hr k. unfold current_of. cbn.
  destruct (visible w !! (b, k)) as [o|] eqn:Hk; [|done]. destruct (entries_cover b w k o Hk) as (e & He & _).
  destruct (world_entries b w); [by apply elem_of_nil in He|]. discriminate Hr.
Qed.

(** ** Witnesses *)

