(* ===== verification/CommandWorld.v ===== *)
(** * The commands in a concrete world

    The witnesses of the command files, in the in-memory world of MemWorld.v, and corner
    cases of the commands. *)

From S2P Require Import Prelude RustStr Btree Strutil Url Storage Fs Hoare MemWorld Output S3Laws MountWorld Rm RmSpec.
From S2P Require Import Units Bucket BucketSpec Du DuSpec Tree TreeSpec Ls LsSpec.

Local Open Scope Z_scope.

Definition plain_mode : OutMode := {| is_json := false; is_color := false; is_dry_run := false |}.

(** A console over the bucket [b] with the given objects. *)
Definition console (objs : list (str * str)) (input : Stream) : Console MemWorld :=
  {| mode := plain_mode; printed := []; stdin := input; world := (mounted objs).2 |}.

Definition url_of (s : str) : Url :=
  match parse s with Ok u => u | Err _ => x_url end.

(** ** rm *)

Definition rm_args (targets exclude : list str) : RmArgs :=
  {| rm_targets := targets; rm_version_id := None; rm_raw := false; rm_exclude := exclude; rm_include := [];
     rm_exclude_from := []; rm_include_from := [] |}.

(** The errors of a listing are dropped: on a bucket that refuses everything, [rm] of a wildcard
    prints nothing and succeeds. *)
Example rm_ignores_listing_errors :
  let c := {| mode := plain_mode; printed := []; stdin := [];
              world := {| mem_fs := ∅; mem_s3 := ∅; mem_denied := [$"b"]; mem_log := [] |} |} in
  let '(r, c') := rm_run Options_default (rm_args [$"s3://b/*"] []) c in
  r = Ok tt ∧ printed c' = [].
Proof. split; vm_refl. Qed.

(** With [--raw] a directory marker is one key. *)
Example rm_raw_marker :
  let c := console [($"d/", []); ($"d/a", $"1")] [] in
  let a := {| rm_targets := [$"s3://b/d/"]; rm_version_id := None; rm_raw := true; rm_exclude := []; rm_include := [];
              rm_exclude_from := []; rm_include_from := [] |} in
  let '(r, c') := rm_run Options_default a c in
  r = Ok tt ∧ printed c' = [Stdout ($"rm s3://b/d/")] ∧ mem_content (world c') ($"b", $"d/") = None ∧
  mem_content (world c') ($"b", $"d/a") = Some ($"1").
Proof. split_and!; vm_refl. Qed.

(** ** The libraries *)

#[export] Instance plain_sizes : HumanSize := { format_size := to_string_i }.
#[export] Instance plain_times : TimeLib := {
  rfc3339 _ := Err ($"not a time");
  format_utc t := Some (to_string_i t);
  format_offset t g := Some (to_string_i t ++ $"+" ++ to_string_i g);
  offset_ok _ := true;
  local_gmtoff _ := Some 3600;
}.
#[export] Instance ascii_case : UnicodeCase := { to_lowercase := to_ascii_lowercase; to_uppercase s := s }.

Definition mem_client : Client := ClientS3 (W := MemWorld) tt.

(** ** du *)

Definition du_args (target : str) (group : bool) : DuArgs :=
  {| du_target := Some target; du_humanize := false; du_group := group; du_exclude := [$"*.txt"];
     du_all_versions := false; du_version_id := None |}.

Definition du_console : Console MemWorld := console [($"d/a", $"1"); ($"d/b.txt", $"22"); ($"d/c", $"333")] [].

Lemma du_exact_witness :
  printed (du_run Options_default (du_args ($"s3://b/d/*") false) du_console).2
  = [Stdout ($"4 bytes in 2 objects: s3://b/d/*")].
Proof.
  set (a := du_args _ _). set (run := du_run Options_default a du_console).
  set (u := url_of ($"s3://b/d/*")).
  set (exc := match du_compile_globs (du_exclude a) with Ok f => f | Err _ => [] end).
  set (objs := (storage_list mem_client u false (world du_console)).1).
  assert (Hu : du_url a ($"s3://b/d/*") = Ok u) by vm_refl.
  assert (Hexc : du_compile_globs (du_exclude a) = Ok exc) by vm_refl.
  assert (Hnew : new_client u Options_default (world du_console) = (Ok mem_client, world du_console)) by vm_refl.
  assert (Hlist : storage_list mem_client u false (world du_console) = (objs, world du_console)) by exact (surjective_pairing _).
  destruct (du_exact Options_default a _ u exc mem_client objs du_console _ _ run.1 run.2 eq_refl Hu Hexc Hnew Hlist
              (surjective_pairing run)) as [_ Hd].
  assert (Hn : first_error objs = None) by vm_refl. rewrite Hn in Hd. destruct Hd as [_ Hd]. cbn [du_group a du_args] in Hd.
  rewrite Hd. vm_compute. reflexivity.
Defined.

(** ** tree *)

Definition tree_args (depth limit : option Z) : TreeArgs :=
  {| tree_target := $"s3://b"; tree_depth := depth; tree_limit := limit; tree_size := true |}.

Definition tree_console : Console MemWorld := console [($"d/a", $"1"); ($"d/e/c", $"333"); ($"x", $"22")] [].

Lemma tree_exact_witness :
  ∃ ls paths, printed (tree_run Options_default (tree_args None None) tree_console).2 = Stdout ($"s3://b") :: map Stdout ls ∧
    length ls = length paths ∧ [$"d"; $"e"] ∈ paths ∧ [$"e"] ∉ paths.
Proof.
  set (a := tree_args _ _). set (run := tree_run Options_default a tree_console).
  set (u := url_of ($"s3://b")). set (v := url_of ($"s3://b/*")).
  set (objs := (storage_list mem_client v true (world tree_console)).1).
  assert (Hu : Url_new (tree_target a) UrlOptions_default = Ok u) by vm_refl.
  assert (Hv : Url_new (listing_target u) UrlOptions_default = Ok v) by vm_refl.
  assert (Hnew : new_client u Options_default (world tree_console) = (Ok mem_client, world tree_console)) by vm_refl.
  assert (Hlist : storage_list mem_client v true (world tree_console) = (objs, world tree_console)) by exact (surjective_pairing _).
  assert (Hok : run.1 = Ok tt) by vm_refl.
  assert (Hrun : tree_run Options_default a tree_console = (run.1, run.2)) by exact (surjective_pairing run).
  clearbody run.
  destruct (tree_exact Options_default a u v mem_client objs tree_console _ _ run.1 run.2 Hu Hv Hnew Hlist Hrun)
    as (_ & os & (_ & _ & Hend) & Hr).
  assert (Hshow : show_url u = $"s3://b") by vm_refl. rewrite Hshow in Hr.
  destruct (first_error os) as [e|]; [destruct Hr as [Hr _]; congruence|].
  destruct (Hend eq_refl) as [->|(l & Hl & _)]; [|discriminate Hl]. clear Hend. destruct Hr as (_ & ls & paths & Hp & Hread & _ & Hin).
  exists ls, paths. split_and!.
  - exact Hp.
  - apply (f_equal length) in Hread. by rewrite !length_map in Hread.
  - apply Hin. split; [done|].
    assert (Hb : bool_decide (Exists (λ k : Key, [$"d"; $"e"] `prefix_of` k.1) (omap (key_of None) objs)) = true) by vm_refl.
    exact (bool_decide_eq_true_1 _ Hb).
  - rewrite Hin. intros [_ He].
    assert (Hb : bool_decide (Exists (λ k : Key, [$"e"] `prefix_of` k.1) (omap (key_of None) objs)) = false) by vm_refl.
    exact (bool_decide_eq_false_1 _ Hb He).
Defined.

(** With [--depth] a directory at the cut shows as a file, with the size of an object below it. *)
Example tree_depth_cut :
  printed (tree_run Options_default (tree_args (Some 1) None) (console [($"d/a", $"1")] [])).2
  = [Stdout ($"s3://b"); Stdout ($"└── d (1)")].
Proof. vm_refl. Qed.

(** [--limit 0] still collects one object. *)
Example tree_limit_zero :
  length (printed (tree_run Options_default (tree_args None (Some 0)) (console [($"a", $"1"); ($"b", $"1")] [])).2) = 2%nat.
Proof. vm_refl. Qed.

(** ** rb *)

Definition bucket_full (b : str) (w : MemWorld) : bool :=
  existsb (λ ko : (str * str) * s3obj, bool_decide (ko.1.1 = b)) (map_to_list (mem_s3 w)).

#[export] Instance mem_buckets : BucketOps MemWorld := {
  s3_list_buckets _ _ := mret [];
  s3_make_bucket _ _ := mret tt;
  s3_remove_bucket _ b w := (if bucket_full b w then Err (anyhow ($"BucketNotEmpty")) else Ok tt, w);
  s3_get_versioning _ _ := mret ($"Suspended");
  s3_set_versioning _ _ _ := mret tt;
}.

#[export] Instance mem_buckets_laws : BucketOpsLaws MemWorld.
Proof.
  split. intros s b w r w' [= <- <-]. split; [done|]. destruct (bucket_full b w) eqn:Hf; [done|]. intros _ _ k.
  change (mem_content w (b, k) = None). unfold mem_content. destruct (mem_s3 w !! (b, k)) as [o|] eqn:Hk; [|done].
  exfalso. unfold bucket_full in Hf. apply not_true_iff_false in Hf. apply Hf, existsb_exists.
  exists ((b, k), o). split; [|by apply bool_decide_eq_true]. apply list_elem_of_In. by apply elem_of_map_to_list.
Qed.

Definition rb_args (force : bool) : RbArgs := {| rb_bucket := $"s3://b"; rb_force := force |}.


(** ** ls *)

Definition ls_args (target : str) (newer : option str) : LsArgs :=
  {| ls_target := Some target; ls_humanize := false; ls_storage_class := false; ls_etag := false;
     ls_all_versions := false; ls_version_id := None; ls_summarize := true; ls_show_fullpath := true;
     ls_start_after := None; ls_newer_than := newer; ls_older_than := None; ls_local_time := false;
     ls_exclude := [$"*.txt"]; ls_include := []; ls_exclude_from := []; ls_include_from := [] |}.

Lemma time_window_spec_witness :
  parse_time_bound ($"2h") (10000 * 1000000000) = Ok (2800 * 1000000000) ∧
  in_window (Some 5) (Some 9) (mem_obj x_url (mkobj [] 9)) = false.
Proof.
  assert (Hfit : sat_mul_u64 2 3600 <= (10000 * 1000000000) / 1000000000 + 2 ^ 63) by (vm_compute; discriminate).
  assert (Hn : 0 <= 2 <= u64_max) by (vm_compute; split; discriminate).
  destruct (time_window_spec (10000 * 1000000000) 2 "h"%char 3600 Hn eq_refl Hfit) as [Hp Hw]. split; [exact Hp|].
  destruct (Hw (mem_obj x_url (mkobj [] 9)) 9 5 9 eq_refl) as (_ & Hin & _).
  apply not_true_iff_false. intros Ht. apply Hin in Ht. lia.
Defined.

Lemma ls_exact_witness :
  printed (ls_run 0 Options_default (ls_args ($"s3://b/d/*") None) du_console).2
  = [Stdout ($"s3://b/d/c"); Stdout ($"s3://b/d/a");
     Stdout ($"Total objects: 2" ++ [LF] ++ $"Total size: 4")].
Proof.
  set (a := ls_args _ _). set (run := ls_run 0 Options_default a du_console).
  set (u := url_of ($"s3://b/d/*")).
  set (filters := match ls_filters a (world du_console) with Ok f => f | Err _ => {| includes := []; excludes := [] |} end).
  set (objs := (storage_list mem_client u true (world du_console)).1).
  assert (Hu : ls_url a ($"s3://b/d/*") = Ok u) by vm_refl.
  assert (Hf : ls_filters a (world du_console) = Ok filters) by vm_refl.
  assert (Hnew : new_client u Options_default (world du_console) = (Ok mem_client, world du_console)) by vm_refl.
  assert (Hlist : storage_list mem_client u true (world du_console) = (objs, world du_console)) by exact (surjective_pairing _).
  destruct (ls_exact 0 Options_default a _ u None None filters mem_client objs du_console _ _ run.1 run.2 eq_refl Hu eq_refl eq_refl
              Hf Hnew Hlist (surjective_pairing run)) as (shows & Hsh & _ & Hd).
  assert (Hn : first_error objs = None) by vm_refl. rewrite Hn in Hd. destruct Hd as [_ Hd]. rewrite Hd.
  assert (Hsame : List.filter shows (before_error objs) = List.filter (ls_shows filters None None) (before_error objs)).
  { apply filter_ext. intros o. apply eq_true_iff_eq. by rewrite Hsh, ls_shows_displayed. }
  rewrite Hsame. vm_compute. reflexivity.
Defined.
