(* ===== verification/SyncWorld.v ===== *)
(** * A mirror and a move in a concrete world

    The witnesses of [sync_mirrors] and [cp_exact], over the requests of the S3 client, what
    the code does with an object whose relative path is empty, and a copy whose listing fails. *)

From S2P Require Import Prelude RustStr Strutil Url RateLimit Storage Fs Pool Tasks S3Client Transfer Store MemWorld S3cfg Global Cp CpSpec S3Laws Listed CpExact Sync SyncSpec.
From S2P Require Import SyncMirror Backend BackendSpec SdkWorld BackendWorld Output CommandWorld.

Local Open Scope Z_scope.

#[local] Instance mirror_backend : S3Ops SdkWorld := sdk_backend 6.

(** Two buckets: [p/*] of the one and [m/] of the other. *)
Definition mirror_world : SdkWorld :=
  {| sw_files := ∅;
     sw_objs := <[($"b", $"p/a") := $"alpha"]> (<[($"b", $"p/q/c") := $"gamma"]> (<[($"b", $"p/k") := $"kappa"]>
                (<[($"d", $"m/a") := $"stale copy"]> (<[($"d", $"m/x") := $"left over"]> (<[($"d", $"m/k") := $"kept"]> ∅)))));
     sw_parts := ∅; sw_next := 0; sw_clock := 0; sw_cell := None; sw_env := ∅; sw_modes := ∅ |}.

Definition mirror_args : SyncArgs :=
  {| a_src := $"s3://b/p/*"; a_dst := $"s3://d/m/"; a_delete := true; a_size_only := false;
     a_checksum := false; a_follow_symlinks := true; a_exclude := [$"k"]; a_include := [];
     a_exclude_from := []; a_include_from := []; a_storage_class := None; a_acl := None;
     a_content_type := None; a_exit_on_error := false; a_force_glacier_transfer := false;
     a_max_delete := Some 1; a_preserve_timestamps := false |}.

(** The second copy runs before the first. *)
Definition two_jobs : list choice := [Spawn; Spawn; Exec 1; Exec 0; Join 0; Join 0].

Definition mirror_run := run 0 GlobalOpts_default mirror_args two_jobs one_job mirror_world.
Definition mirror_src : Url := url_of ($"s3://b/p/*").
Definition mirror_dst : Url := url_of ($"s3://d/m/").
Definition mirror_listing : Url := url_of (dest_listing mirror_dst).
Definition mirror_filters : Filters :=
  match sync_filters mirror_args mirror_world with Ok f => f | Err _ => {| includes := []; excludes := [] |} end.

Example mirror_ok : match mirror_run with Some (Ok _, Some r, _) => (sr_copied r, sr_deleted r) | _ => (0, 0) end = (2, 1).
Proof. vm_refl. Qed.

Definition mirror_s : S3Client :=
  match S3Client_new mirror_src (for_side (sync_options 0 GlobalOpts_default mirror_args) Source) mirror_world with
  | (Ok s, _) => s
  | _ => demo_client 4
  end.
Definition source_listed : list Object * SdkWorld := s3_list mirror_s mirror_src mirror_world.
Definition dest_listed_run : list Object * SdkWorld := s3_list mirror_s mirror_listing source_listed.2.

Lemma mirror_hypotheses : mirroring 0 GlobalOpts_default mirror_args mirror_src mirror_dst mirror_listing mirror_filters mirror_world.
Proof. split; try split; try done; vm_refl. Qed.

(** The two listings, with the same client. *)
Lemma mirror_source os w1 :
  source_listing 0 GlobalOpts_default mirror_args mirror_src mirror_world os w1 → source_listed = (os, w1).
Proof.
  intros (s & Hn & Hl). assert (Hs : (S3_new mirror_src (for_side (sync_options 0 GlobalOpts_default mirror_args) Source) mirror_world).1 = Ok mirror_s) by vm_refl.
  rewrite Hn in Hs. injection Hs as ->. exact Hl.
Qed.

Lemma mirror_dest_client :
  S3_new mirror_listing (for_side (sync_options 0 GlobalOpts_default mirror_args) Destination) source_listed.2 = (Ok mirror_s, source_listed.2).
Proof.
  assert (Hs : (S3_new mirror_listing (for_side (sync_options 0 GlobalOpts_default mirror_args) Destination) source_listed.2).1 = Ok mirror_s) by vm_refl.
  destruct (S3_new _ _ _) as [r w] eqn:Hn. destruct (new_law _ _ _ _ _ Hn) as [-> _]. cbn [fst] in Hs. by rewrite Hs.
Qed.

Lemma mirror_dest ds w2 :
  dest_listed 0 GlobalOpts_default mirror_args mirror_listing source_listed.2 ds w2 → dest_listed_run = (ds, w2).
Proof.
  unfold dest_listed. rewrite mirror_dest_client. intros [(e & [=] & _)|(d & [= <-] & Hl)]. exact Hl.
Qed.

Lemma mirror_told : listings_told 0 GlobalOpts_default mirror_args mirror_src mirror_listing mirror_world.
Proof.
  intros os w1 ds w2 Hos%mirror_source Hds.
  assert (Hw : w1 = source_listed.2) by by rewrite Hos. subst w1. apply mirror_dest in Hds. split_and!.
  - assert (Hg : forallb (λ o, negb (skip_glacier (storage_class o) false)) source_listed.1 = true) by vm_refl.
    rewrite Hos in Hg. apply Forall_forall. intros o Ho. rewrite forallb_forall in Hg. apply Hg. by apply list_elem_of_In.
  - exists mirror_s. apply mirror_dest_client.
  - assert (Hg : forallb (λ o, negb (is_some_b (obj_err o))) dest_listed_run.1 = true) by vm_refl.
    rewrite Hds in Hg. apply Forall_forall. intros o Ho e He. rewrite forallb_forall in Hg.
    specialize (Hg o (proj1 (list_elem_of_In _ _) Ho)). by rewrite He in Hg.
Qed.

(** Nothing is listed at the destination under a name it does not have. *)
Lemma nothing_judged rel :
  forallb (λ o, match url o with Some v => negb (bool_decide (loc v = dest_at mirror_dst rel)) | None => true end) dest_listed_run.1 = true →
  ¬ judged_equal 0 GlobalOpts_default mirror_args mirror_src mirror_dst mirror_listing mirror_world rel.
Proof.
  intros Hnone (os & w1 & ds & w2 & so & do & u & v & Hos%mirror_source & Hds & _ & Hdo & _ & _ & Hv & Hloc & _).
  assert (Hw : w1 = source_listed.2) by by rewrite Hos. subst w1. apply mirror_dest in Hds. rewrite Hds in Hnone. clear Hds Hos.
  rewrite forallb_forall in Hnone. specialize (Hnone do (proj1 (list_elem_of_In _ _) Hdo)). rewrite Hv in Hnone.
  rewrite bool_decide_true in Hnone by exact Hloc. discriminate Hnone.
Qed.

Lemma sync_mirrors_witness :
  match mirror_run with
  | Some (res, _, w') => res = Ok tt ∧ current_of w' ($"d", $"m/q/c") = Some ($"gamma") ∧
                         current_of w' ($"d", $"m/x") = None ∧ current_of w' ($"d", $"m/k") = Some ($"kept")
  | None => False
  end.
Proof.
  assert (Hok : match mirror_run with Some (r, _, _) => is_ok r | None => false end = true) by vm_refl.
  destruct mirror_run as [[[res ro] w']|] eqn:Hrun; [|discriminate Hok].
  assert (res = Ok tt) as -> by (destruct res as [[]|]; done).
  destruct (sync_mirrors 0 GlobalOpts_default mirror_args mirror_src mirror_dst mirror_listing mirror_filters mirror_world
              mirror_hypotheses two_jobs one_job (Ok tt) ro w' Hrun) as [Hframe Hnames].
  clear Hrun Hok. assert (Hdry : dry_run (sync_options 0 GlobalOpts_default mirror_args) = false) by vm_refl.
  specialize (Hnames Hdry mirror_told eq_refl). split_and!; [exact eq_refl|..].
  - destruct (Hnames ($"q/c")) as [Hin _]; [by split|repeat (apply (utf8_app [_]); [reflexivity|]); constructor|vm_refl|].
    destruct (Hin ($"gamma")) as [Hc|[_ Hj]]; [split; vm_refl|exact Hc|]. exfalso. revert Hj. apply nothing_judged. vm_refl.
  - destruct (Hnames ($"x")) as [_ Hout]; [by split|repeat (apply (utf8_app [_]); [reflexivity|]); constructor|vm_refl|].
    apply Hout. intros c [_ Hc]. assert (Hn : obj mirror_world (bucket mirror_src, source_key mirror_src ($"x")) = None) by vm_refl.
    rewrite Hn in Hc. discriminate Hc.
  - etransitivity; [apply (Hframe ($"d", $"m/k"))|vm_refl]. intros rel Hrel.
    assert (Hd : ($"d", $"m/k") = dest_at mirror_dst ($"k")) by vm_refl. rewrite Hd in Hrel. apply dest_at_inj in Hrel as <-.
    split; [done|vm_refl].
Defined.

(** The marker of the directory the wildcard starts at has an empty relative path, so it is
    copied under its whole URL. *)
Definition marker_world : SdkWorld :=
  {| sw_files := ∅; sw_objs := <[($"b", $"p/") := []]> ∅; sw_parts := ∅; sw_next := 0; sw_clock := 0; sw_cell := None;
     sw_env := ∅; sw_modes := ∅ |}.

Example marker_copied_under_its_url :
  match run 0 GlobalOpts_default mirror_args one_job [] marker_world with
  | Some (Ok _, _, w') => current_of w' ($"d", $"m/s3://b/p/")
  | _ => None
  end = Some [].
Proof. vm_refl. Qed.

(** ** A move within one bucket *)


Definition wildcard_args (src dst : str) : CpArgs :=
  {| paths := [src; dst]; cp_follow_symlinks := true; cp_storage_class := None;
     cp_acl := None; cp_content_type := None; cp_part_size := 8; cp_concurrency := 8;
     cp_version_id := None; cp_all_versions := false; cp_preserve_timestamps := false;
     cp_client_copy := false; cp_remove_empty_dirs := false; cp_if_none_match := false;
     cp_links := false; cp_exclude := [$"k"]; cp_include := []; cp_exclude_from := []; cp_include_from := [] |}.

Definition move_args : CpArgs := wildcard_args ($"s3://b/p/*") ($"s3://b/z/").
Definition move_run := Cp.run 0 GlobalOpts_default move_args true two_jobs mirror_world.
Definition move_dst : Url := url_of ($"s3://b/z/").
Definition move_filters : Filters :=
  match copy_filters move_args mirror_world with Ok f => f | Err _ => {| includes := []; excludes := [] |} end.

Lemma move_hypotheses : wildcard_copy 0 GlobalOpts_default move_args mirror_src move_dst move_filters mirror_world.
Proof.
  split; [exists ($"s3://b/p/*"), ($"s3://b/z/"); split_and!; vm_refl|by split|split; vm_refl|vm_refl|intros _; split; vm_refl|vm_refl..].
Qed.

Definition move_client : S3Client :=
  match S3Client_new mirror_src (copy_options 0 GlobalOpts_default move_args) mirror_world with (Ok s, _) => s | _ => demo_client 4 end.
Definition move_listed : list Object * SdkWorld := s3_list move_client mirror_src mirror_world.

Lemma move_clean : listing_clean 0 GlobalOpts_default move_args mirror_src mirror_world.
Proof.
  intros s3 os w1 [Hn Hl]. assert (Hs : (S3_new mirror_src (copy_options 0 GlobalOpts_default move_args) mirror_world).1 = Ok move_client) by vm_refl.
  rewrite Hn in Hs. injection Hs as ->. fold move_listed in Hl.
  assert (Hg : forallb (λ o, negb (is_some_b (obj_err o))) move_listed.1 = true) by vm_refl. rewrite Hl in Hg. clear Hl Hn.
  apply Forall_forall. intros o Ho. rewrite forallb_forall in Hg. specialize (Hg o (proj1 (list_elem_of_In _ _) Ho)).
  destruct (obj_err o); [discriminate Hg|reflexivity].
Qed.


(** The listing errors of the source are printed and passed over: a copy from a bucket that
    cannot be listed succeeds. *)
Definition denied_world : MemWorld := {| mem_fs := ∅; mem_s3 := ∅; mem_denied := [$"b"]; mem_log := [] |}.

Example copy_of_denied_bucket_succeeds :
  match Cp.run (W := MemWorld) 0 GlobalOpts_default (wildcard_args ($"s3://b/p/*") ($"s3://d/")) false [] denied_world with
  | Some (r, _) => (is_ok (cr_result r), length (cr_reported r))
  | None => (false, 0%nat)
  end = (true, 0%nat).
Proof. vm_refl. Qed.
