(* ===== verification/SdkCommands.v ===== *)
(** * Commands over the SDK in a concrete world

    The witnesses of the commands whose model goes down to the requests. *)

From S2P Require Import Prelude RustStr Btree Strutil Url RateLimit Storage Fs Tasks S3Client Transfer TransferParts.
From S2P Require Import Store TransferSpec Listing MemWorld Pool S3cfg Global Sync SyncSpec Output Pipe Units Rm Bucket Backend SdkWorld CommandWorld.
From S2P Require Import S3Laws RmSpec BackendSpec BackendWorld Cat CatSpec Select SelectSpec Head Presign Program ProgramSpec Run RunSpec.

Local Open Scope Z_scope.

(** ** cat *)

Definition v1_options : Options :=
  {| max_retries := 0; endpoint := None; no_verify_ssl := false; dry_run := false;
     no_sign_request := false; use_list_objects_v1 := true; request_payer := None;
     profile := None; region := None; source_region := None; destination_region := None;
     source_endpoint := None; destination_endpoint := None; proxy := None;
     addressing_style := None; ca_certs_file := None; use_dualstack_endpoint := false;
     use_fips_endpoint := false; part_size := DEFAULT_PART_SIZE;
     concurrency := DEFAULT_CONCURRENCY; preserve_timestamps := false; client_copy := false;
     remove_empty_dirs := false; upload_limiter := None; download_limiter := None |}.

Definition cat_args : CatArgs := {| cat_src := $"s3://b/p/*"; cat_version_id := None |}.
Definition cat_console : Console SdkWorld :=
  {| mode := {| is_json := false; is_color := false; is_dry_run := false |}; printed := []; stdin := []; world := many_world |}.


Definition select_s : S3Client :=
  match S3Client_new list_url v1_options many_world with (Ok s, _) => s | _ => demo_client 4 end.

(** ** rm, over the client's own requests *)

Section Rm.
#[local] Instance rm_backend : S3Ops SdkWorld := sdk_backend 6.

Lemma rm_exact_witness :
  let c' := (rm_run v1_options (rm_args [$"s3://b/p/*"] [$"2"]) cat_console).2 in
  current_of (world c') ($"b", $"p/1") = None ∧ current_of (world c') ($"b", $"p/2") = Some demo_data.
Proof.
  cbv zeta. set (a := rm_args _ _). set (run := rm_run v1_options a cat_console). set (u := url_of ($"s3://b/p/*")).
  set (filters := match rm_filters a (world cat_console) with Ok f => f | Err _ => {| includes := []; excludes := [] |} end).
  assert (Hu : rm_url a ($"s3://b/p/*") = Ok u) by vm_refl.
  assert (Hf : rm_filters a (world cat_console) = Ok filters) by vm_refl.
  assert (Hrem : is_remote u = true) by vm_refl. assert (Hw : is_wildcard u = true) by vm_refl.
  assert (Hver : is_versioned u = false) by vm_refl. assert (Hok : run.1 = Ok tt) by vm_refl.
  assert (Hrun : rm_run v1_options a cat_console = (run.1, run.2)) by exact (surjective_pairing run).
  clearbody run.
  destruct (rm_exact v1_options a ($"s3://b/p/*") u filters cat_console run.1 run.2 eq_refl Hu Hrem Hw Hver Hf Hrun)
    as [Hsame Hgone].
  split.
  - apply (Hgone eq_refl Hok); [|split; vm_refl]. intros s Hnew.
    assert (Hs0 : (S3_new u v1_options (world cat_console)).1 = Ok select_s) by vm_refl.
    rewrite Hnew in Hs0. injection Hs0 as ->. clear Hnew. apply Forall_forall. intros o Ho.
    assert (Hs : forallb (λ o, negb (is_some_b (obj_err o))) (s3_list select_s u (world cat_console)).1 = true) by vm_refl.
    rewrite forallb_forall in Hs. specialize (Hs o (proj1 (list_elem_of_In _ _) Ho)). by destruct (obj_err o).
  - assert (Hskip : should_skip filters (filter_key (listed_url u ($"p/2"))) = true) by vm_refl.
    etransitivity; [apply (Hsame ($"b", $"p/2"))|vm_refl]. intros [_ [_ Hs]]. cbn [snd] in Hs. by rewrite Hskip in Hs.
Defined.
End Rm.

(** ** select *)

(** A server that answers every query with the object in two records. *)
#[export] Instance sdk_select : SelectSdk SdkWorld := {
  select_object_content _ req w :=
    (match obj_at (sel_bucket req, sel_key req, None) w with
     | Some o => Ok [Ok OtherEvent; Ok (Records (Some (take 4 o))); Ok (Records None); Ok (Records (Some (drop 4 o))); Ok End_]
     | None => Err no_such_key
     end, w);
}.

Definition select_args : SelectArgs :=
  {| sel_src := $"s3://b/p/*"; sel_query := DEFAULT_QUERY; sel_input_format := $"csv"; sel_compression := $"gzip";
     sel_json_type := $"lines"; sel_delimiter := []; sel_use_header := $"USE"; sel_output_format := None;
     sel_exclude := [$"2"]; sel_version_id := None; sel_all_versions := false |}.

Definition select_exclude : list re := match ExcludeFilter_new (sel_exclude select_args) with Ok l => l | Err _ => [] end.

Lemma select_exact_witness :
  ∃ order outs, map path order ≡ₚ [$"p/4"; $"p/3"; $"p/1"] ∧ length outs = 3%nat ∧ Forall (λ x, x.2 = None) outs ∧
    printed (select_expanded 6 select_s list_url (from_args select_args) select_exclude cat_console).2 =
      concat (zip_with source_lines order outs).
Proof.
  set (run := select_expanded 6 select_s list_url (from_args select_args) select_exclude cat_console).
  set (ll := list_all 6 select_s list_url (world cat_console)).
  assert (Hok : run.1 = Ok tt) by vm_refl.
  assert (Hfe : first_error ll.1 = None) by vm_refl.
  assert (Hch : map path (chosen select_exclude ll.1) = [$"p/4"; $"p/3"; $"p/1"]) by vm_refl.
  assert (Hsk : skip_lines ll.1 = []) by vm_refl.
  assert (Hlist : list_all 6 select_s list_url (world cat_console) = (ll.1, ll.2)) by exact (surjective_pairing ll).
  assert (Hrun : select_expanded 6 select_s list_url (from_args select_args) select_exclude cat_console = (run.1, run.2))
    by exact (surjective_pairing run).
  clearbody run ll.
  pose proof (select_exact 6 select_s list_url (from_args select_args) select_exclude ll.1 cat_console ll.2 run.1 run.2 Hlist Hrun) as Hs.
  rewrite Hfe in Hs. destruct Hs as (order & outs & w2 & Hperm & _ & Hlen & _ & Hc & Hend).
  apply Hend in Hok as [_ Hall]. rewrite Hsk in Hc.
  assert (Hp : map path order ≡ₚ [$"p/4"; $"p/3"; $"p/1"]) by (rewrite <-Hch; by apply Permutation_map).
  exists order, outs. split_and!; [exact Hp| |exact Hall|by rewrite Hc].
  rewrite Hlen. apply Permutation_length in Hp. by rewrite length_map in Hp.
Defined.

(** ** presign *)

(** Numbers without a fraction. *)
#[export] Instance whole_numbers : F64 := {
  f64 := Z;
  parse_f64 s := if forallb is_digit s then parse_uint u64_max s else None;
  f64_negative _ := false;
  f64_mul := Z.mul;
  from_secs_f64 n := if n <=? u64_max then Some (n * 1000000000) else None;
  char_debug c := $"'" ++ c ++ $"'";
}.

#[export] Instance whole_numbers_laws : F64Laws.
Proof.
  split.
  - intros n k Hn Hk Hfit. cbn [parse_f64 from_secs_f64 f64_mul whole_numbers]. rewrite to_string_digits by done. rewrite !elem_of_cons, elem_of_nil in Hk.
    assert (Hr : 0 <= n <= u64_max) by (unfold u64_max; nia). rewrite parse_to_string by done.
    exists n. split; [done|]. destruct (Z.leb_spec (n * k) u64_max); [done|unfold u64_max in *; lia].
  - intros s c Hc Hu. cbn [parse_f64 whole_numbers]. destruct (forallb is_digit s) eqn:Hd; [|done]. rewrite forallb_Forall, Forall_forall in Hd.
    specialize (Hd c Hc). by destruct (unit_cases c Hu) as [->|[->| ->]].
Qed.

Lemma parse_duration_units_witness : parse_duration ($"2h30m") = Done (9000 * 1000000000).
Proof.
  assert (Hok : Forall part_ok [(2, "h"%char); (30, "m"%char)]).
  { repeat constructor; try done; vm_compute; discriminate. }
  assert (Hne : [(2, "h"%char); (30, "m"%char)] ≠ []) by discriminate.
  assert (Hmax : duration_value [(2, "h"%char); (30, "m"%char)] <= max_duration) by (vm_compute; discriminate).
  exact (parse_duration_units [(2, "h"%char); (30, "m"%char)] Hne Hok Hmax).
Defined.

(** ** import-s3cfg *)

#[export] Instance sdk_process : Process SdkWorld := {
  environ := sw_env;
  put_environ e w := set_process e (sw_modes w) w;
  stdout_is_terminal _ := false;
  open_mode p _ w := (Ok tt, set_files (<[p := []]> (sw_files w)) w);
  set_permissions p m w := (Ok tt, set_process (sw_env w) (<[p := m]> (sw_modes w)) w);
  append_file p d w := (Ok tt, set_files (<[p := default [] (sw_files w !! p) ++ d]> (sw_files w)) w);
}.

Lemma untouched_insert p q d (w : SdkWorld) : q ≠ p → untouched q w (set_files (<[p := d]> (sw_files w)) w).
Proof. intros Hq. split; [|done]. cbn. unfold file_result. cbn. by rewrite lookup_insert_ne. Qed.

Lemma read_inserted p d (w : SdkWorld) : read_to_string p (set_files (<[p := d]> (sw_files w)) w) = Ok d.
Proof. cbn. unfold file_result. cbn. by rewrite lookup_insert_eq. Qed.

#[export] Program Instance sdk_process_laws : ProcessLaws SdkWorld := { mode_of w p := sw_modes w !! p }.
Next Obligation. done. Qed.
Next Obligation.
  intros p d w r w' [= <- <-]. split_and!; [intros q Hq; by apply untouched_insert|intros _ _; apply read_inserted|done].
Qed.
Next Obligation. by intros p w r w' [= <- <-] q. Qed.
Next Obligation. intros p m w r w' [= <- <-]. split; [intros q Hq; by apply untouched_insert|done]. Qed.
Next Obligation.
  intros p m d w w1 r w' [= <-]. cbn. unfold edit_file. cbn. rewrite lookup_insert_eq. intros [= <- <-].
  assert (Hw : write_at zero_byte [] 0 d = d) by (unfold write_at; cbn; by rewrite ?drop_nil, ?app_nil_r).
  rewrite Hw. split_and!; [|intros _ _; cbn; unfold file_result; cbn; by rewrite lookup_insert_eq|done].
  intros q Hq. split; [|done]. cbn. unfold file_result. cbn. by rewrite !lookup_insert_ne.
Qed.
Next Obligation. intros p m w r w' [= <- <-]. split; [done|]. intros _. cbn. by rewrite lookup_insert_eq. Qed.

#[export] Instance clap_texts : Clap := { help_text := $"Usage"; completion_script _ := $"complete" }.

Definition small_s3cfg : str :=
  $"[default]" ++ [LF] ++ $"access_key = AK" ++ [LF] ++ $"secret_key = SK" ++ [LF] ++ $"bucket_location = eu-west-1" ++ [LF].

Definition import_world : SdkWorld :=
  {| sw_files := {[ $"/in" := small_s3cfg ]}; sw_objs := ∅; sw_parts := ∅; sw_next := 0; sw_clock := 0; sw_cell := None;
     sw_env := {[ $"HOME" := $"/root" ]}; sw_modes := ∅ |}.

Definition sdk_console (w : SdkWorld) : Console SdkWorld :=
  {| mode := mode cat_console; printed := []; stdin := []; world := w |}.

Definition import_args : ImportS3cfgArgs :=
  {| im_path := $"/in"; im_out := None; im_profile := $"default"; im_no_credentials := false |}.


(** ** run *)

#[export] Instance sdk_head : HeadSdk SdkWorld := { sdk_head_bucket _ _ w := (Ok tt, w) }.
#[export] Instance sdk_presign : PresignSdk SdkWorld := {
  presigned_get _ q _ w := (Ok ($"https://" ++ q_bucket q ++ $"/" ++ q_key q), w);
  presigned_put _ q _ w := (Ok ($"https://" ++ q_bucket q ++ $"/" ++ q_key q), w);
}.

(** A command line of one command and one argument, after the flags. *)
#[export] Instance small_parser : CommandLine := {
  shell_split s := Ok (split_chr " "%char s);
  try_parse_from argv :=
    match reverse argv with
    | arg :: cmd :: _ =>
        let cli c := Ok {| global := GlobalOpts_default; command := Some c |} in
        if bool_decide (cmd = $"mb") then cli (CMb arg)
        else if bool_decide (cmd = $"run") then cli (CRun (Some arg))
        else Err ($"unrecognized subcommand")
    | _ => Err ($"no subcommand")
    end;
}.

Definition run_text : str :=
  $"# make" ++ [LF] ++ $" mb s3://one " ++ [LF] ++ [LF] ++ $"frob x" ++ [LF] ++ $"run /in" ++ [LF] ++ $"mb s3://two".

Definition no_schedules : Schedules := {| cp_choices := []; sync_copies := []; sync_deletes := [] |}.

Definition run_console : Console SdkWorld :=
  {| mode := mode cat_console; printed := []; stdin := [Ok run_text]; world := import_world |}.

(** Four lines in flight, finished in reverse. *)
Definition run_choices : list choice :=
  [Spawn; Spawn; Spawn; Spawn; Exec 3; Exec 2; Exec 1; Exec 0; Join 3; Join 0; Join 0; Join 0].


(** The lines of a file run the whole program: a bucket made by a line is announced, the rest
    refused. *)
Example run_prints :
  match run_file 6 no_schedules run_choices GlobalOpts_default None run_console with
  | Some (_, c') => printed c' = [Stdout ($"mb s3://two"); Stdout ($"mb s3://one");
                                  Stderr ($"ERROR frob x: line 4: unrecognized subcommand");
                                  Stderr ($"ERROR run /in: nested run is not supported (line 5)")]
  | None => False
  end.
Proof. vm_compute. reflexivity. Qed.
