(* ===== verification/MountSetupWorld.v ===== *)
(** * A mount in the concrete world

    The witness of MountSetupSpec.v, in the in-memory world, and corner cases of the mount's
    options. *)

From S2P Require Import Prelude RustStr Strutil Url Storage Fs Tasks S3Client MemWorld Inode Reader Writer Vfs FuseFs.
From S2P Require Import Presign VfsSpec S3Laws MountSpec MountWorld MountSetup MountSetupSpec Output SdkWorld SdkCommands.
From S2P Require Global.
From S2P Require Import S3cfg.

Local Open Scope Z_scope.

#[export] Instance mem_host : MountHost MemWorld := {
  getuid _ := 1000;
  getgid _ := 1000;
  pid _ := 7;
  host_env _ _ := None;
  temp_dir _ := $"/tmp";
  path_is_dir p _ := bool_decide (p = $"/mnt");
  remove_dir_all d w := (Ok tt, with_fs (filter (λ pn : str * MemWorld.node, starts_with d pn.1 = false) (mem_fs w)) w);
  mount_with_unprivileged _ _ := mret tt;
}.

#[export] Program Instance mem_mount_laws : MountLaws MemWorld.
Next Obligation. cbn. intros p w r w'. destruct (mem_fs w !! p); [by intros [= _ <-]|apply mem_put_law]. Qed.
Next Obligation. by intros p w r w' [= _ <-]. Qed.
Next Obligation. by intros o p w r w' [= _ <-]. Qed.

Definition docs_mount (read_only : bool) : MountArgs :=
  {| ma_source := $"s3://b"; ma_mountpoint := $"/mnt"; ma_read_only := read_only; ma_cache_dir := None;
     ma_vfs_read_chunk_size := 4; ma_buffer_size := 16; ma_dir_cache_time := 300 * 1000000000;
     ma_attr_timeout := 1000000000; ma_part_size := 8; ma_concurrency := 8; ma_allow_other := false;
     ma_uid := None; ma_gid := None |}.

Definition intruder : list request := [RLookup 1 ($"x"); RUnlink 1 ($"x"); RCreate 1 ($"y"); RMkdir 1 ($"d")].


(** Ctrl-C removes the cache directory, and with it what an open file holds: here nothing of
    the bytes written is left, in the bucket or in the cache. *)
Example unmount_drops_unsaved :
  let empty := {| mem_fs := ∅; mem_s3 := mem_s3 mount0.2; mem_denied := []; mem_log := [] |} in
  let '(r, rs, w') := mount_run 0 Global.GlobalOpts_default (docs_mount false)
                        [RCreate 1 ($"y"); RWrite 1 0 ($"precious")] CtrlC empty in
  r = Ok tt ∧ rs !! 1%nat = Some (Ok (Written 8)) ∧ mem_content w' ($"b", $"y") = None ∧ map_to_list (mem_fs w') = [].
Proof. cbv zeta. vm_compute. split_and!; reflexivity. Qed.

(** ** Durations *)

#[export] Instance whole_div : F64Div := { f64_div := Z.div; f64_finite _ := true }.

#[export] Instance ascii_letters : Alphabetic := {
  alphabetic s := match s with [c] => is_ascii_alphabetic c | _ => true end;
  alphabetic_ascii _ _ := eq_refl;
}.

Example two_minutes : humantime_secs ($" 2m ") = Done (120 * 1000000000).
Proof. vm_compute. reflexivity. Qed.

(** A finite number of seconds beyond the largest [Duration] still panics. *)
Example huge_duration_panics : humantime_secs ($"18446744073709551615h") = Panicked.
Proof. vm_compute. reflexivity. Qed.
