(* ===== verification/Fastpath.v ===== *)
(** * The io_uring fast path (src/src/fastpath/client.rs, runtime.rs; command/cp.rs [try_fast_path])

    One signed HTTP request per operation, retried with back-off, the transfers sharded
    over the cores. Connections, signing and URI parsing are library code (class
    [FastNet]); the transfers of all threads complete in any order ([Unordered]). *)

From S2P Require Import Prelude RustStr Strutil Url Storage Fs Tasks Global.

Local Open Scope Z_scope.

(** ** client.rs *)

Record Endpoint := { ep_scheme : str; ep_host : str; ep_port : Z; ep_no_verify : bool }.

Definition is_tls (e : Endpoint) : bool := bool_decide (ep_scheme e = $"https").

Definition host_header (e : Endpoint) : str :=
  let default := if is_tls e then 443 else 80 in
  if ep_port e =? default then ep_host e else ep_host e ++ $":" ++ to_string (ep_port e).

(** [Endpoint::url] *)
Definition endpoint_url (e : Endpoint) (bucket key : str) : str :=
  ep_scheme e ++ $"://" ++ host_header e ++ $"/" ++ bucket ++ $"/" ++ key.

Inductive Method := PUT | GET | DELETE.

Record FastRequest := {
  fq_method : Method;
  (** the path and query of the URI *)
  fq_target : str;
  fq_headers : list (str * str);
  fq_body : option str;
}.

(** [Signer]: the credentials and the region of one endpoint. *)
Record Credentials := { access_key : str; secret_key : str; session_token : option str; signing_region : str }.

Inductive SignableBody := UnsignedPayload | BodyBytes (d : str).

Record SignableRequest := {
  sr_method : Method;
  sr_uri : str;
  sr_headers : list (str * str);
  sr_body : SignableBody;
}.

Record SigningParams := {
  sp_identity : Credentials;
  sp_region : str;
  sp_name : str;
  sp_time : Z;
  (** [PayloadChecksumKind::XAmzSha256] *)
  sp_payload_checksum : bool;
}.

(** What the libraries do: [Uri::from_str] to the path and query, the connector of an endpoint,
    the checks of [http::request::Builder], [HeaderValue::to_str], the clock, aws-sigv4 (the
    checks of its builders, a signature and its application to the headers), one exchange
    over a connection, [StatusCode]'s text, and monoio's files and timer. *)
Class FastNet (W : Type) := {
  uri_parse : str → result str Error;
  connector_new : Endpoint → result unit Error;
  check_headers : list (str * str) → result unit Error;
  header_to_str : str → option str;
  signing_time : W → Z * W;
  SigningInstructions : Type;
  check_params : SigningParams → result unit Error;
  check_signable : SignableRequest → result unit Error;
  sigv4 : SignableRequest → SigningParams → result SigningInstructions Error;
  apply_instructions : SigningInstructions → list (str * str) → list (str * str);
  exchange : Endpoint → FastRequest → W → result (Z * str) Error * W;
  status_text : Z → str;
  file_open_len : str → W → result Z Error;
  read_exact_at : str → Z → Z → W → result str Error;
  file_create : str → M W unit;
  file_write_all_at : str → str → Z → M W unit;
  timer_sleep : Z → W → W;
}.

Definition NOT_FOUND : Z := 404.
Definition REQUEST_TIMEOUT : Z := 408.
Definition TOO_MANY_REQUESTS : Z := 429.
Definition INTERNAL_SERVER_ERROR : Z := 500.

Definition is_success_status (s : Z) : bool := (200 <=? s) && (s <? 300).

Definition HttpStatusError (status : Z) (message : str) : Error := typed_error (THttpStatus status) message.

(** [HttpStatusError::is_retryable] *)
Definition is_retryable_status (s : Z) : bool :=
  (500 <=? s) && (s <? 600) || (s =? REQUEST_TIMEOUT) || (s =? TOO_MANY_REQUESTS).

(** [is_retryable]: any error but an HTTP status is. *)
Definition is_retryable (e : Error) : bool :=
  match List.find (λ c, match err_type c with THttpStatus _ => true | _ => false end) (chain e) with
  | Some c => match err_type c with THttpStatus s => is_retryable_status s | _ => true end
  | None => true
  end.

Definition encode_byte (b : ascii) : str :=
  if is_chr SLASH b then [SLASH] else if is_unreserved b then [b] else percent b.

Definition encode_key_path (key : str) : str := flat_map encode_byte key.

(** [haystack.windows(n)] *)
Fixpoint windows (fuel : nat) (n : nat) (h : str) : list str :=
  match fuel with
  | O => []
  | S fuel => match h with
              | [] => []
              | _ :: h' => if (length h <? n)%nat then [] else take n h :: windows fuel n h'
              end
  end.

Definition memmem (haystack needle : str) : bool :=
  if bool_decide (needle = []) || (length haystack <? length needle)%nat then bool_decide (needle = [])
  else existsb (λ w, bool_decide (w = needle)) (windows (length haystack) (length needle) haystack).

Section Fastpath.
Context `{RegexLib} {W : Type} `{!Os W, !FastNet W, !Unordered}.

Record FastClient := { fc_endpoint : Endpoint; fc_creds : Credentials }.

Definition FastClient_new (e : Endpoint) (c : Credentials) : result FastClient Error :=
  let? _ := connector_new e in Ok {| fc_endpoint := e; fc_creds := c |}.

Definition signing_params (signer : Credentials) (t : Z) : SigningParams :=
  {| sp_identity := signer; sp_region := signing_region signer; sp_name := $"s3"; sp_time := t; sp_payload_checksum := true |}.

(** [Signer::sign_s3], from the headers of the request to the signed ones; the body is not
    part of the signature. *)
Definition sign_s3 (signer : Credentials) (m : Method) (uri : str) (headers : list (str * str)) (body : str)
  : M W (list (str * str)) := λ w,
  let '(t, w) := signing_time w in
  let params := signing_params signer t in
  let signable := {| sr_method := m; sr_uri := uri;
                     sr_headers := map (λ h : str * str, (h.1, default [] (header_to_str h.2))) headers;
                     sr_body := UnsignedPayload |} in
  (let? _ := check_params params in
   let? _ := check_signable signable in
   let? instructions := sigv4 signable params in
   Ok (apply_instructions instructions headers), w).

Definition build_request_with_headers (c : FastClient) (m : Method) (bucket key body : str)
    (extra : list (str * str)) : M W FastRequest :=
  let url := endpoint_url (fc_endpoint c) bucket key in
  let! target := mlift (uri_parse url) in
  let headers := ($"host", host_header (fc_endpoint c)) :: extra in
  let! _ := mlift (check_headers headers) in
  let! headers := sign_s3 (fc_creds c) m url headers body in
  let! _ := mlift (check_headers headers) in
  mret {| fq_method := m; fq_target := target; fq_headers := headers;
          fq_body := if bool_decide (body = []) then None else Some body |}.

Definition build_request (c : FastClient) (m : Method) (bucket key body : str) : M W FastRequest :=
  build_request_with_headers c m bucket key body [].

Definition fast_send (c : FastClient) (q : FastRequest) : M W (Z * str) := exchange (fc_endpoint c) q.

Definition fast_put (c : FastClient) (bucket key body : str) : M W unit :=
  let! req := build_request c PUT bucket key body in
  let! (status, body) := fast_send c req in
  if negb (is_success_status status) then
    mfail (HttpStatusError status ($"PUT " ++ bucket ++ $"/" ++ key ++ $" -> " ++ status_text status ++ $": "
                                   ++ from_utf8_lossy body))
  else mret tt.

Definition fast_get (c : FastClient) (bucket key : str) : M W str :=
  let! req := build_request c GET bucket key [] in
  let! (status, body) := fast_send c req in
  if negb (is_success_status status) then
    mfail (HttpStatusError status ($"GET " ++ bucket ++ $"/" ++ key ++ $" -> " ++ status_text status ++ $": "
                                   ++ from_utf8_lossy body))
  else mret body.

Definition fast_delete (c : FastClient) (bucket key : str) : M W unit :=
  let! req := build_request c DELETE bucket key [] in
  let! (status, body) := fast_send c req in
  if negb (is_success_status status) && negb (status =? NOT_FOUND) then
    mfail (HttpStatusError status ($"DELETE " ++ bucket ++ $"/" ++ key ++ $" -> " ++ status_text status ++ $": "
                                   ++ from_utf8_lossy body))
  else mret tt.

(** [x-amz-copy-source] *)
Definition fast_copy_source (src_bucket src_key : str) : str := $"/" ++ src_bucket ++ $"/" ++ encode_key_path src_key.

Definition fast_copy (c : FastClient) (src_bucket src_key dst_bucket dst_key : str) : M W unit :=
  let! req := build_request_with_headers c PUT dst_bucket dst_key []
                [($"x-amz-copy-source", fast_copy_source src_bucket src_key)] in
  let! (status, body) := fast_send c req in
  let what := $"COPY " ++ src_bucket ++ $"/" ++ src_key ++ $" -> " ++ dst_bucket ++ $"/" ++ dst_key in
  if negb (is_success_status status) then
    mfail (HttpStatusError status (what ++ $" -> " ++ status_text status ++ $": " ++ from_utf8_lossy body))
  else if memmem body ($"<Error") then
    mfail (HttpStatusError INTERNAL_SERVER_ERROR (what ++ $": 200 OK with error body: " ++ from_utf8_lossy body))
  else mret tt.

(** [create_bucket]: only the tests call it. *)
Definition fast_create_bucket (c : FastClient) (bucket : str) : M W Z :=
  let! req := build_request c PUT bucket [] [] in
  let! (status, _) := fast_send c req in
  mret status.

(** ** runtime.rs *)

Inductive FastTransfer :=
  | FUpload (local bucket key : str)
  | FDownload (bucket key local : str)
  | FCopy (src_bucket src_key dst_bucket dst_key : str).

Definition s3_path (bucket key : str) : str := $"s3://" ++ bucket ++ $"/" ++ key.

Definition operands (t : FastTransfer) : str * str :=
  match t with
  | FUpload local b k => (from_utf8_lossy local, s3_path b k)
  | FDownload b k local => (s3_path b k, from_utf8_lossy local)
  | FCopy sb sk db dk => (s3_path sb sk, s3_path db dk)
  end.

Definition label_for (t : FastTransfer) : str := let '(s, d) := operands t in $"cp " ++ s ++ $" " ++ d.

Record Outcome := { o_label : str; o_source : str; o_destination : str; o_result : result unit Error }.

(** Milliseconds. *)
Definition backoff_ms (attempt : Z) : Z := Z.min (Z.shiftl 50 (Z.min attempt 7)) 5000.

(** [fuel] attempts remain after this one. *)
Fixpoint with_retry {A} (fuel : nat) (max_retries attempt : Z) (op : M W A) : M W A := λ w,
  match op w with
  | (Ok v, w) => (Ok v, w)
  | (Err e, w) =>
      if (attempt >=? max_retries) || negb (is_retryable e) then (Err e, w)
      else match fuel with
           | O => (Err e, w)
           | S fuel => with_retry fuel max_retries (attempt + 1) op (timer_sleep (backoff_ms attempt) w)
           end
  end.

Definition retrying {A} (max_retries : Z) (op : M W A) : M W A := with_retry (Z.to_nat max_retries) max_retries 0 op.

Definition fast_read_file (path : str) : M W str := λ w,
  match file_open_len path w with
  | Ok len => (read_exact_at path len 0 w, w)
  | Err e => (Err e, w)
  end.

Definition fast_write_file (path data : str) : M W unit :=
  let! _ := (match parent path with
             | Some p => λ w, if negb (bool_decide (p = [])) && negb (is_ok (metadata p w))
                              then create_dir_all p w else (Ok tt, w)
             | None => mret tt
             end) in
  let! _ := file_create path in
  file_write_all_at path data 0.

Definition move_result (c : FastClient) (max_retries : Z) (t : FastTransfer) (is_move : bool) : M W unit :=
  match t with
  | FUpload local bucket key =>
      let! data := fast_read_file local in
      let! _ := retrying max_retries (fast_put c bucket key data) in
      if is_move then remove_file local else mret tt
  | FDownload bucket key local =>
      let! bytes := retrying max_retries (fast_get c bucket key) in
      let! _ := fast_write_file local bytes in
      if is_move then retrying max_retries (fast_delete c bucket key) else mret tt
  | FCopy sb sk db dk =>
      let! _ := retrying max_retries (fast_copy c sb sk db dk) in
      if is_move then retrying max_retries (fast_delete c sb sk) else mret tt
  end.

Definition outcome (t : FastTransfer) (r : result unit Error) : Outcome :=
  {| o_label := label_for t; o_source := (operands t).1; o_destination := (operands t).2; o_result := r |}.

Definition do_one (c : FastClient) (max_retries : Z) (is_move : bool) (t : FastTransfer) : M W Outcome := λ w,
  let '(r, w) := move_result c max_retries t is_move w in (Ok (outcome t r), w).

Record FastConfig := {
  fg_endpoint : Endpoint;
  fg_creds : Credentials;
  fg_cores : Z;
  fg_per_core_concurrency : Z;
  fg_max_retries : Z;
  fg_dry_run : bool;
  fg_is_move : bool;
}.

(** Item [i] goes to shard [i mod cores]. *)
Definition shard {A} (cores ci : nat) (items : list A) : list A :=
  omap (λ p : nat * A, if (p.1 mod cores =? ci)%nat then Some p.2 else None) (imap pair items).

Definition shards {A} (cores : nat) (items : list A) : list (list A) :=
  map (λ ci, shard cores ci items) (seq 0 cores).

(** The tasks of one thread; a client that cannot be built fails each of them. *)
Definition init_failure (e : Error) : Outcome :=
  {| o_label := $"fastpath client init"; o_source := []; o_destination := [];
     o_result := Err (anyhow (show_error_alt e)) |}.

Definition shard_tasks (cfg : FastConfig) (items : list FastTransfer) : list (M W Outcome) :=
  match FastClient_new (fg_endpoint cfg) (fg_creds cfg) with
  | Ok c => map (do_one c (fg_max_retries cfg) (fg_is_move cfg)) items
  | Err e => repeat (mret (init_failure e)) (Nat.max (length items) 1)
  end.

(** [run_shard]: at most [concurrency] transfers of a shard in flight, refilled as they finish.
    An entry of [picks] is the transfer in flight that finishes next. *)
Record shard_run := { sh_queue : list FastTransfer; sh_inflight : list FastTransfer; sh_sent : list Outcome; sh_world : W }.

Definition shard_start (concurrency : nat) (items : list FastTransfer) (w : W) : shard_run :=
  {| sh_queue := drop concurrency items; sh_inflight := take concurrency items; sh_sent := []; sh_world := w |}.

Definition shard_next (c : FastClient) (max_retries : Z) (is_move : bool) (i : nat) (s : shard_run) : option shard_run :=
  match sh_inflight s !! i with
  | None => None
  | Some t =>
      let '(r, w) := move_result c max_retries t is_move (sh_world s) in
      Some {| sh_queue := drop 1 (sh_queue s);
              sh_inflight := delete i (sh_inflight s) ++ take 1 (sh_queue s);
              sh_sent := sh_sent s ++ [outcome t r]; sh_world := w |}
  end.

Fixpoint run_shard (c : FastClient) (max_retries : Z) (is_move : bool) (picks : list nat) (s : shard_run) : option shard_run :=
  match picks with
  | [] => Some s
  | i :: picks =>
      match shard_next c max_retries is_move i s with
      | Some s => run_shard c max_retries is_move picks s
      | None => None
      end
  end.

Definition run_transfers (cfg : FastConfig) (items : list FastTransfer) (w : W) : list Outcome * W :=
  if bool_decide (items = []) then ([], w)
  else if fg_dry_run cfg then (map (λ t, outcome t (Ok tt)) items, w)
  else
    let cores := Nat.min (Z.to_nat (Z.max (fg_cores cfg) 1)) (length items) in
    let '(rs, w) := run_tasks (arrange (concat (map (shard_tasks cfg) (shards cores items)))) w in
    (omap (λ r, match r with Ok o => Some o | Err _ => None end) rs, w).

(** ** cp.rs *)

Definition to_transfer (p : Url * Url) : FastTransfer :=
  let '(s, d) := p in
  match is_remote s, is_remote d with
  | false, true => FUpload (absolute s) (bucket d) (path d)
  | true, false => FDownload (bucket s) (path s) (absolute d)
  | _, _ => FCopy (bucket s) (path s) (bucket d) (path d)
  end.

(** [global.endpoint_url.parse()?] to its scheme, host and port, and the machine. *)
Class FastEnv := {
  endpoint_parse : str → result (option str * option str * option Z) Error;
  available_parallelism : Z;
  fast_cores_var : option str;
}.
Context `{!FastEnv}.

Definition fast_endpoint (g : GlobalOpts) : result Endpoint Error :=
  match g_endpoint_url g with
  | None => Err (anyhow ($"--fast currently requires --endpoint-url (e.g. http://host:9000)"))
  | Some raw =>
      let? (sch, host, port) := endpoint_parse raw in
      let sch := default ($"http") sch in
      if negb (bool_decide (sch = $"http")) && negb (bool_decide (sch = $"https"))
      then Err (anyhow ($"--fast endpoint must be http or https"))
      else
        let default_port := if bool_decide (sch = $"https") then 443 else 80 in
        match host with
        | None => Err (anyhow ($"invalid --endpoint-url host"))
        | Some h => Ok {| ep_scheme := sch; ep_host := h; ep_port := default default_port port;
                          ep_no_verify := g_no_verify_ssl g |}
        end
  end.

Definition fast_cores : Z :=
  Z.max 1 (default (Z.min available_parallelism 16) (fast_cores_var ≫= parse_uint u64_max)).

Definition fast_config (g : GlobalOpts) (e : Endpoint) (c : Credentials) (is_move : bool) : FastConfig :=
  {| fg_endpoint := e; fg_creds := c; fg_cores := fast_cores;
     fg_per_core_concurrency := Z.max 1 (g_numworkers g / fast_cores); fg_max_retries := g_retry_count g;
     fg_dry_run := g_dry_run g; fg_is_move := is_move |}.

(** The credentials and the region, over [aws_config]: what is loaded from the region and the
    profile, its provider if it has one, and what the provider answers. *)
Class AwsConfig := {
  SdkConfig : Type;
  aws_load : option str → option str → W → SdkConfig * W;
  credentials_provider : SdkConfig → option (M W (str * str * option str));
  config_region : SdkConfig → option str;
}.
Context `{!AwsConfig}.

Definition resolve_credentials (g : GlobalOpts) : M W Credentials := λ w,
  let '(conf, w) := aws_load (g_region g) (g_profile g) w in
  match credentials_provider conf with
  | None => (Err (anyhow ($"no AWS credentials found (env/profile/SSO/IMDS)")), w)
  | Some provide =>
      match provide w with
      | (Err e, w) => (Err (anyhow ($"resolving AWS credentials: " ++ show_error e)), w)
      | (Ok (access, secret, token), w) =>
          let region := match config_region conf with Some r => Some r | None => g_region g end in
          (Ok {| access_key := access; secret_key := secret; session_token := token;
                 signing_region := default ($"us-east-1") region |}, w)
      end
  end.

(** [None]: the default path takes over. *)
Definition try_fast_path (g : GlobalOpts) (pairs : list (Url * Url)) (is_move : bool)
  : M W (option (list Outcome * result unit Error)) :=
  if bool_decide (pairs = []) then mret None
  else if existsb (λ p, negb (is_remote p.1) && negb (is_remote p.2)) pairs then mret None
  else
    let! e := mlift (fast_endpoint g) in
    let! creds := resolve_credentials g in
    λ w,
      let '(outcomes, w) := run_transfers (fast_config g e creds is_move) (map to_transfer pairs) w in
      (Ok (Some (outcomes,
                 if forallb (λ o, is_ok (o_result o)) outcomes then Ok tt
                 else Err (anyhow ($"one or more fast-path transfers failed")))), w).
End Fastpath.
