(* ===== verification/FastpathSpec.v ===== *)
(** * What the fast path guarantees *)

From S2P Require Import Prelude RustStr Strutil Url Storage Fs Tasks S3Client Transfer TransferParts Global Fastpath.

Local Open Scope Z_scope.

(** ** Searching a body *)

Lemma windows_in fuel n h w :
  (length h <= fuel)%nat → (0 < n)%nat →
  w ∈ windows fuel n h ↔ length w = n ∧ ∃ a b, h = a ++ w ++ b.
Proof.
  intros Hf Hn. revert h Hf. induction fuel as [|fuel IH]; intros h Hf; cbn [windows].
  - destruct h; [|cbn in Hf; lia]. split; [by intros ?%elem_of_nil|].
    intros (Hl & a & b & Heq). destruct a, w; cbn in *; (done || lia).
  - destruct h as [|c h]; [split; [by intros ?%elem_of_nil|]|].
    { intros (Hl & a & b & Heq). destruct a, w; cbn in *; (done || lia). }
    cbn [length] in Hf. destruct (Nat.ltb_spec (length (c :: h)) n).
    { split; [by intros ?%elem_of_nil|]. intros (Hl & a & b & Heq). apply (f_equal length) in Heq.
      rewrite !length_app in Heq. lia. }
    rewrite elem_of_cons, IH by lia. split.
    + intros [->|(Hl & a & b & ->)].
      * split; [rewrite length_take; lia|]. exists [], (drop n (c :: h)). cbn [app]. by rewrite take_drop.
      * split; [done|]. by exists (c :: a), b.
    + intros (Hl & a & b & Heq). destruct a as [|c' a].
      * left. cbn [app] in Heq. rewrite Heq, <-Hl. by rewrite take_app_length.
      * right. injection Heq as -> ->. split; [done|]. by exists a, b.
Qed.

Lemma memmem_spec h n : memmem h n = true ↔ ∃ a b, h = a ++ n ++ b.
Proof.
  unfold memmem. destruct (decide (n = [])) as [->|Hn].
  - rewrite bool_decide_true by done. cbn. split; [|done]. intros _. by exists [], h.
  - rewrite bool_decide_false by done. cbn [orb]. destruct (Nat.ltb_spec (length h) (length n)).
    + split; [done|]. intros (a & b & ->). rewrite !length_app in *. lia.
    + rewrite existsb_exists. split.
      * intros (w & Hw%list_elem_of_In & Heq). apply bool_decide_eq_true in Heq as ->.
        apply windows_in in Hw; [by destruct Hw|done|]. destruct n; [done|cbn; lia].
      * intros (a & b & Heq). exists n. rewrite bool_decide_true by done. split; [|done].
        apply list_elem_of_In, windows_in; [done|destruct n; [done|cbn; lia]|]. split; [done|]. by exists a, b.
Qed.

(** ** Copy sources *)

Lemma encode_byte_encoding k : url_encoded (plus_to_space (encode_key_path k)) k ∧
  existsb (is_chr "?"%char) (encode_key_path k) = false.
Proof.
  assert (Hall : ∀ c, match plus_to_space (encode_byte c) with
                      | [d] => is_chr c d && negb (is_chr "%"%char d)
                      | [p; h; l] => is_chr "%"%char p && bool_decide (hex_pair h l = Some c)
                      | _ => false
                      end && negb (existsb (is_chr "?"%char) (encode_byte c)) = true) by (apply all_bytes; vm_refl).
  induction k as [|c k [IH IH']]; [split; [constructor|done]|]. unfold encode_key_path in *. cbn [flat_map].
  specialize (Hall c). apply andb_true_iff in Hall as [Hc Hq]. apply negb_true_iff in Hq. split.
  - unfold plus_to_space. rewrite map_app. apply (url_encoded_app _ _ [c]); [|exact IH].
    fold (plus_to_space (encode_byte c)).
    destruct (plus_to_space (encode_byte c)) as [|p [|h [|l [|]]]]; try done; reflect_bools.
    + rewrite is_chr_true in *. subst. apply enc_keep; [|constructor]. intros ->. by rewrite is_chr_refl in *.
    + rewrite is_chr_true in *. subst. by apply enc_escape; [|constructor].
  - by rewrite existsb_app, Hq, IH'.
Qed.

Lemma unreserved_plain b :
  forallb is_unreserved b = true →
  existsb (is_chr SLASH) b = false ∧ existsb (is_chr "?"%char) b = false ∧ url_encoded (plus_to_space b) b.
Proof.
  assert (Hall : ∀ c, negb (is_unreserved c) ||
    (negb (is_chr SLASH c) && negb (is_chr "?"%char c) && negb (is_chr "+"%char c) && negb (is_chr "%"%char c)) = true)
    by (apply all_bytes; vm_refl).
  intros Hb. induction b as [|c b IH]; [split_and!; [done..|constructor]|]. cbn [forallb] in Hb.
  apply andb_true_iff in Hb as [Hc Hb]. destruct (IH Hb) as (IH1 & IH2 & IH3).
  specialize (Hall c). rewrite Hc in Hall. cbn [negb orb] in Hall. reflect_bools.
  cbn [existsb]. rewrite IH1, IH2, !orb_false_r. split_and!; [done|done|].
  unfold plus_to_space in *. cbn [map].
  match goal with Hp : is_chr "+"%char c = false |- _ => rewrite Hp end.
  apply enc_keep; [|done]. intros ->. by rewrite is_chr_refl in *.
Qed.

(** The source of a copy on the fast path is the object it names: reading the header as S3
    does gives back the bucket and the key, whatever bytes the key holds. *)
Theorem fast_copy_source_roundtrip b k :
  forallb is_unreserved b = true → decode_source (drop 1 (fast_copy_source b k)) = Some (b, k, None).
Proof.
  intros Hb. destruct (unreserved_plain b Hb) as (Hs & Hq & Hp). destruct (encode_byte_encoding k) as [He Hk].
  unfold decode_source, fast_copy_source.
  change ($"?versionId=") with ("?"%char :: $"versionId=").
  change (drop 1 ($"/" ++ b ++ $"/" ++ encode_key_path k)) with (b ++ SLASH :: encode_key_path k).
  rewrite split_once_absent by (rewrite existsb_app, Hq; exact Hk).
  change ($"/") with [SLASH]. rewrite split_once_chr.
  - by rewrite (percent_bytes_encoded _ _ Hp), (percent_bytes_encoded _ _ He).
  - apply existsb_forallb_negb. exact Hs.
Qed.

Lemma fast_copy_source_roundtrip_witness :
  decode_source (drop 1 (fast_copy_source ($"my-bucket") ($"dir/a b+c%?.txt"))) = Some ($"my-bucket", $"dir/a b+c%?.txt", None).
Proof. apply (fast_copy_source_roundtrip ($"my-bucket") ($"dir/a b+c%?.txt")). vm_refl. Defined.

(** ** Retries *)

Section Retry.
Context {W : Type} `{!FastNet W} {A : Type} (op : M W A).

(** The world before attempt [i], when the attempts before it failed. *)
Fixpoint before (attempt : Z) (i : nat) (w : W) : W :=
  match i with
  | O => w
  | S i => before (attempt + 1) i (timer_sleep (backoff_ms attempt) (op w).2)
  end.

Lemma with_retry_spec fuel max attempt w :
  0 <= attempt → max - attempt <= Z.of_nat fuel →
  ∃ k, Z.of_nat k <= Z.max 0 (max - attempt) ∧ with_retry fuel max attempt op w = op (before attempt k w) ∧
    (∀ i, (i < k)%nat → ∃ e, (op (before attempt i w)).1 = Err e ∧ is_retryable e = true) ∧
    (∀ e, (op (before attempt k w)).1 = Err e → max <= attempt + Z.of_nat k ∨ is_retryable e = false).
Proof.
  revert attempt w. induction fuel as [|fuel IH]; intros attempt w Ha Hf; cbn [with_retry];
    destruct (op w) as [[v|e] w1] eqn:Hop; cbn [fst].
  - exists 0%nat. cbn. rewrite Hop. split_and!; [lia|done|lia|done].
  - assert ((attempt >=? max) = true) as -> by lia. cbn [orb]. exists 0%nat. cbn. rewrite Hop.
    split_and!; [lia|done|lia|]. intros ? _. left. lia.
  - exists 0%nat. cbn. rewrite Hop. split_and!; [lia|done|lia|done].
  - destruct (Z.geb_spec attempt max) as [Hge|Hlt]; cbn [orb].
    { exists 0%nat. cbn. rewrite Hop. split_and!; [lia|done|lia|]. intros ? _. left. lia. }
    destruct (is_retryable e) eqn:Hret; cbn [negb].
    2:{ exists 0%nat. cbn. rewrite Hop. split_and!; [lia|done|lia|]. intros ? [= <-]. by right. }
    destruct (IH (attempt + 1) (timer_sleep (backoff_ms attempt) w1)) as (k & Hk & Hrun & Hpre & Hend); [lia|lia|].
    exists (S k). cbn [before]. rewrite Hop. cbn [snd]. split_and!; [lia|done| |].
    + intros [|i] Hi; cbn [before]; [exists e; by rewrite Hop|]. rewrite Hop. apply Hpre. lia.
    + intros e' He'. destruct (Hend e' He') as [?|?]; [left; lia|by right].
Qed.

Lemma backoff_bounds attempt : 0 <= attempt → 50 <= backoff_ms attempt <= 5000.
Proof.
  intros Ha. unfold backoff_ms. rewrite Z.shiftl_mul_pow2 by lia.
  pose proof (Z.pow_le_mono_r 2 0 (Z.min attempt 7) ltac:(lia) ltac:(lia)) as Hp.
  rewrite Z.pow_0_r in Hp. lia.
Qed.

End Retry.

(** ** Sharding *)

Lemma shard_cons {A} cores ci (f : nat → nat) (a : A) items :
  omap (λ p : nat * A, if (p.1 mod cores =? ci)%nat then Some p.2 else None) (imap (λ i x, (f i, x)) (a :: items)) =
  (if (f 0 mod cores =? ci)%nat then [a] else []) ++
  omap (λ p : nat * A, if (p.1 mod cores =? ci)%nat then Some p.2 else None) (imap (λ i x, (f (S i), x)) items).
Proof. cbn. by destruct (_ =? _)%nat. Qed.

Lemma one_shard {A} (n start : nat) c (a : A) :
  (start <= c < start + n)%nat →
  concat (map (λ ci, if (c =? ci)%nat then [a] else []) (seq start n)) = [a].
Proof.
  revert start. induction n as [|n IH]; intros start Hc; [lia|]. cbn [seq map concat].
  destruct (Nat.eqb_spec c start) as [->|Hne].
  - rewrite (map_ext_in _ (λ _, [])); [|intros ci Hci%in_seq; by rewrite (proj2 (Nat.eqb_neq start ci)) by lia].
    cbn. f_equal. clear. induction (seq (S start) n); [done|done].
  - rewrite IH by lia. done.
Qed.

Lemma concat_app_perm {A B} (f g : A → list B) l :
  concat (map (λ x, f x ++ g x) l) ≡ₚ concat (map f l) ++ concat (map g l).
Proof.
  induction l as [|x l IH]; [done|]. cbn [map concat]. rewrite IH. rewrite <-!app_assoc.
  apply Permutation_app_head. rewrite !app_assoc. apply Permutation_app_tail, Permutation_app_comm.
Qed.

Lemma shards_perm {A} cores (items : list A) : (0 < cores)%nat → concat (shards cores items) ≡ₚ items.
Proof.
  intros Hc. unfold shards, shard. change (imap pair items) with (imap (λ i (x : A), (id i, x)) items).
  generalize (id : nat → nat). induction items as [|a items IH]; intros f.
  - cbn. induction (seq 0 cores); done.
  - rewrite (map_ext _ (λ ci, (if (f 0%nat mod cores =? ci)%nat then [a] else []) ++
      omap (λ p : nat * A, if (p.1 mod cores =? ci)%nat then Some p.2 else None) (imap (λ i x, (f (S i), x)) items)))
      by (intros; apply shard_cons).
    rewrite concat_app_perm, one_shard.
    + cbn. constructor. apply (IH (f ∘ S)).
    + pose proof (Nat.mod_upper_bound (f 0%nat) cores). lia.
Qed.

Section Transfers.
Context `{RegexLib} {W : Type} `{!Os W, !FastNet W, !Unordered}.

(** The transfers one after the other. *)
Fixpoint do_all (c : FastClient) (max_retries : Z) (is_move : bool) (items : list FastTransfer) (w : W) : list Outcome * W :=
  match items with
  | [] => ([], w)
  | t :: items =>
      let '(r, w) := move_result c max_retries t is_move w in
      let '(os, w) := do_all c max_retries is_move items w in (outcome t r :: os, w)
  end.

Lemma do_all_tasks c max_retries is_move items w :
  let '(rs, w') := run_tasks (map (do_one c max_retries is_move) items) w in
  do_all c max_retries is_move items w = (omap (λ r, match r with Ok o => Some o | Err _ => None end) rs, w').
Proof.
  revert w. induction items as [|t items IH]; intros w; [done|]. cbn [map run_tasks do_all]. unfold do_one at 1.
  destruct (move_result c max_retries t is_move w) as [r w1]. specialize (IH w1).
  destruct (run_tasks _ w1) as [rs w2]. rewrite IH. done.
Qed.

Lemma do_all_operands c max_retries is_move items w :
  map (λ o, (o_source o, o_destination o)) (do_all c max_retries is_move items w).1 = map operands items.
Proof.
  revert w. induction items as [|t items IH]; intros w; [done|]. cbn [do_all].
  destruct (move_result c max_retries t is_move w) as [r w1]. specialize (IH w1).
  destruct (do_all _ _ _ items w1) as [os w2]. cbn in *. rewrite IH. by destruct (operands t).
Qed.

Lemma do_all_snoc c max_retries is_move items t w :
  do_all c max_retries is_move (items ++ [t]) w =
    let '(os, w1) := do_all c max_retries is_move items w in
    let '(r, w2) := move_result c max_retries t is_move w1 in (os ++ [outcome t r], w2).
Proof.
  revert w. induction items as [|t' items IH]; intros w; cbn [app do_all]; [by destruct (move_result _ _ t _ w)|].
  destruct (move_result c max_retries t' is_move w) as [r w1]. rewrite IH.
  destruct (do_all _ _ _ items w1) as [os w2]. by destruct (move_result _ _ t _ w2).
Qed.

(** A shard in progress: never more in flight than allowed, nothing lost, and what was sent
    are the outcomes of the transfers that finished, in the order they finished. *)
Lemma run_shard_inv c max_retries is_move picks concurrency items w s :
  run_shard c max_retries is_move picks (shard_start concurrency items w) = Some s →
  (length (sh_inflight s) <= concurrency)%nat ∧ (sh_queue s ≠ [] → length (sh_inflight s) = concurrency) ∧
  ∃ order, items ≡ₚ order ++ sh_inflight s ++ sh_queue s ∧
           do_all c max_retries is_move order w = (sh_sent s, sh_world s) ∧ length order = length picks.
Proof.
  set (inv := λ n (s : shard_run), (length (sh_inflight s) <= concurrency)%nat ∧
    (sh_queue s ≠ [] → length (sh_inflight s) = concurrency) ∧
    ∃ order, items ≡ₚ order ++ sh_inflight s ++ sh_queue s ∧
             do_all c max_retries is_move order w = (sh_sent s, sh_world s) ∧ length order = n).
  assert (Hstep : ∀ n i s s', inv n s → shard_next c max_retries is_move i s = Some s' → inv (S n) s').
  { intros n i s0 s' (Hle & Hfull & order & Hperm & Hdo & Hlen). unfold shard_next.
    destruct (sh_inflight s0 !! i) as [t|] eqn:Hi; [|done].
    destruct (move_result c max_retries t is_move (sh_world s0)) as [r w1] eqn:Hr. intros [= <-].
    unfold inv. cbn [sh_inflight sh_queue sh_sent sh_world].
    pose proof (delete_Permutation _ _ _ Hi) as Hdel. pose proof (Permutation_length Hdel) as Hlen2. cbn in Hlen2.
    rewrite length_app, length_take. split_and!.
    - destruct (sh_queue s0); cbn in *; [lia|]. specialize (Hfull ltac:(done)). lia.
    - destruct (sh_queue s0) as [|q [|q2 qs]]; try done. intros _. specialize (Hfull ltac:(done)). cbn. lia.
    - exists (order ++ [t]). rewrite do_all_snoc, Hdo, Hr, length_app. split_and!; [|done|cbn; lia].
      etransitivity; [exact Hperm|]. rewrite <-!app_assoc, take_drop. apply Permutation_app_head. cbn [app].
      exact (Permutation_app_tail _ Hdel). }
  assert (Hrun : ∀ ps n s0, inv n s0 → run_shard c max_retries is_move ps s0 = Some s → inv (n + length ps)%nat s).
  { induction ps as [|i ps IH]; intros n s0 Hinv; cbn [run_shard].
    - intros [= <-]. cbn. by rewrite Nat.add_0_r.
    - destruct (shard_next _ _ _ i s0) as [s1|] eqn:Hs; [|done]. intros Hps.
      replace (n + length (i :: ps))%nat with (S n + length ps)%nat by (cbn; lia). eapply IH; [by eapply Hstep|done]. }
  intros Hs. apply (Hrun picks 0%nat _) in Hs; [exact Hs|]. unfold inv, shard_start. cbn [sh_inflight sh_queue sh_sent sh_world].
  rewrite length_take. split_and!; [lia| |].
  - intros Hq. assert (Hl : (0 < length (drop concurrency items))%nat) by (destruct (drop concurrency items); [done|cbn; lia]).
    rewrite length_drop in Hl. lia.
  - exists []. cbn. by rewrite take_drop.
Qed.

(** A shard with room for one transfer always gets to its end, after one step per transfer. *)
Lemma run_shard_ends c max_retries is_move concurrency items w :
  (0 < concurrency)%nat →
  ∃ picks s order, run_shard c max_retries is_move picks (shard_start concurrency items w) = Some s ∧
    sh_inflight s = [] ∧ sh_queue s = [] ∧ order ≡ₚ items ∧ do_all c max_retries is_move order w = (sh_sent s, sh_world s).
Proof.
  intros Hc. set (s0 := shard_start concurrency items w).
  assert (Hgo : ∀ m s, (length (sh_inflight s) + length (sh_queue s) <= m)%nat →
    (sh_queue s ≠ [] → sh_inflight s ≠ []) →
    ∃ picks s', run_shard c max_retries is_move picks s = Some s' ∧ sh_inflight s' = []).
  { induction m as [|m IH]; intros s Hm Hq; destruct (sh_inflight s) as [|t l] eqn:Hin; try by exists [], s. { cbn in Hm. lia. }
    destruct (move_result c max_retries t is_move (sh_world s)) as [r w1] eqn:Hr.
    destruct (shard_next c max_retries is_move 0 s) as [s1|] eqn:Hn; pose proof Hn as Hs1; unfold shard_next in Hs1; rewrite Hin in Hs1;
      cbn [lookup list_lookup] in Hs1; rewrite Hr in Hs1; [|done].
    destruct (IH s1) as (picks & s' & Hrun & Hend).
    - injection Hs1 as <-. cbn [sh_inflight sh_queue]. rewrite length_app, length_take, length_drop. cbn [length] in Hm. cbn [delete list_delete]. lia.
    - injection Hs1 as <-. cbn [sh_inflight sh_queue]. destruct (sh_queue s) as [|q qs]; [done|]. cbn. intros _. by destruct l.
    - exists (0%nat :: picks), s'. split; [|done]. cbn [run_shard]. by rewrite Hn. }
  destruct (Hgo _ s0 (reflexivity _)) as (picks & s & Hrun & Hend).
  { unfold s0, shard_start. cbn. destruct concurrency; [lia|]. by destruct items. }
  pose proof (run_shard_inv _ _ _ _ _ _ _ _ Hrun) as (_ & Hfull & order & Hperm & Hdo & _). rewrite Hend in Hfull, Hperm.
  exists picks, s, order. assert (Hq : sh_queue s = []).
  { destruct (sh_queue s); [done|]. specialize (Hfull ltac:(done)). cbn in Hfull. lia. }
  split_and!; [done|done|done| |done]. rewrite Hq, app_nil_r in Hperm. by symmetry.
Qed.

End Transfers.
