(* ===== verification/FastWorld.v ===== *)
(** * The fast path in a concrete world

    A server on the in-memory world of MemWorld.v: it reads the bucket and the key off the
    target of a request, up to the query; while [mem_log] is not empty, a request takes
    an entry off it and is refused with 503. *)

From S2P Require Import Prelude RustStr Strutil Url Storage Fs Tasks MemWorld S3Client Fastpath FastpathSpec.

Local Open Scope Z_scope.

Definition before_char (c : ascii) (s : str) : str :=
  match split_once [c] s with Some (a, _) => a | None => s end.

(** A URI holds no space; its fragment is not sent. *)
Definition world_uri_parse (url : str) : result str Error :=
  if contains_chr (is_chr " "%char) url then Err (anyhow ($"invalid uri character"))
  else match split_once ($"://") url with
       | Some (_, rest) => match split_once ($"/") rest with
                           | Some (_, p) => Ok ($"/" ++ before_char "#"%char p)
                           | None => Ok ($"/")
                           end
       | None => Err (anyhow ($"invalid format"))
       end.

Definition target_key (target : str) : str * str :=
  match split_once ($"/") (drop 1 (before_char "?"%char target)) with
  | Some (b, k) => (b, percent_bytes k)
  | None => (drop 1 target, [])
  end.

Definition serve_fast (q : FastRequest) (w : MemWorld) : (Z * str) * MemWorld :=
  let loc := target_key (fq_target q) in
  match fq_method q with
  | PUT =>
      match List.find (λ h : str * str, bool_decide (h.1 = $"x-amz-copy-source")) (fq_headers q) with
      | Some h =>
          match mem_s3 w !! target_key h.2 with
          | Some o => ((200, $"<CopyObjectResult/>"), with_s3 (<[loc := o]> (mem_s3 w)) w)
          | None => ((404, []), w)
          end
      | None => ((200, []), with_s3 (<[loc := mkobj (default [] (fq_body q)) 0]> (mem_s3 w)) w)
      end
  | GET => match mem_s3 w !! loc with Some o => ((200, o_body o), w) | None => ((404, []), w) end
  | DELETE => ((204, []), with_s3 (delete loc (mem_s3 w)) w)
  end.

#[export] Instance mem_fast_net : FastNet MemWorld := {
  uri_parse := world_uri_parse;
  connector_new e := Ok tt;
  check_headers _ := Ok tt;
  header_to_str h := Some h;
  signing_time w := (0, w);
  SigningInstructions := list (str * str);
  check_params _ := Ok tt;
  check_signable _ := Ok tt;
  sigv4 q p := Ok [($"authorization", sp_region p)];
  apply_instructions new headers := headers ++ new;
  exchange _ q w :=
    match mem_log w with
    | _ :: l => (Ok (503, $"slow down"), {| mem_fs := mem_fs w; mem_s3 := mem_s3 w; mem_denied := mem_denied w; mem_log := l |})
    | [] => let '(r, w) := serve_fast q w in (Ok r, w)
    end;
  status_text := to_string;
  file_open_len p w := match mem_file p w with Some n => Ok (Z.of_nat (length (n_body n))) | None => Err (io_error enoent) end;
  read_exact_at p n off w := match mem_file p w with Some nd => Ok (slice (n_body nd) off n) | None => Err (io_error enoent) end;
  file_create p := mem_put p (mkfile [] 0);
  file_write_all_at p d _ := mem_put p (mkfile d 0);
  timer_sleep _ w := w;
}.

Definition fast_cfg (is_move : bool) : FastConfig :=
  {| fg_endpoint := {| ep_scheme := $"http"; ep_host := $"h"; ep_port := 9000; ep_no_verify := false |};
     fg_creds := {| access_key := $"a"; secret_key := $"s"; session_token := None; signing_region := $"r" |};
     fg_cores := 2; fg_per_core_concurrency := 4; fg_max_retries := 3; fg_dry_run := false; fg_is_move := is_move |}.

Definition fast_client : FastClient := {| fc_endpoint := fg_endpoint (fast_cfg false); fc_creds := fg_creds (fast_cfg false) |}.

(** Two local files, an object, and a server that is busy [busy] times. *)
Definition fast_world (busy : nat) : MemWorld :=
  {| mem_fs := <[$"/x" := mkfile ($"ex") 0]> (<[$"/y" := mkfile ($"why") 0]> ∅);
     mem_s3 := <[($"b", $"o") := mkobj ($"oh") 0]> ∅; mem_denied := []; mem_log := replicate busy [] |}.

Definition fast_items : list FastTransfer :=
  [FUpload ($"/x") ($"b") ($"d/x"); FUpload ($"/y") ($"b") ($"d/y"); FDownload ($"b") ($"o") ($"/o")].



(** Keys are not encoded in the URL: uploading to [a?b] replaces the object [a], and a move
    then deletes the file. *)
Example fast_upload_question_mark :
  let '(os, w') := run_transfers (fast_cfg true) [FUpload ($"/x") ($"b") ($"o?1")] (fast_world 0) in
  forallb (λ o, is_ok (o_result o)) os = true ∧ o_body <$> mem_s3 w' !! ($"b", $"o") = Some ($"ex") ∧
  mem_s3 w' !! ($"b", $"o?1") = None ∧ mem_fs w' !! ($"/x") = None.
Proof. vm_compute. by split_and!. Qed.

(** A key with a space cannot be uploaded: its URL does not parse, and that is retried. *)
Example fast_upload_space :
  forallb (λ o, is_ok (o_result o))
    (run_transfers (fast_cfg false) [FUpload ($"/x") ($"b") ($"o 1")] (fast_world 0)).1 = false.
Proof. vm_refl. Qed.
